(* ===== verification/_CoqProject ===== *)
-Q . S2P
Prelude.v
Types.v
GoNum.v
Cache.v
CacheSpec.v
CacheRefine.v
CacheProps.v
Detection.v
DetectionLemmas.v
DetectionProps.v
DetectionConc.v
Policy.v
Owner.v
Remediation.v
RemediationProps.v
RemediationConc.v
RemediationBudget.v
Action.v
ActionProps.v
GoText.v
GoTime.v
TaskQueue.v
TaskSystem.v
TaskQueueProps.v
TaskJanitor.v
TaskLife.v
TaskType.v
Metrics.v
MetricsProps.v
TaskEvents.v
Modes.v
CRDLoader.v
Watch.v
Config.v
Monitor.v
MonitorProps.v
MonitorRun.v
Health.v
Pipeline.v
PipelineProps.v
LifeCycle.v
Startup.v
Process.v
ProcessProps.v
EndToEnd.v
System.v
GoHeap.v
APITypes.v
DeepCopy.v
Service.v
Clients.v
