(* ===== verification/Prelude.v ===== *)
(** * The self-healing operator

    A verification of the core of ariadna-self-healing, a Kubernetes operator
    written in Go: monitors turn changes of pods and log records into detection
    inputs, the detection engine evaluates scenarios (CEL expressions with
    thresholds) on them, the remediation controller decides which detections
    to act on, and actions change the cluster, either directly (standalone) or
    through RemediationTask objects that the leader publishes and workers claim.

    ** The files

    - [Prelude] (this file): Go's integers with their wrap-around, times and
      durations, outcomes ([Ret], [Panic], [Hang]) and errors ([Ok], [Err]),
      buffered channels with non-blocking sends, [sort.Slice] as a class with
      its documented promise, generic lemmas and automation.
    - [GoNum], [GoText], [GoTime]: what the program uses of strconv, float64
      conversions and math.Ceil (on the Standard Library's [spec_float]), of
      UTF-8 decoding, strings.ToLower, Trim and TrimSpace, and of
      time.ParseDuration.
    - [Types]: internal/types/types.go, the records the layers exchange and the
      keys of their state.
    - [Cache], [CacheSpec], [CacheRefine], [CacheProps]: internal/cache/cache.go.
      [Cache] has the pointer structure of the code (heap of entries, map of
      list elements, element order); [CacheSpec] is the contract, a cache on a
      list of entries, with the representation predicate and the eviction
      arithmetic; [CacheRefine] proves each operation against it.
    - [Detection], [DetectionLemmas], [DetectionProps]: internal/detection
      (engine.go, cel_evaluator.go).  One function per method; [step] is the
      engine as a labelled transition system in which inputs, single
      evaluations, cleanups, reloads and receives interleave.
      [DetectionConc] takes handleMatch apart into its reads and assignments
      through the pointer to a record, with the cleanup goroutine and the
      receiver in between.
    - [Policy]: internal/policy/policy.go and the PolicyChecker interface as a
      record of operations with the law the controller relies on.
    - [Owner]: internal/remediation/owner_resolver.go and the OwnerResolver
      interface, likewise.
    - [Remediation], [RemediationProps]: internal/remediation/controller.go
      against these two interfaces; [rstep] is the controller as a transition
      system, every reading of the clock is explicit.  [RemediationConc]
      interleaves the single reads and writes of processResult with those of
      the cleanup; [RemediationBudget] counts attempts there.
    - [Action], [ActionProps]: internal/action (executor.go, handlers.go), with a
      client or without one.
    - [TaskQueue], [TaskSystem], [TaskQueueProps], [TaskJanitor], [TaskLife],
      [TaskType]: internal/taskqueue.  [TaskQueue] has publisher, worker and
      janitor over a class [TaskClient]; [TaskSystem] states what the API server
      promises (optimistic concurrency, class [TaskServer]), has an instance
      that keeps the promises, and any number of components on one server as a
      transition system; [TaskLife] adds a server that answers (class
      [HealthyServer]) and follows one task to its end, [TaskType] says what a
      stored task looks like in each phase.
    - [Metrics], [MetricsProps]: internal/metrics/metrics.go, its collectors and
      their registration, and the gauges the janitor sets.
    - [TaskEvents]: what worker and janitor report, the increments of their
      counters and the Kubernetes events, next to what they do; the janitor's
      loop and the worker's readiness.
    - [Modes]: an action as the controller carries it out itself and as a worker
      carries it out from a task, from the same executor and handlers.
    - [CRDLoader]: internal/crdloader/loader.go; [Watch]: its watch loop and that
      of the worker, session by session; [Config]: the defaults, flag overrides
      and validation of internal/config/config.go and main.go.
    - [Monitor], [MonitorProps]: internal/monitor; [MonitorRun]: Run, Stop and
      Ready of its two monitors, and Run of the health server, as transition
      systems; [Health]: the checks and answers of internal/health.
    - [Pipeline], [PipelineProps]: the wiring of internal/pipeline/pipeline.go
      and the probes of cmd/operator/main.go; [LifeCycle]: the goroutines of
      Run, the loops, the watcher and Shutdown as an executable transition
      system, in which a busy loop may send whether or not its data makes it:
      it has more runs than the program and serves safety properties.
    - [Startup]: cmd/operator/main.go up to the validated configuration, with
      config.Load and the writers behind the print modes; [Process],
      [ProcessProps]: the rest of main, that is the roles of a process, the
      callbacks of leader election, the worker, signals, shutdown and exit,
      around [LifeCycle].
    - [EndToEnd]: the layers in sequence.  [System]: the goroutines of [LifeCycle]
      together with the data of the engine and the controller, as one transition
      system that projects onto those of the layers; what may happen, such as a
      crash, is shown there.
    - [Service]: Run, Stop, Ready and the cleanup goroutine that engine and
      controller have in common, with channels that others close and handlings
      that panic.  [Clients]: the configurations and clients of
      the program, and what a pipeline is wired with that is built from them.
    - [GoHeap], [APITypes], [DeepCopy]: api/v1alpha1.  [GoHeap] has pointers,
      slices and maps in memory, what can be seen through a value, and the idioms
      of copying; [APITypes] every struct of the API; [DeepCopy] the functions of
      zz_generated.deepcopy.go.

    A Go function keeps its name; a helper that is one statement or loop of it
    is named for what it does.  Mutable fields are the fields of a record that
    the functions pass along, a method that returns an error returns a
    [result], one that may panic or loop an [outcome].  Reads of the clock,
    identifiers and the order in which Go ranges over a map or a scheduler
    picks a goroutine are arguments, and the theorems hold for all of them.

    ** What the theorems show

    - The cache refines its contract on every sequence of operations, stays
      within its limits and evicts as little as possible.
    - The engine keeps its invariant under every interleaving, counts matches
      as the reference that cuts time into windows, fires once for a record,
      does not depend on the order of its scenario map, and matches exactly
      the inputs the filters and the expression accept.  A match is atomic
      although its assignments are not, as long as no cleanup would expire a
      record of the input's own time.
    - The controller keeps attempts for one scenario and resource a cooldown
      apart and within the retry budget, both in every interleaving of its
      unlocked writes with the cleanup - the budget is renewed after half an hour
      without an attempt - runs actions in order up to the first
      failure, and touches nothing when a policy, a cooldown or a dry run says
      so; policies present at start-up stop a wired standalone operator.
    - The handlers' arithmetic, retries and error reports; the executor's
      status and error always agree, and on which actions it panics, with a
      client and without one.
    - A task is claimed at most once in a system of any number of components
      with arbitrarily stale reads, keeps its shape and specification, and its
      phase never goes back - no task is retried, whatever the comments on its
      type say.  On a server that answers, a published task that
      a worker claims ends with its actions run in order, one whose worker died
      is expired and removed; a sweep that nobody disturbs between its listing
      and its writes reports what it does and sets the gauges to what it leaves.
      Publishing and reading back.
    - Standalone and queue mode run the same actions with the same effect on the
      cluster as long as the target of an action is the owner; the counters and
      events of worker and janitor say what happened.
    - The watches: which tasks a worker takes up, and when the scenarios catch
      up with the libraries.
    - Loading, validation, wiring, monitors and probes do what they state; a
      pod change that a scenario accepts leads to an attempt.
    - Copies of API objects are deep: they show the same and share nothing.
    - Engine and controller stop when they are told to, or panic where a message
      is handled; what a pipeline is wired with follows from what the cluster answers, that it is built does not.
    - The life cycle: monitors start once, a drained pipeline shuts down
      without a panic; the OTLP servers are started and
      shut down at most once.
    - The whole pipeline: a change of the cluster has a cause, an input that an
      enabled scenario accepts and no policy excludes; the layers work off what
      they have in a bounded number of steps; a shutdown while the engine is about
      to send crashes the process, and with an executor that does not panic only
      a send on a channel that Shutdown has closed does.
    - The process: what a command line leads to, a pipeline only where one may
      run, and a shutdown that ends within a bounded number of steps.
    Some theorems record behaviour that its authors may not have meant: the
    eviction loop without entries, results lost on a full channel, the choice
    of the rollback revision, flags that override the file, tasks that were
    pending before a worker lists, a restart of an owned pod that fails through
    the queue, signals that a follower ignores, an exit that
    overtakes the shutdown of a leader, labels and readiness that outlive what
    they stand for.

    ** Bounds and fuel

    Integers wrap at 64 or 32 bits; theorems that need the absence of overflow
    say so.  Only the cache's eviction loops need fuel - one more than the number
    of entries is enough, which the refinement theorem includes, and without
    entries allowed no fuel is - and reading a duration, where the length of
    the text is enough (lemma [read_components_fuel]).  Decoding text recurses
    on its bytes, adjusting limits on its three tries.

    ** Parameters

    cel-go ([CELEnv]), the Kubernetes client and quantities ([KubeClient],
    [QuantityLib]), label selectors ([LabelEnv]), reads of owners
    ([OwnerClient]), the API server's tasks ([TaskClient], [TaskServer]),
    monitored objects, JSON and telemetry ([MonitorEnv]), the types of
    apimachinery with their deep copies ([MetaTypes], [MetaSeen], [MetaV1],
    [MetaLaws]), the order of a range over a map ([MapRange]), the configurations
    and constructors of client-go ([access]), the Prometheus client
    ([PromClient], [PromLaws]), the YAML library and the file system, the
    collector's HTTP defaults and validation, formatting of times and floats,
    and conversions of floats out of range.  What client-go's leader election,
    the informers and the servers do is in the labels of the transition systems.

    ** What is simplified, and what is left out

    Each handler of a message is one step in [Detection] and [Remediation];
    [DetectionConc] shows that this loses nothing in the engine but for a cleanup
    that is late relative to the input's timestamp (and by an example that it
    does then), and
    [RemediationConc] and [RemediationBudget] prove cooldown and budget again
    without it, for a single action as the smallest step.  The operations of the cache run under its
    mutex.  The controller sorts the actions of a result in place, which the
    scenario shares; the model sorts a copy, and the theorems speak of
    arrangements of the recommended actions only.  A version of the API server
    is a number, and the watch delivers what its protocol documents.  The
    deadline of an action is an argument of the executor, which is a parameter of
    the controller.  In [System] an engine evaluates a scenario, and a controller a
    result, in one step, and the executor does not panic; [Service] has it panic
    at will.  [Modes] compares runs in which no handler panics.  A sweep of the
    janitor is one step.
    A deep copy fills an array or a map before it appears in memory, and what it
    leaves in its target is its result; pointers into the middle of a struct do
    not occur.  [TypeMeta] and durations of apimachinery refer to no memory.
    [Service] lets a message be handled in one step and bounds no channel.  The
    answers for one client are constant while it is created.
    Logging, the declared but never updated metrics beyond their registration,
    the creation of the expression environment and the encodings of JSON and YAML
    are not modelled; cmd/otel-sender is a demo and no part of the operator. *)

From stdpp Require Export base tactics list gmap strings pretty numbers sorting.
From Stdlib Require Export ZArith Lia.

#[global] Open Scope Z_scope.

(** * Machine integers

    A Go [int], [int64] or [time.Duration] is a [Z] kept in the signed
    64-bit range, an [int32] a [Z] kept in the signed 32-bit range.  Go's
    arithmetic wraps around; [wrap w] is the representative of its argument
    in the signed [w]-bit range. *)

Definition wrap (w z : Z) : Z := (z + 2 ^ (w - 1)) mod 2 ^ w - 2 ^ (w - 1).

Definition fits (w z : Z) : Prop := - 2 ^ (w - 1) <= z < 2 ^ (w - 1).

Declare Scope go_scope.
Delimit Scope go_scope with go.
Notation "'i64' z" := (wrap 64 z) (at level 9, z at level 9) : go_scope.
Notation "'i32' z" := (wrap 32 z) (at level 9, z at level 9) : go_scope.
Open Scope go_scope.

Lemma pow2_half w : 0 < w -> 2 ^ w = 2 * 2 ^ (w - 1).
Proof.
  intros Hw. replace w with (Z.succ (w - 1)) at 1 by lia.
  rewrite Z.pow_succ_r by lia. done.
Qed.

Lemma pow2_pos w : 0 <= w -> 0 < 2 ^ w.
Proof. intros. apply Z.pow_pos_nonneg; lia. Qed.

Lemma wrap_small w z : 0 < w -> fits w z -> wrap w z = z.
Proof.
  unfold wrap, fits. intros Hw [Hlo Hhi]. pose proof (pow2_half w Hw).
  rewrite Z.mod_small; lia.
Qed.

Lemma wrap_fits w z : 0 < w -> fits w (wrap w z).
Proof.
  unfold wrap, fits. intros Hw. pose proof (pow2_half w Hw).
  pose proof (pow2_pos w ltac:(lia)).
  pose proof (Z.mod_pos_bound (z + 2 ^ (w - 1)) (2 ^ w)). lia.
Qed.

Lemma wrap_add_l w a b : wrap w (wrap w a + b) = wrap w (a + b).
Proof.
  unfold wrap. f_equal.
  replace ((a + 2 ^ (w - 1)) mod 2 ^ w - 2 ^ (w - 1) + b + 2 ^ (w - 1))
    with ((a + 2 ^ (w - 1)) mod 2 ^ w + b) by lia.
  rewrite Zplus_mod_idemp_l. f_equal. lia.
Qed.

Lemma wrap_add_r w a b : wrap w (a + wrap w b) = wrap w (a + b).
Proof. by rewrite Z.add_comm, wrap_add_l, (Z.add_comm b a). Qed.

Lemma wrap_sub_l w a b : wrap w (wrap w a - b) = wrap w (a - b).
Proof. rewrite <- !Z.add_opp_r. apply wrap_add_l. Qed.

Lemma wrap_idem w z : wrap w (wrap w z) = wrap w z.
Proof. pose proof (wrap_add_l w z 0) as H. by rewrite !Z.add_0_r in H. Qed.

Create Rewrite HintDb wrapdb.
#[export] Hint Rewrite wrap_add_l wrap_add_r wrap_sub_l wrap_idem : wrapdb.

(** [wrap_done] removes the wrap-around of values known to be in range. *)
Ltac wrap_done :=
  repeat rewrite wrap_small by (try lia; unfold fits in *; simpl in *; lia).

(** * Time

    A [time.Time] is the number of nanoseconds since Go's zero time, so the
    zero value of the type is [0].  [time_sub] saturates at the ends of the
    [Duration] range as [Time.Sub] does. *)

Abbreviation time := Z (only parsing).
Abbreviation duration := Z (only parsing).

Definition minDuration : duration := - 2 ^ 63.
Definition maxDuration : duration := 2 ^ 63 - 1.

Definition zero_time : time := 0.
Definition time_IsZero (t : time) : bool := t =? 0.
Definition time_Before (t u : time) : bool := t <? u.
Definition time_After (t u : time) : bool := u <? t.
Definition time_Add (t : time) (d : duration) : time := t + d.
Definition time_Sub (t u : time) : duration :=
  Z.max minDuration (Z.min maxDuration (t - u)).

Definition Nanosecond : duration := 1.
Definition Millisecond : duration := 1000000.
Definition Second : duration := 1000 * Millisecond.
Definition Minute : duration := 60 * Second.
Definition Hour : duration := 60 * Minute.

(** A saturated difference exceeds a duration exactly when the difference does. *)
Lemma time_Sub_gt t u d :
  fits 64 d -> d < maxDuration -> (d <? time_Sub t u) = (d <? t - u).
Proof.
  unfold fits, time_Sub, minDuration, maxDuration. simpl. intros Hd Hmax.
  apply eq_true_iff_eq. rewrite !Z.ltb_lt. lia.
Qed.

(** * Outcomes

    [Ret] is a normal return, [Panic] a run-time panic (a nil dereference, a
    send on a closed channel) and [Hang] a loop that has used up its fuel. *)

Inductive outcome (A : Type) :=
  | Ret (a : A)
  | Panic
  | Hang.
Arguments Ret {A} a.
Arguments Panic {A}.
Arguments Hang {A}.

#[export] Instance outcome_ret : MRet outcome := @Ret.
#[export] Instance outcome_bind : MBind outcome :=
  fun A B f m => match m with Ret a => f a | Panic => Panic | Hang => Hang end.

Definition from_option_or_panic {A} (o : option A) : outcome A :=
  match o with Some a => Ret a | None => Panic end.

Lemma outcome_bind_assoc {A B C} (m : outcome A) (f : A -> outcome B) (g : B -> outcome C) :
  (m ≫= f) ≫= g = m ≫= (fun a => f a ≫= g).
Proof. destruct m; done. Qed.

(** A Go function that returns [(T, error)]: the error is its message. *)
Inductive result (A : Type) :=
  | Ok (a : A)
  | Err (msg : string).
Arguments Ok {A} a.
Arguments Err {A} msg.

#[export] Instance result_ret : MRet result := @Ok.
#[export] Instance result_bind : MBind result :=
  fun A B f m => match m with Ok a => f a | Err e => Err e end.

Definition is_ok {A} (r : result A) : bool :=
  match r with Ok _ => true | Err _ => false end.

#[export] Instance result_eq_dec {A} `{EqDecision A} : EqDecision (result A).
Proof. solve_decision. Defined.

(** * Buffered channels

    A buffered channel as the pipeline uses it: the sends of the program are
    all [select { case ch <- v: ... default: ... }], which appends when the
    buffer has room and drops otherwise. *)

Record chan (A : Type) := Chan {
  ch_buf : list A;
  ch_cap : nat;
}.
Arguments Chan {A} ch_buf ch_cap.
Arguments ch_buf {A} c.
Arguments ch_cap {A} c.

Definition try_send {A} (c : chan A) (v : A) : chan A * bool :=
  if decide (length (ch_buf c) < ch_cap c)%nat
  then (Chan (ch_buf c ++ [v]) (ch_cap c), true)
  else (c, false).

Definition chan_recv {A} (c : chan A) : option (A * chan A) :=
  match ch_buf c with
  | [] => None
  | v :: rest => Some (v, Chan rest (ch_cap c))
  end.

Definition chan_ok {A} (c : chan A) : Prop := (length (ch_buf c) <= ch_cap c)%nat.

Lemma try_send_ok {A} (c : chan A) v : chan_ok c -> chan_ok (try_send c v).1.
Proof.
  unfold chan_ok, try_send. intros. case_decide; simpl; [|done].
  rewrite length_app; simpl. lia.
Qed.

Lemma try_send_room {A} (c : chan A) v :
  (length (ch_buf c) < ch_cap c)%nat ->
  try_send c v = (Chan (ch_buf c ++ [v]) (ch_cap c), true).
Proof. intros. unfold try_send. by rewrite decide_True. Qed.

Lemma try_send_full {A} (c : chan A) v :
  (ch_cap c <= length (ch_buf c))%nat -> try_send c v = (c, false).
Proof. intros. unfold try_send. rewrite decide_False by lia. done. Qed.

(** A non-blocking send only ever appends, and never reorders. *)
Lemma try_send_prefix {A} (c : chan A) v : ch_buf c `prefix_of` ch_buf (try_send c v).1.
Proof. unfold try_send. case_decide; simpl; [by exists [v] | done]. Qed.

(** A run of non-blocking sends delivers what fits, in order, and drops the rest. *)
Definition try_sends {A} (c : chan A) (vs : list A) : chan A :=
  foldl (fun c v => (try_send c v).1) c vs.

Lemma try_sends_take {A} (vs : list A) (c : chan A) :
  chan_ok c ->
  try_sends c vs = Chan (ch_buf c ++ take (ch_cap c - length (ch_buf c))%nat vs) (ch_cap c).
Proof.
  unfold chan_ok, try_sends. revert c. induction vs as [|v vs IH]; intros [buf cap] Hc; cbn [foldl ch_buf ch_cap] in *.
  - by rewrite take_nil, app_nil_r.
  - destruct (decide (length buf < cap)%nat) as [Hl|Hl].
    + rewrite try_send_room by done. cbn [fst]. rewrite IH; cbn [ch_buf ch_cap]; rewrite length_app; cbn [length]; [|lia].
      replace (cap - length buf)%nat with (S (cap - (length buf + 1)))%nat by lia.
      cbn [take]. by rewrite <- app_assoc.
    + rewrite try_send_full by (cbn; lia). cbn [fst]. rewrite IH by done. cbn [ch_buf ch_cap].
      replace (cap - length buf)%nat with 0%nat by lia. done.
Qed.

Create HintDb chandb.
#[export] Hint Resolve try_send_ok try_send_prefix : chandb.

(** * [sort.Slice]

    The program sorts with [sort.Slice] and a comparison of integer keys.
    The documentation promises a permutation of the slice in which the key
    never decreases, and no stability; [SliceSort] is that promise. *)

Definition sorted_by {A} (key : A -> Z) (l : list A) : Prop :=
  Sorted (fun x y => key x <= key y) l.

Class SliceSort (A : Type) (key : A -> Z) := {
  slice_sort : list A -> list A;
  slice_sort_perm l : slice_sort l ≡ₚ l;
  slice_sort_sorted l : sorted_by key (slice_sort l);
}.
Arguments slice_sort {A} key {_} l.
Arguments slice_sort_perm {A} key {_} l.
Arguments slice_sort_sorted {A} key {_} l.

Section insertion.
Context {A : Type} (key : A -> Z).

Fixpoint insert_by (x : A) (l : list A) : list A :=
  match l with
  | [] => [x]
  | y :: l' => if key x <=? key y then x :: l else y :: insert_by x l'
  end.

Fixpoint insertion_sort (l : list A) : list A :=
  match l with
  | [] => []
  | x :: l' => insert_by x (insertion_sort l')
  end.

Lemma insert_by_perm x l : insert_by x l ≡ₚ x :: l.
Proof.
  induction l as [|y l IH]; simpl; [done|].
  case_match; [done|]. rewrite IH. apply perm_swap.
Qed.

Lemma insertion_sort_perm l : insertion_sort l ≡ₚ l.
Proof. induction l as [|x l IH]; simpl; [done|]. by rewrite insert_by_perm, IH. Qed.

Lemma insert_by_hd y x l :
  key y <= key x -> HdRel (fun a b => key a <= key b) y l ->
  HdRel (fun a b => key a <= key b) y (insert_by x l).
Proof. intros Hx Hl. destruct l; simpl; [auto|]. case_match; inversion Hl; auto. Qed.

Lemma insert_by_sorted x l : sorted_by key l -> sorted_by key (insert_by x l).
Proof.
  unfold sorted_by. induction 1 as [|y l Hs IH Hhd]; simpl; [auto|].
  case_match eqn:E; [apply Z.leb_le in E; auto|].
  apply Z.leb_gt in E. constructor; [done|]. apply insert_by_hd; [lia|done].
Qed.

Lemma insertion_sort_sorted l : sorted_by key (insertion_sort l).
Proof. induction l; simpl; [constructor|]. by apply insert_by_sorted. Qed.
End insertion.

(** Insertion sort, what [sort.Slice] runs on short slices, keeps the promise. *)
Definition insertion_SliceSort {A} (key : A -> Z) : SliceSort A key := {|
  slice_sort := insertion_sort key;
  slice_sort_perm := insertion_sort_perm key;
  slice_sort_sorted := insertion_sort_sorted key;
|}.

(** With distinct keys there is one sorted arrangement only. *)
Lemma sorted_by_unique {A} (key : A -> Z) l1 l2 :
  sorted_by key l1 -> sorted_by key l2 -> l1 ≡ₚ l2 -> NoDup (key <$> l1) -> l1 = l2.
Proof.
  unfold sorted_by. intros H1%Sorted_StronglySorted H2%Sorted_StronglySorted; [|intros x y z; lia..].
  revert l2 H2. induction H1 as [|x l1 H1 IH Hx]; intros l2 H2 HP Hnd.
  { by apply Permutation_nil_l in HP. }
  destruct H2 as [|y l2 H2 Hy]; [by apply Permutation_sym, Permutation_nil_cons in HP|].
  rewrite fmap_cons, NoDup_cons in Hnd. destruct Hnd as [Hn Hnd].
  assert (x = y) as <-.
  { assert (y ∈ x :: l1) as Hin by (rewrite HP; by left). assert (x ∈ y :: l2) as Hin2 by (rewrite <- HP; by left).
    apply elem_of_cons in Hin as [->|Hin]; [done|]. apply elem_of_cons in Hin2 as [->|Hin2]; [done|].
    rewrite Forall_forall in Hx, Hy. specialize (Hx y Hin). specialize (Hy x Hin2). exfalso. apply Hn.
    assert (key x = key y) as -> by (cbn in *; lia). by apply list_elem_of_fmap_2. }
  f_equal. apply IH; [done| |done]. by apply Permutation_cons_inv in HP.
Qed.

(** * Lists and maps *)

Definition sumZ (l : list Z) : Z := foldr Z.add 0 l.

Lemma sumZ_app l1 l2 : sumZ (l1 ++ l2) = sumZ l1 + sumZ l2.
Proof. induction l1; simpl; lia. Qed.

Lemma sumZ_perm l1 l2 : l1 ≡ₚ l2 -> sumZ l1 = sumZ l2.
Proof. induction 1; simpl; lia. Qed.

#[export] Instance sumZ_Proper : Proper ((≡ₚ) ==> (=)) sumZ.
Proof. intros l1 l2. apply sumZ_perm. Qed.

Lemma sumZ_nonneg l : Forall (fun z => 0 <= z) l -> 0 <= sumZ l.
Proof. induction 1; simpl; lia. Qed.

Lemma foldr_Zmax_base a b l : foldr Z.max (Z.max a b) l = Z.max a (foldr Z.max b l).
Proof. induction l as [|x l IH]; cbn [foldr]; [done|]. rewrite IH. lia. Qed.

Lemma foldr_Zmax_ge a l : a <= foldr Z.max a l.
Proof. induction l; cbn [foldr]; lia. Qed.

Lemma NoDup_fmap_filter {A B} (f : A -> B) (P : A -> Prop) `{forall x, Decision (P x)} l :
  NoDup (f <$> l) -> NoDup (f <$> filter P l).
Proof.
  induction l as [|x l IH]; [done|]. rewrite fmap_cons, NoDup_cons, filter_cons. intros [Hx Hl].
  case_decide; [|auto]. rewrite fmap_cons, NoDup_cons. split; [|auto].
  intros Hin. apply Hx. apply list_elem_of_fmap in Hin as (y & -> & Hy).
  apply list_elem_of_fmap. exists y. split; [done|]. by apply list_elem_of_filter in Hy as [_ ?].
Qed.

(** The first element that satisfies a boolean test, as a Go [for ... return]. *)
Fixpoint find_first {A} (f : A -> bool) (l : list A) : option A :=
  match l with
  | [] => None
  | x :: l' => if f x then Some x else find_first f l'
  end.

Lemma find_first_Some {A} (f : A -> bool) l x :
  find_first f l = Some x <->
  exists l1 l2, l = l1 ++ x :: l2 /\ f x = true /\ Forall (fun y => f y = false) l1.
Proof.
  induction l as [|y l IH]; simpl.
  - split; [done|]. intros (l1 & l2 & H & _). destruct l1; done.
  - destruct (f y) eqn:E.
    + split.
      * intros [= ->]. exists [], l. auto.
      * intros ([|z l1] & l2 & [= -> ->] & Hx & Hl); [done|].
        inversion Hl. congruence.
    + rewrite IH. split.
      * intros (l1 & l2 & -> & Hx & Hl). exists (y :: l1), l2. auto.
      * intros ([|z l1] & l2 & [= -> ->] & Hx & Hl); [congruence|].
        inversion Hl. eauto.
Qed.

Lemma find_first_None {A} (f : A -> bool) l :
  find_first f l = None <-> Forall (fun y => f y = false) l.
Proof.
  induction l as [|y l IH]; simpl; [done|].
  destruct (f y) eqn:E.
  - split; [done|]. inversion 1. congruence.
  - rewrite IH, Forall_cons. by split; [|intros [_ ?]].
Qed.

Lemma find_first_app {A} (f : A -> bool) l1 l2 :
  find_first f (l1 ++ l2) =
    match find_first f l1 with Some x => Some x | None => find_first f l2 end.
Proof. induction l1 as [|x l1 IH]; simpl; [done|]. by destruct (f x). Qed.

Lemma string_app_cons a (s t : string) : String a s +:+ t = String a (s +:+ t).
Proof. done. Qed.

Lemma length_string_app (s t : string) :
  String.length (s +:+ t) = (String.length s + String.length t)%nat.
Proof. induction s as [|a s IH]; [done|]. rewrite string_app_cons; simpl. by rewrite IH. Qed.

Lemma string_app_length_inv (s t : string) : String.length (s +:+ t) = String.length t -> s = "".
Proof. rewrite length_string_app. destruct s; [done|]. cbn. lia. Qed.

(** Two strings with the same tail after appending are equal in front. *)
Lemma string_app_inv_r (s1 s2 t : string) : s1 +:+ t = s2 +:+ t -> s1 = s2.
Proof.
  revert s2. induction s1 as [|a s1 IH]; intros [|b s2] H; [done| | |]; rewrite ?string_app_cons in H.
  - symmetry. apply (string_app_length_inv _ t).
    rewrite string_app_cons, <- H. done.
  - apply (string_app_length_inv _ t). by rewrite string_app_cons, H.
  - injection H as -> H. f_equal. eauto.
Qed.

Lemma string_app_inv_l (s t1 t2 : string) : s +:+ t1 = s +:+ t2 -> t1 = t2.
Proof. induction s; [done|]. intros [= H]; auto. Qed.

Lemma string_app_assoc (s t u : string) : s +:+ (t +:+ u) = (s +:+ t) +:+ u.
Proof. induction s as [|a s IH]; [done|]. by rewrite !string_app_cons, IH. Qed.

(** [no_slash s]: the separator of the keys does not occur in [s]. *)
Fixpoint no_char (c : Ascii.ascii) (s : string) : bool :=
  match s with
  | EmptyString => true
  | String a s' => negb (bool_decide (a = c)) && no_char c s'
  end.
Definition slash : Ascii.ascii := Ascii.ascii_of_nat 47.
Abbreviation no_slash := (no_char slash).

(** Fields that do not contain the separator can be split off unambiguously. *)
Lemma no_char_split c s1 s2 t1 t2 :
  no_char c s1 = true -> no_char c s2 = true ->
  s1 +:+ String c t1 = s2 +:+ String c t2 -> s1 = s2 /\ t1 = t2.
Proof.
  revert s2. induction s1 as [|a s1 IH]; intros [|b s2] H1 H2 H; simpl in H1, H2; rewrite ?string_app_cons in H.
  - by injection H as ->.
  - injection H as <- _. rewrite bool_decide_true in H2 by done. done.
  - injection H as -> _. rewrite bool_decide_true in H1 by done. done.
  - injection H as -> H.
    apply andb_true_iff in H1 as [_ H1]. apply andb_true_iff in H2 as [_ H2].
    destruct (IH s2 H1 H2 H) as [-> ->]. done.
Qed.

(** [inv_ok] finishes a goal whose hypothesis equates an outcome or a result
    with an impossible one. *)
Ltac inv_ok :=
  repeat match goal with
  | H : Ret _ = Ret _ |- _ => injection H as H; try subst
  | H : Ok _ = Ok _ |- _ => injection H as H; try subst
  | H : Ret _ = Panic |- _ => discriminate H
  | H : Ret _ = Hang |- _ => discriminate H
  | H : Panic = Ret _ |- _ => discriminate H
  | H : Hang = Ret _ |- _ => discriminate H
  | H : Ok _ = Err _ |- _ => discriminate H
  | H : Err _ = Ok _ |- _ => discriminate H
  end.

(** [case_matches E] opens the matches of a step function in [E], dropping the
    branches that cannot be taken; [split_bools] turns boolean guards into
    propositions. *)
Ltac case_matches E :=
  repeat match type of E with
  | context [match ?x with _ => _ end] => let G := fresh "G" in destruct x eqn:G; try discriminate E
  end.

Ltac split_bools :=
  repeat match goal with
  | H : _ && _ = true |- _ => apply andb_true_iff in H as [? ?]
  | H : negb _ = true |- _ => apply negb_true_iff in H
  | H : _ && _ = false |- _ => apply andb_false_iff in H as [?|?]
  | H : negb _ = false |- _ => apply negb_false_iff in H
  | H : bool_decide _ = true |- _ => apply bool_decide_eq_true in H
  | H : bool_decide _ = false |- _ => apply bool_decide_eq_false in H
  end.
