(* ===== verification/Types.v ===== *)
(** The data exchanged by the layers of the pipeline (internal/types/types.go)
    and the keys under which their state is stored. *)

From Stdlib Require Export SpecFloat.
From S2P Require Import Prelude.

(** * Resource references *)

Record ResourceReference := mkRef {
  APIVersion : string;
  Kind : string;
  Namespace : string;
  Name : string;
  UID : string;
}.

#[export] Instance ResourceReference_eq_dec : EqDecision ResourceReference.
Proof. solve_decision. Defined.

Definition ResourceReference_String (r : ResourceReference) : string :=
  if decide (Namespace r = "") then Name r
  else Namespace r +:+ "/" +:+ Name r.

Definition Key (r : ResourceReference) : string :=
  Kind r +:+ "/" +:+ Namespace r +:+ "/" +:+ Name r.

Definition StateKey (scenarioID : string) (resource : ResourceReference) : string :=
  scenarioID +:+ "/" +:+ Key resource.

(** * Enumerations of strings *)

Definition DetectionSourceKubernetes : string := "kubernetes".
Definition DetectionSourceOTel : string := "otel".

Inductive Severity :=
  | SeverityLow
  | SeverityMedium
  | SeverityHigh
  | SeverityCritical.

#[export] Instance Severity_eq_dec : EqDecision Severity.
Proof. solve_decision. Defined.

Definition severity_string (s : Severity) : string :=
  match s with
  | SeverityLow => "low"
  | SeverityMedium => "medium"
  | SeverityHigh => "high"
  | SeverityCritical => "critical"
  end.

(** [ActionType] is a string type: a scenario may carry any text. *)
Definition ActionTypeScaleUp : string := "scaleUp".
Definition ActionTypeScaleDown : string := "scaleDown".
Definition ActionTypeRestartPod : string := "restartPod".
Definition ActionTypeRollbackToPrevious : string := "rollback".
Definition ActionTypeAdjustCPU : string := "adjustCPU".
Definition ActionTypeAdjustMemory : string := "adjustMemory".
Definition ActionTypeUpdateConfig : string := "updateConfig".
Definition ActionTypeRunJob : string := "runJob".
Definition ActionTypeNotify : string := "notify".

Inductive ActionStatus :=
  | ActionStatusUnset
  | ActionStatusPending
  | ActionStatusRunning
  | ActionStatusSucceeded
  | ActionStatusFailed
  | ActionStatusSkipped
  | ActionStatusDryRun.

#[export] Instance ActionStatus_eq_dec : EqDecision ActionStatus.
Proof. solve_decision. Defined.

(** * Actions *)

(** A parameter value is an [interface{}]: a scalar of Go or of decoded JSON,
    where integers are [int64] and not [int]. *)
Inductive param :=
  | PInt (n : Z)
  | PInt64 (n : Z)
  | PFloat (f : spec_float)
  | PString (s : string)
  | PBool (b : bool)
  | PNull.

#[export] Instance spec_float_eq_dec : EqDecision spec_float.
Proof. solve_decision. Defined.

#[export] Instance param_eq_dec : EqDecision param.
Proof. solve_decision. Defined.

Record ActionConfig := mkAction {
  ac_Type : string;
  ac_Order : Z;
  ac_Params : gmap string param;
}.

#[export] Instance ActionConfig_eq_dec : EqDecision ActionConfig.
Proof. solve_decision. Defined.

Record ResourceChange := mkChange {
  rc_Field : string;
  rc_OldValue : string;
  rc_NewValue : string;
}.

#[export] Instance ResourceChange_eq_dec : EqDecision ResourceChange.
Proof. solve_decision. Defined.

Record ActionResult := mkActionResult {
  ar_ID : string;
  ar_DetectionResultID : string;
  ar_ScenarioID : string;
  ar_Resource : ResourceReference;
  ar_Action : ActionConfig;
  ar_Status : ActionStatus;
  ar_StartTime : Z;
  ar_EndTime : Z;
  ar_Message : string;
  ar_Error : string;
  ar_Changes : list ResourceChange;
}.

#[export] Instance ActionResult_eq_dec : EqDecision ActionResult.
Proof. solve_decision. Defined.

(** * Detection *)

(** The payload is opaque here: only the expression evaluator looks into it. *)
Record DetectionInput {Data : Type} := mkInput {
  di_ID : string;
  di_Source : string;
  di_Resource : ResourceReference;
  di_Timestamp : Z;
  di_Data : Data;
  di_Labels : gmap string string;
}.
Arguments DetectionInput : clear implicits.

Record DetectionResult := mkDetectionResult {
  dr_ID : string;
  dr_ScenarioID : string;
  dr_ScenarioName : string;
  dr_Resource : ResourceReference;
  dr_Severity : Severity;
  dr_FirstDetected : Z;
  dr_LastDetected : Z;
  dr_DetectionCount : Z;
  dr_ThresholdMet : bool;
  dr_Message : string;
  dr_RecommendedActions : list ActionConfig;
}.

Record DetectionState := mkDetectionState {
  ds_ScenarioID : string;
  ds_Resource : ResourceReference;
  ds_FirstDetected : Z;
  ds_LastDetected : Z;
  ds_DetectionCount : Z;
  ds_ThresholdMet : bool;
  ds_WindowStart : Z;
}.

Record RemediationState := mkRemediationState {
  rs_ScenarioID : string;
  rs_Resource : ResourceReference;
  rs_LastRemediation : Z;
  rs_RemediationCount : Z;
  rs_CooldownUntil : Z;
  rs_Escalated : bool;
  rs_LastActionStatus : ActionStatus;
}.

Record OwnerInfo := mkOwnerInfo {
  ow_APIVersion : string;
  ow_Kind : string;
  ow_Name : string;
  ow_UID : string;
}.

(** An owner reference of the API carries the same four fields. *)
Definition ToOwnerReference (o : OwnerInfo) : OwnerInfo :=
  mkOwnerInfo (ow_APIVersion o) (ow_Kind o) (ow_Name o) (ow_UID o).

(** * Keys identify what they name *)

(** Kubernetes kinds and namespaces contain no slash. *)
Definition ref_ok (r : ResourceReference) : Prop :=
  no_slash (Kind r) = true /\ no_slash (Namespace r) = true.

#[export] Instance ref_ok_dec r : Decision (ref_ok r).
Proof. unfold ref_ok. apply _. Defined.

Lemma slash_app s : "/" +:+ s = String slash s.
Proof. done. Qed.

Lemma Key_inj_fields r1 r2 :
  ref_ok r1 -> ref_ok r2 -> Key r1 = Key r2 ->
  Kind r1 = Kind r2 /\ Namespace r1 = Namespace r2 /\ Name r1 = Name r2.
Proof.
  unfold ref_ok, Key. rewrite !slash_app. intros [HK1 HN1] [HK2 HN2] H.
  apply no_char_split in H as [HK H]; [|done..].
  apply no_char_split in H as [HN H]; done.
Qed.

Lemma StateKey_fields id1 id2 r1 r2 :
  no_slash id1 = true -> no_slash id2 = true -> ref_ok r1 -> ref_ok r2 ->
  StateKey id1 r1 = StateKey id2 r2 ->
  id1 = id2 /\ Kind r1 = Kind r2 /\ Namespace r1 = Namespace r2 /\ Name r1 = Name r2.
Proof.
  unfold StateKey. rewrite !slash_app. intros H1 H2 Hr1 Hr2 H.
  apply no_char_split in H as [-> H]; [|done..].
  split; [done|]. by apply Key_inj_fields.
Qed.

(** For one resource the scenario identifier alone separates the keys,
    whatever characters it contains. *)
Lemma StateKey_inj_id id1 id2 r : StateKey id1 r = StateKey id2 r -> id1 = id2.
Proof. unfold StateKey. apply string_app_inv_r. Qed.

#[export] Instance StateKey_Inj r : Inj (=) (=) (fun id => StateKey id r).
Proof. intros id1 id2. apply StateKey_inj_id. Qed.

(** * Properties *)

(** The state key under which the detection and the remediation layer keep
    their records names one scenario and one logical resource: two keys built
    from slash-free scenario identifiers, kinds and namespaces are equal
    exactly when the identifiers, kinds, namespaces and names are. *)
Theorem StateKey_identifies id1 id2 r1 r2 :
  no_slash id1 = true -> no_slash id2 = true -> ref_ok r1 -> ref_ok r2 ->
  StateKey id1 r1 = StateKey id2 r2 <->
  id1 = id2 /\ Kind r1 = Kind r2 /\ Namespace r1 = Namespace r2 /\ Name r1 = Name r2.
Proof.
  intros H1 H2 Hr1 Hr2. split; [by apply StateKey_fields|].
  unfold StateKey, Key. by intros (-> & -> & -> & ->).
Qed.

Lemma StateKey_identifies_witness :
  let r := mkRef "v1" "Pod" "prod" "web/0" "u1" in
  StateKey "S1" r <> StateKey "S2" r.
Proof.
  intros r H.
  apply StateKey_identifies in H as [H _]; [|by vm_compute..].
  discriminate H.
Defined.
