(* ===== verification/GoNum.v ===== *)
(** The conversions of Go's standard library that the handlers use: decimal
    parsing ([strconv]), float64 arithmetic on IEEE numbers ([SpecFloat], 53
    bits of precision) and the conversions between floats and integers. *)

From Stdlib Require Export SpecFloat.
From S2P Require Import Prelude.

(** * Decimal digits *)

Definition digit_value (c : Ascii.ascii) : option Z :=
  let n := Z.of_nat (Ascii.nat_of_ascii c) in
  if (48 <=? n) && (n <=? 57) then Some (n - 48) else None.

(** The longest prefix of digits: value accumulated, number read, the rest. *)
Fixpoint read_digits (acc : Z) (n : nat) (s : string) : Z * nat * string :=
  match s with
  | String c s' =>
    match digit_value c with
    | Some d => read_digits (10 * acc + d) (S n) s'
    | None => (acc, n, s)
    end
  | EmptyString => (acc, n, s)
  end.

Definition is_char (code : nat) (c : Ascii.ascii) : bool := Nat.eqb (Ascii.nat_of_ascii c) code.

(** An optional sign: [true] for minus. *)
Definition read_sign (s : string) : bool * string :=
  match s with
  | String c s' => if is_char 43 c then (false, s') else if is_char 45 c then (true, s') else (false, s)
  | EmptyString => (false, s)
  end.

(** [strconv.ParseInt(s, 10, 64)]: the value returned, and whether the error is
    nil.  A syntax error returns 0, a range error the nearest bound. *)
Definition ParseInt (s : string) : Z * bool :=
  let '(neg, s1) := read_sign s in
  let '(v, n, rest) := read_digits 0 0 s1 in
  if bool_decide (rest = "") && negb (Nat.eqb n 0) then
    let v := if neg then - v else v in
    if v <? - 2 ^ 63 then (- 2 ^ 63, false)
    else if 2 ^ 63 - 1 <? v then (2 ^ 63 - 1, false)
    else (v, true)
  else (0, false).

(** [strconv.Atoi] *)
Definition Atoi (s : string) : option Z :=
  match ParseInt s with (v, true) => Some v | (_, false) => None end.

(** * float64 *)

Definition float64_of_int (z : Z) : spec_float := binary_normalize 53 1024 z 0 false.
Definition f64_mul (x y : spec_float) : spec_float := SFmul 53 1024 x y.
Definition f64_div (x y : spec_float) : spec_float := SFdiv 53 1024 x y.

Definition cond_opp (s : bool) (z : Z) : Z := if s then - z else z.

(** [math.Ceil] *)
Definition Ceil (x : spec_float) : spec_float :=
  match x with
  | S754_finite s m e =>
    if 0 <=? e then x
    else let q := - ((- cond_opp s (Zpos m)) / 2 ^ (- e)) in
         if q =? 0 then S754_zero s else float64_of_int q
  | _ => x
  end.

(** The integer part, of a finite number. *)
Definition truncate (x : spec_float) : option Z :=
  match x with
  | S754_zero _ => Some 0
  | S754_finite s m e =>
    Some (cond_opp s (if 0 <=? e then Zpos m * 2 ^ e else Zpos m / 2 ^ (- e)))
  | _ => None
  end.

(** [intw(x)]: when the value does not fit, Go leaves the result to the
    implementation, [cvt]. *)
Definition int_of_float (cvt : Z -> spec_float -> Z) (w : Z) (x : spec_float) : Z :=
  match truncate x with
  | Some z => if (- 2 ^ (w - 1) <=? z) && (z <? 2 ^ (w - 1)) then z else cvt w x
  | None => cvt w x
  end.

(** The float nearest to [m * 10 ^ e]. *)
Definition decimal_float (neg : bool) (m e : Z) : spec_float :=
  match m with
  | Zpos p =>
    if 0 <=? e then f64_div (S754_finite neg (p * Z.to_pos (10 ^ e)) 0) (S754_finite false 1 0)
    else f64_div (S754_finite neg p 0) (S754_finite false (Z.to_pos (10 ^ (- e))) 0)
  | _ => S754_zero neg
  end.

Definition lower_ascii (c : Ascii.ascii) : Ascii.ascii :=
  let n := Ascii.nat_of_ascii c in
  if (Nat.leb 65 n && Nat.leb n 90)%bool then Ascii.ascii_of_nat (n + 32) else c.

(** ASCII lower case. *)
Fixpoint lower (s : string) : string :=
  match s with EmptyString => EmptyString | String c s => String (lower_ascii c) (lower s) end.

(** The optional exponent at the end of a decimal number. *)
Definition read_exponent (s : string) : option Z :=
  match s with
  | EmptyString => Some 0
  | String c s' =>
    if is_char 101 (lower_ascii c) then
      let '(neg, s2) := read_sign s' in
      let '(v, n, rest) := read_digits 0 0 s2 in
      if bool_decide (rest = "") && negb (Nat.eqb n 0) then Some (cond_opp neg v) else None
    else None
  end.

(** A decimal number: digits with an optional point and exponent. *)
Definition parse_decimal (neg : bool) (s : string) : option spec_float :=
  let '(i, ni, s1) := read_digits 0 0 s in
  let '(m, nf, s2) := match s1 with
                      | String c s' => if is_char 46 c then read_digits i 0 s' else (i, O, s1)
                      | EmptyString => (i, O, s1)
                      end in
  if Nat.eqb (ni + nf) 0 then None
  else e ← read_exponent s2; Some (decimal_float neg m (e - Z.of_nat nf)).

(** [strconv.ParseFloat(s, 64)], [None] when the error is not nil.  Numbers in
    hexadecimal notation or with underscores between digits are left to [other]. *)
Definition ParseFloat (other : string -> option spec_float) (s : string) : option spec_float :=
  let '(neg, s1) := read_sign s in
  let l := lower s1 in
  if bool_decide (l = "inf") || bool_decide (l = "infinity") then Some (S754_infinity neg)
  else if bool_decide (lower s = "nan") then Some S754_nan
  else if bool_decide (String.substring 0 2 l = "0x") || negb (no_char (Ascii.ascii_of_nat 95) s)
  then other s
  else match parse_decimal neg s1 with
       | Some (S754_infinity _) => None
       | r => r
       end.

(** * Lemmas *)

Lemma ParseInt_fits s : fits 64 (ParseInt s).1.
Proof.
  unfold ParseInt, fits. destruct (read_sign s) as [neg s1].
  destruct (read_digits 0 0 s1) as [[v n] rest]. change (64 - 1) with 63.
  case_match; cbn [fst]; [|lia].
  destruct (_ <? _) eqn:E1; [cbn [fst]; lia|].
  destruct (2 ^ 63 - 1 <? _) eqn:E2; cbn [fst]; lia.
Qed.

Example Atoi_ex : Atoi "-12" = Some (-12) /\ Atoi "+7" = Some 7 /\ Atoi "1e3" = None /\ Atoi "" = None.
Proof. by vm_compute. Qed.

Example ParseFloat_ex :
  ParseFloat (fun _ => None) "12.5" = Some (S754_finite false (25 * 2 ^ 48) (-49)) /\
  (f ← ParseFloat (fun _ => None) "1.25e2"; truncate f) = Some 125 /\
  ParseFloat (fun _ => None) "1e400" = None /\ ParseFloat (fun _ => None) "." = None.
Proof. by vm_compute. Qed.

Example Ceil_ex :
  (f ← ParseFloat (fun _ => None) "2.1"; truncate (Ceil f)) = Some 3 /\
  (f ← ParseFloat (fun _ => None) "-2.9"; truncate (Ceil f)) = Some (-2).
Proof. by vm_compute. Qed.
