(* ===== verification/Cache.v ===== *)
(** The bounded in-memory cache (internal/cache/cache.go): a map from keys to
    list elements, a doubly-linked list of elements that holds the order, and
    the counters.

    The pointers are modelled: an element is a location of [heap], where its
    [*Entry] lives, [items] maps keys to locations and [order] is the
    [container/list] from front to back.  [Clock] readings are arguments. *)

From S2P Require Import Prelude GoNum.

Inductive EvictionPolicy := LRU | FIFO.

#[export] Instance EvictionPolicy_eq_dec : EqDecision EvictionPolicy.
Proof. solve_decision. Defined.

Record Config := mkConfig {
  MaxSize : Z;
  MaxAge : Z;
  MaxEntries : Z;
  Policy : EvictionPolicy;
}.

Definition DefaultConfig : Config := {|
  MaxSize := 50 * 1024 * 1024;
  MaxAge := 5 * Minute;
  MaxEntries := 100000;
  Policy := LRU;
|}.

Record Entry {V : Type} := mkEntry {
  e_Key : string;
  e_Value : V;
  e_Size : Z;
  e_CreatedAt : Z;
  e_AccessedAt : Z;
}.
Arguments Entry : clear implicits.
Arguments mkEntry {V}.

Abbreviation loc := positive (only parsing).

(** ** [container/list] on lists of locations, front first *)

Definition PushFront (e : loc) (l : list loc) : list loc := e :: l.
Definition PushBack (e : loc) (l : list loc) : list loc := l ++ [e].
Definition Front (l : list loc) : option loc := head l.
Definition Back (l : list loc) : option loc := last l.

Definition Remove (e : loc) (l : list loc) : list loc := filter (fun x => x <> e) l.

Definition MoveToFront (e : loc) (l : list loc) : list loc :=
  if decide (e ∈ l) then e :: Remove e l else l.

Record Cache {V : Type} := mkCache {
  config : Config;
  items : gmap string loc;
  order : list loc;
  heap : gmap loc (Entry V);
  next : loc;
  currentSize : Z;
  hits : Z;
  misses : Z;
  evictions : Z;
}.
Arguments Cache : clear implicits.
Arguments mkCache {V}.

Definition New {V} (cfg : Config) : Cache V := mkCache cfg ∅ [] ∅ 1%positive 0 0 0 0.

Section ops.
Context {V : Type}.
Implicit Types c : Cache V.
Implicit Types en : Entry V.

(** [elem.Value] is a [*Entry]: a location without an entry is a nil
    dereference. *)
Definition deref c (e : loc) : outcome (Entry V) := from_option_or_panic (heap c !! e).

Definition set_counters h m v c : Cache V :=
  mkCache (config c) (items c) (order c) (heap c) (next c) (currentSize c) h m v.

Definition set_store its ord hp nx sz c : Cache V :=
  mkCache (config c) its ord hp nx sz (hits c) (misses c) (evictions c).

Definition hit c := set_counters (i64 (hits c + 1)) (misses c) (evictions c) c.
Definition miss c := set_counters (hits c) (i64 (misses c + 1)) (evictions c) c.
Definition evicted c := set_counters (hits c) (misses c) (i64 (evictions c + 1)) c.

Definition Len c : Z := Z.of_nat (size (items c)).
Definition order_Len c : Z := Z.of_nat (length (order c)).

Definition removeElement (e : loc) c : outcome (Cache V) :=
  entry ← deref c e;
  Ret (set_store (delete (e_Key entry) (items c)) (Remove e (order c)) (heap c) (next c)
         (i64 (currentSize c - e_Size entry)) c).

Definition expired (now : Z) c en : bool :=
  MaxAge (config c) <? time_Sub now (e_CreatedAt en).

Definition touch (now : Z) en : Entry V :=
  mkEntry (e_Key en) (e_Value en) (e_Size en) (e_CreatedAt en) now.

Definition Get (key : string) (now : Z) c : outcome (Cache V * option V) :=
  match items c !! key with
  | None => Ret (miss c, None)
  | Some e =>
    entry ← deref c e;
    if expired now c entry then
      c ← removeElement e c;
      Ret (miss c, None)
    else
      let c' :=
        if decide (Policy (config c) = LRU) then
          set_store (items c) (MoveToFront e (order c)) (<[e := touch now entry]> (heap c))
            (next c) (currentSize c) c
        else c in
      Ret (hit c', Some (e_Value entry))
  end.

Definition evictOne c : outcome (Cache V) :=
  let elem := if decide (Policy (config c) = LRU) then Back (order c) else Front (order c) in
  match elem with
  | None => Ret c
  | Some e => c ← removeElement e c; Ret (evicted c)
  end.

(** [for currentSize+newSize > MaxSize && order.Len() > 0] *)
Fixpoint evict_for_size (fuel : nat) (newSize : Z) c : outcome (Cache V) :=
  match fuel with
  | O => Hang
  | S fuel =>
    if (MaxSize (config c) <? i64 (currentSize c + newSize)) && (0 <? order_Len c)
    then c ← evictOne c; evict_for_size fuel newSize c
    else Ret c
  end.

(** [for order.Len() >= MaxEntries] *)
Fixpoint evict_for_count (fuel : nat) c : outcome (Cache V) :=
  match fuel with
  | O => Hang
  | S fuel =>
    if MaxEntries (config c) <=? order_Len c
    then c ← evictOne c; evict_for_count fuel c
    else Ret c
  end.

Definition evictIfNeeded (fuel : nat) (newSize : Z) c : outcome (Cache V) :=
  c ← evict_for_size fuel newSize c;
  evict_for_count fuel c.

Definition Set_ (fuel : nat) (key : string) (value : V) (size : Z) (now : Z) c
  : outcome (Cache V) :=
  match items c !! key with
  | Some e =>
    entry ← deref c e;
    let sz := i64 (currentSize c - e_Size entry) in
    let entry' := mkEntry (e_Key entry) value size (e_CreatedAt entry) now in
    let ord := if decide (Policy (config c) = LRU) then MoveToFront e (order c) else order c in
    Ret (set_store (items c) ord (<[e := entry']> (heap c)) (next c) (i64 (sz + size)) c)
  | None =>
    c ← evictIfNeeded fuel size c;
    let entry := mkEntry key value size now now in
    let e := next c in
    let ord :=
      if decide (Policy (config c) = LRU) then PushFront e (order c) else PushBack e (order c) in
    Ret (set_store (<[key := e]> (items c)) ord (<[e := entry]> (heap c)) (Pos.succ e)
           (i64 (currentSize c + size)) c)
  end.

Definition Delete (key : string) c : outcome (Cache V) :=
  match items c !! key with
  | Some e => removeElement e c
  | None => Ret c
  end.

(** The loop of [Cleanup] saves the successor before it removes an element, so
    it visits the elements of the list it started with. *)
Fixpoint cleanup_loop (now : Z) (elems : list loc) (cleaned : Z) c : outcome (Cache V * Z) :=
  match elems with
  | [] => Ret (c, cleaned)
  | e :: rest =>
    entry ← deref c e;
    if expired now c entry then
      c ← removeElement e c;
      cleanup_loop now rest (i64 (cleaned + 1)) c
    else cleanup_loop now rest cleaned c
  end.

Definition Cleanup (now : Z) c : outcome (Cache V * Z) := cleanup_loop now (order c) 0 c.

(** [for currentSize > MaxSize && order.Len() > 0] *)
Fixpoint reduce_loop (fuel : nat) c : outcome (Cache V) :=
  match fuel with
  | O => Hang
  | S fuel =>
    if (MaxSize (config c) <? currentSize c) && (0 <? order_Len c)
    then c ← evictOne c; reduce_loop fuel c
    else Ret c
  end.

(** Go's [/] truncates towards zero. *)
Definition reduction (maxSize percent : Z) : Z := Z.quot (i64 (maxSize * percent)) 100.

Definition ReduceSize (fuel : nat) (percent : Z) c : outcome (Cache V) :=
  let cfg := config c in
  let max := i64 (MaxSize cfg - reduction (MaxSize cfg) percent) in
  reduce_loop fuel
    (mkCache (mkConfig max (MaxAge cfg) (MaxEntries cfg) (Policy cfg))
       (items c) (order c) (heap c) (next c) (currentSize c) (hits c) (misses c) (evictions c)).

(** The element list and the map are replaced; the old entries are garbage. *)
Definition Clear c : Cache V := set_store ∅ [] ∅ (next c) 0 c.

Definition Size_ c : Z := currentSize c.

Record StatsRec := mkStats {
  s_Size : Z; s_MaxSize : Z; s_Entries : Z; s_MaxEntries : Z;
  s_Hits : Z; s_Misses : Z; s_Evictions : Z;
}.

Definition Stats c : StatsRec :=
  mkStats (currentSize c) (MaxSize (config c)) (Len c) (MaxEntries (config c))
    (hits c) (misses c) (evictions c).

End ops.

(** * Ratios *)

(** A sum of counters wraps around like any other. *)
Definition HitRate (s : StatsRec) : spec_float :=
  let total := i64 (s_Hits s + s_Misses s) in
  if total =? 0 then float64_of_int 0 else f64_div (float64_of_int (s_Hits s)) (float64_of_int total).

Definition UsagePercent (s : StatsRec) : spec_float :=
  if s_MaxSize s =? 0 then float64_of_int 0
  else f64_mul (f64_div (float64_of_int (s_Size s)) (float64_of_int (s_MaxSize s))) (float64_of_int 100).

(** The examples of the comments: 80 hits and 20 misses, 30 of 50 MB. *)
Example HitRate_80 : HitRate (mkStats 0 0 0 0 80 20 0) = f64_div (float64_of_int 4) (float64_of_int 5).
Proof. by vm_compute. Qed.
Example UsagePercent_30 : UsagePercent (mkStats (30 * 2 ^ 20) (50 * 2 ^ 20) 0 0 0 0 0) = float64_of_int 60.
Proof. by vm_compute. Qed.
