(* ===== verification/CacheSpec.v ===== *)
(** What the cache of [Cache] promises: the representation invariant that ties
    the map, the list and the byte count to one list of entries, the effect of
    every operation on that list, and the bounds that follow. *)

From S2P Require Import Prelude Cache.

(** [keep pol n l] is what is left of a list after [n] evictions. *)
Section keep.
Context {A : Type}.
Implicit Types l : list A.

Definition keep (pol : EvictionPolicy) (n : nat) l : list A :=
  match pol with
  | LRU => take (length l - n) l
  | FIFO => drop n l
  end.

Lemma length_keep pol n l : length (keep pol n l) = (length l - n)%nat.
Proof. destruct pol; simpl; [rewrite length_take|rewrite length_drop]; lia. Qed.

Lemma keep_0 pol l : keep pol 0 l = l.
Proof. destruct pol; simpl; [by rewrite Nat.sub_0_r, firstn_all|done]. Qed.

Lemma keep_keep pol m n l : keep pol m (keep pol n l) = keep pol (n + m) l.
Proof.
  destruct pol; simpl.
  - rewrite length_take, take_take. f_equal. lia.
  - by rewrite drop_drop.
Qed.

Lemma keep_nil pol n l : (length l <= n)%nat -> keep pol n l = [].
Proof. intros. apply length_zero_iff_nil. rewrite length_keep. lia. Qed.

Lemma keep_subset pol n l x : x ∈ keep pol n l -> x ∈ l.
Proof.
  destruct pol; simpl; intros H.
  - rewrite <- (take_drop (length l - n) l). set_solver.
  - rewrite <- (take_drop n l). set_solver.
Qed.

(** What an eviction leaves and what it removes make up the list. *)
Lemma keep_split pol n l : exists r, l ≡ₚ keep pol n l ++ r.
Proof.
  destruct pol; simpl.
  - exists (drop (length l - n) l). by rewrite take_drop.
  - exists (take n l). by rewrite Permutation_app_comm, take_drop.
Qed.
End keep.

Lemma keep_fmap {A B} (f : A -> B) pol n (l : list A) :
  keep pol n (f <$> l) = f <$> keep pol n l.
Proof. destruct pol; simpl; by rewrite ?length_fmap, ?fmap_take, ?fmap_drop. Qed.

(** The least [n] at which a guard fails, looked for up to [n + k]. *)
Fixpoint first_false (G : nat -> bool) (k n : nat) : nat :=
  match k with
  | O => n
  | S k => if G n then first_false G k (S n) else n
  end.

Lemma first_false_spec G k n :
  G (n + k)%nat = false ->
  G (first_false G k n) = false /\ (n <= first_false G k n <= n + k)%nat /\
  forall m, (n <= m < first_false G k n)%nat -> G m = true.
Proof.
  revert n. induction k as [|k IH]; intros n H; simpl.
  - rewrite Nat.add_0_r in H. split_and!; [done|lia..].
  - destruct (G n) eqn:E.
    + destruct (IH (S n)) as (H1 & H2 & H3); [by rewrite Nat.add_succ_comm|].
      split_and!; [done|lia..|]. intros m Hm.
      destruct (decide (m = n)) as [->|]; [done|]. apply H3. lia.
    + split_and!; [done|lia..].
Qed.

(** A 64-bit counter after [n] increments. *)
Definition bump (n : nat) (z : Z) : Z := match n with O => z | S _ => i64 (z + Z.of_nat n) end.

Lemma bump_bump m n z : bump m (bump n z) = bump (n + m) z.
Proof.
  unfold bump. destruct m as [|m]; [by rewrite Nat.add_0_r|]. destruct n as [|n]; [done|].
  cbn [Nat.add]. rewrite wrap_add_l. f_equal. lia.
Qed.

Section rep.
Context {V : Type}.
Implicit Types c : Cache V.
Implicit Types en : Entry V.
Implicit Types P Q : list (loc * Entry V).

Definition total (l : list (Entry V)) : Z := sumZ (e_Size <$> l).

(** [rep c P]: the cache holds the entries [P.*2], in that order from front to
    back, each at its location. *)
Record rep c P : Prop := {
  rep_order : order c = P.*1;
  rep_nodup : NoDup (P.*1);
  rep_heap : forall e en, (e, en) ∈ P -> heap c !! e = Some en;
  rep_items : forall k e, items c !! k = Some e <-> exists en, (e, en) ∈ P /\ e_Key en = k;
  rep_fresh : forall e en, heap c !! e = Some en -> (e < next c)%positive;
  rep_size : currentSize c = i64 (total P.*2);
}.

(** The pairs are a function of the state. *)
Definition pairs c : list (loc * Entry V) :=
  omap (fun e => pair e <$> (heap c !! e)) (order c).

Definition wf c : Prop := rep c (pairs c).
Definition entries c : list (Entry V) := (pairs c).*2.

Lemma omap_pairs (h : gmap loc (Entry V)) P :
  (forall e en, (e, en) ∈ P -> h !! e = Some en) ->
  omap (fun e => pair e <$> (h !! e)) P.*1 = P.
Proof.
  induction P as [|[e en] P IH]; simpl; intros H; [done|].
  rewrite (H e en) by left. simpl. f_equal. apply IH. intros. apply H. by right.
Qed.

Lemma rep_pairs c P : rep c P -> pairs c = P.
Proof. intros H. unfold pairs. rewrite (rep_order c P H). by apply omap_pairs, H. Qed.

Lemma rep_wf c P : rep c P -> wf c.
Proof. intros H. unfold wf. by rewrite (rep_pairs c P H). Qed.

Lemma rep_New cfg : rep (New cfg : Cache V) [].
Proof.
  split; simpl; try done.
  - constructor.
  - intros ?? H. by apply elem_of_nil in H.
  - intros. rewrite lookup_empty. split; [done|]. intros (? & H & _). by apply elem_of_nil in H.
Qed.

Lemma rep_order_Len c P : rep c P -> order_Len c = Z.of_nat (length P).
Proof. intros H. unfold order_Len. by rewrite (rep_order c P H), length_fmap. Qed.

Lemma rep_unique_loc c P e en en' :
  rep c P -> (e, en) ∈ P -> (e, en') ∈ P -> en = en'.
Proof. intros H H1 H2. apply (rep_heap c P H) in H1, H2. congruence. Qed.

(** Keys identify the entries. *)
Lemma rep_unique_key c P e e' en en' :
  rep c P -> (e, en) ∈ P -> (e', en') ∈ P -> e_Key en = e_Key en' -> e = e' /\ en = en'.
Proof.
  intros H H1 H2 Hk.
  assert (items c !! e_Key en = Some e) as I1 by (apply (rep_items c P H); eauto).
  assert (items c !! e_Key en = Some e') as I2 by (apply (rep_items c P H); eauto).
  assert (e = e') as -> by congruence. split; [done|]. by eapply rep_unique_loc.
Qed.

Lemma NoDup_fst_split P1 e en P2 :
  NoDup ((P1 ++ (e, en) :: P2).*1) ->
  (e ∉ P1.*1) /\ (e ∉ P2.*1) /\ NoDup ((P1 ++ P2).*1).
Proof.
  rewrite !fmap_app, fmap_cons; simpl. rewrite !NoDup_app, NoDup_cons.
  intros (H1 & H2 & H3 & H4). split_and!; try done.
  - intros H. apply (H2 e H). by left.
  - intros x Hx Hx'. apply (H2 x Hx). by right.
Qed.

Lemma Remove_notin e (l : list loc) : e ∉ l -> Remove e l = l.
Proof.
  unfold Remove. induction l as [|x l IH]; intros H; [done|].
  rewrite filter_cons_True by set_solver. f_equal. apply IH. set_solver.
Qed.

Lemma Remove_split e (l1 l2 : list loc) :
  e ∉ l1 -> e ∉ l2 -> Remove e (l1 ++ e :: l2) = l1 ++ l2.
Proof.
  intros H1 H2. unfold Remove. rewrite filter_app, filter_cons_False by naive_solver.
  f_equal; by apply Remove_notin.
Qed.

Lemma elem_of_middle (x y : loc * Entry V) P1 P2 :
  x ∈ P1 ++ y :: P2 <-> x = y \/ x ∈ P1 ++ P2.
Proof. set_solver. Qed.

Lemma not_in_fst e P en : e ∉ P.*1 -> (e, en) ∉ P.
Proof. intros H H'. apply H. by apply (list_elem_of_fmap_2 fst) in H'. Qed.

(** The state after [removeElement] of the element at [e]. *)
Definition removed c e en : Cache V :=
  set_store (delete (e_Key en) (items c)) (Remove e (order c)) (heap c) (next c)
    (i64 (currentSize c - e_Size en)) c.

Lemma removeElement_eq c P e en :
  rep c P -> (e, en) ∈ P -> removeElement e c = Ret (removed c e en).
Proof.
  intros H Hin. unfold removeElement, deref.
  by rewrite (rep_heap c P H _ _ Hin).
Qed.

Lemma removed_rep c P1 e en P2 :
  rep c (P1 ++ (e, en) :: P2) -> rep (removed c e en) (P1 ++ P2).
Proof.
  intros H. pose proof (NoDup_fst_split _ _ _ _ (rep_nodup _ _ H)) as (N1 & N2 & N).
  split; simpl.
  - rewrite (rep_order _ _ H), !fmap_app, fmap_cons. by apply Remove_split.
  - done.
  - intros e' en' Hin. apply (rep_heap _ _ H). apply elem_of_middle. by right.
  - intros k e'. rewrite lookup_delete_Some, (rep_items _ _ H). split.
    + intros (Hk & en' & Hin & <-). apply elem_of_middle in Hin as [[= -> ->]|Hin]; [done|eauto].
    + intros (en' & Hin & <-). split; [|exists en'; split; [apply elem_of_middle; by right|done]].
      intros Hk. assert (e = e' /\ en = en') as [-> ->].
      { eapply rep_unique_key; [done|apply elem_of_middle; by left
          |apply elem_of_middle; by right|done]. }
      apply elem_of_app in Hin as [Hin|Hin]; by apply not_in_fst in Hin.
  - apply (rep_fresh _ _ H).
  - rewrite (rep_size _ _ H), wrap_sub_l. f_equal. unfold total.
    rewrite !fmap_app, !fmap_cons, !sumZ_app; simpl. lia.
Qed.

(** ** Eviction

    [keep] says what a number of evictions leaves. *)

(** Nothing but entries has changed, and [n] evictions were counted. *)
Definition same_frame (n : nat) c c' : Prop :=
  config c' = config c /\ hits c' = hits c /\ misses c' = misses c /\ evictions c' = bump n (evictions c).

Lemma same_frame_trans n m c1 c2 c3 : same_frame n c1 c2 -> same_frame m c2 c3 -> same_frame (n + m) c1 c3.
Proof. unfold same_frame. intros (-> & -> & -> & ->) (-> & -> & -> & ->). by rewrite bump_bump. Qed.

Lemma rep_counters c P h m v : rep c P -> rep (set_counters h m v c) P.
Proof. intros []. by split. Qed.

Lemma evictOne_rep c P :
  rep c P -> exists c', evictOne c = Ret c' /\ rep c' (keep (Policy (config c)) 1 P) /\
    same_frame (Nat.min 1 (length P)) c c'.
Proof.
  intros H. unfold evictOne. rewrite (rep_order _ _ H). unfold Back, Front.
  destruct (Policy (config c)); cbn [keep]; case_decide; try done.
  - induction P as [|[e en] P _] using rev_ind; [by exists c|].
    rewrite fmap_app; cbn [fmap list_fmap fst]. rewrite last_snoc.
    rewrite (removeElement_eq c (P ++ [(e, en)]) e en H) by set_solver.
    eexists. split; [done|]. rewrite length_app; cbn [length]. split; [|by rewrite Nat.add_comm].
    rewrite Nat.add_sub, take_app_length. apply rep_counters. rewrite <- (app_nil_r P). by apply removed_rep.
  - destruct P as [|[e en] P]; simpl; [by exists c|].
    rewrite (removeElement_eq c ((e, en) :: P) e en H) by set_solver.
    eexists. split; [done|]. split; [|done].
    rewrite drop_0. apply rep_counters. by apply (removed_rep c []).
Qed.

(** The three eviction loops have one shape. *)
Fixpoint evict_while (g : Cache V -> bool) (fuel : nat) c : outcome (Cache V) :=
  match fuel with
  | O => Hang
  | S fuel => if g c then c ← evictOne c; evict_while g fuel c else Ret c
  end.

Lemma evict_for_size_while fuel newSize c :
  evict_for_size fuel newSize c =
  evict_while (fun c => (MaxSize (config c) <? i64 (currentSize c + newSize))
                          && (0 <? order_Len c)) fuel c.
Proof.
  revert c. induction fuel as [|fuel IH]; intros c; simpl; [done|].
  case_match; [|done]. destruct (evictOne c); simpl; auto.
Qed.

Lemma evict_for_count_while fuel c :
  evict_for_count fuel c = evict_while (fun c => MaxEntries (config c) <=? order_Len c) fuel c.
Proof.
  revert c. induction fuel as [|fuel IH]; intros c; simpl; [done|].
  case_match; [|done]. destruct (evictOne c); simpl; auto.
Qed.

Lemma reduce_loop_while fuel c :
  reduce_loop fuel c =
  evict_while (fun c => (MaxSize (config c) <? currentSize c) && (0 <? order_Len c)) fuel c.
Proof.
  revert c. induction fuel as [|fuel IH]; intros c; simpl; [done|].
  case_match; [|done]. destruct (evictOne c); simpl; auto.
Qed.

(** A loop whose guard is a function [G] of the number of evictions stops
    after the first [n] with [G n = false]. *)
Lemma evict_while_spec g (G : nat -> bool) n fuel c P :
  rep c P ->
  (forall m c', rep c' (keep (Policy (config c)) m P) -> config c' = config c -> g c' = G m) ->
  G n = false -> (forall m, (m < n)%nat -> G m = true) -> (n < fuel)%nat -> (n <= length P)%nat ->
  exists c', evict_while g fuel c = Ret c' /\ rep c' (keep (Policy (config c)) n P) /\
    same_frame n c c'.
Proof.
  revert G n c P. induction fuel as [|fuel IH]; intros G n c P H Hg Hn Hlt Hf Hlen; [lia|]; simpl.
  rewrite (Hg 0%nat c) by (rewrite ?keep_0; done).
  destruct n as [|n].
  - rewrite Hn. exists c. by rewrite keep_0.
  - rewrite Hlt by lia.
    destruct (evictOne_rep c P H) as (c1 & -> & H1 & F1); simpl.
    rewrite Nat.min_l in F1 by lia. pose proof F1 as (Ec & _).
    destruct (IH (fun m => G (S m)) n c1 _ H1) as (c2 & -> & H2 & F2); rewrite ?length_keep; try lia; try done.
    + rewrite Ec. intros m c' Hc' Ec'. apply Hg; [|by rewrite Ec'].
      by rewrite keep_keep in Hc'.
    + intros m Hm. apply Hlt. lia.
    + exists c2. split; [done|]. rewrite Ec, keep_keep in H2.
      split; [done|]. by apply (same_frame_trans 1 n c c1).
Qed.

(** Conversely, while the guard holds forever the loop never returns. *)
Lemma evict_while_hang g fuel c P :
  rep c P ->
  (forall m c', rep c' (keep (Policy (config c)) m P) -> config c' = config c -> g c' = true) ->
  evict_while g fuel c = Hang.
Proof.
  revert c P. induction fuel as [|fuel IH]; intros c P H Hg; simpl; [done|].
  rewrite (Hg 0%nat c) by (rewrite ?keep_0; done).
  destruct (evictOne_rep c P H) as (c1 & -> & H1 & (Ec & _)); simpl.
  apply (IH c1 _ H1). rewrite Ec. intros m c' Hc' Ec'.
  apply (Hg (1 + m)%nat); [|by rewrite Ec']. by rewrite keep_keep in Hc'.
Qed.

(** ** Updates and insertions *)

Lemma total_perm l1 l2 : l1 ≡ₚ l2 -> total l1 = total l2.
Proof. unfold total. by intros ->. Qed.

Lemma total_app l1 l2 : total (l1 ++ l2) = total l1 + total l2.
Proof. unfold total. by rewrite fmap_app, sumZ_app. Qed.

Lemma rep_replace c P1 e en en' P2 P' ord sz :
  rep c (P1 ++ (e, en) :: P2) -> e_Key en' = e_Key en ->
  P' ≡ₚ (e, en') :: P1 ++ P2 -> ord = P'.*1 -> sz = i64 (total P'.*2) ->
  rep (set_store (items c) ord (<[e := en']> (heap c)) (next c) sz c) P'.
Proof.
  intros H Hk HP -> ->.
  pose proof (NoDup_fst_split _ _ _ _ (rep_nodup _ _ H)) as (N1 & N2 & N).
  assert (e ∉ (P1 ++ P2).*1) as Ne by (rewrite fmap_app; set_solver).
  split; simpl; try done.
  - rewrite HP. by constructor.
  - intros e' en'' Hin. rewrite HP in Hin. apply elem_of_cons in Hin as [[= -> ->]|Hin].
    + apply lookup_insert_eq.
    + rewrite lookup_insert_ne by (intros ->; by apply not_in_fst in Hin).
      apply (rep_heap _ _ H), elem_of_middle. by right.
  - intros k e'. rewrite (rep_items _ _ H). setoid_rewrite HP.
    split; intros (en'' & Hin & <-).
    + apply elem_of_middle in Hin as [[= -> ->]|Hin]; [exists en'|exists en'']; set_solver.
    + apply elem_of_cons in Hin as [[= -> ->]|Hin]; [exists en|exists en'']; set_solver.
  - intros e' en''. rewrite lookup_insert. case_decide as E; [|apply (rep_fresh _ _ H)].
    subst e'. intros _. apply (rep_fresh _ _ H e en), (rep_heap _ _ H). set_solver.
Qed.

Lemma rep_insert c Q key en P' ord sz :
  rep c Q -> items c !! key = None -> e_Key en = key ->
  P' ≡ₚ (next c, en) :: Q -> ord = P'.*1 -> sz = i64 (total P'.*2) ->
  rep (set_store (<[key := next c]> (items c)) ord (<[next c := en]> (heap c))
         (Pos.succ (next c)) sz c) P'.
Proof.
  intros H Hnone Hk HP -> ->.
  assert (forall en', (next c, en') ∉ Q) as Hnew.
  { intros en' Hin. apply (rep_heap _ _ H), (rep_fresh _ _ H) in Hin. lia. }
  split; simpl; try done.
  - rewrite HP. constructor; [|apply (rep_nodup _ _ H)].
    intros ([e' en'] & E & Hin)%list_elem_of_fmap. simpl in E. rewrite <- E in Hin.
    by apply Hnew in Hin.
  - intros e' en' Hin. rewrite HP in Hin. apply elem_of_cons in Hin as [[= -> ->]|Hin].
    + apply lookup_insert_eq.
    + rewrite lookup_insert_ne by (intros <-; by apply Hnew in Hin). by apply (rep_heap _ _ H).
  - intros k e'. rewrite lookup_insert_Some, (rep_items _ _ H). setoid_rewrite HP. split.
    + intros [[<- <-]|(Hk' & en' & Hin & <-)]; [exists en|exists en']; set_solver.
    + intros (en' & Hin & <-). apply elem_of_cons in Hin as [[= -> ->]|Hin]; [by left|].
      right. split; [|eauto]. intros E.
      assert (items c !! key = Some e') as E' by (apply (rep_items _ _ H); exists en'; by rewrite E).
      congruence.
  - intros e' en'. rewrite lookup_insert. case_decide; [intros; lia|].
    intros Hh%(rep_fresh _ _ H). lia.
Qed.

Lemma MoveToFront_split e (l1 l2 : list loc) :
  e ∉ l1 -> e ∉ l2 -> MoveToFront e (l1 ++ e :: l2) = e :: l1 ++ l2.
Proof.
  intros H1 H2. unfold MoveToFront. rewrite decide_True by set_solver.
  by rewrite Remove_split.
Qed.

Lemma MoveToFront_rep c P1 e en P2 :
  rep c (P1 ++ (e, en) :: P2) -> MoveToFront e (order c) = e :: P1.*1 ++ P2.*1.
Proof.
  intros H. pose proof (NoDup_fst_split _ _ _ _ (rep_nodup _ _ H)) as (N1 & N2 & N).
  rewrite (rep_order _ _ H), fmap_app, fmap_cons. by apply MoveToFront_split.
Qed.

End rep.

(** ** The abstract cache

    A cache is a list of entries in eviction order (under [LRU] the most
    recently used first, under [FIFO] the oldest first). *)

Section model.
Context {V : Type}.
Implicit Types l : list (Entry V).

Record model := mkModel {
  m_config : Config;
  m_entries : list (Entry V);
  m_hits : Z;
  m_misses : Z;
  m_evictions : Z;
}.

Fixpoint split_key (key : string) l : option (list (Entry V) * Entry V * list (Entry V)) :=
  match l with
  | [] => None
  | en :: l' =>
    if decide (e_Key en = key) then Some ([], en, l')
    else match split_key key l' with
         | Some (l1, x, l2) => Some (en :: l1, x, l2)
         | None => None
         end
  end.

(** A used entry moves to the front under [LRU] and stays under [FIFO]. *)
Definition promote {A} (pol : EvictionPolicy) (x : A) (l1 l2 : list A) : list A :=
  match pol with LRU => x :: l1 ++ l2 | FIFO => l1 ++ x :: l2 end.

(** A new entry goes to the front under [LRU] and to the back under [FIFO]. *)
Definition place {A} (pol : EvictionPolicy) (x : A) (l : list A) : list A :=
  match pol with LRU => x :: l | FIFO => l ++ [x] end.

Definition is_expired (cfg : Config) (now : Z) (en : Entry V) : bool :=
  MaxAge cfg <? time_Sub now (e_CreatedAt en).

Definition over_size (cfg : Config) (newSize : Z) l (n : nat) : bool :=
  let l' := keep (Policy cfg) n l in
  (MaxSize cfg <? i64 (total l' + newSize)) && (0 <? Z.of_nat (length l')).

Definition over_count (cfg : Config) l (n : nat) : bool :=
  MaxEntries cfg <=? Z.of_nat (length (keep (Policy cfg) n l)).

(** The number of evictions that make room for [newSize] more bytes. *)
Definition evictions_needed (cfg : Config) (newSize : Z) l : nat :=
  let n := first_false (over_size cfg newSize l) (length l) 0 in
  let l' := keep (Policy cfg) n l in
  (n + first_false (over_count cfg l') (length l') 0)%nat.

Definition make_room (cfg : Config) (newSize : Z) l : list (Entry V) :=
  keep (Policy cfg) (evictions_needed cfg newSize l) l.

Definition with_entries l (m : model) : model :=
  mkModel (m_config m) l (m_hits m) (m_misses m) (m_evictions m).

(** Evictions are counted, removals of other kinds are not. *)
Definition count_evictions (n : nat) (m : model) : model :=
  mkModel (m_config m) (m_entries m) (m_hits m) (m_misses m) (bump n (m_evictions m)).

Definition m_hit (m : model) : model :=
  mkModel (m_config m) (m_entries m) (i64 (m_hits m + 1)) (m_misses m) (m_evictions m).
Definition m_miss (m : model) : model :=
  mkModel (m_config m) (m_entries m) (m_hits m) (i64 (m_misses m + 1)) (m_evictions m).

Definition m_Get (key : string) (now : Z) (m : model) : model * option V :=
  match split_key key (m_entries m) with
  | None => (m_miss m, None)
  | Some (l1, en, l2) =>
    if is_expired (m_config m) now en then (m_miss (with_entries (l1 ++ l2) m), None)
    else
      let l' := match Policy (m_config m) with
                | LRU => touch now en :: l1 ++ l2
                | FIFO => m_entries m
                end in
      (m_hit (with_entries l' m), Some (e_Value en))
  end.

Definition m_Set (key : string) (v : V) (size now : Z) (m : model) : model :=
  let pol := Policy (m_config m) in
  match split_key key (m_entries m) with
  | Some (l1, en, l2) =>
    with_entries (promote pol (mkEntry (e_Key en) v size (e_CreatedAt en) now) l1 l2) m
  | None =>
    count_evictions (evictions_needed (m_config m) size (m_entries m))
      (with_entries (place pol (mkEntry key v size now now)
                      (make_room (m_config m) size (m_entries m))) m)
  end.

Definition m_Delete (key : string) (m : model) : model :=
  match split_key key (m_entries m) with
  | Some (l1, _, l2) => with_entries (l1 ++ l2) m
  | None => m
  end.

Definition m_Cleanup (now : Z) (m : model) : model * Z :=
  (with_entries (filter (fun en => is_expired (m_config m) now en = false) (m_entries m)) m,
   i64 (Z.of_nat (length (filter (fun en => is_expired (m_config m) now en = true) (m_entries m))))).

Definition m_ReduceSize (percent : Z) (m : model) : model :=
  let cfg := m_config m in
  let cfg' := mkConfig (i64 (MaxSize cfg - reduction (MaxSize cfg) percent))
                (MaxAge cfg) (MaxEntries cfg) (Policy cfg) in
  let n := first_false (over_size cfg' 0 (m_entries m)) (length (m_entries m)) 0 in
  mkModel cfg' (keep (Policy cfg) n (m_entries m)) (m_hits m) (m_misses m) (bump n (m_evictions m)).

Definition m_Clear (m : model) : model := with_entries [] m.

Definition abs (c : Cache V) : model := mkModel (config c) (entries c) (hits c) (misses c) (evictions c).

(** ** Operations as data *)

Inductive op :=
  | OGet (key : string) (now : Z)
  | OSet (key : string) (v : V) (size now : Z)
  | ODelete (key : string)
  | OCleanup (now : Z)
  | OReduceSize (percent : Z)
  | OClear.

Inductive reply :=
  | RNone
  | RValue (v : option V)
  | RCount (n : Z).

Definition exec (fuel : nat) (o : op) (c : Cache V) : outcome (Cache V * reply) :=
  match o with
  | OGet key now => r ← Get key now c; Ret (r.1, RValue r.2)
  | OSet key v size now => c' ← Set_ fuel key v size now c; Ret (c', RNone)
  | ODelete key => c' ← Delete key c; Ret (c', RNone)
  | OCleanup now => r ← Cleanup now c; Ret (r.1, RCount r.2)
  | OReduceSize p => c' ← ReduceSize fuel p c; Ret (c', RNone)
  | OClear => Ret (Clear c, RNone)
  end.

Definition m_exec (o : op) (m : model) : model * reply :=
  match o with
  | OGet key now => let r := m_Get key now m in (r.1, RValue r.2)
  | OSet key v size now => (m_Set key v size now m, RNone)
  | ODelete key => (m_Delete key m, RNone)
  | OCleanup now => let r := m_Cleanup now m in (r.1, RCount r.2)
  | OReduceSize p => (m_ReduceSize p m, RNone)
  | OClear => (m_Clear m, RNone)
  end.

Fixpoint exec_all (fuel : nat) (os : list op) (c : Cache V) : outcome (Cache V * list reply) :=
  match os with
  | [] => Ret (c, [])
  | o :: os =>
    r ← exec fuel o c;
    rs ← exec_all fuel os r.1;
    Ret (rs.1, r.2 :: rs.2)
  end.

Fixpoint m_exec_all (os : list op) (m : model) : model * list reply :=
  match os with
  | [] => (m, [])
  | o :: os => let r := m_exec o m in let rs := m_exec_all os r.1 in (rs.1, r.2 :: rs.2)
  end.

End model.
Arguments op : clear implicits.
Arguments model : clear implicits.
Arguments reply : clear implicits.
