(* ===== verification/CacheRefine.v ===== *)
(** The cache of [Cache] implements the abstract cache of [CacheSpec], and the
    bounds, the termination and the failures that follow. *)

From S2P Require Import Prelude Cache CacheSpec.

Section refine.
Context {V : Type}.
Implicit Types c : Cache V.
Implicit Types P : list (loc * Entry V).

Definition sim c (m : model V) : Prop := wf c /\ abs c = m.

Lemma sim_intro c P m :
  rep c P -> config c = m_config m -> P.*2 = m_entries m ->
  hits c = m_hits m -> misses c = m_misses m -> evictions c = m_evictions m -> sim c m.
Proof.
  intros H Hc He Hh Hm Hv. split; [by eapply rep_wf|].
  unfold abs, entries. rewrite (rep_pairs c P H), He, Hc, Hh, Hm, Hv. by destruct m.
Qed.

Lemma entries_rep c P : rep c P -> entries c = P.*2.
Proof. intros H. unfold entries. by rewrite (rep_pairs c P H). Qed.

Lemma split_key_Some key P l1 en l2 :
  split_key key P.*2 = Some (l1, en, l2) ->
  exists P1 e P2, P = P1 ++ (e, en) :: P2 /\ l1 = P1.*2 /\ l2 = P2.*2 /\ e_Key en = key.
Proof.
  revert l1 en l2. induction P as [|[e en'] P IH]; intros l1 en l2 H; [done|].
  rewrite fmap_cons in H; cbn [split_key snd] in H. case_decide as E.
  - injection H as <- <- <-. exists [], e, P. done.
  - destruct (split_key key P.*2) as [[[k1 x] k2]|] eqn:Es; [|done].
    injection H as <- -> <-.
    destruct (IH _ _ _ eq_refl) as (P1 & e1 & P2 & -> & -> & -> & ?).
    exists ((e, en') :: P1), e1, P2. by subst.
Qed.

Lemma split_key_None key (l : list (Entry V)) en :
  split_key key l = None -> en ∈ l -> e_Key en <> key.
Proof.
  induction l as [|x l IH]; simpl; intros H Hin; [by apply elem_of_nil in Hin|].
  case_decide; [done|].
  destruct (split_key key l) as [[[??]?]|] eqn:E; [done|].
  apply elem_of_cons in Hin as [->|Hin]; auto.
Qed.

(** The map and the key search of the abstract cache agree. *)
Lemma lookup_None c P key :
  rep c P -> split_key key P.*2 = None -> items c !! key = None.
Proof.
  intros H Hs. destruct (items c !! key) as [e|] eqn:E; [|done].
  apply (rep_items _ _ H) in E as (en & Hin & Hk). exfalso.
  by apply (split_key_None _ _ en Hs); [apply (list_elem_of_fmap_2 snd) in Hin|].
Qed.

Lemma lookup_Some c P1 e en P2 :
  rep c (P1 ++ (e, en) :: P2) -> items c !! e_Key en = Some e /\ heap c !! e = Some en.
Proof.
  intros H. split; [apply (rep_items _ _ H); exists en|apply (rep_heap _ _ H)]; set_solver.
Qed.

Lemma split_items c P l1 en l2 key :
  rep c P -> split_key key P.*2 = Some (l1, en, l2) ->
  exists P1 e P2, P = P1 ++ (e, en) :: P2 /\ l1 = P1.*2 /\ l2 = P2.*2 /\ e_Key en = key /\
    items c !! key = Some e /\ heap c !! e = Some en.
Proof.
  intros H Hs. destruct (split_key_Some _ _ _ _ _ Hs) as (P1 & e & P2 & -> & -> & -> & <-).
  destruct (lookup_Some _ _ _ _ _ H). exists P1, e, P2. done.
Qed.

Lemma total_middle (l1 l2 : list (Entry V)) en en' :
  i64 (i64 (i64 (total (l1 ++ en :: l2)) - e_Size en) + e_Size en') =
  i64 (total (en' :: l1 ++ l2)).
Proof.
  rewrite wrap_sub_l, wrap_add_l. f_equal. unfold total.
  rewrite !fmap_app, !fmap_cons, !fmap_app, !sumZ_app; simpl. rewrite sumZ_app. lia.
Qed.

Lemma snd_split P1 e (en : Entry V) P2 : (P1 ++ (e, en) :: P2).*2 = P1.*2 ++ en :: P2.*2.
Proof. by rewrite fmap_app, fmap_cons. Qed.

(** Rewriting the entry at [e] in place, with the move that the policy asks for. *)
Lemma rep_promote c P1 e en en' P2 sz :
  rep c (P1 ++ (e, en) :: P2) -> e_Key en' = e_Key en ->
  sz = i64 (total (en' :: P1.*2 ++ P2.*2)) ->
  rep (set_store (items c)
         (if decide (Policy (config c) = LRU) then MoveToFront e (order c) else order c)
         (<[e := en']> (heap c)) (next c) sz c)
    (promote (Policy (config c)) (e, en') P1 P2).
Proof.
  intros H Hk ->. rewrite (MoveToFront_rep _ _ _ _ _ H), (rep_order _ _ H).
  destruct (Policy (config c)); case_decide; try done; simpl.
  - eapply rep_replace; [done|done|done|by rewrite fmap_cons, fmap_app|].
    by rewrite fmap_cons, fmap_app.
  - eapply rep_replace; [done|done|by rewrite Permutation_middle|by rewrite !fmap_app, !fmap_cons|].
    f_equal. apply total_perm. by rewrite fmap_app, fmap_cons, <- Permutation_middle.
Qed.

Lemma promote_snd pol e (en : Entry V) P1 P2 :
  (promote pol (e, en) P1 P2).*2 = promote pol en P1.*2 P2.*2.
Proof. destruct pol; simpl; by rewrite ?fmap_cons, ?fmap_app, ?fmap_cons. Qed.

(** ** The operations *)

Lemma Get_refines key now c P :
  rep c P -> exists c' r, Get key now c = Ret (c', r) /\
    sim c' (m_Get key now (abs c)).1 /\ r = (m_Get key now (abs c)).2.
Proof.
  intros H. unfold Get, m_Get; simpl. rewrite (entries_rep c P H).
  destruct (split_key key P.*2) as [[[l1 en] l2]|] eqn:Es; simpl.
  - destruct (split_items _ _ _ _ _ _ H Es) as (P1 & e & P2 & -> & -> & -> & Hk & -> & Hh).
    unfold deref. rewrite Hh; simpl. unfold is_expired; fold (expired now c en).
    destruct (expired now c en); simpl.
    + rewrite (removeElement_eq c (P1 ++ (e, en) :: P2) e en H) by set_solver; simpl.
      do 2 eexists. split; [done|]. split; [|done].
      eapply sim_intro; [apply rep_counters, removed_rep, H|done|by rewrite fmap_app|done..].
    + do 2 eexists. split; [done|]. split; [|done].
      pose proof (rep_promote c P1 e en (touch now en) P2 (currentSize c) H eq_refl) as HR.
      destruct (Policy (config c)) eqn:Ep; case_decide; try done.
      * eapply sim_intro;
          [apply rep_counters, HR|done|simpl; by rewrite fmap_app|done..].
        rewrite (rep_size _ _ H). f_equal. rewrite snd_split.
        transitivity (total (en :: P1.*2 ++ P2.*2)); [|done].
        apply total_perm. by rewrite Permutation_middle.
      * by apply (sim_intro _ _ _ (rep_counters _ _ _ _ _ H)).
  - rewrite (lookup_None _ _ _ H Es). do 2 eexists. split; [done|]. split; [|done].
    apply (sim_intro _ _ _ (rep_counters _ _ _ _ _ H)); try done.
    simpl. by rewrite (entries_rep c P H).
Qed.

Lemma Delete_refines key c P :
  rep c P -> exists c', Delete key c = Ret c' /\ sim c' (m_Delete key (abs c)).
Proof.
  intros H. unfold Delete, m_Delete; simpl. rewrite (entries_rep c P H).
  destruct (split_key key P.*2) as [[[l1 en] l2]|] eqn:Es; simpl.
  - destruct (split_items _ _ _ _ _ _ H Es) as (P1 & e & P2 & -> & -> & -> & Hk & -> & Hh).
    rewrite (removeElement_eq c (P1 ++ (e, en) :: P2) e en H) by set_solver.
    eexists. split; [done|].
    apply (sim_intro _ _ _ (removed_rep _ _ _ _ _ H)); try done. by rewrite fmap_app.
  - rewrite (lookup_None _ _ _ H Es). eexists. split; [done|].
    apply (sim_intro _ _ _ H); try done. simpl. by rewrite (entries_rep c P H).
Qed.

Lemma Clear_refines c P : rep c P -> sim (Clear c) (m_Clear (abs c)).
Proof.
  intros H. apply (sim_intro _ []); try done.
  split; simpl; try done; [constructor|set_solver|].
  intros. rewrite lookup_empty. split; [done|]. intros (? & Hin & _). by apply elem_of_nil in Hin.
Qed.

(** ** Evictions *)

Lemma keep_snd pol n P : (keep pol n P).*2 = keep pol n P.*2.
Proof. symmetry. apply keep_fmap. Qed.

Lemma over_size_stops cfg sz (l : list (Entry V)) k :
  (length l <= k)%nat -> over_size cfg sz l k = false.
Proof. intros Hk. unfold over_size. rewrite keep_nil by done. by rewrite andb_false_r. Qed.

Lemma over_count_stops cfg (l : list (Entry V)) k :
  0 < MaxEntries cfg -> (length l <= k)%nat -> over_count cfg l k = false.
Proof. intros Hm Hk. unfold over_count. rewrite keep_nil by done. by apply Z.leb_gt. Qed.

(** A loop that evicts while [G] holds of the number of evictions so far. *)
Lemma evict_loop g (G : nat -> bool) fuel c P :
  rep c P ->
  (forall m c', rep c' (keep (Policy (config c)) m P) -> config c' = config c -> g c' = G m) ->
  G (length P) = false -> (length P < fuel)%nat ->
  let n := first_false G (length P) 0 in
  exists c', evict_while g fuel c = Ret c' /\ rep c' (keep (Policy (config c)) n P) /\
    same_frame n c c'.
Proof.
  intros H Hg Hstop Hf n.
  destruct (first_false_spec G (length P) 0) as (H1 & H2 & H3); [done|].
  apply (evict_while_spec g G n); try done.
  - intros m Hm. apply H3. split; [lia|done].
  - subst n. lia.
  - subst n. lia.
Qed.

Lemma evict_for_size_rep fuel newSize c P :
  rep c P -> (length P < fuel)%nat ->
  let n := first_false (over_size (config c) newSize P.*2) (length P) 0 in
  exists c', evict_for_size fuel newSize c = Ret c' /\
    rep c' (keep (Policy (config c)) n P) /\ same_frame n c c'.
Proof.
  intros H Hf n. rewrite evict_for_size_while. apply evict_loop; [done| | |done].
  - intros m c' H' E. rewrite (rep_size _ _ H'), (rep_order_Len _ _ H'), E, wrap_add_l.
    unfold over_size. by rewrite keep_snd, <- keep_snd, length_fmap, keep_snd.
  - apply over_size_stops. by rewrite length_fmap.
Qed.

Lemma evict_for_count_rep fuel c P :
  rep c P -> 0 < MaxEntries (config c) -> (length P < fuel)%nat ->
  let n := first_false (over_count (config c) P.*2) (length P) 0 in
  exists c', evict_for_count fuel c = Ret c' /\
    rep c' (keep (Policy (config c)) n P) /\ same_frame n c c'.
Proof.
  intros H Hm Hf n. rewrite evict_for_count_while. apply evict_loop; [done| | |done].
  - intros m c' H' E. rewrite (rep_order_Len _ _ H'), E.
    unfold over_count. by rewrite <- keep_snd, length_fmap.
  - apply over_count_stops; [done|]. by rewrite length_fmap.
Qed.

Lemma evictIfNeeded_rep fuel newSize c P :
  rep c P -> 0 < MaxEntries (config c) -> (length P < fuel)%nat ->
  exists c', evictIfNeeded fuel newSize c = Ret c' /\
    rep c' (keep (Policy (config c)) (evictions_needed (config c) newSize P.*2) P) /\
    same_frame (evictions_needed (config c) newSize P.*2) c c'.
Proof.
  intros H Hm Hf. unfold evictIfNeeded, evictions_needed.
  destruct (evict_for_size_rep fuel newSize c P H Hf) as (c1 & -> & H1 & F1); simpl.
  pose proof F1 as (E1 & _).
  destruct (evict_for_count_rep fuel c1 _ H1) as (c2 & -> & H2 & F2).
  { by rewrite E1. }
  { rewrite length_keep. lia. }
  exists c2. split; [done|]. pose proof (same_frame_trans _ _ _ _ _ F1 F2) as F. clear F1 F2.
  revert H2 F. rewrite E1, keep_keep, keep_snd, <- (length_fmap snd P), <- (length_fmap snd (keep _ _ P)).
  by rewrite keep_snd.
Qed.

Lemma place_snd pol e (en : Entry V) P : (place pol (e, en) P).*2 = place pol en P.*2.
Proof. destruct pol; simpl; by rewrite ?fmap_app. Qed.

Lemma place_perm {A} pol (x : A) l : place pol x l ≡ₚ x :: l.
Proof. destruct pol; simpl; [done|]. by rewrite Permutation_app_comm. Qed.

Lemma removeElement_items e k c c' :
  removeElement e c = Ret c' -> items c !! k = None -> items c' !! k = None.
Proof.
  unfold removeElement, deref. destruct (heap c !! e); simpl; [|done].
  intros [= <-] H; simpl. rewrite lookup_delete_None. by right.
Qed.

Lemma rep_items_None c P k : rep c P -> items c !! k = None <-> split_key k P.*2 = None.
Proof.
  intros H. split; [|by apply lookup_None]. intros Hn.
  destruct (split_key k P.*2) as [[[l1 en] l2]|] eqn:E; [|done].
  destruct (split_items _ _ _ _ _ _ H E) as (? & ? & ? & _ & _ & _ & _ & Hs & _). congruence.
Qed.

Lemma split_key_keep k pol n (l : list (Entry V)) :
  split_key k l = None -> split_key k (keep pol n l) = None.
Proof.
  intros H. destruct (split_key k (keep pol n l)) as [[[l1 en] l2]|] eqn:E; [|done].
  exfalso. assert (en ∈ keep pol n l /\ e_Key en = k) as [Hin Hk].
  { revert l1 en l2 E. induction (keep pol n l) as [|x l' IH]; simpl; intros; [done|].
    case_decide; [injection E as <- <- <-; set_solver|].
    destruct (split_key k l') as [[[??]?]|]; [|done]. injection E as <- -> <-.
    edestruct IH; [done|]. set_solver. }
  apply keep_subset in Hin. by apply (split_key_None k l en).
Qed.

Lemma Set_refines fuel key v size now c P :
  rep c P -> 0 < MaxEntries (config c) -> (length P < fuel)%nat ->
  exists c', Set_ fuel key v size now c = Ret c' /\ sim c' (m_Set key v size now (abs c)).
Proof.
  intros H Hm Hf. unfold Set_, m_Set; simpl. rewrite (entries_rep c P H).
  destruct (split_key key P.*2) as [[[l1 en] l2]|] eqn:Es; simpl.
  - destruct (split_items _ _ _ _ _ _ H Es) as (P1 & e & P2 & -> & -> & -> & Hk & -> & Hh).
    unfold deref. rewrite Hh; simpl. eexists. split; [done|].
    eapply sim_intro; [apply (rep_promote c P1 e en _ P2 _ H)|done|apply promote_snd|done..].
    + done.
    + rewrite (rep_size _ _ H), snd_split.
      apply (total_middle _ _ en (mkEntry (e_Key en) v size (e_CreatedAt en) now)).
  - rewrite (lookup_None _ _ _ H Es).
    destruct (evictIfNeeded_rep fuel size c P H Hm Hf) as (c1 & -> & H1 & (E1 & Eh & Em & Ev)); simpl.
    set (Q := keep _ _ P) in *. eexists. split; [done|].
    set (en := mkEntry key v size now now).
    apply (sim_intro _ (place (Policy (config c)) (next c1, en) Q)); try done.
    + apply rep_insert with (Q := Q) (en := en); try done.
      * apply (rep_items_None _ _ _ H1). subst Q. rewrite keep_snd. by apply split_key_keep.
      * apply place_perm.
      * rewrite E1, (rep_order _ _ H1).
        destruct (Policy (config c)); case_decide; try done. simpl. by rewrite fmap_app.
      * rewrite (rep_size _ _ H1), wrap_add_l. f_equal.
        rewrite place_snd, (total_perm _ _ (place_perm _ _ _)).
        change (total (en :: Q.*2)) with (size + total Q.*2). lia.
    + rewrite place_snd. simpl. unfold make_room. by rewrite <- keep_snd.
Qed.

(** ** Sweeping expired entries *)

Abbreviation live cfg now := (fun en => is_expired cfg now en = false).
Abbreviation dead cfg now := (fun en => is_expired cfg now en = true).

Lemma cleanup_loop_rep now c P0 P j :
  rep c (P0 ++ P) ->
  exists c' P', cleanup_loop now P.*1 (i64 j) c =
      Ret (c', i64 (j + Z.of_nat (length (filter (dead (config c) now) P.*2)))) /\
    rep c' (P0 ++ P') /\ P'.*2 = filter (live (config c) now) P.*2 /\ same_frame 0 c c'.
Proof.
  revert c P0 j. induction P as [|[e en] P IH]; intros c P0 j H.
  - exists c, []. simpl. rewrite Z.add_0_r. done.
  - rewrite !fmap_cons; cbn [cleanup_loop fst snd]. unfold deref.
    rewrite (rep_heap _ _ H e en) by set_solver; simpl. unfold expired; fold (is_expired (config c) now en).
    destruct (is_expired (config c) now en) eqn:Ex.
    + rewrite (removeElement_eq c (P0 ++ (e, en) :: P) e en H) by set_solver; simpl.
      destruct (IH _ P0 (j + 1) (removed_rep _ _ _ _ _ H)) as (c' & P' & E & H' & HP & F).
      exists c', P'. rewrite wrap_add_l, E; simpl.
      rewrite filter_cons_True by done. rewrite filter_cons_False by congruence.
      split; [|done]. do 2 f_equal. f_equal. simpl. lia.
    + destruct (IH c (P0 ++ [(e, en)]) j) as (c' & P' & E & H' & HP & F).
      { by rewrite <- app_assoc. }
      exists c', ((e, en) :: P'). rewrite E, fmap_cons, HP.
      rewrite filter_cons_False by congruence. rewrite filter_cons_True by done.
      rewrite <- app_assoc in H'. done.
Qed.

Lemma Cleanup_refines now c P :
  rep c P -> exists c' n, Cleanup now c = Ret (c', n) /\
    sim c' (m_Cleanup now (abs c)).1 /\ n = (m_Cleanup now (abs c)).2.
Proof.
  intros H. unfold Cleanup, m_Cleanup; simpl. rewrite (entries_rep c P H), (rep_order _ _ H).
  destruct (cleanup_loop_rep now c [] P 0 H) as (c' & P' & E & H' & HP & (F1 & F2 & F3 & F4)).
  exists c'. eexists. split; [exact E|]. split; [|done].
  by apply (sim_intro _ _ _ H').
Qed.

Lemma rep_config c P cfg :
  rep c P -> rep (mkCache cfg (items c) (order c) (heap c) (next c) (currentSize c)
                    (hits c) (misses c) (evictions c)) P.
Proof. intros []. by split. Qed.

Lemma ReduceSize_refines fuel percent c P :
  rep c P -> (length P < fuel)%nat ->
  exists c', ReduceSize fuel percent c = Ret c' /\ sim c' (m_ReduceSize percent (abs c)).
Proof.
  intros H Hf. unfold ReduceSize, m_ReduceSize; simpl. rewrite (entries_rep c P H).
  set (cfg := mkConfig _ _ _ _).
  rewrite reduce_loop_while.
  destruct (evict_loop (fun c => (MaxSize (config c) <? currentSize c) && (0 <? order_Len c))
              (over_size cfg 0 P.*2) fuel _ P (rep_config c P cfg H))
    as (c' & -> & H' & (F1 & F2 & F3 & F4)); simpl in *.
  - intros m c' H' E. rewrite (rep_size _ _ H'), (rep_order_Len _ _ H'), E.
    unfold over_size. by rewrite Z.add_0_r, <- keep_snd, length_fmap.
  - apply over_size_stops. by rewrite length_fmap.
  - done.
  - exists c'. split; [done|]. apply (sim_intro _ _ _ H'); try done; simpl.
    + by rewrite keep_snd, length_fmap.
    + by rewrite F4, length_fmap.
Qed.

(** ** One step and runs *)

Lemma exec_refines fuel o c :
  wf c -> 0 < MaxEntries (config c) -> (length (order c) < fuel)%nat ->
  exists c' r, exec fuel o c = Ret (c', r) /\ sim c' (m_exec o (abs c)).1 /\
    r = (m_exec o (abs c)).2.
Proof.
  intros H Hm Hf. unfold wf in H.
  assert (length (pairs c) < fuel)%nat as Hf'.
  { rewrite (rep_order _ _ H), length_fmap in Hf. done. }
  destruct o; simpl.
  - destruct (Get_refines key now c _ H) as (c' & r & -> & ? & ->). simpl. eauto.
  - destruct (Set_refines fuel key v size now c _ H Hm Hf') as (c' & -> & ?). simpl. eauto.
  - destruct (Delete_refines key c _ H) as (c' & -> & ?). simpl. eauto.
  - destruct (Cleanup_refines now c _ H) as (c' & n & -> & ? & ->). simpl. eauto.
  - destruct (ReduceSize_refines fuel percent c _ H Hf') as (c' & -> & ?). simpl. eauto.
  - do 2 eexists. split; [done|]. split; [by eapply Clear_refines|done].
Qed.

(** A loop that returns has evicted some number of entries; none panics. *)
Lemma evict_while_inv g fuel c c' P :
  rep c P -> evict_while g fuel c = Ret c' ->
  exists n, rep c' (keep (Policy (config c)) n P) /\ config c' = config c.
Proof.
  revert c P. induction fuel as [|fuel IH]; intros c P H E; simpl in E; [done|].
  destruct (g c).
  - destruct (evictOne_rep c P H) as (c1 & E1 & H1 & (Ec & _)). rewrite E1 in E; simpl in E.
    destruct (IH _ _ H1 E) as (n & H2 & E2). exists (1 + n)%nat.
    rewrite Ec, keep_keep in H2. by rewrite E2.
  - injection E as <-. exists 0%nat. by rewrite keep_0.
Qed.

Lemma evict_while_no_panic g fuel c P : rep c P -> evict_while g fuel c <> Panic.
Proof.
  revert c P. induction fuel as [|fuel IH]; intros c P H; simpl; [done|].
  destruct (g c); [|done].
  destruct (evictOne_rep c P H) as (c1 & -> & H1 & _). by apply (IH _ _ H1).
Qed.

(** The abstract cache never holds more than its limit of entries. *)

Lemma split_key_perm key (l l1 l2 : list (Entry V)) en :
  split_key key l = Some (l1, en, l2) -> l ≡ₚ en :: l1 ++ l2 /\ e_Key en = key.
Proof.
  revert l1 en l2. induction l as [|x l IH]; simpl; intros l1 en l2 H; [done|].
  case_decide; [by injection H as <- <- <-|].
  destruct (split_key key l) as [[[k1 y] k2]|] eqn:E; [|done].
  injection H as <- -> <-. destruct (IH _ _ _ eq_refl) as [Hp Hk]. split; [|done].
  rewrite Hp. apply perm_swap.
Qed.

Lemma split_key_length key (l l1 l2 : list (Entry V)) en :
  split_key key l = Some (l1, en, l2) -> length l = S (length l1 + length l2).
Proof.
  revert l1 en l2. induction l as [|x l IH]; simpl; intros l1 en l2 H; [done|].
  case_decide; [by injection H as <- <- <-|].
  destruct (split_key key l) as [[[k1 y] k2]|] eqn:E; [|done].
  injection H as <- -> <-. rewrite (IH _ _ _ eq_refl). simpl. lia.
Qed.

Lemma make_room_length cfg sz (l : list (Entry V)) :
  0 < MaxEntries cfg -> Z.of_nat (length (make_room cfg sz l)) < MaxEntries cfg.
Proof.
  intros Hm. unfold make_room, evictions_needed; cbv zeta. rewrite <- keep_keep.
  set (l' := keep _ _ l).
  destruct (first_false_spec (over_count cfg l') (length l') 0) as (H & _).
  { by apply over_count_stops. }
  by apply Z.leb_gt in H.
Qed.

Lemma m_exec_frame o (m : model V) :
  MaxEntries (m_config (m_exec o m).1) = MaxEntries (m_config m).
Proof.
  destruct o; simpl; unfold m_Get, m_Set, m_Delete; try done; by repeat case_match.
Qed.

Lemma m_exec_bound o (m : model V) :
  0 < MaxEntries (m_config m) ->
  Z.of_nat (length (m_entries m)) <= MaxEntries (m_config m) ->
  Z.of_nat (length (m_entries (m_exec o m).1)) <= MaxEntries (m_config m).
Proof.
  intros Hm Hl. destruct o; simpl; unfold m_Get, m_Set, m_Delete.
  1-3: destruct (split_key key (m_entries m)) as [[[l1 en] l2]|] eqn:E; simpl;
       [apply split_key_length in E|].
  - repeat case_match; simpl; rewrite ?length_app; simpl; rewrite ?length_app; lia.
  - lia.
  - destruct (Policy _); simpl; rewrite ?length_app; simpl; lia.
  - rewrite (Permutation_length (place_perm _ _ _)). simpl.
    pose proof (make_room_length (m_config m) size (m_entries m) Hm). lia.
  - rewrite length_app. lia.
  - done.
  - pose proof (length_filter (fun en => is_expired (m_config m) now en = false) (m_entries m)). lia.
  - rewrite length_keep. lia.
  - lia.
Qed.

Lemma sim_length c m : sim c m -> length (order c) = length (m_entries m) /\ Len c = Z.of_nat (length (m_entries m)).
Proof.
  intros [H <-]. unfold wf in H. simpl. unfold entries. rewrite length_fmap.
  split; [by rewrite (rep_order _ _ H), length_fmap|].
  unfold Len. f_equal.
  assert (dom (items c) ≡ list_to_set ((fun x => e_Key x.2) <$> pairs c)) as Hd.
  { intros k. rewrite elem_of_dom, elem_of_list_to_set, list_elem_of_fmap. split.
    - intros [e He%(rep_items _ _ H)]. destruct He as (en & Hin & <-). by exists (e, en).
    - intros ([e en] & -> & Hin). exists e. apply (rep_items _ _ H). by exists en. }
  apply leibniz_equiv in Hd. rewrite <- size_dom, Hd, size_list_to_set, length_fmap; [done|].
  apply NoDup_fmap_2_strong.
  - intros [e en] [e' en'] H1 H2 Hk. simpl in Hk.
    by destruct (rep_unique_key _ _ _ _ _ _ H H1 H2 Hk) as [-> ->].
  - apply (NoDup_fmap_1 fst), (rep_nodup _ _ H).
Qed.

Lemma exec_all_refines fuel os c :
  wf c -> 0 < MaxEntries (config c) -> Len c <= MaxEntries (config c) ->
  MaxEntries (config c) < Z.of_nat fuel ->
  exists c' rs, exec_all fuel os c = Ret (c', rs) /\ sim c' (m_exec_all os (abs c)).1 /\
    rs = (m_exec_all os (abs c)).2 /\ Len c' <= MaxEntries (config c).
Proof.
  revert c. induction os as [|o os IH]; intros c H Hm Hl Hf; simpl.
  - exists c, []. done.
  - destruct (sim_length c (abs c)) as [Ho Hn]; [done|].
    destruct (exec_refines fuel o c H Hm) as (c1 & r & -> & [H1 S1] & ->); simpl; [lia|].
    assert (MaxEntries (config c1) = MaxEntries (config c)) as Ec.
    { change (config c1) with (m_config (abs c1)). by rewrite S1, m_exec_frame. }
    destruct (sim_length c1 _ (conj H1 S1)) as [_ Hn1].
    pose proof (m_exec_bound o (abs c) Hm ltac:(simpl in *; lia)) as Hb. simpl in Hb.
    destruct (IH c1) as (c2 & rs & -> & S2 & -> & Hl2); simpl; try (rewrite ?Ec; lia); [done|].
    rewrite S1 in *. do 2 eexists. split; [done|]. split; [done|]. split; [done|]. by rewrite <- Ec.
Qed.

End refine.
