(* ===== verification/CacheProps.v ===== *)
(** The properties of the cache. *)

From S2P Require Import Prelude Cache CacheSpec CacheRefine.

Section props.
Context {V : Type}.
Implicit Types c : Cache V.

Definition empty_model (cfg : Config) : model V := mkModel cfg [] 0 0 0.

Lemma abs_New cfg : abs (New cfg : Cache V) = empty_model cfg.
Proof. done. Qed.

Lemma wf_New cfg : wf (New cfg : Cache V).
Proof. eapply rep_wf, rep_New. Qed.

(** What room for [size] more bytes means when no sum overflows. *)
Definition within (cfg : Config) (size : Z) (l : list (Entry V)) : Prop :=
  (total l + size <= MaxSize cfg \/ l = []) /\ Z.of_nat (length l) < MaxEntries cfg.

Definition sizes_ok (size : Z) (l : list (Entry V)) : Prop :=
  Forall (fun en => 0 <= e_Size en) l /\ 0 <= size /\ total l + size < 2 ^ 63.

Lemma total_nonneg (l : list (Entry V)) : Forall (fun en => 0 <= e_Size en) l -> 0 <= total l.
Proof. intros H. apply sumZ_nonneg, Forall_fmap. done. Qed.

Lemma total_keep pol n (l : list (Entry V)) :
  Forall (fun en => 0 <= e_Size en) l -> 0 <= total (keep pol n l) <= total l.
Proof.
  intros H. destruct (keep_split pol n l) as [r Hr]. rewrite Hr in H.
  apply Forall_app in H as [H1 H2]. rewrite (total_perm _ _ Hr), total_app.
  pose proof (total_nonneg _ H1). pose proof (total_nonneg _ H2). lia.
Qed.

Lemma over_size_false cfg size (l : list (Entry V)) n :
  sizes_ok size l ->
  over_size cfg size l n = false <->
  total (keep (Policy cfg) n l) + size <= MaxSize cfg \/ keep (Policy cfg) n l = [].
Proof.
  intros (H1 & H2 & H3). unfold over_size.
  pose proof (total_keep (Policy cfg) n l H1).
  rewrite wrap_small by (unfold fits; simpl; lia).
  rewrite andb_false_iff, !Z.ltb_ge, <- length_zero_iff_nil. lia.
Qed.

Lemma over_count_false cfg (l : list (Entry V)) n :
  over_count cfg l n = false <-> Z.of_nat (length (keep (Policy cfg) n l)) < MaxEntries cfg.
Proof. unfold over_count. apply Z.leb_gt. Qed.

(** The evictions needed are enough, and no smaller number is. *)
Lemma evictions_needed_least cfg size (l : list (Entry V)) :
  sizes_ok size l -> 0 < MaxEntries cfg ->
  within cfg size (make_room cfg size l) /\
  forall m, within cfg size (keep (Policy cfg) m l) -> (evictions_needed cfg size l <= m)%nat.
Proof.
  intros Hok Hm. unfold make_room, evictions_needed; cbv zeta. rewrite <- keep_keep.
  destruct (first_false_spec (over_size cfg size l) (length l) 0) as (A1 & A2 & A3);
    [by apply over_size_stops|].
  set (n1 := first_false (over_size _ _ _) _ _) in *. set (l1 := keep _ n1 l).
  destruct (first_false_spec (over_count cfg l1) (length l1) 0) as (B1 & B2 & B3);
    [by apply over_count_stops|].
  set (n2 := first_false (over_count _ _) _ _) in *.
  apply over_size_false in A1; [|done]. apply over_count_false in B1.
  destruct Hok as (Hs & H0 & Hb). split; [split; [|done]|].
  - destruct A1 as [A1|A1]; [left|right].
    + subst l1. rewrite keep_keep. destruct (keep_split (Policy cfg) n1 l) as [r Hr].
      rewrite Hr in Hs. apply Forall_app in Hs as [Hs1 _].
      rewrite <- keep_keep. pose proof (total_keep (Policy cfg) n2 _ Hs1). lia.
    + subst l1. rewrite A1. destruct (Policy cfg); simpl; [done|by rewrite drop_nil].
  - intros m [Hsz Hc]. apply (over_size_false cfg size l m (conj Hs (conj H0 Hb))) in Hsz.
    assert (n1 <= m)%nat.
    { destruct (decide (n1 <= m)%nat); [done|]. rewrite A3 in Hsz by lia. done. }
    destruct (decide (n1 + n2 <= m)%nat); [done|].
    assert (over_count cfg l1 (m - n1) = true) as Ht by (apply B3; lia).
    unfold over_count in Ht. subst l1. rewrite keep_keep in Ht.
    replace (n1 + (m - n1))%nat with m in Ht by lia. lia.
Qed.

Lemma Set_new_spec fuel key v size now c :
  wf c -> 0 < MaxEntries (config c) -> (length (order c) < fuel)%nat -> items c !! key = None ->
  exists c', Set_ fuel key v size now c = Ret c' /\ wf c' /\ config c' = config c /\
    entries c' = place (Policy (config c)) (mkEntry key v size now now)
                   (make_room (config c) size (entries c)).
Proof.
  intros H Hm Hf Hn. unfold wf in H.
  apply (rep_items_None _ _ _ H) in Hn.
  destruct (Set_refines fuel key v size now c _ H Hm) as (c' & E & Hw & Ha).
  { rewrite (rep_order _ _ H), length_fmap in Hf. done. }
  exists c'. split; [done|]. split; [done|]. revert Ha.
  unfold m_Set. cbn [m_entries abs]. change (split_key key (entries c) = None) in Hn.
  rewrite Hn. intros [= -> -> _ _ _]. done.
Qed.

Lemma Set_old_spec fuel key v size now c :
  wf c -> 0 < MaxEntries (config c) -> (length (order c) < fuel)%nat ->
  forall l1 en l2, split_key key (entries c) = Some (l1, en, l2) ->
  exists c', Set_ fuel key v size now c = Ret c' /\ wf c' /\ config c' = config c /\
    entries c' = promote (Policy (config c)) (mkEntry (e_Key en) v size (e_CreatedAt en) now) l1 l2.
Proof.
  intros H Hm Hf l1 en l2 Hs. unfold wf in H.
  destruct (Set_refines fuel key v size now c _ H Hm) as (c' & E & Hw & Ha).
  { rewrite (rep_order _ _ H), length_fmap in Hf. done. }
  exists c'. split; [done|]. split; [done|]. revert Ha.
  unfold m_Set. cbn [m_entries abs]. rewrite Hs. intros [= -> -> _ _ _]. done.
Qed.

Lemma wf_size c : wf c -> currentSize c = i64 (total (entries c)).
Proof. intros H. apply (rep_size _ _ H). Qed.

Lemma split_key_place key pol en (l : list (Entry V)) :
  e_Key en = key -> split_key key l = None ->
  exists l1 l2, split_key key (place pol en l) = Some (l1, en, l2).
Proof.
  intros Hk Hn. destruct pol; simpl.
  - rewrite decide_True by done. eauto.
  - induction l as [|x l IH]; simpl in *; [rewrite decide_True by done; eauto|].
    case_decide; [done|]. destruct (split_key key l) as [[[??]?]|]; [done|].
    destruct IH as (l1 & l2 & ->); [done|]. eauto.
Qed.

Lemma split_key_promote key pol en en' (l l1 l2 : list (Entry V)) :
  split_key key l = Some (l1, en, l2) -> e_Key en' = e_Key en ->
  exists k1 k2, split_key key (promote pol en' l1 l2) = Some (k1, en', k2).
Proof.
  revert l1. induction l as [|x l IH]; simpl; intros l1 H Hk; [done|].
  case_decide as E.
  - injection H as <- -> <-. destruct pol; simpl; rewrite decide_True by congruence; eauto.
  - destruct (split_key key l) as [[[m1 y] m2]|] eqn:Es; [|done]. injection H as <- -> <-.
    destruct (IH m1 eq_refl Hk) as (k1 & k2 & IH').
    destruct pol; simpl in *; [|rewrite decide_False by done; rewrite IH'; eauto].
    destruct (decide (e_Key en' = key)); [eauto|]. exfalso.
    clear -Es n Hk. revert m1 Es. induction l as [|z l IH]; simpl; intros m1 Es; [done|].
    case_decide; [injection Es as <- <- <-; congruence|].
    destruct (split_key key l) as [[[??]?]|]; [|done]. injection Es as <- -> <-. eauto.
Qed.

Lemma Get_present key now c l1 en l2 :
  wf c -> split_key key (entries c) = Some (l1, en, l2) ->
  exists c', Get key now c =
    Ret (c', if MaxAge (config c) <? time_Sub now (e_CreatedAt en) then None else Some (e_Value en)).
Proof.
  intros H Hs. destruct (Get_refines key now c _ H) as (c' & r & -> & _ & ->).
  exists c'. do 2 f_equal. unfold m_Get; cbn [m_entries m_config abs]. rewrite Hs.
  unfold is_expired. by case_match.
Qed.

End props.

(** ** Claims *)

(** C12: the cache behaves as a list of entries.  From [New cfg] with a positive
    entry limit (without one, inserting never returns), every sequence of [Get],
    [Set], [Delete], [Cleanup], [ReduceSize] and [Clear] returns - no nil
    dereference, no endless loop, with more fuel than the entry limit -, its
    replies are those of the abstract cache run on the same sequence, and so are
    its entries, its configuration and its counters of hits, misses and
    evictions, of which only the entries removed to make room count. *)
Theorem cache_run_refines {V} (cfg : Config) (os : list (op V)) (fuel : nat) :
  0 < MaxEntries cfg -> MaxEntries cfg < Z.of_nat fuel ->
  let '(m, replies) := m_exec_all os (empty_model cfg) in
  exists c, exec_all fuel os (New cfg) = Ret (c, replies) /\ abs c = m /\
    s_Hits (Stats c) = m_hits m /\ s_Misses (Stats c) = m_misses m /\ s_Evictions (Stats c) = m_evictions m.
Proof.
  intros Hm Hf.
  destruct (exec_all_refines fuel os (New cfg)) as (c & rs & E & [_ Ha] & -> & _);
    [apply wf_New|done|by apply Z.lt_le_incl|done|]. rewrite abs_New in *.
  destruct (m_exec_all os (empty_model cfg)) as [m replies]. cbn [fst snd] in *. exists c. split; [done|]. by subst m.
Qed.

Lemma cache_run_refines_witness :
  let os := [OSet "a" 1%nat 10 0; OSet "b" 2%nat 10 1; OGet "a" 2; OSet "c" 3%nat 10 3;
             OGet "b" 4; OGet "a" 5] in
  exists c, exec_all 3 os (New (mkConfig 100 Minute 2 LRU)) =
    Ret (c, [RNone; RNone; RValue (Some 1%nat); RNone; RValue None; RValue (Some 1%nat)]) /\
    s_Hits (Stats c) = 2 /\ s_Misses (Stats c) = 1 /\ s_Evictions (Stats c) = 1.
Proof.
  intros os.
  destruct (cache_run_refines (mkConfig 100 Minute 2 LRU) os 3) as (c & E & _ & H);
    [reflexivity..|].
  exists c. exact (conj E H).
Defined.

(** C35: the cache respects its entry limit and its book-keeping stays
    consistent: after any sequence of operations the map has as many keys as the list
    has elements, at most [MaxEntries], and [currentSize] is the sum of the
    sizes of the entries in 64-bit arithmetic. *)
Theorem cache_run_bounded {V} (cfg : Config) (os : list (op V)) (fuel : nat) c rs :
  0 < MaxEntries cfg -> MaxEntries cfg < Z.of_nat fuel ->
  exec_all fuel os (New cfg) = Ret (c, rs) ->
  Len c = order_Len c /\ Len c <= MaxEntries cfg /\ currentSize c = i64 (total (entries c)).
Proof.
  intros Hm Hf E.
  destruct (exec_all_refines fuel os (New cfg)) as (c' & rs' & E' & S & _ & Hl);
    [apply wf_New|done|by apply Z.lt_le_incl|done|].
  rewrite E in E'. injection E' as <- <-.
  destruct (sim_length _ _ S) as [H1 H2]. destruct S as [Hw _].
  split_and!; [by rewrite H2, <- H1|done|by apply wf_size].
Qed.

Lemma cache_run_bounded_witness :
  let os := [OSet "a" 1%nat 10 0; OSet "b" 2%nat 10 1; OSet "c" 3%nat 10 3] in
  match exec_all 3 os (New (mkConfig 100 Minute 2 FIFO)) with
  | Ret (c, _) => Len c <= 2
  | _ => False
  end.
Proof.
  intros os.
  assert (exists p, exec_all 3 os (New (mkConfig 100 Minute 2 FIFO)) = Ret p) as [[c rs] E]
    by (eexists; vm_compute; reflexivity).
  rewrite E.
  exact (proj1 (proj2 (cache_run_bounded (mkConfig 100 Minute 2 FIFO) os 3 c rs
    eq_refl eq_refl E))).
Defined.

(** C31: inserting a new key evicts as little as possible.  With non-negative
    sizes that do not overflow, [Set] of an absent key returns, puts the new
    entry at the end that the policy says, and keeps of the old entries what
    the smallest number of evictions leaves that makes room within both
    limits. *)
Theorem Set_evicts_least {V} (fuel : nat) key (v : V) size now c :
  wf c -> 0 < MaxEntries (config c) -> (length (order c) < fuel)%nat ->
  items c !! key = None -> sizes_ok size (entries c) ->
  exists c' n, Set_ fuel key v size now c = Ret c' /\
    entries c' = place (Policy (config c)) (mkEntry key v size now now)
                   (keep (Policy (config c)) n (entries c)) /\
    within (config c) size (keep (Policy (config c)) n (entries c)) /\
    forall m, within (config c) size (keep (Policy (config c)) m (entries c)) -> (n <= m)%nat.
Proof.
  intros H Hm Hf Hn Hok.
  destruct (Set_new_spec fuel key v size now c H Hm Hf Hn) as (c' & E & _ & _ & He).
  destruct (evictions_needed_least (config c) size (entries c) Hok Hm) as [A B].
  by exists c', (evictions_needed (config c) size (entries c)).
Qed.

(** A cache that is full. *)
Definition demo_full : Cache nat :=
  match Set_ 1 "z" 1%nat 5 0 (New (mkConfig 10 Minute 1 LRU)) with Ret c => c | _ => New (mkConfig 10 Minute 1 LRU) end.

Lemma Set_evicts_least_witness :
  exists c' n, Set_ 2 "a" 7%nat 5 0 demo_full = Ret c' /\
    entries c' = place LRU (mkEntry "a" 7%nat 5 0 0) (keep LRU n [mkEntry "z" 1%nat 5 0 0]) /\ (0 < n)%nat.
Proof.
  destruct (Set_evicts_least 2 "a" 7%nat 5 0 demo_full) as (c' & n & E & H & [_ Hw] & _).
  - destruct (Set_new_spec 1 "z" 1%nat 5 0 (New (mkConfig 10 Minute 1 LRU))) as (c & E & Hc & _);
      [apply wf_New|done|cbn; lia|done|]. unfold demo_full. by rewrite E.
  - reflexivity.
  - vm_compute. lia.
  - reflexivity.
  - split; [|split; [lia|by vm_compute]]. vm_compute. repeat constructor. discriminate.
  - exists c', n. split; [exact E|]. split; [exact H|]. destruct n; [by vm_compute in Hw|lia].
Defined.

(** An entry that fits the cache does not make it overflow: after
    inserting an absent key with a size of at most [MaxSize] the cache uses at
    most [MaxSize] bytes, however full it was. *)
Theorem Set_size_bound {V} (fuel : nat) key (v : V) size now c c' :
  wf c -> 0 < MaxEntries (config c) -> (length (order c) < fuel)%nat ->
  items c !! key = None -> sizes_ok size (entries c) -> size <= MaxSize (config c) ->
  Set_ fuel key v size now c = Ret c' -> currentSize c' <= MaxSize (config c).
Proof.
  intros H Hm Hf Hn Hok Hs E.
  destruct (Set_new_spec fuel key v size now c H Hm Hf Hn) as (c1 & E1 & H1 & _ & He).
  rewrite E in E1. injection E1 as <-.
  destruct (evictions_needed_least (config c) size (entries c) Hok Hm) as [[A _] _].
  rewrite (wf_size _ H1), He, (total_perm _ _ (place_perm _ _ _)).
  change (total (mkEntry key v size now now :: ?l)) with (size + total l).
  destruct Hok as (Hp & H0 & Hb). unfold make_room in *.
  pose proof (total_keep (Policy (config c)) (evictions_needed (config c) size (entries c)) _ Hp).
  rewrite wrap_small by (unfold fits; simpl; lia).
  destruct A as [A|A]; [lia|]. rewrite A. unfold total. simpl. lia.
Qed.

Lemma Set_size_bound_witness :
  exists c', Set_ 1 "a" 7%nat 5 0 (New (mkConfig 10 Minute 1 FIFO)) = Ret c' /\ currentSize c' <= 10.
Proof.
  eexists. split; [vm_compute; reflexivity|].
  apply (Set_size_bound 1 "a" 7%nat 5 0 (New (mkConfig 10 Minute 1 FIFO))).
  - apply wf_New.
  - reflexivity.
  - simpl; lia.
  - reflexivity.
  - split; [constructor|]. split; [lia|]. reflexivity.
  - simpl; lia.
  - vm_compute. reflexivity.
Defined.

(** A cache configured with a non-positive entry limit never returns from
    inserting a new key: the count loop of [evictIfNeeded] has no emptiness
    check, so it is still running after any number of iterations. *)
Theorem Set_hangs_without_entries {V} (fuel : nat) key (v : V) size now c :
  wf c -> MaxEntries (config c) <= 0 -> items c !! key = None ->
  Set_ fuel key v size now c = Hang.
Proof.
  intros H Hm Hn. unfold Set_. rewrite Hn.
  enough (evictIfNeeded fuel size c = Hang) as -> by done.
  unfold evictIfNeeded. unfold wf in H. destruct (decide (length (pairs c) < fuel)%nat) as [Hf|Hf].
  - destruct (evict_for_size_rep fuel size c _ H Hf) as (c1 & -> & H1 & (E1 & _)); simpl.
    rewrite evict_for_count_while. apply (evict_while_hang _ _ _ _ H1).
    intros m c' H' E'. cbv beta. rewrite E', E1.
    apply Z.leb_le. unfold order_Len. lia.
  - destruct (evict_for_size fuel size c) as [c1| |] eqn:E; try done; simpl.
    + rewrite evict_for_count_while.
      rewrite evict_for_size_while in E.
      destruct (evict_while_inv _ _ _ _ _ H E) as (n & H1 & E1).
      apply (evict_while_hang _ _ _ _ H1). intros m c' H' E'. cbv beta. rewrite E', E1.
    apply Z.leb_le. unfold order_Len. lia.
    + rewrite evict_for_size_while in E. by apply (evict_while_no_panic _ _ _ _ H) in E.
Qed.

Lemma Set_hangs_without_entries_witness :
  Set_ 1000 "a" 7%nat 5 0 (New (mkConfig 10 Minute 0 LRU)) = Hang.
Proof.
  apply Set_hangs_without_entries; [apply wf_New|simpl; lia|reflexivity].
Defined.

(** A value that was stored is found again until it expires: after
    [Set] of an absent key, [Get] of that key returns the value exactly while
    the time since the insertion is at most [MaxAge]. *)
Theorem Get_after_Set {V} (fuel : nat) key (v : V) size now later c c' :
  wf c -> 0 < MaxEntries (config c) -> (length (order c) < fuel)%nat ->
  items c !! key = None -> Set_ fuel key v size now c = Ret c' ->
  exists c'', Get key later c' =
    Ret (c'', if MaxAge (config c) <? time_Sub later now then None else Some v).
Proof.
  intros H Hm Hf Hn E.
  destruct (Set_new_spec fuel key v size now c H Hm Hf Hn) as (c1 & E1 & H1 & Ec & He).
  rewrite E in E1. injection E1 as <-.
  destruct (split_key_place key (Policy (config c)) (mkEntry key v size now now)
    (make_room (config c) size (entries c)) eq_refl) as (l1 & l2 & Hs).
  { apply split_key_keep. by apply (rep_items_None _ _ _ H). }
  rewrite <- He in Hs. rewrite <- Ec. apply (Get_present key later c' _ _ _ H1 Hs).
Qed.

Lemma Get_after_Set_witness :
  exists c' c'', Set_ 1 "a" 7%nat 5 0 (New (mkConfig 10 Minute 1 LRU)) = Ret c' /\
    Get "a" Minute c' = Ret (c'', Some 7%nat).
Proof.
  assert (exists c', Set_ 1 "a" 7%nat 5 0 (New (mkConfig 10 Minute 1 LRU)) = Ret c') as [c' E]
    by (eexists; vm_compute; reflexivity).
  destruct (Get_after_Set 1 "a" 7%nat 5 0 Minute (New (mkConfig 10 Minute 1 LRU)) c')
    as [c'' G]; [apply wf_New|reflexivity|simpl; lia|reflexivity|exact E|].
  exists c', c''. exact (conj E G).
Defined.

(** Overwriting a key neither renews its age nor enforces the size limit:
    [Set] of a present key keeps the number of entries whatever the new size,
    sets [currentSize] to the wrapped sum with the new size, and a later [Get]
    still measures the age of the value from the first insertion. *)
Theorem Set_overwrite {V} (fuel : nat) key (v : V) size now later c l1 en l2 :
  wf c -> 0 < MaxEntries (config c) -> (length (order c) < fuel)%nat ->
  split_key key (entries c) = Some (l1, en, l2) ->
  exists c' c'', Set_ fuel key v size now c = Ret c' /\
    length (entries c') = length (entries c) /\
    currentSize c' = i64 (total (entries c) - e_Size en + size) /\
    Get key later c' =
      Ret (c'', if MaxAge (config c) <? time_Sub later (e_CreatedAt en) then None else Some v).
Proof.
  intros H Hm Hf Hs.
  destruct (Set_old_spec fuel key v size now c H Hm Hf _ _ _ Hs) as (c' & E & H1 & Ec & He).
  set (en' := mkEntry (e_Key en) v size (e_CreatedAt en) now) in *.
  destruct (split_key_promote key (Policy (config c)) en en' _ _ _ Hs eq_refl) as (k1 & k2 & Hs').
  rewrite <- He in Hs'. destruct (Get_present key later c' _ _ _ H1 Hs') as [c'' G].
  exists c', c''. split; [done|].
  destruct (split_key_perm _ _ _ _ _ Hs) as [Hp Hl].
  assert (entries c' ≡ₚ en' :: l1 ++ l2) as Hp'.
  { rewrite He. destruct (Policy (config c)); simpl; by rewrite ?Permutation_middle. }
  split_and!.
  - rewrite Hp', Hp. done.
  - rewrite (wf_size _ H1), (total_perm _ _ Hp'), (total_perm _ _ Hp).
    f_equal. unfold total. simpl. lia.
  - rewrite G, Ec. done.
Qed.

Lemma Set_overwrite_witness :
  exists c, Set_ 1 "a" 7%nat 5 0 (New (mkConfig 10 Minute 1 LRU)) = Ret c /\
  exists c' c'', Set_ 2 "a" 8%nat 50 Minute c = Ret c' /\ currentSize c' = 50 /\
    Get "a" (Minute + 1) c' = Ret (c'', None).
Proof.
  eexists. split; [vm_compute; reflexivity|].
  match goal with |- exists c' c'', Set_ _ _ _ _ _ ?c = _ /\ _ =>
    assert (wf c) as H; [apply (rep_wf _ [(1%positive, mkEntry "a" 7%nat 5 0 0)])
    | destruct (Set_overwrite 2 "a" 8%nat 50 Minute (Minute + 1) c [] (mkEntry "a" 7%nat 5 0 0) [] H)
        as (c' & c'' & E1 & _ & E2 & E3);
      [reflexivity|simpl; lia|vm_compute; reflexivity|exists c', c''; exact (conj E1 (conj E2 E3))]]
  end.
  split; try reflexivity.
  - repeat constructor. set_solver.
  - intros e en Hin. apply list_elem_of_singleton in Hin. injection Hin as -> ->. reflexivity.
  - intros k e. change ((<["a" := 1%positive]> (∅ : gmap string loc)) !! k = Some e <->
      exists en, (e, en) ∈ [(1%positive, mkEntry "a" 7%nat 5 0 0)] /\ e_Key en = k).
    rewrite lookup_insert_Some. split.
    + intros [[<- <-]|[_ Hk]]; [eexists; split; [by left|done]|]. by rewrite lookup_empty in Hk.
    + intros (en & Hin & <-). apply list_elem_of_singleton in Hin. injection Hin as -> ->. by left.
  - intros e en. change ((<[1%positive := mkEntry "a" 7%nat 5 0 0]> (∅ : gmap loc (Entry nat))) !! e =
      Some en -> (e < 2)%positive).
    rewrite lookup_insert_Some. intros [[<- _]|[_ Hk]]; [done|]. by rewrite lookup_empty in Hk.
Defined.
