(* ===== verification/Detection.v ===== *)
(** The detection layer (internal/detection): the expression evaluator with its
    program cache, the state store, and the engine that evaluates the loaded
    scenarios on every input, counts matches against thresholds and emits
    results. *)

From S2P Require Import Prelude Types.

(** * The expression language

    cel-go is not part of the repository.  The class lists the calls of
    [cel_evaluator.go] into it, nothing is assumed of them. *)

Class CELEnv (Data : Type) := {
  Ast : Type;
  Program : Type;
  RefVal : Type;
  env_Compile : string -> result Ast;
  OutputType : Ast -> string;
  env_Program : Ast -> result Program;
  prog_Eval : Program -> Data -> gmap string string -> gmap string string -> result RefVal;
  val_Type : RefVal -> string;
  val_bool : RefVal -> option bool;
  val_show : RefVal -> string;
}.
Arguments Program Data {_}.
Arguments RefVal Data {_}.
Arguments Ast Data {_}.

Definition BoolType : string := "bool".

Section evaluator.
Context {Data : Type} `{CEL : CELEnv Data}.

(** [CELEvaluator.cache]: compiled programs by expression. *)
Abbreviation progcache := (gmap string (Program Data)).

(** The path of [Compile] after a cache miss. *)
Definition compile_fresh (expression : string) : result (Program Data) :=
  match env_Compile expression with
  | Err e => Err ("CEL compilation error: " +:+ e)
  | Ok ast =>
    if decide (OutputType ast = BoolType) then
      match env_Program ast with
      | Err e => Err ("CEL program creation error: " +:+ e)
      | Ok prog => Ok prog
      end
    else Err ("CEL expression must return bool, got " +:+ OutputType ast)
  end.

Definition Compile (expression : string) (cache : progcache)
  : progcache * result (Program Data) :=
  match cache !! expression with
  | Some prog => (cache, Ok prog)
  | None =>
    match compile_fresh expression with
    | Err e => (cache, Err e)
    | Ok prog => (<[expression := prog]> cache, Ok prog)
    end
  end.

Definition boolFromRef (val : RefVal Data) : result bool :=
  if decide (val_Type val = BoolType) then
    match val_bool val with
    | Some b => Ok b
    | None => Err ("CEL expression returned non-bool value: " +:+ val_show val)
    end
  else Err ("CEL expression returned " +:+ val_Type val +:+ ", expected bool").

Definition EvalProgram (prog : Program Data) (data : Data) (resource labels : gmap string string)
  : result bool :=
  match prog_Eval prog data resource labels with
  | Err e => Err ("CEL evaluation error: " +:+ e)
  | Ok out => boolFromRef out
  end.

Definition Evaluate (expression : string) (data : Data) (resource labels : gmap string string)
    (cache : progcache) : progcache * result bool :=
  match Compile expression cache with
  | (cache, Err e) => (cache, Err e)
  | (cache, Ok prog) => (cache, EvalProgram prog data resource labels)
  end.

End evaluator.

(** * Scenarios *)

Record ResourceFilter := mkFilter { rf_Kind : string; rf_APIVersion : string }.
Record ThresholdConfig := mkThreshold { th_Count : Z; th_Window : Z }.

Record LoadedScenario := mkScenario {
  sc_ID : string;
  sc_Name : string;
  sc_Enabled : bool;
  sc_Severity : Severity;
  sc_Source : string;
  sc_Expression : string;
  sc_Resource : option ResourceFilter;
  sc_Threshold : option ThresholdConfig;
  sc_Actions : list ActionConfig;
}.

(** * The state store *)

Section store.
Implicit Types states : gmap string DetectionState.

Definition GetState (key : string) states : option DetectionState := states !! key.
Definition SetState (key : string) (st : DetectionState) states : gmap string DetectionState :=
  <[key := st]> states.
Definition DeleteState (key : string) states : gmap string DetectionState := delete key states.

Definition state_expired (stateExpiration now : Z) (st : DetectionState) : bool :=
  time_Before (ds_LastDetected st) (time_Add now (- stateExpiration)).

Definition Cleanup (stateExpiration now : Z) states : gmap string DetectionState * nat :=
  (filter (fun x => state_expired stateExpiration now x.2 = false) states,
   size (filter (fun x => state_expired stateExpiration now x.2 = true) states)).
End store.

(** * The engine *)

Section engine.
Context {Data : Type} `{CEL : CELEnv Data}.
(** [time.Now().Format("20060102150405.000000")] in the zone of the process. *)
Context (formatID : Z -> string).

Record engine := mkEngine {
  scenarios : gmap string LoadedScenario;
  celCache : gmap string (Program Data);
  states : gmap string DetectionState;
  outputCh : chan DetectionResult;
}.

Definition set_states (st : gmap string DetectionState) (e : engine) : engine :=
  mkEngine (scenarios e) (celCache e) st (outputCh e).
Definition set_out (ch : chan DetectionResult) (e : engine) : engine :=
  mkEngine (scenarios e) (celCache e) (states e) ch.
Definition set_cel (c : gmap string (Program Data)) (e : engine) : engine :=
  mkEngine (scenarios e) c (states e) (outputCh e).
Definition set_scenarios (s : gmap string LoadedScenario) (e : engine) : engine :=
  mkEngine s (celCache e) (states e) (outputCh e).

Definition newEngineImpl (cap : nat) : engine := mkEngine ∅ ∅ ∅ (Chan [] cap).

Definition resourceMap (r : ResourceReference) : gmap string string :=
  <["apiVersion" := APIVersion r]> (<["kind" := Kind r]> (<["namespace" := Namespace r]>
    (<["name" := Name r]> (<["uid" := UID r]> ∅)))).

(** [optional_mismatch want have]: the filter is set and differs. *)
Definition optional_mismatch (want have : string) : bool :=
  negb (bool_decide (want = "")) && negb (bool_decide (want = have)).

Definition filter_rejects (f : option ResourceFilter) (r : ResourceReference) : bool :=
  match f with
  | None => false
  | Some f => optional_mismatch (rf_Kind f) (Kind r)
              || optional_mismatch (rf_APIVersion f) (APIVersion r)
  end.

(** The evaluator is never nil: [newEngineImpl] fails when it cannot be made. *)
Definition evaluateScenario (s : LoadedScenario) (input : DetectionInput Data) (e : engine)
  : engine * result bool :=
  if optional_mismatch (sc_Source s) (di_Source input) then (e, Ok false)
  else if filter_rejects (sc_Resource s) (di_Resource input) then (e, Ok false)
  else if decide (sc_Expression s = "") then (e, Ok false)
  else
    let '(cache, r) := Evaluate (sc_Expression s) (di_Data input)
                         (resourceMap (di_Resource input)) (di_Labels input) (celCache e) in
    (set_cel cache e, r).

Definition sendResult (r : DetectionResult) (e : engine) : engine :=
  set_out (try_send (outputCh e) r).1 e.

(** The state [handleMatch] starts from, before the threshold is checked. *)
Definition advance (s : LoadedScenario) (input : DetectionInput Data)
    (old : option DetectionState) : DetectionState :=
  let now := di_Timestamp input in
  match old with
  | None => mkDetectionState (sc_ID s) (di_Resource input) now now 1 false now
  | Some st =>
    if match sc_Threshold s with
       | Some th => th_Window th <? time_Sub now (ds_WindowStart st)
       | None => false
       end
    then mkDetectionState (ds_ScenarioID st) (ds_Resource st) now now 1 (ds_ThresholdMet st) now
    else mkDetectionState (ds_ScenarioID st) (ds_Resource st) (ds_FirstDetected st) now
           (i64 (ds_DetectionCount st + 1)) (ds_ThresholdMet st) (ds_WindowStart st)
  end.

Definition threshold_reached (s : LoadedScenario) (st : DetectionState) : bool :=
  match sc_Threshold s with
  | None => true
  | Some th => th_Count th <=? ds_DetectionCount st
  end.

Definition mark_met (st : DetectionState) : DetectionState :=
  mkDetectionState (ds_ScenarioID st) (ds_Resource st) (ds_FirstDetected st)
    (ds_LastDetected st) (ds_DetectionCount st) true (ds_WindowStart st).

Definition mk_result (s : LoadedScenario) (input : DetectionInput Data) (wall : Z)
    (st : DetectionState) : DetectionResult :=
  mkDetectionResult (formatID wall) (sc_ID s) (sc_Name s) (di_Resource input) (sc_Severity s)
    (ds_FirstDetected st) (ds_LastDetected st) (ds_DetectionCount st) true
    ("Scenario '" +:+ sc_Name s +:+ "' triggered: " +:+ pretty (ds_DetectionCount st)
      +:+ " occurrence(s)")
    (sc_Actions s).

(** [wall] is the clock reading of [generateID]. *)
Definition handleMatch (s : LoadedScenario) (input : DetectionInput Data) (wall : Z) (e : engine)
  : engine :=
  let stateKey := StateKey (sc_ID s) (di_Resource input) in
  let now := di_Timestamp input in
  let old := GetState stateKey (states e) in
  match old with
  | Some st =>
    if ds_ThresholdMet st then
      let st' := mkDetectionState (ds_ScenarioID st) (ds_Resource st) (ds_FirstDetected st) now
                   (ds_DetectionCount st) true (ds_WindowStart st) in
      set_states (SetState stateKey st' (states e)) e
    else
      let st' := advance s input old in
      if threshold_reached s st' then
        let e := sendResult (mk_result s input wall (mark_met st')) e in
        set_states (SetState stateKey (mark_met st') (states e)) e
      else set_states (SetState stateKey st' (states e)) e
  | None =>
    let st' := advance s input old in
    if threshold_reached s st' then
      let e := sendResult (mk_result s input wall (mark_met st')) e in
      set_states (SetState stateKey (mark_met st') (states e)) e
    else set_states (SetState stateKey st' (states e)) e
  end.

(** The enabled scenarios, in some order: Go ranges over a map. *)
Definition enabled (e : engine) : list LoadedScenario :=
  filter (fun s => sc_Enabled s = true) (snd <$> map_to_list (scenarios e)).

Definition process_one (input : DetectionInput Data) (wall : LoadedScenario -> Z)
    (e : engine) (s : LoadedScenario) : engine :=
  match evaluateScenario s input e with
  | (e, Err _) => e
  | (e, Ok matched) => if matched then handleMatch s input (wall s) e else e
  end.

(** [order] is the order in which the copied scenarios are visited. *)
Definition processInput (order : list LoadedScenario) (input : DetectionInput Data)
    (wall : LoadedScenario -> Z) (e : engine) : engine :=
  foldl (process_one input wall) e order.

(** ** Loading *)

(** The [%q] verb, for a name without characters to escape. *)
Definition quote (s : string) : string :=
  let q := String (Ascii.ascii_of_nat 34) EmptyString in q +:+ s +:+ q.

Definition RegisterScenario (s : LoadedScenario) (e : engine) : engine * result () :=
  let '(e, r) :=
    if decide (sc_Expression s = "") then (e, Ok ())
    else match Compile (sc_Expression s) (celCache e) with
         | (cache, Err m) => (set_cel cache e,
             Err ("invalid CEL expression for scenario " +:+ quote (sc_Name s) +:+ ": " +:+ m))
         | (cache, Ok _) => (set_cel cache e, Ok ())
         end in
  match r with
  | Err m => (e, Err m)
  | Ok _ => (set_scenarios (<[sc_ID s := s]> (scenarios e)) e, Ok ())
  end.

(** The registration loop: errors are logged and skipped; [count] counts the
    scenarios registered. *)
Definition register_all (l : list LoadedScenario) (e : engine) : engine * nat :=
  foldl (fun ec s => match RegisterScenario s ec.1 with
                     | (e, Err _) => (e, ec.2)
                     | (e, Ok _) => (e, S ec.2)
                     end) (e, O) l.

(** [loader] is [None] when no loader is configured, otherwise what it returns. *)
Definition loadScenarios (loader : option (result (list LoadedScenario))) (clearFirst : bool)
    (e : engine) : engine :=
  let e := if clearFirst then set_scenarios ∅ e else e in
  match loader with
  | None => e
  | Some (Err _) => e
  | Some (Ok l) => (register_all l e).1
  end.

Definition LoadScenarios loader e : engine := loadScenarios loader false e.
Definition ReloadScenarios loader e : engine := loadScenarios loader true e.
Definition GetLoadedScenarios (e : engine) : nat := size (scenarios e).

(** A tick of [cleanupLoop]. *)
Definition cleanup_tick (stateExpiration now : Z) (e : engine) : engine :=
  set_states (Cleanup stateExpiration now (states e)).1 e.

(** ** The engine as a transition system

    [Run] takes an input, copies the enabled scenarios in some order, and
    evaluates them one by one.  The cleanup goroutine, the reload callback and
    the receiver of the output channel may run between any two evaluations.
    The second component of a configuration is the input being processed with
    the scenarios still to visit; the label says which of these happens. *)

Abbreviation econf := (engine * option (DetectionInput Data * list LoadedScenario))%type.

Inductive elabel :=
  | LBegin (input : DetectionInput Data)
  | LEval
  | LEnd
  | LCleanup
  | LLoad
  | LRecv (r : DetectionResult).

Inductive step : econf -> elabel -> econf -> Prop :=
  | step_begin e order input :
      order ≡ₚ enabled e -> step (e, None) (LBegin input) (e, Some (input, order))
  | step_eval e input s rest wall :
      step (e, Some (input, s :: rest)) LEval (process_one input wall e s, Some (input, rest))
  | step_end e input : step (e, Some (input, [])) LEnd (e, None)
  | step_cleanup e p exp now : step (e, p) LCleanup (cleanup_tick exp now e, p)
  | step_load e p loader clear : step (e, p) LLoad (loadScenarios loader clear e, p)
  | step_recv e p r ch :
      chan_recv (outputCh e) = Some (r, ch) -> step (e, p) (LRecv r) (set_out ch e, p).

Inductive trace : econf -> list elabel -> econf -> Prop :=
  | trace_nil c : trace c [] c
  | trace_cons c1 l c2 ls c3 : step c1 l c2 -> trace c2 ls c3 -> trace c1 (l :: ls) c3.

(** The configurations of an engine whose output channel has [cap] slots. *)
Definition reachable (cap : nat) (c : econf) : Prop :=
  exists ls, trace (newEngineImpl cap, None) ls c.

End engine.
Arguments engine Data {_}.
Arguments elabel Data : clear implicits.
