(* ===== verification/DetectionLemmas.v ===== *)
(** Lemmas about the detection layer: the program cache is transparent, an input
    acts on the records, the cache and the output channel separately, and the
    invariant that every step of the engine keeps. *)

From S2P Require Import Prelude Types Detection.

Section evaluator.
Context {Data : Type} `{CEL : CELEnv Data}.
Implicit Types cache : gmap string (Program Data).

(** A cache is sound when it holds what a fresh compilation gives. *)
Definition cache_sound cache : Prop :=
  forall x p, cache !! x = Some p -> compile_fresh x = Ok p.

Lemma Compile_sound x cache :
  cache_sound cache -> cache_sound (Compile x cache).1 /\ (Compile x cache).2 = compile_fresh x.
Proof.
  intros H. unfold Compile. destruct (cache !! x) as [p|] eqn:E; simpl.
  - split; [done|]. by rewrite (H _ _ E).
  - destruct (compile_fresh x) as [p|m] eqn:F; simpl; [|done].
    split; [|done]. intros y q. rewrite lookup_insert_Some. intros [[<- <-]|[_ Hq]]; eauto.
Qed.

Lemma Compile_grows x y cache : is_Some (cache !! y) -> is_Some ((Compile x cache).1 !! y).
Proof.
  unfold Compile. repeat case_match; simpl; try done.
  intros. rewrite lookup_insert. case_decide; eauto.
Qed.

Lemma Compile_adds x cache p : (Compile x cache).2 = Ok p -> is_Some ((Compile x cache).1 !! x).
Proof. unfold Compile. repeat case_match; simpl; intros; inv_ok; rewrite ?lookup_insert_eq; eauto. Qed.

(** Cache contents after evaluating or compiling in any order. *)
Lemma Compile_lookup x y cache :
  cache_sound cache ->
  (Compile x cache).1 !! y =
    if decide (x = y) then match compile_fresh x with Ok p => Some p | Err _ => cache !! x end
    else cache !! y.
Proof.
  intros H. unfold Compile. destruct (cache !! x) as [p|] eqn:E; simpl.
  - case_decide; [subst|done]. by rewrite E, (H _ _ E).
  - destruct (compile_fresh x) as [p|m] eqn:F; simpl.
    + rewrite lookup_insert. done.
    + case_decide; [by subst|done].
Qed.

Lemma Compile_comm x y cache :
  cache_sound cache ->
  (Compile x (Compile y cache).1).1 = (Compile y (Compile x cache).1).1.
Proof.
  intros H. apply map_eq. intros z.
  destruct (Compile_sound x cache H) as [Hx _]. destruct (Compile_sound y cache H) as [Hy _].
  rewrite !Compile_lookup by done. repeat case_decide; subst; try done; by repeat case_match.
Qed.

End evaluator.

Section engine.
Context {Data : Type} `{CEL : CELEnv Data}.
Context (formatID : Z -> string).
Implicit Types e : engine Data.
Implicit Types input : DetectionInput Data.

(** ** Evaluation without the cache *)

Lemma optional_mismatch_false want have :
  optional_mismatch want have = false <-> want = "" \/ want = have.
Proof.
  unfold optional_mismatch. repeat case_bool_decide; simpl; naive_solver.
Qed.

Lemma filter_rejects_false f r :
  filter_rejects f r = false <->
  forall f', f = Some f' -> (rf_Kind f' = "" \/ rf_Kind f' = Kind r) /\
                            (rf_APIVersion f' = "" \/ rf_APIVersion f' = APIVersion r).
Proof.
  destruct f as [f|]; simpl; [|naive_solver].
  rewrite orb_false_iff, !optional_mismatch_false. naive_solver.
Qed.

Definition eval_spec (s : LoadedScenario) input : result bool :=
  if optional_mismatch (sc_Source s) (di_Source input) then Ok false
  else if filter_rejects (sc_Resource s) (di_Resource input) then Ok false
  else if decide (sc_Expression s = "") then Ok false
  else match compile_fresh (sc_Expression s) with
       | Err m => Err m
       | Ok prog => EvalProgram prog (di_Data input) (resourceMap (di_Resource input)) (di_Labels input)
       end.

(** The part of the cache that evaluating [s] on [input] compiles. *)
Definition compiles (s : LoadedScenario) input : bool :=
  negb (optional_mismatch (sc_Source s) (di_Source input)) &&
  negb (filter_rejects (sc_Resource s) (di_Resource input)) &&
  negb (bool_decide (sc_Expression s = "")).

Definition cel_after (s : LoadedScenario) input (cache : gmap string (Program Data)) :=
  if compiles s input then (Compile (sc_Expression s) cache).1 else cache.

Lemma set_cel_id e : set_cel (celCache e) e = e.
Proof. by destruct e. Qed.

Lemma evaluateScenario_spec s input e :
  cache_sound (celCache e) ->
  evaluateScenario s input e = (set_cel (cel_after s input (celCache e)) e, eval_spec s input).
Proof.
  intros H. unfold evaluateScenario, eval_spec, cel_after, compiles.
  destruct (optional_mismatch _ _); simpl; [by rewrite set_cel_id|].
  destruct (filter_rejects _ _); simpl; [by rewrite set_cel_id|].
  case_bool_decide; case_decide; try done; simpl; [by rewrite set_cel_id|].
  unfold Evaluate. destruct (Compile_sound (sc_Expression s) (celCache e) H) as [_ Hr].
  destruct (Compile _ _) as [cache [p|m]]; simpl in *; by rewrite <- Hr.
Qed.

Lemma cel_after_sound s input cache : cache_sound cache -> cache_sound (cel_after s input cache).
Proof. intros. unfold cel_after. case_match; [by apply Compile_sound|done]. Qed.

Lemma cel_after_grows s input cache x :
  is_Some (cache !! x) -> is_Some (cel_after s input cache !! x).
Proof. unfold cel_after. case_match; [apply Compile_grows|done]. Qed.

(** ** One match *)

Definition touch_state (now : Z) (st : DetectionState) : DetectionState :=
  mkDetectionState (ds_ScenarioID st) (ds_Resource st) (ds_FirstDetected st) now
    (ds_DetectionCount st) true (ds_WindowStart st).

Definition is_met (old : option DetectionState) : bool :=
  match old with Some st => ds_ThresholdMet st | None => false end.

(** The record after a match, and the result it gives rise to. *)
Definition match_step (s : LoadedScenario) input (wall : Z) (old : option DetectionState)
  : DetectionState * option DetectionResult :=
  match old with
  | Some st =>
    if ds_ThresholdMet st then (touch_state (di_Timestamp input) st, None)
    else let st' := advance s input old in
         if threshold_reached s st'
         then (mark_met st', Some (mk_result formatID s input wall (mark_met st')))
         else (st', None)
  | None =>
    let st' := advance s input old in
    if threshold_reached s st'
    then (mark_met st', Some (mk_result formatID s input wall (mark_met st')))
    else (st', None)
  end.

Definition send_opt (r : option DetectionResult) e : engine Data :=
  match r with Some r => sendResult r e | None => e end.

Lemma handleMatch_step s input wall e :
  let key := StateKey (sc_ID s) (di_Resource input) in
  let '(st, r) := match_step s input wall (states e !! key) in
  handleMatch formatID s input wall e = set_states (<[key := st]> (states e)) (send_opt r e).
Proof.
  unfold handleMatch, match_step, GetState, SetState.
  destruct (states e !! _) as [st|]; [destruct (ds_ThresholdMet st) eqn:Em|];
    [done| |]; destruct (threshold_reached _ _); try done; by destruct e.
Qed.

Definition sends (rs : list DetectionResult) (ch : chan DetectionResult) : chan DetectionResult :=
  foldl (fun ch r => (try_send ch r).1) ch rs.

Definition opt_list {A} (o : option A) : list A := match o with Some a => [a] | None => [] end.

(** What one scenario does to the records, and the results it emits. *)
Definition state_step (s : LoadedScenario) input (wall : Z) (sts : gmap string DetectionState)
  : gmap string DetectionState * list DetectionResult :=
  match eval_spec s input with
  | Ok true =>
    let key := StateKey (sc_ID s) (di_Resource input) in
    let '(st, r) := match_step s input wall (sts !! key) in
    (<[key := st]> sts, opt_list r)
  | _ => (sts, [])
  end.

Lemma process_one_eq input wall e s :
  cache_sound (celCache e) ->
  process_one formatID input wall e s =
    mkEngine (scenarios e) (cel_after s input (celCache e))
      (state_step s input (wall s) (states e)).1
      (sends (state_step s input (wall s) (states e)).2 (outputCh e)).
Proof.
  intros H. unfold process_one, state_step. rewrite (evaluateScenario_spec s input e H).
  destruct (eval_spec s input) as [[|]|m]; try (by destruct e).
  pose proof (handleMatch_step s input (wall s) (set_cel (cel_after s input (celCache e)) e)) as Hm.
  simpl in Hm. destruct (match_step _ _ _ _) as [st [r|]]; rewrite Hm; by destruct e.
Qed.

(** ** Independence of the visiting order *)

Lemma StateKey_ne s1 s2 input :
  sc_ID s1 <> sc_ID s2 ->
  StateKey (sc_ID s1) (di_Resource input) <> StateKey (sc_ID s2) (di_Resource input).
Proof. intros Hne H. by apply StateKey_inj_id in H. Qed.

Lemma state_step_other s input wall sts k :
  k <> StateKey (sc_ID s) (di_Resource input) -> (state_step s input wall sts).1 !! k = sts !! k.
Proof.
  intros Hk. unfold state_step. repeat case_match; simplify_eq/=; try done.
  by rewrite lookup_insert_ne.
Qed.

Lemma state_step_local s input wall sts sts' :
  let key := StateKey (sc_ID s) (di_Resource input) in
  sts !! key = sts' !! key ->
  (state_step s input wall sts).2 = (state_step s input wall sts').2 /\
  (state_step s input wall sts).1 !! key = (state_step s input wall sts').1 !! key.
Proof.
  intros key Hk. unfold state_step. fold key. rewrite Hk.
  destruct (eval_spec s input) as [[|]|]; try done.
  destruct (match_step _ _ _ _). simpl. by rewrite !lookup_insert_eq.
Qed.

Lemma state_step_comm s1 s2 input w1 w2 sts :
  sc_ID s1 <> sc_ID s2 ->
  (state_step s2 input w2 (state_step s1 input w1 sts).1).1 =
  (state_step s1 input w1 (state_step s2 input w2 sts).1).1.
Proof.
  intros Hne. pose proof (StateKey_ne s1 s2 input Hne) as Hk.
  apply map_eq. intros k.
  destruct (decide (k = StateKey (sc_ID s1) (di_Resource input))) as [->|H1].
  - rewrite (state_step_other s2) by done.
    apply (state_step_local s1). symmetry. by apply state_step_other.
  - rewrite (state_step_other s1) by done.
    destruct (decide (k = StateKey (sc_ID s2) (di_Resource input))) as [->|H2].
    + apply (state_step_local s2). by apply state_step_other.
    + by rewrite !state_step_other by done.
Qed.

Lemma state_step_results s1 s2 input w1 w2 sts :
  sc_ID s1 <> sc_ID s2 ->
  (state_step s2 input w2 (state_step s1 input w1 sts).1).2 = (state_step s2 input w2 sts).2.
Proof.
  intros Hne. apply state_step_local, state_step_other.
  by apply not_eq_sym, StateKey_ne.
Qed.

(** The records and the results of a whole input. *)
Fixpoint state_steps (order : list LoadedScenario) input (wall : LoadedScenario -> Z)
    (sts : gmap string DetectionState) : gmap string DetectionState * list DetectionResult :=
  match order with
  | [] => (sts, [])
  | s :: order =>
    let '(sts1, r1) := state_step s input (wall s) sts in
    let '(sts2, r2) := state_steps order input wall sts1 in
    (sts2, r1 ++ r2)
  end.

Fixpoint cel_steps (order : list LoadedScenario) input (cache : gmap string (Program Data)) :=
  match order with
  | [] => cache
  | s :: order => cel_steps order input (cel_after s input cache)
  end.

Lemma cel_steps_sound order input cache :
  cache_sound cache -> cache_sound (cel_steps order input cache).
Proof. revert cache. induction order; simpl; auto using cel_after_sound. Qed.

Lemma cel_after_comm s1 s2 input cache :
  cache_sound cache ->
  cel_after s1 input (cel_after s2 input cache) = cel_after s2 input (cel_after s1 input cache).
Proof. intros H. unfold cel_after. repeat case_match; auto using Compile_comm. Qed.

Lemma sends_app r1 r2 ch : sends (r1 ++ r2) ch = sends r2 (sends r1 ch).
Proof. apply foldl_app. Qed.

(** [processInput] is the three folds side by side. *)
Lemma processInput_eq order input wall e :
  cache_sound (celCache e) ->
  processInput formatID order input wall e =
    mkEngine (scenarios e) (cel_steps order input (celCache e))
      (state_steps order input wall (states e)).1
      (sends (state_steps order input wall (states e)).2 (outputCh e)).
Proof.
  unfold processInput. revert e. induction order as [|s order IH]; intros e H; simpl; [by destruct e|].
  rewrite process_one_eq, IH; simpl; [|by apply cel_after_sound|done].
  destruct (state_step _ _ _ _) as [sts1 r1]; simpl.
  destruct (state_steps _ _ _ _) as [sts2 r2]; simpl. by rewrite sends_app.
Qed.

Lemma state_steps_perm order order' input wall sts :
  order ≡ₚ order' -> NoDup (sc_ID <$> order) ->
  (state_steps order input wall sts).1 = (state_steps order' input wall sts).1 /\
  (state_steps order input wall sts).2 ≡ₚ (state_steps order' input wall sts).2.
Proof.
  intros HP. revert sts. induction HP as [|s o1 o2 HP IH|s1 s2 o|o1 o2 o3 HP1 IH1 HP2 IH2];
    intros sts Hnd; simpl.
  - done.
  - rewrite fmap_cons, NoDup_cons in Hnd. destruct Hnd as [_ Hnd].
    destruct (state_step s input (wall s) sts) as [sts1 r1].
    destruct (IH sts1 Hnd) as [E1 E2].
    destruct (state_steps o1 _ _ _), (state_steps o2 _ _ _); simpl in *. split; [done|].
    by rewrite E2.
  - rewrite !fmap_cons, !NoDup_cons in Hnd. destruct Hnd as [Hnd _].
    assert (sc_ID s1 <> sc_ID s2) as Hne by set_solver.
    pose proof (state_step_comm s1 s2 input (wall s1) (wall s2) sts Hne) as C.
    pose proof (state_step_results s1 s2 input (wall s1) (wall s2) sts Hne) as R2.
    pose proof (state_step_results s2 s1 input (wall s2) (wall s1) sts (not_eq_sym Hne)) as R1.
    destruct (state_step s1 _ _ sts) as [a1 b1] eqn:S1, (state_step s2 _ _ sts) as [a2 b2] eqn:S2.
    simpl in *.
    destruct (state_step s1 _ _ a2) as [a12 b12], (state_step s2 _ _ a1) as [a21 b21].
    simpl in *. subst. destruct (state_steps o _ _ _). simpl. split; [done|].
    rewrite !(assoc_L (++)). by rewrite (comm (++) b1 b2).
  - destruct (IH1 sts Hnd) as [-> ->]. apply IH2. by rewrite <- HP1.
Qed.

Lemma cel_steps_perm order order' input cache :
  order ≡ₚ order' -> cache_sound cache ->
  cel_steps order input cache = cel_steps order' input cache.
Proof.
  intros HP. revert cache. induction HP as [|s o1 o2 HP IH|s1 s2 o|o1 o2 o3 HP1 IH1 HP2 IH2];
    intros cache H; simpl.
  - done.
  - apply IH. by apply cel_after_sound.
  - by rewrite cel_after_comm.
  - by rewrite IH1, IH2.
Qed.

Lemma sends_room rs ch :
  (length (ch_buf ch) + length rs <= ch_cap ch)%nat -> sends rs ch = Chan (ch_buf ch ++ rs) (ch_cap ch).
Proof.
  revert ch. induction rs as [|r rs IH]; intros ch H; simpl in *.
  - rewrite app_nil_r. by destruct ch.
  - rewrite try_send_room, IH; simpl; [by rewrite <- app_assoc|rewrite length_app; simpl; lia|lia].
Qed.

Lemma state_step_length s input wall sts : (length (state_step s input wall sts).2 <= 1)%nat.
Proof. unfold state_step. repeat case_match; simpl; try lia. by destruct o; simpl; lia. Qed.

Lemma state_steps_length order input wall sts :
  (length (state_steps order input wall sts).2 <= length order)%nat.
Proof.
  revert sts. induction order as [|s order IH]; intros sts; simpl; [done|].
  pose proof (state_step_length s input (wall s) sts).
  destruct (state_step s _ _ _) as [sts1 r1]. specialize (IH sts1).
  destruct (state_steps _ _ _ _). simpl in *. rewrite length_app. lia.
Qed.

(** ** The invariant of the engine *)

Definition registrable (s : LoadedScenario) : bool :=
  bool_decide (sc_Expression s = "") || is_ok (compile_fresh (sc_Expression s)).

Record engine_inv (e : engine Data) : Prop := {
  inv_keyed : map_Forall (fun k s => sc_ID s = k) (scenarios e);
  inv_compiled : map_Forall (fun _ s => sc_Expression s = "" \/
                   is_Some (celCache e !! sc_Expression s)) (scenarios e);
  inv_cache : cache_sound (celCache e);
  inv_states : map_Forall (fun k st => k = StateKey (ds_ScenarioID st) (ds_Resource st)) (states e);
  inv_chan : chan_ok (outputCh e);
}.

Lemma newEngineImpl_inv cap : engine_inv (newEngineImpl cap).
Proof.
  split; simpl; try apply map_Forall_empty. unfold chan_ok. simpl. lia.
Qed.

Lemma match_step_key s input wall old :
  (forall st, old = Some st -> StateKey (sc_ID s) (di_Resource input) =
     StateKey (ds_ScenarioID st) (ds_Resource st)) ->
  let st := (match_step s input wall old).1 in
  StateKey (sc_ID s) (di_Resource input) = StateKey (ds_ScenarioID st) (ds_Resource st).
Proof.
  intros H. unfold match_step, advance.
  destruct old as [st|]; [specialize (H st eq_refl)|]; repeat case_match; simpl; done.
Qed.

Lemma state_step_inv s input wall sts :
  map_Forall (fun k st => k = StateKey (ds_ScenarioID st) (ds_Resource st)) sts ->
  map_Forall (fun k st => k = StateKey (ds_ScenarioID st) (ds_Resource st))
    (state_step s input wall sts).1.
Proof.
  intros H. unfold state_step. destruct (eval_spec s input) as [[|]|]; try done.
  pose proof (match_step_key s input wall (sts !! StateKey (sc_ID s) (di_Resource input))) as K.
  destruct (match_step _ _ _ _) as [st r]; simpl in *.
  apply map_Forall_insert_2; [|done]. apply K. intros st' E. by apply H in E.
Qed.

Lemma sends_ok rs ch : chan_ok ch -> chan_ok (sends rs ch).
Proof. revert ch. induction rs; simpl; auto with chandb. Qed.

Lemma process_one_inv input wall e s :
  engine_inv e -> engine_inv (process_one formatID input wall e s).
Proof.
  intros [K C S T O]. rewrite process_one_eq by done. split; simpl; [done| | | |].
  - intros k s' Hs. destruct (C k s' Hs) as [|]; [by left|right]. by apply cel_after_grows.
  - by apply cel_after_sound.
  - by apply state_step_inv.
  - by apply sends_ok.
Qed.

Lemma processInput_inv order input wall e :
  engine_inv e -> engine_inv (processInput formatID order input wall e).
Proof.
  unfold processInput. revert e. induction order; simpl; auto using process_one_inv.
Qed.

Lemma RegisterScenario_inv s e : engine_inv e -> engine_inv (RegisterScenario s e).1.
Proof.
  intros [K C S T O]. unfold RegisterScenario.
  destruct (decide (sc_Expression s = "")) as [E|E]; simpl.
  - split; simpl; try done; apply map_Forall_insert_2; auto.
  - destruct (Compile_sound (sc_Expression s) (celCache e) S) as [S' _].
    pose proof (Compile_adds (sc_Expression s) (celCache e)) as A.
    pose proof (fun y => Compile_grows (sc_Expression s) y (celCache e)) as G.
    destruct (Compile _ _) as [cache [p|m]]; simpl in *.
    + split; simpl; try done; apply map_Forall_insert_2; eauto.
      intros k s' Hs. destruct (C k s' Hs); eauto.
    + split; simpl; try done. intros k s' Hs. destruct (C k s' Hs); eauto.
Qed.

Lemma register_all_fold l e n :
  (foldl (fun ec s => match RegisterScenario s ec.1 with
                     | (e, Err _) => (e, ec.2)
                     | (e, Ok _) => (e, S ec.2)
                     end) (e, n) l).1 = foldl (fun e s => (RegisterScenario s e).1) e l.
Proof.
  revert e n. induction l as [|s l IH]; intros e n; simpl; [done|].
  destruct (RegisterScenario s e) as [e' [|]]; by rewrite IH.
Qed.

Lemma register_all_inv l e : engine_inv e -> engine_inv (register_all l e).1.
Proof.
  unfold register_all. rewrite register_all_fold. revert e.
  induction l; simpl; auto using RegisterScenario_inv.
Qed.

Lemma loadScenarios_inv loader clear e : engine_inv e -> engine_inv (loadScenarios loader clear e).
Proof.
  intros H. unfold loadScenarios.
  assert (engine_inv (if clear then set_scenarios ∅ e else e)) as H'.
  { destruct clear; [|done]. destruct H. split; simpl; try done; apply map_Forall_empty. }
  destruct loader as [[l|]|]; [|done..]. by apply register_all_inv.
Qed.

Lemma step_inv c l c' : step formatID c l c' -> engine_inv c.1 -> engine_inv c'.1.
Proof.
  intros Hs HI. destruct Hs as [| | | | |e p r ch Hr]; simpl in *; try done.
  - by apply process_one_inv.
  - destruct HI as [K C S T O]. split; simpl; try done. 
    intros k st. rewrite map_lookup_filter_Some. intros [Hk _]. by apply T.
  - by apply loadScenarios_inv.
  - destruct HI as [K C S T O]. split; simpl; try done. revert O Hr. unfold chan_recv, chan_ok.
    destruct (ch_buf (outputCh e)) eqn:E; [done|]. simpl. intros ? [= <- <-]. simpl. lia.
Qed.

Lemma trace_inv c ls c' : trace formatID c ls c' -> engine_inv c.1 -> engine_inv c'.1.
Proof. induction 1; eauto using step_inv. Qed.

Lemma reachable_inv cap c : reachable formatID cap c -> engine_inv c.1.
Proof. intros [ls H]. apply (trace_inv _ _ _ H), newEngineImpl_inv. Qed.

Lemma enabled_NoDup e : engine_inv e -> NoDup (sc_ID <$> enabled e).
Proof.
  intros [K _ _ _ _]. unfold enabled.
  apply NoDup_fmap_filter.
  assert (sc_ID <$> (snd <$> map_to_list (scenarios e)) = fst <$> map_to_list (scenarios e)) as ->.
  { rewrite <- list_fmap_compose. apply list_fmap_ext. intros i [k s] Hi; simpl.
    apply K. apply elem_of_map_to_list. by eapply list_elem_of_lookup_2. }
  apply NoDup_fst_map_to_list.
Qed.

(** ** A run of matches of one scenario on one resource *)

Fixpoint match_run (s : LoadedScenario) (run : list (DetectionInput Data * Z))
    (old : option DetectionState) : option DetectionState * list DetectionResult :=
  match run with
  | [] => (old, [])
  | (input, wall) :: run =>
    let '(st, r) := match_step s input wall old in
    let '(st', rs) := match_run s run (Some st) in
    (st', opt_list r ++ rs)
  end.

Definition handleMatches (s : LoadedScenario) (run : list (DetectionInput Data * Z)) e : engine Data :=
  foldl (fun e x => handleMatch formatID s x.1 x.2 e) e run.

Lemma match_run_met s run st :
  ds_ThresholdMet st = true -> (match_run s run (Some st)).2 = [].
Proof.
  revert st. induction run as [|[i w] run IH]; intros st H; simpl; [done|].
  rewrite H. specialize (IH (touch_state (di_Timestamp i) st) eq_refl).
  destruct (match_run _ _ _); simpl in *. by rewrite IH.
Qed.

Lemma handleMatches_run s r run e :
  Forall (fun x => di_Resource x.1 = r) run ->
  let key := StateKey (sc_ID s) r in
  states (handleMatches s run e) !! key = (match_run s run (states e !! key)).1 /\
  outputCh (handleMatches s run e) = sends (match_run s run (states e !! key)).2 (outputCh e).
Proof.
  intros H key. unfold handleMatches. revert e.
  induction H as [|[i w] run Hi Hr IH]; intros e; [done|]. simpl in Hi. cbn [foldl fst snd match_run].
  pose proof (handleMatch_step s i w e) as Hm. rewrite Hi in Hm. fold key in Hm. cbn zeta in Hm.
  destruct (match_step s i w (states e !! key)) as [st o].
  destruct (IH (handleMatch formatID s i w e)) as [IH1 IH2].
  assert (states (handleMatch formatID s i w e) !! key = Some st) as Hk.
  { rewrite Hm. simpl. apply lookup_insert_eq. }
  rewrite Hk in IH1, IH2. destruct (match_run s run (Some st)) as [o' rs]; simpl in *.
  split; [done|]. rewrite IH2, Hm, sends_app. by destruct o.
Qed.

(** The reference: the greedy split of the timestamps of a run into windows.  A
    window starts at a match and holds the following ones up to the first that
    comes more than [w] after the start. *)
Fixpoint tumble (w start : Z) (cur : list Z) (ts : list Z) : list (list Z) :=
  match ts with
  | [] => [cur]
  | t :: ts =>
    if w <? time_Sub t start then cur :: tumble w t [t] ts
    else tumble w start (cur ++ [t]) ts
  end.

Definition windows (w : Z) (ts : list Z) : list (list Z) :=
  match ts with [] => [] | t :: ts => tumble w t [t] ts end.

Lemma tumble_first w start cur ts :
  exists ext rest, tumble w start cur ts = (cur ++ ext) :: rest.
Proof.
  revert start cur. induction ts as [|t ts IH]; intros start cur; simpl.
  - exists [], []. by rewrite app_nil_r.
  - case_match; [exists []; eexists; by rewrite app_nil_r|].
    destruct (IH start (cur ++ [t])) as (ext & rest & ->).
    exists (t :: ext), rest. by rewrite <- app_assoc.
Qed.

Definition full (n : Z) (win : list Z) : bool := n <=? Z.of_nat (length win).

(** Scenario, first and last timestamp, and count of a result. *)
Definition summary (r : DetectionResult) : string * Z * Z * Z :=
  (dr_ScenarioID r, dr_FirstDetected r, dr_LastDetected r, dr_DetectionCount r).

Definition window_report (id : string) (n : Z) (wins : list (list Z)) : list (string * Z * Z * Z) :=
  match find_first (full n) wins with
  | None => []
  | Some win => [(id, nth 0 win 0, nth (Z.to_nat (n - 1)) win 0, n)]
  end.

Lemma window_report_first id n start w cur t ts :
  Z.of_nat (length cur) + 1 = n -> nth 0 (cur ++ [t]) 0 = start ->
  window_report id n (tumble w start (cur ++ [t]) ts) = [(id, start, t, n)].
Proof.
  intros Hn Hs. unfold window_report.
  destruct (tumble_first w start (cur ++ [t]) ts) as (ext & rest & ->). simpl.
  unfold full at 1. rewrite !length_app. simpl.
  replace (n <=? _) with true by (symmetry; apply Z.leb_le; lia).
  replace (Z.to_nat (n - 1)) with (length cur) by lia.
  rewrite <- app_assoc. change ([t] ++ ext) with (t :: ext). rewrite nth_middle.
  destruct cur; simpl in *; by subst.
Qed.

Lemma window_report_short id n cur wins :
  Z.of_nat (length cur) < n -> window_report id n (cur :: wins) = window_report id n wins.
Proof.
  intros. unfold window_report. simpl. unfold full at 1.
  by replace (n <=? _) with false by (symmetry; apply Z.leb_gt; lia).
Qed.

Lemma match_run_windows s n w run st cur start :
  sc_Threshold s = Some (mkThreshold n w) ->
  st = mkDetectionState (ds_ScenarioID st) (ds_Resource st) start (ds_LastDetected st)
         (Z.of_nat (length cur)) false start ->
  nth_error cur 0 = Some start -> Z.of_nat (length cur) < n ->
  Z.of_nat (length cur + length run) < 2 ^ 63 ->
  summary <$> (match_run s run (Some st)).2 =
    window_report (sc_ID s) n (tumble w start cur ((fun x => di_Timestamp x.1) <$> run)).
Proof.
  intros Hth. revert st cur start.
  induction run as [|[i wl] run IH]; intros st cur start Hst Hc Hn Hlen; simpl.
  { unfold window_report, full. simpl.
    by replace (n <=? _) with false by (symmetry; apply Z.leb_gt; lia). }
  assert (cur <> []) as Hne by (by destruct cur).
  assert (1 <= length cur)%nat by (destruct cur; simpl in *; [done|lia]).
  rewrite Hst. simpl. unfold threshold_reached. rewrite Hth. simpl.
  simpl in Hlen. destruct (w <? time_Sub (di_Timestamp i) start) eqn:Hw; simpl.
  - replace (n <=? 1) with false by (symmetry; apply Z.leb_gt; lia).
    rewrite window_report_short by lia. 
    rewrite <- (IH (mkDetectionState (ds_ScenarioID st) (ds_Resource st) (di_Timestamp i)
      (di_Timestamp i) 1 false (di_Timestamp i)) [di_Timestamp i]); simpl; try done; [|lia..].
    by destruct (match_run _ _ _).
  - rewrite wrap_small by (try lia; unfold fits; simpl; lia).
    destruct (n <=? Z.of_nat (length cur) + 1) eqn:Hfull.
    + apply Z.leb_le in Hfull. rewrite window_report_first with (start := start); [|lia|].
      * pose proof (match_run_met s run (mark_met (mkDetectionState (ds_ScenarioID st) (ds_Resource st) start
          (di_Timestamp i) (Z.of_nat (length cur) + 1) false start)) eq_refl) as Hm.
        destruct (match_run _ _ _); simpl in *. subst. simpl. unfold summary; simpl. do 3 f_equal. lia.
      * by destruct cur; simpl in *; simplify_eq.
    + apply Z.leb_gt in Hfull.
      rewrite <- (IH (mkDetectionState (ds_ScenarioID st) (ds_Resource st) start
          (di_Timestamp i) (Z.of_nat (length cur) + 1) false start)).
      * by destruct (match_run _ _ _).
      * simpl. rewrite length_app. simpl. f_equal. lia.
      * by destruct cur.
      * rewrite length_app. simpl. lia.
      * rewrite length_app. simpl. lia.
Qed.

Lemma match_run_windows_new s n w run :
  sc_Threshold s = Some (mkThreshold n w) -> 1 <= n -> Z.of_nat (length run) < 2 ^ 63 ->
  summary <$> (match_run s run None).2 =
    window_report (sc_ID s) n (windows w ((fun x => di_Timestamp x.1) <$> run)).
Proof.
  intros Hth Hn Hlen. destruct run as [|[i wl] run]; [done|]. simpl in *.
  unfold threshold_reached. rewrite Hth. simpl. destruct (n <=? 1) eqn:E.
  - apply Z.leb_le in E. rewrite (window_report_first _ _ (di_Timestamp i) w [] (di_Timestamp i)); [|simpl; lia|done].
    pose proof (match_run_met s run (mark_met (mkDetectionState (sc_ID s) (di_Resource i)
      (di_Timestamp i) (di_Timestamp i) 1 false (di_Timestamp i))) eq_refl) as Hm.
    destruct (match_run _ _ _); simpl in *. subst. simpl. unfold summary; simpl. do 3 f_equal. lia.
  - apply Z.leb_gt in E. rewrite <- (match_run_windows s n w run (mkDetectionState (sc_ID s) (di_Resource i)
      (di_Timestamp i) (di_Timestamp i) 1 false (di_Timestamp i)) [di_Timestamp i]); simpl; try done; [|lia..].
    by destruct (match_run _ _ _).
Qed.

Lemma window_report_length id n wins : (length (window_report id n wins) <= 1)%nat.
Proof. unfold window_report. case_match; simpl; lia. Qed.

(** ** One result per record *)

Definition result_key (r : DetectionResult) : string := StateKey (dr_ScenarioID r) (dr_Resource r).

Definition count_key (k : string) (rs : list DetectionResult) : nat :=
  length (filter (fun r => result_key r = k) rs).

Lemma count_key_app k l1 l2 : count_key k (l1 ++ l2) = (count_key k l1 + count_key k l2)%nat.
Proof. unfold count_key. by rewrite filter_app, length_app. Qed.

(** Among the results received and those still in the buffer at most one has
    the key, and if one has, the record says so. *)
Definition emitted_once (k : string) (got : list DetectionResult) e : Prop :=
  (count_key k (got ++ ch_buf (outputCh e)) <= 1)%nat /\
  (count_key k (got ++ ch_buf (outputCh e)) = 1%nat -> is_met (states e !! k) = true).

Lemma match_step_emits s input wall old st r :
  match_step s input wall old = (st, Some r) ->
  is_met old = false /\ ds_ThresholdMet st = true /\
  result_key r = StateKey (sc_ID s) (di_Resource input).
Proof. unfold match_step. repeat case_match; intros; simplify_eq/=; done. Qed.

Lemma match_step_stays_met s input wall old st r :
  match_step s input wall old = (st, r) -> is_met old = true -> ds_ThresholdMet st = true.
Proof. unfold match_step. destruct old as [st0|]; simpl; [|done]. by destruct (ds_ThresholdMet st0); intros; simplify_eq/=. Qed.

Lemma count_key_one k r : count_key k [r] = (if decide (result_key r = k) then 1 else 0)%nat.
Proof. unfold count_key. rewrite filter_cons. by case_decide. Qed.

Lemma count_key_try_send k (ch : chan DetectionResult) r got :
  (count_key k (got ++ ch_buf (try_send ch r).1) = count_key k (got ++ ch_buf ch) \/
   result_key r = k /\ count_key k (got ++ ch_buf (try_send ch r).1) = S (count_key k (got ++ ch_buf ch)))%nat.
Proof.
  unfold try_send. case_decide; simpl; [|by left].
  rewrite !count_key_app, count_key_one. case_decide; [right|left]; split_and?; try done; lia.
Qed.

Lemma process_one_once k got input wall e s :
  cache_sound (celCache e) -> emitted_once k got e ->
  emitted_once k got (process_one formatID input wall e s).
Proof.
  unfold emitted_once. intros HC [H1 H2]. rewrite process_one_eq by done. simpl. unfold state_step.
  destruct (eval_spec s input) as [[|]|]; simpl; try done.
  destruct (match_step _ _ _ _) as [st [r|]] eqn:E; simpl.
  - destruct (match_step_emits _ _ _ _ _ _ E) as (Hold & Hmet & Hk).
    destruct (count_key_try_send k (outputCh e) r got) as [->|[<- ->]].
    + split; [done|]. intros Hc. specialize (H2 Hc). rewrite lookup_insert.
      case_decide as D; [by simpl|done].
    + rewrite Hk in *. split.
      * destruct (count_key _ _) as [|[|]]; [lia| |lia]. rewrite H2 in Hold; done.
      * intros _. rewrite lookup_insert_eq. done.
  - split; [done|]. intros Hc. specialize (H2 Hc). rewrite lookup_insert. case_decide as D; [|done].
    subst. simpl. by eapply match_step_stays_met.
Qed.

Lemma register_all_same l e :
  states (register_all l e).1 = states e /\ outputCh (register_all l e).1 = outputCh e.
Proof.
  unfold register_all. rewrite register_all_fold. revert e.
  induction l as [|s l IH]; intros e; simpl; [done|].
  destruct (IH (RegisterScenario s e).1) as [-> ->].
  unfold RegisterScenario. repeat case_match; simplify_eq/=; done.
Qed.

Lemma loadScenarios_same loader clear e :
  states (loadScenarios loader clear e) = states e /\
  outputCh (loadScenarios loader clear e) = outputCh e.
Proof.
  unfold loadScenarios. destruct loader as [[l|]|]; try (by destruct clear).
  destruct (register_all_same l (if clear then set_scenarios ∅ e else e)) as [-> ->]. by destruct clear.
Qed.

Definition received (ls : list (elabel Data)) : list DetectionResult :=
  omap (fun l => match l with LRecv r => Some r | _ => None end) ls.

Lemma step_once k got c l c' :
  step formatID c l c' -> l <> LCleanup -> engine_inv c.1 -> emitted_once k got c.1 ->
  emitted_once k (got ++ received [l]) c'.1.
Proof.
  intros Hs Hl HI HE. destruct Hs as [| | | |e p loader clear|e p r ch Hr]; simpl in *;
    rewrite ?app_nil_r; try done.
  - apply process_one_once; [apply HI|done].
  - destruct (loadScenarios_same loader clear e) as [E1 E2]. unfold emitted_once. by rewrite E1, E2.
  - unfold chan_recv in Hr. destruct (ch_buf (outputCh e)) as [|v rest] eqn:Eb; simplify_eq.
    unfold emitted_once in *. simpl in *. rewrite Eb in HE. by rewrite <- app_assoc.
Qed.

Lemma trace_once k got c ls c' :
  trace formatID c ls c' -> Forall (fun l => l <> LCleanup) ls -> engine_inv c.1 ->
  emitted_once k got c.1 -> emitted_once k (got ++ received ls) c'.1.
Proof.
  intros Ht. revert got. induction Ht as [c|c1 l c2 ls c3 Hs Ht IH]; intros got Hl HI HE.
  - by rewrite app_nil_r.
  - apply Forall_cons in Hl as [Hl Hls]. 
    assert (received (l :: ls) = received [l] ++ received ls) as -> by (unfold received; simpl; by case_match).
    rewrite app_assoc. apply IH; [done|by eapply step_inv|by eapply step_once].
Qed.

(** ** Loading *)

Lemma RegisterScenario_spec s e :
  cache_sound (celCache e) ->
  let e' := (RegisterScenario s e).1 in
  cache_sound (celCache e') /\
  scenarios e' = (if registrable s then <[sc_ID s := s]> (scenarios e) else scenarios e) /\
  is_ok (RegisterScenario s e).2 = registrable s.
Proof.
  intros HC. unfold RegisterScenario, registrable.
  destruct (decide (sc_Expression s = "")) as [E|E]; simpl.
  - by rewrite bool_decide_true.
  - rewrite bool_decide_false by done.
    destruct (Compile_sound (sc_Expression s) (celCache e) HC) as [S' Hr].
    destruct (Compile _ _) as [cache [p|m]]; simpl in *; by rewrite <- Hr.
Qed.

Lemma register_all_scenarios l e id :
  cache_sound (celCache e) ->
  scenarios (register_all l e).1 !! id =
    match find_first (fun s => bool_decide (sc_ID s = id)) (reverse (filter (fun s => registrable s = true) l)) with
    | Some s => Some s
    | None => scenarios e !! id
    end.
Proof.
  unfold register_all. rewrite register_all_fold. revert e.
  induction l as [|s l IH]; intros e HC; [done|]. cbn [foldl].
  destruct (RegisterScenario_spec s e HC) as (HC' & Hs & _).
  rewrite IH by done. rewrite Hs, filter_cons.
  destruct (registrable s) eqn:R; [rewrite decide_True by done|by rewrite decide_False].
  rewrite reverse_cons, find_first_app. destruct (find_first _ _); [done|]. simpl.
  rewrite lookup_insert. case_bool_decide; case_decide; try done.
Qed.

End engine.
