(* ===== verification/DetectionProps.v ===== *)
(** The properties of the detection layer: order independence of an input, the
    engine's invariant, soundness of the pre-filters and of the program cache,
    the threshold logic against a reference that splits time into windows, at
    most one result per record, loading and cleanup. *)

From S2P Require Import Prelude Types Detection DetectionLemmas.

(** An evaluator for the witnesses: every expression but ["bad"] compiles, and
    a program returns the payload. *)
#[local] Instance demo_env : CELEnv bool := {|
  Ast := string; Program := string; RefVal := bool;
  env_Compile x := if decide (x = "bad") then Err "syntax error" else Ok x;
  OutputType _ := BoolType;
  env_Program x := Ok x;
  prog_Eval _ d _ _ := Ok d;
  val_Type _ := BoolType;
  val_bool b := Some b;
  val_show _ := "";
|}.

Definition demo_ref : ResourceReference := mkRef "v1" "Pod" "prod" "web-0" "u1".
Definition demo_scenario (id : string) (th : option ThresholdConfig) : LoadedScenario :=
  mkScenario id ("scenario " +:+ id) true SeverityHigh "kubernetes" "hit"
    (Some (mkFilter "Pod" "")) th [].
Definition demo_input (t : Z) (hit : bool) : DetectionInput bool :=
  mkInput bool "in" "kubernetes" demo_ref t hit ∅.
Definition demo_id (_ : Z) : string := "det".
Definition demo_engine (th : option ThresholdConfig) : engine bool :=
  LoadScenarios (Some (Ok [demo_scenario "S1" th; demo_scenario "S2" None])) (newEngineImpl 4).

Lemma demo_engine_reachable th : reachable demo_id 4 (demo_engine th, None).
Proof.
  exists [LLoad]. unfold demo_engine, LoadScenarios.
  eapply trace_cons; [apply step_load|apply trace_nil].
Qed.

Section properties.
Context {Data : Type} `{CEL : CELEnv Data}.
Context (formatID : Z -> string).
Implicit Types e : engine Data.
Implicit Types input : DetectionInput Data.

(** C17: Go visits the enabled scenarios in an unspecified order.  From any
    reachable engine the order does not matter: two visiting orders of one
    input leave the same scenarios, program cache and detection records, and
    when the output channel has a slot for each enabled scenario they emit the
    same results up to reordering. *)
Theorem processInput_order_irrelevant cap e p o1 o2 input wall :
  reachable formatID cap (e, p) -> o1 ≡ₚ enabled e -> o2 ≡ₚ enabled e ->
  let e1 := processInput formatID o1 input wall e in
  let e2 := processInput formatID o2 input wall e in
  scenarios e1 = scenarios e2 /\ celCache e1 = celCache e2 /\ states e1 = states e2 /\
  ((length (ch_buf (outputCh e)) + length (enabled e) <= ch_cap (outputCh e))%nat ->
   ch_buf (outputCh e1) ≡ₚ ch_buf (outputCh e2)).
Proof.
  intros HR H1 H2. pose proof (reachable_inv _ _ _ HR) as Hinv. simpl in Hinv.
  assert (o1 ≡ₚ o2) as HP by (by rewrite H1, H2).
  assert (NoDup (sc_ID <$> o1)) as Hnd by (rewrite H1; by apply enabled_NoDup).
  destruct (state_steps_perm formatID o1 o2 input wall (states e) HP Hnd) as [Hst Hres].
  rewrite !processInput_eq by apply Hinv. simpl. split; [done|].
  split; [by apply cel_steps_perm, Hinv|]. split; [done|]. intros Hroom.
  pose proof (state_steps_length formatID o1 input wall (states e)) as L1.
  pose proof (Permutation_length Hres) as L2. pose proof (Permutation_length H1) as L3.
  rewrite !sends_room by lia. simpl. by rewrite Hres.
Qed.

(** C20: in every configuration the engine can reach - whatever inputs, visiting
    orders, cleanups, reloads and receives happened, in any interleaving - a
    scenario is stored under its own identifier, its expression is compiled
    and cached, the program cache holds only what a fresh compilation gives,
    every detection record is stored under the key of its own scenario and
    resource, and the output channel is within its capacity. *)
Theorem engine_invariant cap e p :
  reachable formatID cap (e, p) ->
  map_Forall (fun id s => sc_ID s = id /\
    (sc_Expression s = "" \/ exists prog, celCache e !! sc_Expression s = Some prog /\
       compile_fresh (sc_Expression s) = Ok prog)) (scenarios e) /\
  map_Forall (fun x prog => compile_fresh x = Ok prog) (celCache e) /\
  map_Forall (fun k st => k = StateKey (ds_ScenarioID st) (ds_Resource st)) (states e) /\
  (length (ch_buf (outputCh e)) <= ch_cap (outputCh e))%nat.
Proof.
  intros HR. destruct (reachable_inv _ _ _ HR) as [K C S T O]. simpl in *.
  repeat split; try done; [by eapply K|].
  destruct (C i x H) as [|[prog Hp]]; [by left|right]. eauto.
Qed.

(** C30: a scenario matches an input exactly when its source filter is empty or
    names the input's source, its kind and API version filters are empty or
    equal the resource's, its expression is not empty and compiles, and the
    program evaluates to true; evaluating changes nothing but the program
    cache, and the answer does not depend on what the cache holds. *)
Theorem evaluateScenario_correct cap e p s input :
  reachable formatID cap (e, p) ->
  let '(e', r) := evaluateScenario s input e in
  scenarios e' = scenarios e /\ states e' = states e /\ outputCh e' = outputCh e /\
  (r = Ok true <->
    (sc_Source s = "" \/ sc_Source s = di_Source input) /\
    (forall f, sc_Resource s = Some f ->
       (rf_Kind f = "" \/ rf_Kind f = Kind (di_Resource input)) /\
       (rf_APIVersion f = "" \/ rf_APIVersion f = APIVersion (di_Resource input))) /\
    sc_Expression s <> "" /\
    exists prog, compile_fresh (sc_Expression s) = Ok prog /\
      EvalProgram prog (di_Data input) (resourceMap (di_Resource input)) (di_Labels input) = Ok true).
Proof.
  intros HR. rewrite evaluateScenario_spec by apply (reachable_inv _ _ _ HR).
  do 3 (split; [done|]). unfold eval_spec.
  rewrite <- filter_rejects_false, <- optional_mismatch_false.
  destruct (optional_mismatch _ _), (filter_rejects _ _); try naive_solver.
  destruct (decide (sc_Expression s = "")); [naive_solver|].
  destruct (compile_fresh _); naive_solver.
Qed.

(** C7: threshold refinement.  Cut the timestamps of the matches of a scenario
    on one resource into windows, each starting at a match and holding the
    following ones that come no later than [Window] after it.  Starting without
    a record, the run emits exactly one result if some window holds [Count]
    matches and none otherwise; the result is that of the first such window,
    dated from its first to its [Count]-th match, with count [Count]. *)
Theorem threshold_counts_windows s n w r run e :
  sc_Threshold s = Some (mkThreshold n w) -> 1 <= n -> Z.of_nat (length run) < 2 ^ 63 ->
  Forall (fun x => di_Resource x.1 = r) run ->
  states e !! StateKey (sc_ID s) r = None ->
  (length (ch_buf (outputCh e)) < ch_cap (outputCh e))%nat ->
  exists new,
    ch_buf (outputCh (handleMatches formatID s run e)) = ch_buf (outputCh e) ++ new /\
    summary <$> new =
      match find_first (fun win => n <=? Z.of_nat (length win))
              (windows w ((fun x => di_Timestamp x.1) <$> run)) with
      | None => []
      | Some win => [(sc_ID s, nth 0 win 0, nth (Z.to_nat (n - 1)) win 0, n)]
      end.
Proof.
  intros Hth Hn Hlen Hr Hnone Hroom.
  destruct (handleMatches_run formatID s r run e Hr) as [_ Hout]. rewrite Hnone in Hout.
  pose proof (match_run_windows_new formatID s n w run Hth Hn Hlen) as Hw.
  pose proof (window_report_length (sc_ID s) n (windows w ((fun x => di_Timestamp x.1) <$> run))) as Hl.
  exists (match_run formatID s run None).2. split; [|exact Hw].
  rewrite Hout, sends_room; [done|]. rewrite <- Hw, length_fmap in Hl. lia.
Qed.

(** C23: between cleanups a record fires once.  Along every interleaving of
    inputs, evaluations, reloads and receives from a fresh engine in which no
    cleanup runs, the results received so far together with those still in the
    output buffer contain at most one for each scenario and resource. *)
Theorem emits_at_most_once cap ls e p k :
  trace formatID (newEngineImpl cap, None) ls (e, p) ->
  Forall (fun l => l <> LCleanup) ls ->
  (count_key k (received ls ++ ch_buf (outputCh e)) <= 1)%nat.
Proof.
  intros Ht Hls.
  destruct (trace_once formatID k [] _ _ _ Ht Hls (newEngineImpl_inv cap)) as [H _]; [|exact H].
  split; cbn; [lia|done].
Qed.

(** A result that meets a full output channel is lost for good: the channel
    is unchanged, yet the record is marked as fired, and no later match of the
    scenario on that resource emits anything, however much room the channel
    has by then. *)
Theorem full_channel_loses_result s input wall e :
  let key := StateKey (sc_ID s) (di_Resource input) in
  is_met (states e !! key) = false ->
  threshold_reached s (advance s input (states e !! key)) = true ->
  (ch_cap (outputCh e) <= length (ch_buf (outputCh e)))%nat ->
  let e' := handleMatch formatID s input wall e in
  outputCh e' = outputCh e /\ is_met (states e' !! key) = true /\
  forall run ch, Forall (fun x => di_Resource x.1 = di_Resource input) run ->
    outputCh (handleMatches formatID s run (set_out ch e')) = ch.
Proof.
  intros key Hold Hth Hfull e'.
  pose proof (handleMatch_step formatID s input wall e) as Hm. cbn zeta in Hm. fold key e' in Hm.
  assert (exists st r, match_step formatID s input wall (states e !! key) = (st, Some r) /\
            ds_ThresholdMet st = true) as (st & r & E & Hmet).
  { unfold match_step. destruct (states e !! key); simpl in Hold; rewrite ?Hold, Hth; eauto. }
  rewrite E in Hm.
  assert (states e' !! key = Some st) as Hst by (rewrite Hm; apply lookup_insert_eq).
  split; [|split].
  - rewrite Hm. simpl. unfold sendResult. simpl. by rewrite try_send_full.
  - by rewrite Hst.
  - intros run ch Hrun.
    destruct (handleMatches_run formatID s _ run (set_out ch e') Hrun) as [_ ->]. simpl.
    fold key. by rewrite Hst, match_run_met.
Qed.

(** Reloading replaces the scenarios by what the loader returns: under an
    identifier is the last of the loaded scenarios with that identifier whose
    expression is empty or compiles; without a loader, or when it fails, no
    scenario is left.  Detection records and emitted results are untouched. *)
Theorem ReloadScenarios_correct cap e p loader id :
  reachable formatID cap (e, p) ->
  let e' := ReloadScenarios loader e in
  states e' = states e /\ outputCh e' = outputCh e /\
  scenarios e' !! id =
    match loader with
    | Some (Ok l) => find_first (fun s => bool_decide (sc_ID s = id))
        (reverse (filter (fun s => sc_Expression s = "" \/ is_ok (compile_fresh (sc_Expression s)) = true) l))
    | _ => None
    end.
Proof.
  intros HR e'. subst e'. unfold ReloadScenarios.
  destruct (loadScenarios_same loader true e) as [E1 E2]. do 2 (split; [done|]).
  unfold loadScenarios. destruct loader as [[l|]|]; [|done..].
  rewrite register_all_scenarios by apply (reachable_inv _ _ _ HR). cbn [scenarios set_scenarios].
  rewrite lookup_empty.
  rewrite (list_filter_iff _ (fun s => sc_Expression s = "" \/ is_ok (compile_fresh (sc_Expression s)) = true)).
  - by case_match.
  - intros s. unfold registrable. by rewrite orb_true_iff, bool_decide_eq_true.
Qed.

(** A cleanup removes exactly the records last seen longer ago than the
    expiration and reports their number; after the removal of a record its
    scenario can fire again: without a threshold, the next match on that
    resource appends one result to a channel with room. *)
Theorem Cleanup_expires stateExpiration now e :
  let '(sts, removed) := Cleanup stateExpiration now (states e) in
  (forall k st, sts !! k = Some st <->
     states e !! k = Some st /\ now - stateExpiration <= ds_LastDetected st) /\
  (removed + size sts = size (states e))%nat /\
  forall s input wall, sc_Threshold s = None ->
    sts !! StateKey (sc_ID s) (di_Resource input) = None ->
    (length (ch_buf (outputCh e)) < ch_cap (outputCh e))%nat ->
    exists r, result_key r = StateKey (sc_ID s) (di_Resource input) /\
      ch_buf (outputCh (handleMatch formatID s input wall (cleanup_tick stateExpiration now e)))
        = ch_buf (outputCh e) ++ [r].
Proof.
  unfold Cleanup. split; [|split].
  - intros k st. rewrite map_lookup_filter_Some. simpl.
    unfold state_expired, time_Before, time_Add. rewrite Z.ltb_ge. naive_solver lia.
  - rewrite (proj1 (map_filter_ext (fun x => state_expired stateExpiration now x.2 = true)
      (fun x => ~ state_expired stateExpiration now x.2 = false) (states e))).
    + rewrite Nat.add_comm, <- map_size_disj_union by apply map_disjoint_filter_complement.
      by rewrite map_filter_union_complement.
    + intros k st _. simpl. by destruct (state_expired _ _ _).
  - intros s input wall Hth Hnone Hroom. unfold handleMatch. simpl. unfold GetState, Cleanup. simpl.
    rewrite Hnone. unfold threshold_reached. rewrite Hth. simpl. rewrite try_send_room by done.
    simpl. eexists. by split; [|done].
Qed.

End properties.

(** * Witnesses *)

Lemma processInput_order_irrelevant_witness :
  let e := demo_engine (Some (mkThreshold 2 100)) in
  let i := demo_input 5 true in
  states (processInput demo_id (enabled e) i (fun _ => 7) e) =
  states (processInput demo_id (reverse (enabled e)) i (fun _ => 7) e).
Proof.
  intros e i.
  apply (processInput_order_irrelevant demo_id 4 e None (enabled e) (reverse (enabled e)) i (fun _ => 7)).
  - apply demo_engine_reachable.
  - done.
  - apply reverse_Permutation.
Defined.

Lemma engine_invariant_witness :
  (length (ch_buf (outputCh (demo_engine None))) <= 4)%nat.
Proof.
  apply (engine_invariant demo_id 4 (demo_engine None) None (demo_engine_reachable None)).
Defined.

Lemma evaluateScenario_correct_witness :
  (evaluateScenario (demo_scenario "S1" None) (demo_input 5 true) (demo_engine None)).2 = Ok true.
Proof.
  pose proof (evaluateScenario_correct demo_id 4 (demo_engine None) None (demo_scenario "S1" None)
    (demo_input 5 true) (demo_engine_reachable None)) as H.
  destruct (evaluateScenario _ _ _) as [e' r]. simpl. apply H. split; [by right|].
  split; [|split; [done|]].
  - intros f [= <-]. vm_compute. auto.
  - exists "hit". by vm_compute.
Defined.

Lemma threshold_counts_windows_witness :
  let run := [(demo_input 0 true, 1); (demo_input 150 true, 2); (demo_input 200 true, 3); (demo_input 210 true, 4)] in
  exists new, ch_buf (outputCh (handleMatches demo_id (demo_scenario "S1" (Some (mkThreshold 2 100))) run
      (demo_engine None))) = new /\ summary <$> new = [("S1", 150, 200, 2)].
Proof.
  intros run.
  destruct (threshold_counts_windows demo_id (demo_scenario "S1" (Some (mkThreshold 2 100))) 2 100 demo_ref run
    (demo_engine None)) as (new & H1 & H2).
  - done.
  - lia.
  - vm_compute; done.
  - repeat constructor.
  - by vm_compute.
  - vm_compute. lia.
  - exists new. split; [exact H1|]. rewrite H2. by vm_compute.
Defined.

Lemma emits_at_most_once_witness :
  let e1 := process_one demo_id (demo_input 5 true) (fun _ => 7) (demo_engine None) (demo_scenario "S1" None) in
  trace demo_id (newEngineImpl 4, None) [LLoad; LBegin (demo_input 5 true); LEval]
    (e1, Some (demo_input 5 true, [demo_scenario "S2" None])) /\
  (count_key "S1/Pod/prod/web-0" (ch_buf (outputCh e1)) <= 1)%nat.
Proof.
  intros e1.
  assert (trace demo_id (newEngineImpl 4, None) [LLoad; LBegin (demo_input 5 true); LEval]
    (e1, Some (demo_input 5 true, [demo_scenario "S2" None]))) as Ht.
  { eapply trace_cons; [apply step_load with (loader := Some (Ok [demo_scenario "S1" None; demo_scenario "S2" None]))
      (clear := false)|].
    eapply trace_cons; [apply step_begin with (order := [demo_scenario "S1" None; demo_scenario "S2" None])|].
    - apply (Permutation_swap (demo_scenario "S2" None)) || vm_compute; done.
    - eapply trace_cons; [apply (step_eval _ _ _ _ _ (fun _ => 7))|apply trace_nil]. }
  split; [exact Ht|].
  apply (emits_at_most_once demo_id 4 _ _ _ "S1/Pod/prod/web-0" Ht). repeat constructor; done.
Defined.

Lemma full_channel_loses_result_witness :
  let e := LoadScenarios (Some (Ok [demo_scenario "S1" None])) (newEngineImpl 0) in
  let e' := handleMatch demo_id (demo_scenario "S1" None) (demo_input 5 true) 9 e in
  outputCh (handleMatches demo_id (demo_scenario "S1" None) [(demo_input 6 true, 10)]
    (set_out (Chan [] 8) e')) = Chan [] 8.
Proof.
  intros e e'.
  apply (full_channel_loses_result demo_id (demo_scenario "S1" None) (demo_input 5 true) 9 e).
  - by vm_compute.
  - by vm_compute.
  - vm_compute; lia.
  - repeat constructor.
Defined.

Lemma ReloadScenarios_correct_witness :
  let bad := mkScenario "S1" "b" true SeverityLow "" "bad" None None [] in
  scenarios (ReloadScenarios (Some (Ok [demo_scenario "S1" None; bad])) (demo_engine None)) !! "S1"
    = Some (demo_scenario "S1" None).
Proof.
  intros bad.
  destruct (ReloadScenarios_correct demo_id 4 (demo_engine None) None (Some (Ok [demo_scenario "S1" None; bad])) "S1"
    (demo_engine_reachable None)) as (_ & _ & ->).
  by vm_compute.
Defined.
