(* ===== verification/DetectionConc.v ===== *)
(** One match under interleaving: [handleMatch] reads the pointer to a record,
    writes its fields one by one, sends and stores the pointer, while the
    cleanup goroutine and the receiver run in between.  Every such schedule is
    one in which the match is a single step, as long as no cleanup runs so late
    that it expires records last seen at the time of the input; with inputs that
    carry old or zero timestamps, as log records may, there are schedules that
    no order of single steps explains ([late_cleanup_not_atomic]). *)

From S2P Require Import Prelude Types Detection DetectionLemmas DetectionProps.

Section conc.
Context {Data : Type} `{CEL : CELEnv Data}.
Context (formatID : Z -> string).
Context (stateExpiration : Z).
(** The match: the scenario, the input, and the clock reading of [generateID]. *)
Context (s : LoadedScenario) (input : DetectionInput Data) (wall : Z).

Abbreviation key := (StateKey (sc_ID s) (di_Resource input)).
Abbreviation now := (di_Timestamp input).

(** * Records behind pointers *)

(** What the goroutines share: the records, the map of the store from keys to
    pointers, and the output channel. *)
Record shared := mkShared {
  heap : gmap positive DetectionState;
  smap : gmap string positive;
  sch : chan DetectionResult;
}.

(** The record a key leads to. *)
Definition deref (sh : shared) (k : string) : option DetectionState := smap sh !! k ≫= (heap sh !!.).

Inductive write :=
  | WLast (t : Z)
  | WCount (n : Z)
  | WWindow (t : Z)
  | WFirst (t : Z)
  | WMet.

Definition apply_write (st : DetectionState) (w : write) : DetectionState :=
  match w with
  | WLast t => mkDetectionState (ds_ScenarioID st) (ds_Resource st) (ds_FirstDetected st) t
                 (ds_DetectionCount st) (ds_ThresholdMet st) (ds_WindowStart st)
  | WCount n => mkDetectionState (ds_ScenarioID st) (ds_Resource st) (ds_FirstDetected st) (ds_LastDetected st)
                  n (ds_ThresholdMet st) (ds_WindowStart st)
  | WWindow t => mkDetectionState (ds_ScenarioID st) (ds_Resource st) (ds_FirstDetected st) (ds_LastDetected st)
                   (ds_DetectionCount st) (ds_ThresholdMet st) t
  | WFirst t => mkDetectionState (ds_ScenarioID st) (ds_Resource st) t (ds_LastDetected st)
                  (ds_DetectionCount st) (ds_ThresholdMet st) (ds_WindowStart st)
  | WMet => mkDetectionState (ds_ScenarioID st) (ds_Resource st) (ds_FirstDetected st) (ds_LastDetected st)
              (ds_DetectionCount st) true (ds_WindowStart st)
  end.

(** The assignments to a record that has not fired, in the order of the code. *)
Definition count_writes (st : DetectionState) : list write :=
  (if match sc_Threshold s with
      | Some th => th_Window th <? time_Sub now (ds_WindowStart st)
      | None => false
      end
   then [WCount 1; WWindow now; WFirst now]
   else [WCount (i64 (ds_DetectionCount st + 1))]) ++ [WLast now].

(** * The steps of [handleMatch] *)

(** Where the call is: before [GetState]; with assignments to make, after which the
    threshold is checked or not; before setting [ThresholdMet], [sendResult],
    [SetState]; done. *)
Inductive hpc :=
  | HGet
  | HRun (l : positive) (ws : list write) (check : bool)
  | HMet (l : positive)
  | HSend (l : positive)
  | HSet (l : positive)
  | HDone.

Definition own_step (sh : shared) (pc : hpc) : option (shared * hpc) :=
  match pc with
  | HGet =>
    match smap sh !! key with
    | Some l =>
      st ← heap sh !! l;
      Some (sh, if ds_ThresholdMet st then HRun l [WLast now] false else HRun l (count_writes st) true)
    | None =>
      let l := fresh (dom (heap sh)) in
      Some (mkShared (<[l := advance s input None]> (heap sh)) (smap sh) (sch sh), HRun l [] true)
    end
  | HRun l (w :: ws) check =>
    Some (mkShared (alter (fun st => apply_write st w) l (heap sh)) (smap sh) (sch sh), HRun l ws check)
  | HRun l [] false => Some (sh, HSet l)
  | HRun l [] true =>
    st ← heap sh !! l; Some (sh, if threshold_reached s st then HMet l else HSet l)
  | HMet l => Some (mkShared (alter (fun st => apply_write st WMet) l (heap sh)) (smap sh) (sch sh), HSend l)
  | HSend l =>
    st ← heap sh !! l;
    Some (mkShared (heap sh) (smap sh) (try_send (sch sh) (mk_result formatID s input wall st)).1, HSet l)
  | HSet l => Some (mkShared (heap sh) (<[key := l]> (smap sh)) (sch sh), HDone)
  | HDone => None
  end.

(** [Cleanup] under the store's lock: it reads the records, which are not locked. *)
Definition cleanup_step (t : Z) (sh : shared) : shared :=
  mkShared (heap sh)
    (filter (fun kl => match heap sh !! kl.2 with
                       | Some st => negb (state_expired stateExpiration t st)
                       | None => true
                       end = true) (smap sh)) (sch sh).

Inductive clabel := COwn | CCleanup (t : Z) | CRecv.

Definition cexec (l : clabel) (c : shared * hpc) : option (shared * hpc) :=
  let '(sh, pc) := c in
  match l with
  | COwn => own_step sh pc
  | CCleanup t => Some (cleanup_step t sh, pc)
  | CRecv => match chan_recv (sch sh) with
             | Some (_, ch) => Some (mkShared (heap sh) (smap sh) ch, pc)
             | None => None
             end
  end.

Fixpoint cexec_all (ls : list clabel) (c : shared * hpc) : option (shared * hpc) :=
  match ls with
  | [] => Some c
  | l :: ls => match cexec l c with Some c => cexec_all ls c | None => None end
  end.

(** The store as the other files see it: records under keys, no two keys sharing
    a record. *)
Record represents (sh : shared) (e : engine Data) : Prop := {
  rp_states k : deref sh k = states e !! k;
  rp_heap k l : smap sh !! k = Some l -> is_Some (heap sh !! l);
  rp_inj k1 k2 l : smap sh !! k1 = Some l -> smap sh !! k2 = Some l -> k1 = k2;
  rp_ch : sch sh = outputCh e;
}.

(** * The same steps around an atomic match *)

Definition env_exec (l : clabel) (e : engine Data) : option (engine Data) :=
  match l with
  | COwn => None
  | CCleanup t => Some (cleanup_tick stateExpiration t e)
  | CRecv => match chan_recv (outputCh e) with Some (_, ch) => Some (set_out ch e) | None => None end
  end.

Fixpoint env_all (ls : list clabel) (e : engine Data) : option (engine Data) :=
  match ls with
  | [] => Some e
  | l :: ls => match env_exec l e with Some e => env_all ls e | None => None end
  end.

Lemma env_all_app ls1 ls2 e :
  env_all (ls1 ++ ls2) e = match env_all ls1 e with Some e1 => env_all ls2 e1 | None => None end.
Proof.
  revert e. induction ls1 as [|l ls1 IH]; intros e; [done|]. cbn [app env_all].
  destruct (env_exec l e); [apply IH|done].
Qed.

(** ** Cleanups *)

Definition survives (st : DetectionState) (t : Z) : bool := negb (state_expired stateExpiration t st).

Lemma deref_cleanup t sh k :
  deref (cleanup_step t sh) k = match deref sh k with
                                | Some st => if survives st t then Some st else None
                                | None => None
                                end.
Proof.
  unfold deref, cleanup_step, survives. cbn [smap heap].
  destruct (smap sh !! k) as [l|] eqn:E; cbn.
  - destruct (heap sh !! l) as [st|] eqn:Eh.
    + destruct (negb _) eqn:En.
      * rewrite (proj2 (map_lookup_filter_Some _ _ k l)); [done|]. split; [done|]. cbn. by rewrite Eh.
      * rewrite (proj2 (map_lookup_filter_None _ _ k)); [done|]. right. intros l' El'. cbn. simplify_eq.
        rewrite Eh. by rewrite En.
    + rewrite (proj2 (map_lookup_filter_Some _ _ k l)); [done|]. split; [done|]. cbn. by rewrite Eh.
  - rewrite (proj2 (map_lookup_filter_None _ _ k)); [done|]. by left.
Qed.

Lemma smap_cleanup t sh k l : smap (cleanup_step t sh) !! k = Some l -> smap sh !! k = Some l.
Proof. cbn. by intros [? _]%map_lookup_filter_Some. Qed.

Lemma lookup_cleanup_tick t (e : engine Data) k :
  states (cleanup_tick stateExpiration t e) !! k =
    match states e !! k with
    | Some st => if survives st t then Some st else None
    | None => None
    end.
Proof.
  unfold cleanup_tick, Cleanup, survives. cbn. destruct (states e !! k) as [st|] eqn:E.
  - destruct (state_expired stateExpiration t st) eqn:Ex; cbn.
    + apply map_lookup_filter_None. right. intros st' E'. simplify_eq. cbn. by rewrite Ex.
    + apply map_lookup_filter_Some. done.
  - apply map_lookup_filter_None. by left.
Qed.

(** ** The match *)

Abbreviation atomic := (handleMatch formatID s input wall).
Abbreviation outcome_of := (match_step formatID s input wall).

Lemma atomic_states (e : engine Data) : states (atomic e) = <[key := (outcome_of (states e !! key)).1]> (states e).
Proof.
  pose proof (handleMatch_step formatID s input wall e) as E. cbv zeta in E.
  destruct (outcome_of (states e !! key)) as [st r]. by rewrite E.
Qed.

Lemma atomic_ch (e : engine Data) :
  outputCh (atomic e) = match (outcome_of (states e !! key)).2 with
                        | Some r => (try_send (outputCh e) r).1
                        | None => outputCh e
                        end.
Proof.
  pose proof (handleMatch_step formatID s input wall e) as E. cbv zeta in E.
  destruct (outcome_of (states e !! key)) as [st [r|]]; by rewrite E.
Qed.

Lemma outcome_LastDetected old : ds_LastDetected (outcome_of old).1 = now.
Proof.
  unfold match_step, advance. destruct old as [st|]; [destruct (ds_ThresholdMet st); [done|]|];
    repeat case_match; simplify_eq/=; done.
Qed.

(** What checking the threshold leads to. *)
Definition finish (st : DetectionState) : DetectionState * option DetectionResult :=
  if threshold_reached s st then (mark_met st, Some (mk_result formatID s input wall (mark_met st))) else (st, None).

Lemma count_writes_advance st :
  foldl apply_write st (count_writes st) = advance s input (Some st).
Proof. unfold count_writes, advance. case_match; by case_match. Qed.

(** The record and result a call is bound to end with, from where it is. *)
Definition bound_for (sh : shared) (pc : hpc) : option (positive * (DetectionState * option DetectionResult)) :=
  match pc with
  | HGet | HDone => None
  | HRun l ws check =>
    st ← heap sh !! l;
    let st := foldl apply_write st ws in Some (l, if check then finish st else (st, None))
  | HMet l => st ← heap sh !! l; Some (l, (mark_met st, Some (mk_result formatID s input wall (mark_met st))))
  | HSend l => st ← heap sh !! l; Some (l, (st, Some (mk_result formatID s input wall st)))
  | HSet l => st ← heap sh !! l; Some (l, (st, None))
  end.

(** While a call works on the record at [l]: the other keys are as in [e], the
    record is no other key's, and the key leads to it or nowhere. *)
Record working (l : positive) (sh : shared) (e : engine Data) : Prop := {
  wk_others k : k <> key -> deref sh k = states e !! k;
  wk_heap k l' : smap sh !! k = Some l' -> is_Some (heap sh !! l');
  wk_inj k1 k2 l' : smap sh !! k1 = Some l' -> smap sh !! k2 = Some l' -> k1 = k2;
  wk_private k : smap sh !! k = Some l -> k = key;
  wk_key l' : smap sh !! key = Some l' -> l' = l;
}.

Lemma working_cleanup l sh e t :
  working l sh e -> working l (cleanup_step t sh) (cleanup_tick stateExpiration t e).
Proof.
  intros [A B C D F]. split.
  - intros k Hk. by rewrite deref_cleanup, lookup_cleanup_tick, A.
  - intros k l' Hk. apply smap_cleanup in Hk. by eapply B.
  - intros k1 k2 l' H1 H2. apply smap_cleanup in H1, H2. by eapply C.
  - intros k Hk. apply smap_cleanup in Hk. by eapply D.
  - intros l' Hk. apply smap_cleanup in Hk. by eapply F.
Qed.

(** Writing the record at [l] is invisible to the others. *)
Lemma working_write l sh e f ch :
  working l sh e -> working l (mkShared (alter f l (heap sh)) (smap sh) ch) e.
Proof.
  intros [A B C D F]. split; cbn; try done.
  - intros k Hk. rewrite <- A by done. unfold deref. cbn. destruct (smap sh !! k) as [l'|] eqn:E; [|done]. cbn.
    rewrite lookup_alter_ne; [done|]. intros <-. apply Hk. by apply D.
  - intros k l' Hk. rewrite lookup_alter_is_Some. by eapply B.
Qed.

Lemma represents_cleanup sh e t :
  represents sh e -> represents (cleanup_step t sh) (cleanup_tick stateExpiration t e).
Proof.
  intros [A B C D]. split; try done.
  - intros k. by rewrite deref_cleanup, lookup_cleanup_tick, A.
  - intros k l Hk. apply smap_cleanup in Hk. by eapply B.
  - intros k1 k2 l H1 H2. apply smap_cleanup in H1, H2. by eapply C.
Qed.

(** [GetState] on a represented store. *)
Lemma get_step sh e sh' pc' :
  represents sh e -> own_step sh HGet = Some (sh', pc') ->
  exists l, bound_for sh' pc' = Some (l, outcome_of (states e !! key)) /\ working l sh' (atomic e) /\
    sch sh' = outputCh e /\ pc' <> HGet /\ pc' <> HSet l.
Proof.
  intros [A B C D] E. pose proof (A key) as Ak. unfold deref in Ak. cbn [own_step] in E.
  destruct (smap sh !! key) as [l|] eqn:Em; cbn in Ak.
  - destruct (heap sh !! l) as [st|] eqn:Eh; [|done]. cbn in E. injection E as <- <-. exists l. rewrite <- Ak.
    split; [|split; [|split; [done|by case_match]]].
    + unfold match_step. destruct (ds_ThresholdMet st) eqn:Em'; cbn; rewrite Eh; cbn.
      * unfold touch_state. by rewrite ?Em'.
      * by rewrite count_writes_advance.
    + split; try done.
      * intros k Hk. rewrite A, atomic_states. by rewrite lookup_insert_ne.
      * intros k Hk. by eapply C.
      * intros l' Hl'. congruence.
  - injection E as <- <-. set (l := fresh (dom (heap sh))).
    assert (heap sh !! l = None) as Hf by (apply not_elem_of_dom, is_fresh).
    exists l. rewrite <- Ak. cbn. rewrite lookup_insert_eq. cbn. split; [done|].
    split; [|split; [done|done]]. split; cbn.
    + intros k Hk. rewrite atomic_states, lookup_insert_ne by done. rewrite <- A. unfold deref. cbn.
      destruct (smap sh !! k) as [l'|] eqn:E; [|done]. cbn. rewrite lookup_insert_ne; [done|].
      intros <-. destruct (B k l E) as [? ?]. congruence.
    + intros k l' Hk. destruct (B k l' Hk) as [st Hst]. rewrite lookup_insert_ne by congruence. by exists st.
    + done.
    + intros k Hk. destruct (B k l Hk) as [st Hst]. congruence.
    + intros l' Hl'. congruence.
Qed.

(** The steps between [GetState] and [SetState]. *)
Lemma middle_step l sh pc st r e sh' pc' :
  bound_for sh pc = Some (l, (st, r)) -> (forall l, pc <> HSet l) -> working l sh e ->
  own_step sh pc = Some (sh', pc') ->
  working l sh' e /\
  ((exists r0, r = Some r0 /\ sch sh' = (try_send (sch sh) r0).1 /\ pc' = HSet l /\
      bound_for sh' pc' = Some (l, (st, None))) \/
   (sch sh' = sch sh /\ bound_for sh' pc' = Some (l, (st, r)) /\ (pc' = HSet l -> r = None))).
Proof.
  intros Hb Hns Hw E. destruct pc as [|l0 ws check|l0|l0|l0|]; try done; [| | |by destruct (Hns l0)]; cbn in Hb, E;
    destruct (heap sh !! l0) as [st0|] eqn:Eh; try done; cbn in Hb.
  - destruct ws as [|w ws].
    + destruct check; [|injection E as <- <-; injection Hb as -> <- <-; split; [done|right; split_and!; try done; cbn; by rewrite Eh]].
      cbn in E. injection E as <- <-. unfold finish in Hb. cbn in Hb.
      destruct (threshold_reached s st0); injection Hb as -> <- <-; (split; [done|]); right; cbn; by rewrite Eh.
    + injection E as <- <-. injection Hb as -> Hst. split; [by apply working_write|]. right.
      split; [done|]. split; [|done]. cbn. rewrite lookup_alter_eq, Eh. cbn in *. by rewrite <- Hst.
  - injection E as <- <-. injection Hb as -> <- <-. split; [by apply working_write|]. right.
    split; [done|]. split; [|done]. cbn. by rewrite lookup_alter_eq, Eh.
  - cbn in E. injection E as <- <-. injection Hb as -> <- <-. split; [destruct Hw; by split|]. left. eexists.
    split; [done|]. split; [done|]. split; [done|]. cbn. by rewrite Eh.
Qed.

(** [SetState]. *)
Lemma set_step l sh st e :
  bound_for sh (HSet l) = Some (l, (st, None)) -> working l sh e -> states e !! key = Some st ->
  sch sh = outputCh e -> represents (mkShared (heap sh) (<[key := l]> (smap sh)) (sch sh)) e.
Proof.
  cbn. intros Hb [A B C D F] Hst Hch. destruct (heap sh !! l) as [st0|] eqn:Eh; [|done]. cbn in Hb. injection Hb as ->.
  split; cbn; [|..|done].
  - intros k. unfold deref. cbn. destruct (decide (k = key)) as [->|Hk].
    + rewrite lookup_insert_eq. cbn. by rewrite Eh.
    + rewrite lookup_insert_ne by done. by rewrite <- A.
  - intros k l' Hk. apply lookup_insert_Some in Hk as [[_ Hl]|[_ Hk]]; [rewrite <- Hl; by exists st|by eapply B].
  - intros k1 k2 l' H1 H2. apply lookup_insert_Some in H1 as [[E1 E1']|[N1 H1]], H2 as [[E2 E2']|[N2 H2]].
    + congruence.
    + rewrite <- E1' in H2. symmetry. rewrite <- E1. by apply D.
    + rewrite <- E2' in H1. rewrite <- E2. by apply D.
    + by eapply C.
Qed.

(** ** Schedules *)

Definition is_env (l : clabel) : bool := match l with COwn => false | _ => true end.
Definition is_cleanup (l : clabel) : bool := match l with CCleanup _ => true | _ => false end.

(** Cleanups alone leave the channel, and a record they do not expire. *)
Lemma env_cleanups ls (e : engine Data) :
  Forall (fun l => is_cleanup l = true) ls ->
  exists e', env_all ls e = Some e' /\ outputCh e' = outputCh e /\
    forall e2 e2', states e2 = states e -> env_all ls e2 = Some e2' -> states e2' = states e'.
Proof.
  intros HF. revert e. induction HF as [|l ls Hl HF IH]; intros e; cbn [env_all].
  { exists e. split_and!; try done. by intros e2 e2' E [= <-]. }
  destruct l as [|t|]; try done. cbn [env_exec]. destruct (IH (cleanup_tick stateExpiration t e)) as (e' & H1 & H2 & H3).
  exists e'. split_and!; try done. intros e2 e2' E E2. eapply H3; [|exact E2]. unfold cleanup_tick. cbn. by rewrite E.
Qed.

(** A call from where it is, against the store as the environment's steps [done]
    have left it: before the match, while it works and has not sent, after. *)
Definition situated (e0 : engine Data) (done : list clabel) (c : shared * hpc) : Prop :=
  let '(sh, pc) := c in
  match pc with
  | HGet => exists e, env_all done e0 = Some e /\ represents sh e
  | HDone => exists ls1 ls2 e1 e2, ls1 ++ ls2 ≡ₚ done /\ env_all ls1 e0 = Some e1 /\
      env_all ls2 (atomic e1) = Some e2 /\ represents sh e2
  | HSet l => exists ls1 ls2 e1 e2 st, ls1 ++ ls2 ≡ₚ done /\ env_all ls1 e0 = Some e1 /\
      env_all ls2 (atomic e1) = Some e2 /\ working l sh e2 /\ states e2 !! key = Some st /\
      bound_for sh pc = Some (l, (st, None)) /\ sch sh = outputCh e2 /\ ds_LastDetected st = now
  | _ => exists l ls1 ls2 e1 e2 st r, ls1 ++ ls2 ≡ₚ done /\ env_all ls1 e0 = Some e1 /\
      Forall (fun l => is_cleanup l = true) ls2 /\ env_all ls2 (atomic e1) = Some e2 /\ working l sh e2 /\
      states e2 !! key = Some st /\ outcome_of (states e1 !! key) = (st, r) /\
      bound_for sh pc = Some (l, (st, r)) /\ sch sh = outputCh e1
  end.

Lemma survives_now st t :
  ds_LastDetected st = now -> t - stateExpiration <= now -> survives st t = true.
Proof.
  intros Hl Ht. unfold survives, state_expired, time_Before, time_Add. rewrite Hl, negb_true_iff. apply Z.ltb_ge. lia.
Qed.

Lemma cleanup_keeps st t (e : engine Data) :
  ds_LastDetected st = now -> t - stateExpiration <= now -> states e !! key = Some st ->
  states (cleanup_tick stateExpiration t e) !! key = Some st.
Proof. intros Hl Ht Hst. by rewrite lookup_cleanup_tick, Hst, survives_now. Qed.

Lemma bound_cleanup t sh pc : bound_for (cleanup_step t sh) pc = bound_for sh pc.
Proof. by destruct pc. Qed.

Lemma env_all_snoc ls l (e e1 e2 : engine Data) :
  env_all ls e = Some e1 -> env_exec l e1 = Some e2 -> env_all (ls ++ [l]) e = Some e2.
Proof. intros H1 H2. rewrite env_all_app, H1. cbn. by rewrite H2. Qed.

Lemma snoc_perm {A} (ls1 ls2 done : list A) x :
  ls1 ++ ls2 ≡ₚ done -> (ls1 ++ [x]) ++ ls2 ≡ₚ done ++ [x] /\ ls1 ++ (ls2 ++ [x]) ≡ₚ done ++ [x].
Proof. intros <-. split; [|by rewrite app_assoc]. rewrite <- !app_assoc. by rewrite (Permutation_app_comm [x] ls2). Qed.

Lemma situated_cleanup e0 done sh pc t :
  t - stateExpiration <= now -> situated e0 done (sh, pc) -> situated e0 (done ++ [CCleanup t]) (cleanup_step t sh, pc).
Proof.
  intros Ht. 
  assert (forall l ls1 ls2 e1 e2 st r, ls1 ++ ls2 ≡ₚ done -> env_all ls1 e0 = Some e1 ->
      Forall (fun l => is_cleanup l = true) ls2 -> env_all ls2 (atomic e1) = Some e2 -> working l sh e2 ->
      states e2 !! key = Some st -> outcome_of (states e1 !! key) = (st, r) ->
      bound_for sh pc = Some (l, (st, r)) -> sch sh = outputCh e1 ->
      exists l ls1 ls2 e1 e2 st r, ls1 ++ ls2 ≡ₚ done ++ [CCleanup t] /\ env_all ls1 e0 = Some e1 /\
      Forall (fun l => is_cleanup l = true) ls2 /\ env_all ls2 (atomic e1) = Some e2 /\
      working l (cleanup_step t sh) e2 /\ states e2 !! key = Some st /\ outcome_of (states e1 !! key) = (st, r) /\
      bound_for (cleanup_step t sh) pc = Some (l, (st, r)) /\ sch (cleanup_step t sh) = outputCh e1) as Hmid.
  { intros l ls1 ls2 e1 e2 st r Hp H1 HF H2 Hw Hst Ho Hb Hch.
    assert (ds_LastDetected st = now) as Hl by (pose proof (outcome_LastDetected (states e1 !! key)) as X; by rewrite Ho in X).
    exists l, ls1, (ls2 ++ [CCleanup t]), e1, (cleanup_tick stateExpiration t e2), st, r.
    split; [by apply snoc_perm|]. split; [done|]. split; [by apply Forall_app; split; [|by constructor]|].
    split; [by eapply env_all_snoc|]. split; [by apply working_cleanup|]. split; [by apply cleanup_keeps|].
    rewrite bound_cleanup. done. }
  destruct pc as [|l0 ws check|l0|l0|l0|]; cbn [situated].
  - intros (e & He & Hr). exists (cleanup_tick stateExpiration t e).
    split; [by eapply env_all_snoc|]. by apply represents_cleanup.
  - intros (l & ls1 & ls2 & e1 & e2 & st & r & ? & ? & ? & ? & ? & ? & ? & ? & ?). by eapply Hmid.
  - intros (l & ls1 & ls2 & e1 & e2 & st & r & ? & ? & ? & ? & ? & ? & ? & ? & ?). by eapply Hmid.
  - intros (l & ls1 & ls2 & e1 & e2 & st & r & ? & ? & ? & ? & ? & ? & ? & ? & ?). by eapply Hmid.
  - intros (ls1 & ls2 & e1 & e2 & st & Hp & H1 & H2 & Hw & Hst & Hb & Hch & Hl).
    exists ls1, (ls2 ++ [CCleanup t]), e1, (cleanup_tick stateExpiration t e2), st.
    split; [by apply snoc_perm|]. split; [done|]. split; [by eapply env_all_snoc|]. split; [by apply working_cleanup|].
    split; [by apply cleanup_keeps|]. done.
  - intros (ls1 & ls2 & e1 & e2 & Hp & H1 & H2 & Hr).
    exists ls1, (ls2 ++ [CCleanup t]), e1, (cleanup_tick stateExpiration t e2).
    split; [by apply snoc_perm|]. split; [done|]. split; [by eapply env_all_snoc|]. by apply represents_cleanup.
Qed.

Lemma situated_recv e0 done sh pc r0 ch :
  chan_recv (sch sh) = Some (r0, ch) -> situated e0 done (sh, pc) ->
  situated e0 (done ++ [CRecv]) (mkShared (heap sh) (smap sh) ch, pc).
Proof.
  intros Hr.
  assert (forall l ls1 ls2 e1 e2 st r, ls1 ++ ls2 ≡ₚ done -> env_all ls1 e0 = Some e1 ->
      Forall (fun l => is_cleanup l = true) ls2 -> env_all ls2 (atomic e1) = Some e2 -> working l sh e2 ->
      states e2 !! key = Some st -> outcome_of (states e1 !! key) = (st, r) ->
      bound_for sh pc = Some (l, (st, r)) -> sch sh = outputCh e1 ->
      exists l ls1 ls2 e1 e2 st r, ls1 ++ ls2 ≡ₚ done ++ [CRecv] /\ env_all ls1 e0 = Some e1 /\
      Forall (fun l => is_cleanup l = true) ls2 /\ env_all ls2 (atomic e1) = Some e2 /\
      working l (mkShared (heap sh) (smap sh) ch) e2 /\ states e2 !! key = Some st /\
      outcome_of (states e1 !! key) = (st, r) /\
      bound_for (mkShared (heap sh) (smap sh) ch) pc = Some (l, (st, r)) /\ ch = outputCh e1) as Hmid.
  { intros l ls1 ls2 e1 e2 st r Hp H1 HF H2 [W1 W2 W3 W4 W5] Hst Ho Hb Hch.
    destruct (env_cleanups ls2 (atomic (set_out ch e1)) HF) as (e2' & H2' & _ & _).
    destruct (env_cleanups ls2 (atomic e1) HF) as (e2'' & H2'' & _ & Hsame). rewrite H2 in H2''. injection H2'' as <-.
    assert (states e2' = states e2) as Es.
    { eapply Hsame; [|exact H2']. by rewrite !atomic_states. }
    exists l, (ls1 ++ [CRecv]), ls2, (set_out ch e1), e2', st, r.
    split; [by apply snoc_perm|]. split; [eapply env_all_snoc; [done|]; cbn; by rewrite <- Hch, Hr|].
    split; [done|]. split; [done|]. split; [split; try done; by rewrite Es|]. rewrite Es. by split_and!. }
  destruct pc as [|l0 ws check|l0|l0|l0|]; cbn [situated].
  - intros (e & He & [R1 R2 R3 R4]). exists (set_out ch e).
    split; [eapply env_all_snoc; [done|]; cbn; by rewrite <- R4, Hr|]. by split.
  - intros (l & ls1 & ls2 & e1 & e2 & st & r & ? & ? & ? & ? & ? & ? & ? & ? & ?). by eapply Hmid.
  - intros (l & ls1 & ls2 & e1 & e2 & st & r & ? & ? & ? & ? & ? & ? & ? & ? & ?). by eapply Hmid.
  - intros (l & ls1 & ls2 & e1 & e2 & st & r & ? & ? & ? & ? & ? & ? & ? & ? & ?). by eapply Hmid.
  - intros (ls1 & ls2 & e1 & e2 & st & Hp & H1 & H2 & [W1 W2 W3 W4 W5] & Hst & Hb & Hch & Hl).
    exists ls1, (ls2 ++ [CRecv]), e1, (set_out ch e2), st.
    split; [by apply snoc_perm|]. split; [done|].
    split; [eapply env_all_snoc; [done|]; cbn; by rewrite <- Hch, Hr|]. split; [by split|]. done.
  - intros (ls1 & ls2 & e1 & e2 & Hp & H1 & H2 & [R1 R2 R3 R4]).
    exists ls1, (ls2 ++ [CRecv]), e1, (set_out ch e2).
    split; [by apply snoc_perm|]. split; [done|].
    split; [eapply env_all_snoc; [done|]; cbn; by rewrite <- R4, Hr|]. by split.
Qed.

Lemma situated_own e0 done sh pc sh' pc' :
  situated e0 done (sh, pc) -> own_step sh pc = Some (sh', pc') -> situated e0 done (sh', pc').
Proof.
  intros HS E.
  assert ((exists l ls1 ls2 e1 e2 st r, ls1 ++ ls2 ≡ₚ done /\ env_all ls1 e0 = Some e1 /\
      Forall (fun l => is_cleanup l = true) ls2 /\ env_all ls2 (atomic e1) = Some e2 /\ working l sh e2 /\
      states e2 !! key = Some st /\ outcome_of (states e1 !! key) = (st, r) /\
      bound_for sh pc = Some (l, (st, r)) /\ sch sh = outputCh e1) -> (forall l, pc <> HSet l) ->
    situated e0 done (sh', pc')) as Hmid.
  { intros (l & ls1 & ls2 & e1 & e2 & st & r & Hp & H1 & HF & H2 & Hw & Hst & Ho & Hb & Hch) Hns.
    assert (ds_LastDetected st = now) as Hl by (pose proof (outcome_LastDetected (states e1 !! key)) as X; by rewrite Ho in X).
    destruct (env_cleanups ls2 (atomic e1) HF) as (e2' & H2' & Hout & _). rewrite H2 in H2'. injection H2' as <-.
    rewrite atomic_ch, Ho in Hout. cbn [snd] in Hout.
    destruct (middle_step _ _ _ _ _ _ _ _ Hb Hns Hw E) as [Hw' [(r0 & -> & Hc & -> & Hb')|(Hc & Hb' & Hnr)]].
    - exists ls1, ls2, e1, e2, st. split_and!; try done. by rewrite Hc, Hout, Hch.
    - assert (sch sh' = outputCh e1) as Hc' by congruence.
      destruct pc' as [|l0 ws check|l0|l0|l0|]; cbn [situated]; [done|eauto 20..| |done].
      assert (l0 = l) as -> by (cbn in Hb'; destruct (heap sh' !! l0); [by injection Hb'|done]).
      specialize (Hnr eq_refl) as ->. exists ls1, ls2, e1, e2, st. split_and!; try done. congruence. }
  destruct pc as [|l0 ws check|l0|l0|l0|]; try (by apply Hmid); cbn [situated] in HS.
  - clear Hmid. destruct HS as (e & He & HR). destruct (get_step sh e sh' pc' HR E) as (l & Hb & Hw & Hch & Hng & Hns).
    destruct (outcome_of (states e !! key)) as [st r] eqn:Ho.
    assert (states (atomic e) !! key = Some st) as Hst by (rewrite atomic_states, Ho; apply lookup_insert_eq).
    assert (exists l ls1 ls2 e1 e2 st r, ls1 ++ ls2 ≡ₚ done /\ env_all ls1 e0 = Some e1 /\
      Forall (fun l => is_cleanup l = true) ls2 /\ env_all ls2 (atomic e1) = Some e2 /\ working l sh' e2 /\
      states e2 !! key = Some st /\ outcome_of (states e1 !! key) = (st, r) /\
      bound_for sh' pc' = Some (l, (st, r)) /\ sch sh' = outputCh e1) as Hall.
    { exists l, done, [], e, (atomic e), st, r. rewrite app_nil_r. by split_and!. }
    destruct pc' as [|l0 ws check|l0|l0|l0|]; try exact Hall; [done| |done].
    cbn in Hb. destruct (heap sh' !! l0); [|done]. injection Hb as -> _ _. by destruct (Hns eq_refl).
  - destruct HS as (ls1 & ls2 & e1 & e2 & st & Hp & H1 & H2 & Hw & Hst & Hb & Hch & Hl).
    cbn in E. injection E as <- <-. exists ls1, ls2, e1, e2. split_and!; try done. by eapply set_step.
Qed.

(** C8: a match is atomic unless a cleanup is late for it.  [handleMatch] reads a pointer, assigns the fields of the
    record one at a time - visible to the cleanup goroutine at once - sends
    without a lock, and stores the pointer, while cleanups and receives happen
    anywhere in between.  Every such schedule ends with the records and the
    channel of one in which the match is a single step and every cleanup and
    receive still happens, provided that no cleanup is so late that it would
    expire a record last seen at the input's own timestamp. *)
Theorem interleaved_match_atomic e sh sh' ls :
  represents sh e ->
  Forall (fun l => match l with CCleanup t => t - stateExpiration <= now | _ => True end) ls ->
  cexec_all ls (sh, HGet) = Some (sh', HDone) ->
  exists ls1 ls2 e1 e2, ls1 ++ ls2 ≡ₚ filter (fun l => is_env l = true) ls /\
    env_all ls1 e = Some e1 /\ env_all ls2 (handleMatch formatID s input wall e1) = Some e2 /\
    represents sh' e2.
Proof.
  intros HR HF HE.
  assert (forall ls done c c', Forall (fun l => match l with CCleanup t => t - stateExpiration <= now | _ => True end) ls ->
    situated e done c -> cexec_all ls c = Some c' ->
    situated e (done ++ filter (fun l => is_env l = true) ls) c') as Hrun.
  { clear. intros ls. induction ls as [|l ls IH]; intros done c c' HF HS; cbn [cexec_all].
    { intros [= <-]. by rewrite app_nil_r. }
    apply Forall_cons in HF as [Hl HF]. destruct (cexec l c) as [c1|] eqn:E1; [|done]. intros E2.
    destruct c as [sh pc]. destruct l as [|t|]; cbn [cexec] in E1; rewrite filter_cons.
    - rewrite decide_False by done. destruct c1 as [sh1 pc1]. eapply IH; [done| |exact E2]. by eapply situated_own.
    - rewrite decide_True by done. injection E1 as <-. rewrite cons_middle, app_assoc.
      eapply IH; [done| |exact E2]. by apply situated_cleanup.
    - rewrite decide_True by done. destruct (chan_recv (sch sh)) as [[r0 ch]|] eqn:Er; [|done]. injection E1 as <-.
      rewrite cons_middle, app_assoc. eapply IH; [done| |exact E2]. by eapply situated_recv. }
  specialize (Hrun ls [] (sh, HGet) (sh', HDone) HF). cbn [app] in Hrun. apply Hrun; [|done]. by exists e.
Qed.

End conc.

(** A cleanup expires the record between [GetState] and the first assignment, and
    the receiver takes the result before the pointer is stored again. *)
#[local] Existing Instance demo_env.

Lemma interleaved_match_atomic_witness :
  let s := demo_scenario "S1" (Some (mkThreshold 2 100)) in
  let st := mkDetectionState "S1" demo_ref 5 5 1 false 5 in
  let sh := mkShared {[ 1%positive := st ]} {[ "S1/Pod/prod/web-0" := 1%positive ]} (Chan [] 4) in
  let e := set_states {[ "S1/Pod/prod/web-0" := st ]} (demo_engine (Some (mkThreshold 2 100))) in
  let ls := [COwn; CCleanup 120; COwn; COwn; COwn; COwn; COwn; CRecv; COwn] in
  exists sh', cexec_all demo_id 100 s (demo_input 50 true) 9 ls (sh, HGet) = Some (sh', HDone) /\
    exists ls1 ls2 e1 e2, ls1 ++ ls2 ≡ₚ [CCleanup 120; CRecv] /\ env_all 100 ls1 e = Some e1 /\
      env_all 100 ls2 (handleMatch demo_id s (demo_input 50 true) 9 e1) = Some e2 /\ represents sh' e2.
Proof.
  intros s st sh e ls. eexists. split; [vm_compute; reflexivity|].
  refine (interleaved_match_atomic demo_id 100 s (demo_input 50 true) 9 e sh _ ls _ _ _).
  - split; [|..|by vm_compute].
    + intros k. unfold deref. cbn [smap heap sh]. cbn [states e set_states].
      destruct (decide (k = "S1/Pod/prod/web-0")) as [->|Hk]; [by vm_compute|].
      by rewrite !lookup_singleton_ne by done.
    + cbn [smap heap sh]. intros k l [<- <-]%lookup_singleton_Some. by exists st.
    + cbn [smap sh]. intros k1 k2 l [<- _]%lookup_singleton_Some [<- _]%lookup_singleton_Some. done.
  - repeat constructor. vm_compute. done.
  - vm_compute. reflexivity.
Defined.

(** Without that proviso: the record was last seen at 5, the input is of time 10,
    and a cleanup at 120 would expire both.  It runs between [GetState] and
    [SetState], which puts the record back, with the second match counted and
    fired - neither the cleanup before the match, which would have started a new
    count, nor the one after it, which would have removed the record. *)
Lemma late_cleanup_not_atomic :
  let s := demo_scenario "S1" (Some (mkThreshold 2 100)) in
  let st := mkDetectionState "S1" demo_ref 5 5 1 false 5 in
  let sh := mkShared {[ 1%positive := st ]} {[ "S1/Pod/prod/web-0" := 1%positive ]} (Chan [] 4) in
  let e := set_states {[ "S1/Pod/prod/web-0" := st ]} (demo_engine (Some (mkThreshold 2 100))) in
  exists sh', cexec_all demo_id 100 s (demo_input 10 true) 9 [COwn; CCleanup 120; COwn; COwn; COwn; COwn; COwn; COwn] (sh, HGet)
      = Some (sh', HDone) /\
    forall ls1 ls2 e1 e2, ls1 ++ ls2 ≡ₚ [CCleanup 120] -> env_all 100 ls1 e = Some e1 ->
      env_all 100 ls2 (handleMatch demo_id s (demo_input 10 true) 9 e1) = Some e2 -> ~ represents sh' e2.
Proof.
  intros s st sh e. eexists. split; [vm_compute; reflexivity|].
  intros ls1 ls2 e1 e2 Hp H1 H2 [A _ _ _]. specialize (A "S1/Pod/prod/web-0").
  assert ((ls1 = [CCleanup 120] /\ ls2 = []) \/ (ls1 = [] /\ ls2 = [CCleanup 120])) as [[-> ->]|[-> ->]].
  { apply Permutation_singleton_r in Hp. destruct ls1 as [|l1 [|? ?]]; cbn in Hp; [by right| |done].
    injection Hp as -> ->. by left. }
  - cbn [env_all env_exec] in H1, H2. apply Some_inj in H1. apply Some_inj in H2. rewrite <- H2, <- H1 in A.
    by vm_compute in A.
  - cbn [env_all env_exec] in H1, H2. apply Some_inj in H1. apply Some_inj in H2. rewrite <- H2, <- H1 in A.
    by vm_compute in A.
Qed.
