(* ===== verification/Policy.v ===== *)
(** The policy manager (internal/policy/policy.go): which resources the active
    [ClusterRemediationPolicy] objects cover, and the interface through which
    the remediation controller consults it. *)

From S2P Require Import Prelude Types.

(** * The interface *)

(** [PolicyChecker] of internal/remediation, with what the controller may rely
    on: when everything is paused nothing is covered. *)
Record PolicyChecker := {
  pc_IsPaused : bool;
  pc_IsResourceCovered : ResourceReference -> gmap string string -> bool;
  pc_paused_covers_none r ls : pc_IsPaused = true -> pc_IsResourceCovered r ls = false;
}.

(** * The manager *)

(** Label selectors belong to apimachinery: a selector of the API is compiled
    to a matcher of label sets, or refused. *)
Class LabelEnv := {
  LabelSelector : Type;
  Selector : Type;
  LabelSelectorAsSelector : LabelSelector -> result Selector;
  Selector_Matches : Selector -> gmap string string -> bool;
}.

Section manager.
Context `{LabelEnv}.

Record TargetSelector := mkTarget {
  ts_Namespaces : list string;
  ts_ExcludedNamespaces : list string;
  ts_LabelSelector : option LabelSelector;
  ts_ResourceTypes : list string;
}.

Record ScenarioConfig := mkScenarioConfig {
  scc_Name : string;
  scc_Enabled : option bool;
  scc_Parameters : gmap string string;
  scc_Cooldown : option Z;
  scc_MaxRetries : option Z;
  scc_AdditionalLabels : gmap string string;
}.

(** Of [GlobalPolicyConfig] the manager reads these two fields. *)
Record GlobalPolicyConfig := mkGlobal {
  gc_DryRun : bool;
  gc_Paused : bool;
}.

Record ClusterRemediationPolicy := mkPolicy {
  p_TargetSelector : TargetSelector;
  p_ScenarioConfigs : list ScenarioConfig;
  p_GlobalConfig : GlobalPolicyConfig;
}.

Record managerImpl := mkManager { policies : list ClusterRemediationPolicy }.

Definition NewManager : managerImpl := mkManager [].

Definition Load (ps : list ClusterRemediationPolicy) (m : managerImpl) : managerImpl := mkManager ps.

Fixpoint stringInSlice (s : string) (l : list string) : bool :=
  match l with
  | [] => false
  | v :: l => if decide (v = s) then true else stringInSlice s l
  end.

(** [len(l) > 0] *)
Definition nonempty {A} (l : list A) : bool := match l with [] => false | _ => true end.

Definition matchesTarget (ts : TargetSelector) (resource : ResourceReference)
    (resourceLabels : gmap string string) : bool :=
  if nonempty (ts_Namespaces ts) && negb (stringInSlice (Namespace resource) (ts_Namespaces ts))
  then false
  else if nonempty (ts_ExcludedNamespaces ts)
          && stringInSlice (Namespace resource) (ts_ExcludedNamespaces ts) then false
  else if nonempty (ts_ResourceTypes ts) && negb (stringInSlice (Kind resource) (ts_ResourceTypes ts))
  then false
  else match ts_LabelSelector ts with
       | None => true
       | Some ls =>
         match LabelSelectorAsSelector ls with
         | Err _ => false
         | Ok selector => Selector_Matches selector resourceLabels
         end
       end.

Fixpoint covered_loop (ps : list ClusterRemediationPolicy) (resource : ResourceReference)
    (resourceLabels : gmap string string) : bool :=
  match ps with
  | [] => false
  | p :: ps =>
    if gc_Paused (p_GlobalConfig p) then covered_loop ps resource resourceLabels
    else if matchesTarget (p_TargetSelector p) resource resourceLabels then true
    else covered_loop ps resource resourceLabels
  end.

Definition IsResourceCovered (resource : ResourceReference) (resourceLabels : gmap string string)
    (m : managerImpl) : bool :=
  if nonempty (policies m) then covered_loop (policies m) resource resourceLabels else true.

Fixpoint override_loop (ps : list ClusterRemediationPolicy) (scenarioName : string)
  : option ScenarioConfig :=
  match ps with
  | [] => None
  | p :: ps =>
    if gc_Paused (p_GlobalConfig p) then override_loop ps scenarioName
    else match find_first (fun sc => bool_decide (scc_Name sc = scenarioName)) (p_ScenarioConfigs p) with
         | Some sc => Some sc
         | None => override_loop ps scenarioName
         end
  end.

Definition GetScenarioOverride (scenarioName : string) (m : managerImpl) : option ScenarioConfig :=
  override_loop (policies m) scenarioName.

Fixpoint dry_loop (ps : list ClusterRemediationPolicy) : bool :=
  match ps with
  | [] => false
  | p :: ps =>
    if negb (gc_Paused (p_GlobalConfig p)) && gc_DryRun (p_GlobalConfig p) then true else dry_loop ps
  end.

Definition IsDryRun (m : managerImpl) : bool := dry_loop (policies m).

Fixpoint paused_loop (ps : list ClusterRemediationPolicy) : bool :=
  match ps with
  | [] => true
  | p :: ps => if negb (gc_Paused (p_GlobalConfig p)) then false else paused_loop ps
  end.

Definition IsPaused (m : managerImpl) : bool :=
  if nonempty (policies m) then paused_loop (policies m) else false.

Definition PolicyCount (m : managerImpl) : nat := length (policies m).

(** [loadFn] is what the CRD loader returned. *)
Definition LoadPolicies (loaded : result (list ClusterRemediationPolicy)) (m : managerImpl)
  : managerImpl * result () :=
  match loaded with
  | Err e => (m, Err e)
  | Ok ps => (Load ps m, Ok ())
  end.

(** * What the tests mean *)

Lemma stringInSlice_elem s l : stringInSlice s l = true <-> s ∈ l.
Proof.
  induction l as [|v l IH]; simpl; [by rewrite elem_of_nil|].
  rewrite elem_of_cons. case_decide; naive_solver.
Qed.

Lemma nonempty_spec {A} (l : list A) : nonempty l = true <-> l <> [].
Proof. by destruct l. Qed.

(** A list that restricts only when it is not empty. *)
Lemma nonempty_in s l : nonempty l && negb (stringInSlice s l) = false <-> l = [] \/ s ∈ l.
Proof.
  rewrite andb_false_iff, negb_false_iff, stringInSlice_elem. destruct l; naive_solver.
Qed.

Lemma nonempty_not_in s l : nonempty l && stringInSlice s l = false <-> s ∉ l.
Proof.
  rewrite andb_false_iff. destruct (stringInSlice s l) eqn:E.
  - apply stringInSlice_elem in E. destruct l; [by apply elem_of_nil in E|]. naive_solver.
  - split; [|by right]. intros _ Hin. apply stringInSlice_elem in Hin. congruence.
Qed.

Lemma paused_loop_spec ps : paused_loop ps = true <-> Forall (fun p => gc_Paused (p_GlobalConfig p) = true) ps.
Proof.
  induction ps as [|p ps IH]; simpl; [done|]. rewrite Forall_cons.
  destruct (gc_Paused _); simpl; naive_solver.
Qed.

Lemma covered_loop_spec ps r ls :
  covered_loop ps r ls = true <->
  Exists (fun p => gc_Paused (p_GlobalConfig p) = false /\ matchesTarget (p_TargetSelector p) r ls = true) ps.
Proof.
  induction ps as [|p ps IH]; simpl; [by rewrite Exists_nil|].
  rewrite Exists_cons. destruct (gc_Paused _), (matchesTarget _ _ _); naive_solver.
Qed.

Lemma manager_paused_covers_none m r ls : IsPaused m = true -> IsResourceCovered r ls m = false.
Proof.
  unfold IsPaused, IsResourceCovered. destruct (nonempty (policies m)); [|done].
  intros HP. apply not_true_iff_false. rewrite covered_loop_spec. apply paused_loop_spec in HP.
  rewrite Exists_exists. intros (p & Hin & Hp & _).
  rewrite Forall_forall in HP. by rewrite HP in Hp.
Qed.

(** The manager implements the controller's interface. *)
Definition manager_checker (m : managerImpl) : PolicyChecker := {|
  pc_IsPaused := IsPaused m;
  pc_IsResourceCovered r ls := IsResourceCovered r ls m;
  pc_paused_covers_none r ls := manager_paused_covers_none m r ls;
|}.

Lemma matchesTarget_spec ts r ls :
  matchesTarget ts r ls = true <->
  (ts_Namespaces ts = [] \/ Namespace r ∈ ts_Namespaces ts) /\
  Namespace r ∉ ts_ExcludedNamespaces ts /\
  (ts_ResourceTypes ts = [] \/ Kind r ∈ ts_ResourceTypes ts) /\
  (forall sel, ts_LabelSelector ts = Some sel ->
     exists s, LabelSelectorAsSelector sel = Ok s /\ Selector_Matches s ls = true).
Proof.
  rewrite <- !nonempty_in, <- nonempty_not_in. unfold matchesTarget.
  destruct (nonempty _ && negb _); [naive_solver|].
  destruct (nonempty _ && stringInSlice _ _); [naive_solver|].
  destruct (nonempty _ && negb _); [naive_solver|].
  destruct (ts_LabelSelector ts) as [sel|]; [|naive_solver].
  destruct (LabelSelectorAsSelector sel) as [s|] eqn:E; split.
  - intros Hm. split_and!; try done. intros ? [= <-]. eauto.
  - intros (_ & _ & _ & Hs). destruct (Hs sel eq_refl) as (s' & Hs' & Hm). congruence.
  - done.
  - intros (_ & _ & _ & Hs). destruct (Hs sel eq_refl) as (s' & Hs' & Hm). congruence.
Qed.

(** A resource is covered exactly when there is no policy at all, or some
    policy that is not paused selects it: its namespace is listed (or the list
    is empty) and not excluded, its kind is listed (or the list is empty), and
    the label selector, if any, is valid and matches the labels. *)
Theorem IsResourceCovered_correct m r ls :
  IsResourceCovered r ls m = true <->
  policies m = [] \/
  exists p, p ∈ policies m /\ gc_Paused (p_GlobalConfig p) = false /\
    let ts := p_TargetSelector p in
    (ts_Namespaces ts = [] \/ Namespace r ∈ ts_Namespaces ts) /\
    Namespace r ∉ ts_ExcludedNamespaces ts /\
    (ts_ResourceTypes ts = [] \/ Kind r ∈ ts_ResourceTypes ts) /\
    (forall sel, ts_LabelSelector ts = Some sel ->
       exists s, LabelSelectorAsSelector sel = Ok s /\ Selector_Matches s ls = true).
Proof.
  unfold IsResourceCovered. destruct (policies m) as [|p ps] eqn:E; cbn [nonempty]; [naive_solver|].
  rewrite covered_loop_spec, Exists_exists. split.
  - intros (q & Hin & Hp & Hm). right. exists q. by rewrite <- matchesTarget_spec.
  - intros [|(q & Hin & Hp & Hm)]; [done|]. exists q. by rewrite matchesTarget_spec.
Qed.

Lemma override_loop_spec ps name sc :
  override_loop ps name = Some sc <->
  find_first (fun sc => bool_decide (scc_Name sc = name))
    (concat (p_ScenarioConfigs <$> filter (fun p => gc_Paused (p_GlobalConfig p) = false) ps)) = Some sc.
Proof.
  induction ps as [|p ps IH]; [done|]. cbn [override_loop]. rewrite filter_cons.
  destruct (gc_Paused _); [by rewrite decide_False|]. rewrite decide_True by done.
  rewrite fmap_cons. cbn [concat]. rewrite find_first_app. destruct (find_first _ (p_ScenarioConfigs p)); [done|exact IH].
Qed.

End manager.

(** The pause flags decide alone: the manager reports "paused" exactly when
    there are policies and all of them are paused, and then no resource is
    covered whatever its labels; with no policy it is not paused and every
    resource is covered; a scenario override is the first with that name among
    the policies that are not paused, in their order. *)
Theorem pause_semantics `{LabelEnv} (m : managerImpl) :
  (IsPaused m = true <-> policies m <> [] /\ Forall (fun p => gc_Paused (p_GlobalConfig p) = true) (policies m)) /\
  (IsPaused m = true -> forall r ls, IsResourceCovered r ls m = false) /\
  (policies m = [] -> IsPaused m = false /\ forall r ls, IsResourceCovered r ls m = true) /\
  (forall name sc, GetScenarioOverride name m = Some sc ->
     exists p, p ∈ policies m /\ gc_Paused (p_GlobalConfig p) = false /\ sc ∈ p_ScenarioConfigs p /\
       scc_Name sc = name).
Proof.
  split; [|split; [|split]].
  - unfold IsPaused. rewrite <- nonempty_spec, <- paused_loop_spec.
    destruct (nonempty _); naive_solver.
  - intros HP r ls. by apply manager_paused_covers_none.
  - unfold IsPaused, IsResourceCovered. by intros ->.
  - intros name sc. unfold GetScenarioOverride. rewrite override_loop_spec, find_first_Some.
    intros (l1 & l2 & Hl & Hn & _). rewrite bool_decide_eq_true in Hn.
    assert (sc ∈ concat (p_ScenarioConfigs <$> filter (fun p => gc_Paused (p_GlobalConfig p) = false) (policies m)))
      as Hin by (rewrite Hl; set_solver).
    apply list_elem_of_In, in_concat in Hin as (scs & Hscs & Hsc).
    apply list_elem_of_In, list_elem_of_fmap in Hscs as (p & -> & Hp).
    apply list_elem_of_filter in Hp as [Hp Hin]. apply list_elem_of_In in Hsc. eauto.
Qed.
