(* ===== verification/Owner.v ===== *)
(** Owner resolution (internal/remediation/owner_resolver.go): from a Pod to the
    workload that controls it. *)

From S2P Require Import Prelude Types.

(** * The interface *)

(** [OwnerResolver], reading a cluster of type [W]; resolvers leave workloads
    as they are. *)
Definition workloadKinds (kind : string) : bool :=
  bool_decide (kind = "Deployment") || bool_decide (kind = "StatefulSet") ||
  bool_decide (kind = "DaemonSet") || bool_decide (kind = "Job") || bool_decide (kind = "CronJob").

Record OwnerResolver (W : Type) := {
  ResolveWorkloadOwner : W -> ResourceReference -> result ResourceReference;
  resolve_workload w ref : workloadKinds (Kind ref) = true -> ResolveWorkloadOwner w ref = Ok ref;
}.
Arguments ResolveWorkloadOwner {W} _ _ _.
Arguments resolve_workload {W} _ _ _.

(** * The resolver that asks the API server *)

(** The two reads of the client: the owner references of a pod and of a replica
    set, or an error. *)
Class OwnerClient (W : Type) := {
  get_pod_owners : W -> string -> string -> result (list OwnerInfo);
  get_rs_owners : W -> string -> string -> result (list OwnerInfo);
}.

Section k8s.
Context {W : Type} `{OwnerClient W}.
Implicit Types w : W.

Definition owner_ref (namespace : string) (o : OwnerInfo) : ResourceReference :=
  mkRef (ow_APIVersion o) (ow_Kind o) namespace (ow_Name o) (ow_UID o).

Definition resolveReplicaSetOwner w (namespace name : string) : result ResourceReference :=
  match get_rs_owners w namespace name with
  | Err e => Err ("get replicaset " +:+ namespace +:+ "/" +:+ name +:+ ": " +:+ e)
  | Ok owners =>
    match find_first (fun o => bool_decide (ow_Kind o = "Deployment")) owners with
    | Some owner => Ok (owner_ref namespace owner)
    | None => Ok (mkRef "apps/v1" "ReplicaSet" namespace name "")
    end
  end.

Definition resolvePodOwner w (ref : ResourceReference) : result ResourceReference :=
  match get_pod_owners w (Namespace ref) (Name ref) with
  | Err e => Err ("get pod " +:+ ResourceReference_String ref +:+ ": " +:+ e)
  | Ok [] => Ok ref
  | Ok (owner :: _) =>
    if workloadKinds (ow_Kind owner) then Ok (owner_ref (Namespace ref) owner)
    else if decide (ow_Kind owner = "ReplicaSet") then
      resolveReplicaSetOwner w (Namespace ref) (ow_Name owner)
    else Ok ref
  end.

Definition k8s_ResolveWorkloadOwner w (ref : ResourceReference) : result ResourceReference :=
  if workloadKinds (Kind ref) then Ok ref
  else if negb (bool_decide (Kind ref = "Pod")) then Ok ref
  else resolvePodOwner w ref.

Lemma k8s_resolve_workload w ref :
  workloadKinds (Kind ref) = true -> k8s_ResolveWorkloadOwner w ref = Ok ref.
Proof. unfold k8s_ResolveWorkloadOwner. by intros ->. Qed.

Definition k8sOwnerResolver : OwnerResolver W := {|
  ResolveWorkloadOwner := k8s_ResolveWorkloadOwner;
  resolve_workload := k8s_resolve_workload;
|}.

(** The kinds at which resolution stops. *)
Definition settled (kind : string) : Prop := workloadKinds kind = true \/ kind = "ReplicaSet".

Lemma resolve_settled w ref :
  settled (Kind ref) -> k8s_ResolveWorkloadOwner w ref = Ok ref.
Proof.
  unfold k8s_ResolveWorkloadOwner. intros [-> | ->]; [done|]. by vm_compute.
Qed.

Lemma resolveReplicaSetOwner_settled w ns name r :
  resolveReplicaSetOwner w ns name = Ok r -> settled (Kind r) /\ Namespace r = ns.
Proof.
  unfold resolveReplicaSetOwner. destruct (get_rs_owners w ns name); [|done].
  destruct (find_first _ _) as [o|] eqn:E; intros [= <-]; simpl.
  - apply find_first_Some in E as (? & ? & _ & Ho & _). apply bool_decide_eq_true in Ho.
    split; [|done]. left. by rewrite Ho.
  - split; [by right|done].
Qed.

Lemma resolvePodOwner_settled w ref r :
  resolvePodOwner w ref = Ok r -> r = ref \/ settled (Kind r) /\ Namespace r = Namespace ref.
Proof.
  unfold resolvePodOwner. destruct (get_pod_owners _ _ _) as [[|o os]|]; [by intros [= <-]; left| |done].
  destruct (workloadKinds (ow_Kind o)) eqn:E; [intros [= <-]; right; split; [by left|done]|].
  case_decide; [|by intros [= <-]; left].
  intros Hr. right. by eapply resolveReplicaSetOwner_settled.
Qed.

(** Owner resolution stays in the resource's namespace and is idempotent:
    resolving an already resolved reference in the same cluster returns it
    unchanged, and unless the reference comes back as it was, the result is a
    workload (Deployment, StatefulSet, DaemonSet, Job, CronJob) or a replica
    set without a Deployment. *)
Theorem ResolveWorkloadOwner_idempotent w ref r :
  k8s_ResolveWorkloadOwner w ref = Ok r ->
  Namespace r = Namespace ref /\
  (r = ref \/ workloadKinds (Kind r) = true \/ Kind r = "ReplicaSet") /\
  k8s_ResolveWorkloadOwner w r = Ok r.
Proof.
  intros HR. assert (r = ref \/ settled (Kind r) /\ Namespace r = Namespace ref) as D.
  { revert HR. unfold k8s_ResolveWorkloadOwner. destruct (workloadKinds _); [naive_solver|].
    destruct (negb _); [naive_solver|]. apply resolvePodOwner_settled. }
  destruct D as [->|[Hs Hn]]; [auto|]. split; [done|]. split; [by right|]. by apply resolve_settled.
Qed.
End k8s.

Lemma ResolveWorkloadOwner_idempotent_witness :
  let C := {| get_pod_owners := fun (_ : unit) _ _ => Ok [mkOwnerInfo "apps/v1" "ReplicaSet" "web-1" "u"];
              get_rs_owners := fun _ _ _ => Ok [mkOwnerInfo "apps/v1" "Deployment" "web" "d"] |} in
  let r := mkRef "apps/v1" "Deployment" "prod" "web" "d" in
  @k8s_ResolveWorkloadOwner unit C tt r = Ok r.
Proof.
  intros C r.
  apply (ResolveWorkloadOwner_idempotent (H := C) tt (mkRef "v1" "Pod" "prod" "web-1-x" "p") r).
  by vm_compute.
Defined.

(** * The resolver with fixed mappings *)

Record StaticOwnerResolver := mkStatic { mappings : gmap string ResourceReference }.

Definition static_ResolveWorkloadOwner (r : StaticOwnerResolver) (ref : ResourceReference)
  : result ResourceReference :=
  if workloadKinds (Kind ref) then Ok ref
  else match mappings r !! Key ref with
       | Some resolved => Ok resolved
       | None => Ok ref
       end.

Lemma static_resolve_workload r ref :
  workloadKinds (Kind ref) = true -> static_ResolveWorkloadOwner r ref = Ok ref.
Proof. unfold static_ResolveWorkloadOwner. by intros ->. Qed.

Definition NewStaticOwnerResolver (W : Type) (m : gmap string ResourceReference) : OwnerResolver W := {|
  ResolveWorkloadOwner _ ref := static_ResolveWorkloadOwner (mkStatic m) ref;
  resolve_workload _ ref := static_resolve_workload (mkStatic m) ref;
|}.
