(* ===== verification/Remediation.v ===== *)
(** The remediation controller (internal/remediation/controller.go): policy
    gate, cooldown, retry budget and escalation for every detection result, and
    the two ways of acting on one, publishing a task or running its actions. *)

From S2P Require Import Prelude Types Policy Owner.

(** * The state store *)

Section store.
Implicit Types states : gmap string RemediationState.

Definition GetState (key : string) states : option RemediationState := states !! key.
Definition SetState (key : string) (st : RemediationState) states : gmap string RemediationState :=
  <[key := st]> states.
Definition DeleteState (key : string) states : gmap string RemediationState := delete key states.
End store.

(** [RemediationConfig], the fields the controller reads. *)
Record RemediationConfig := mkRemediationConfig {
  DefaultCooldown : Z;
  DefaultMaxRetries : Z;
  DryRun : bool;
  ActionTimeout : Z;
}.

Section controller.
(** The cluster, and what acts on it: the executor of a single action, whose
    first argument is the deadline of its context, and the publisher of a task,
    each with its new cluster and its outcome. *)
Context {W : Type}.
Context (Execute : Z -> W -> ResourceReference -> ActionConfig -> W * result ActionResult).
Context (Publish : W -> DetectionResult -> ResourceReference -> W * result ()).
(** The clock: the [n]-th reading of [time.Now()]. *)
Context (clk : nat -> Z).
Context (formatID : Z -> string).
Context `{Sort : SliceSort ActionConfig ac_Order}.

(** What [newControllerImpl] fixes. *)
Record controllerConfig := mkControllerConfig {
  cc_config : RemediationConfig;
  cc_publishes : bool;
  cc_ownerResolver : option (OwnerResolver W);
  cc_policyChecker : option PolicyChecker;
}.

Record controller := mkController {
  rstates : gmap string RemediationState;
  rout : chan ActionResult;
  world : W;
  ticks : nat;
}.

Definition set_rstates (s : gmap string RemediationState) (c : controller) : controller :=
  mkController s (rout c) (world c) (ticks c).
Definition set_world (w : W) (c : controller) : controller :=
  mkController (rstates c) (rout c) w (ticks c).

Definition newControllerImpl (cap : nat) (w : W) : controller := mkController ∅ (Chan [] cap) w 0.

Definition now (c : controller) : Z * controller :=
  (clk (ticks c), mkController (rstates c) (rout c) (world c) (S (ticks c))).

Definition generateID (c : controller) : string * controller :=
  let '(t, c) := now c in (formatID t, c).

Definition sendResult (r : ActionResult) (c : controller) : controller :=
  mkController (rstates c) (try_send (rout c) r).1 (world c) (ticks c).

Definition isInCooldown (st : RemediationState) (c : controller) : bool * controller :=
  if time_IsZero (rs_CooldownUntil st) then (false, c)
  else let '(t, c) := now c in (time_Before t (rs_CooldownUntil st), c).

Definition recordSkipped (res : DetectionResult) (reason : string) (c : controller) : controller :=
  let '(id, c) := generateID c in
  let '(t1, c) := now c in
  let '(t2, c) := now c in
  sendResult (mkActionResult id (dr_ID res) (dr_ScenarioID res) (dr_Resource res)
    (mkAction "" 0 ∅) ActionStatusSkipped t1 t2 ("Remediation skipped: " +:+ reason) "" []) c.

Definition escalate (res : DetectionResult) (c : controller) : controller :=
  let '(id, c) := generateID c in
  let '(t1, c) := now c in
  let '(t2, c) := now c in
  sendResult (mkActionResult id (dr_ID res) (dr_ScenarioID res) (dr_Resource res)
    (mkAction ActionTypeNotify 0
       (<["severity" := PString "critical"]> (<["reason" := PString "max_retries_exceeded"]> ∅)))
    ActionStatusSucceeded t1 t2 "Escalation triggered: max retries exceeded" "" []) c.

(** The owner to use instead of [resource], if it resolves to another key. *)
Definition other_owner (cc : controllerConfig) (w : W) (resource : ResourceReference)
  : option ResourceReference :=
  match cc_ownerResolver cc with
  | None => None
  | Some r =>
    match ResolveWorkloadOwner r w resource with
    | Ok resolved => if decide (Key resolved = Key resource) then None else Some resolved
    | Err _ => None
    end
  end.

Definition failed_result (id : string) (res : DetectionResult) (resource : ResourceReference)
    (ac : ActionConfig) (t1 t2 : Z) (e : string) : ActionResult :=
  mkActionResult id (dr_ID res) (dr_ScenarioID res) resource ac ActionStatusFailed t1 t2
    "Action execution failed" e [].

Definition stamp (id : string) (res : DetectionResult) (r : ActionResult) : ActionResult :=
  mkActionResult id (dr_ID res) (dr_ScenarioID res) (ar_Resource r) (ar_Action r) (ar_Status r)
    (ar_StartTime r) (ar_EndTime r) (ar_Message r) (ar_Error r) (ar_Changes r).

(** The two attempts of [executeAction], under one deadline: on the detected
    resource, then on its owner; with the resource the action is reported for. *)
Definition attempts (cc : controllerConfig) (deadline : Z) (w : W) (resource : ResourceReference) (ac : ActionConfig)
  : W * result ActionResult * ResourceReference :=
  let '(w, r) := Execute deadline w resource ac in
  match r with
  | Ok _ => (w, r, resource)
  | Err _ =>
    match other_owner cc w resource with
    | None => (w, r, resource)
    | Some resolved =>
      let '(w, r) := Execute deadline w resolved ac in
      (w, r, match r with Ok _ => resolved | Err _ => resource end)
    end
  end.

Definition executeAction (cc : controllerConfig) (res : DetectionResult) (ac : ActionConfig)
    (c : controller) : ActionResult * controller :=
  let '(startTime, c) := now c in
  let resource := dr_Resource res in
  if DryRun (cc_config cc) then
    let '(id, c) := generateID c in
    let '(t2, c) := now c in
    (mkActionResult id (dr_ID res) (dr_ScenarioID res) resource ac ActionStatusDryRun startTime t2
       "Dry-run: action would be executed" "" [], c)
  else
    let '(t, c) := now c in
    let deadline := time_Add t (ActionTimeout (cc_config cc)) in
    let '(w, r, resource) := attempts cc deadline (world c) resource ac in
    let c := set_world w c in
    match r with
    | Err e =>
      let '(id, c) := generateID c in
      let '(t2, c) := now c in
      (failed_result id res resource ac startTime t2 e, c)
    | Ok r =>
      let '(id, c) := generateID c in
      (stamp id res r, c)
    end.

Definition set_LastActionStatus (s : ActionStatus) (st : RemediationState) : RemediationState :=
  mkRemediationState (rs_ScenarioID st) (rs_Resource st) (rs_LastRemediation st)
    (rs_RemediationCount st) (rs_CooldownUntil st) (rs_Escalated st) s.

(** The loop over the sorted actions, left at the first failure. *)
Fixpoint run_actions (cc : controllerConfig) (res : DetectionResult) (acts : list ActionConfig)
    (st : RemediationState) (c : controller) : RemediationState * controller :=
  match acts with
  | [] => (st, c)
  | ac :: acts =>
    let '(r, c) := executeAction cc res ac c in
    let c := sendResult r c in
    if decide (ar_Status r = ActionStatusFailed)
    then (set_LastActionStatus ActionStatusFailed st, c)
    else run_actions cc res acts (set_LastActionStatus (ar_Status r) st) c
  end.

Definition executeActions (cc : controllerConfig) (res : DetectionResult) (st : RemediationState)
    (c : controller) : RemediationState * controller :=
  match dr_RecommendedActions res with
  | [] => (st, c)
  | actions => run_actions cc res (slice_sort ac_Order actions) st c
  end.

Definition publishTask (cc : controllerConfig) (res : DetectionResult) (st : RemediationState)
    (c : controller) : RemediationState * controller :=
  match dr_RecommendedActions res with
  | [] => (st, c)
  | _ =>
    let resource := match other_owner cc (world c) (dr_Resource res) with
                    | Some resolved => resolved
                    | None => dr_Resource res
                    end in
    let '(w, r) := Publish (world c) res resource in
    let c := set_world w c in
    match r with
    | Err _ => (set_LastActionStatus ActionStatusFailed st, c)
    | Ok _ => (st, c)
    end
  end.

(** A checker that is paused or does not cover the resource; labels are nil. *)
Definition policy_skips (cc : controllerConfig) (resource : ResourceReference) : bool :=
  match cc_policyChecker cc with
  | None => false
  | Some p => pc_IsPaused p || negb (pc_IsResourceCovered p resource ∅)
  end.

Definition fresh_state (res : DetectionResult) : RemediationState :=
  mkRemediationState (dr_ScenarioID res) (dr_Resource res) zero_time 0 zero_time false ActionStatusUnset.

Definition set_Escalated (st : RemediationState) : RemediationState :=
  mkRemediationState (rs_ScenarioID st) (rs_Resource st) (rs_LastRemediation st)
    (rs_RemediationCount st) (rs_CooldownUntil st) true (rs_LastActionStatus st).

Definition after_attempt (t1 t2 cooldown : Z) (st : RemediationState) : RemediationState :=
  mkRemediationState (rs_ScenarioID st) (rs_Resource st) t1
    (i64 (rs_RemediationCount st + 1)) (time_Add t2 cooldown) (rs_Escalated st) (rs_LastActionStatus st).

(** What [processResult] came to. *)
Inductive verdict := NotCovered | InCooldown | Escalating | Exhausted | Attempted.

#[export] Instance verdict_eq_dec : EqDecision verdict.
Proof. solve_decision. Defined.

Definition processResult (cc : controllerConfig) (res : DetectionResult) (c : controller)
  : verdict * controller :=
  if policy_skips cc (dr_Resource res) then (NotCovered, c)
  else
    let stateKey := StateKey (dr_ScenarioID res) (dr_Resource res) in
    let st := default (fresh_state res) (GetState stateKey (rstates c)) in
    let '(cooling, c) := isInCooldown st c in
    if cooling then (InCooldown, recordSkipped res "cooldown" c)
    else if DefaultMaxRetries (cc_config cc) <=? rs_RemediationCount st then
      if rs_Escalated st then (Exhausted, c)
      else
        let c := escalate res c in
        (Escalating, set_rstates (SetState stateKey (set_Escalated st) (rstates c)) c)
    else
      let '(st, c) := if cc_publishes cc then publishTask cc res st c
                      else executeActions cc res st c in
      let '(t1, c) := now c in
      let '(t2, c) := now c in
      (Attempted, set_rstates (SetState stateKey
         (after_attempt t1 t2 (DefaultCooldown (cc_config cc)) st) (rstates c)) c).

(** The sweep over the records in some order; [time.Now()] is read again for
    every record old enough. *)
Fixpoint cleanup_loop (threshold : Z) (order : list (string * RemediationState)) (cleaned : nat)
    (c : controller) : nat * controller :=
  match order with
  | [] => (cleaned, c)
  | (key, st) :: order =>
    if time_Before (rs_LastRemediation st) threshold then
      let '(t, c) := now c in
      if time_After t (rs_CooldownUntil st)
      then cleanup_loop threshold order (S cleaned) (set_rstates (DeleteState key (rstates c)) c)
      else cleanup_loop threshold order cleaned c
    else cleanup_loop threshold order cleaned c
  end.

Definition Cleanup (order : list (string * RemediationState)) (c : controller) : nat * controller :=
  let '(t, c) := now c in
  cleanup_loop (time_Add t (- (30 * Minute))) order 0 c.

(** * The controller as a transition system

    The main loop takes detection results one at a time; the cleanup ticker and
    the reader of the output channel run between them. *)

Inductive rlabel :=
  | RProcess (res : DetectionResult) (v : verdict)
  | RCleanup
  | RRecv (r : ActionResult).

Inductive rstep (cc : controllerConfig) : controller -> rlabel -> controller -> Prop :=
  | rstep_process c res v c' :
      processResult cc res c = (v, c') -> rstep cc c (RProcess res v) c'
  | rstep_cleanup c order :
      order ≡ₚ map_to_list (rstates c) -> rstep cc c RCleanup (Cleanup order c).2
  | rstep_recv c r ch :
      chan_recv (rout c) = Some (r, ch) ->
      rstep cc c (RRecv r) (mkController (rstates c) ch (world c) (ticks c)).

Inductive rtrace (cc : controllerConfig) : controller -> list rlabel -> controller -> Prop :=
  | rtrace_nil c : rtrace cc c [] c
  | rtrace_cons c1 l c2 ls c3 :
      rstep cc c1 l c2 -> rtrace cc c2 ls c3 -> rtrace cc c1 (l :: ls) c3.

End controller.
