(* ===== verification/RemediationProps.v ===== *)
(** The properties of the remediation controller: cooldowns keep attempts apart
    even across cleanups, the retry budget and the single escalation, the order
    in which actions run, and what a skipped result leaves untouched. *)

From S2P Require Import Prelude Types Policy Owner Remediation.

Section properties.
Context {W : Type}.
Context (Execute : Z -> W -> ResourceReference -> ActionConfig -> W * result ActionResult).
Context (Publish : W -> DetectionResult -> ResourceReference -> W * result ()).
Context (clk : nat -> Z) (formatID : Z -> string).
Context `{Sort : !SliceSort ActionConfig ac_Order}.
Implicit Types cc : controllerConfig (W := W).
Implicit Types c : controller (W := W).
Implicit Types res : DetectionResult.

Abbreviation process := (processResult Execute Publish clk formatID).
Abbreviation run := (run_actions Execute clk formatID).

Definition result_key res : string := StateKey (dr_ScenarioID res) (dr_Resource res).

(** ** Frames *)

(** [c'] has the records of [c] and a clock that is no earlier. *)
Record frame c c' : Prop := {
  frame_states : rstates c' = rstates c;
  frame_ticks : (ticks c <= ticks c')%nat;
}.

#[local] Instance frame_PreOrder : PreOrder frame.
Proof.
  split.
  - intros c. by split.
  - intros c1 c2 c3 [S1 T1] [S2 T2]. split; [congruence|lia].
Qed.

Lemma now_frame c : frame c (now clk c).2.
Proof. split; simpl; [done|lia]. Qed.

Lemma sendResult_frame r c : frame c (sendResult r c).
Proof. by split. Qed.

Lemma set_world_frame w c : frame c (set_world w c).
Proof. by split. Qed.

Lemma recordSkipped_frame res reason c : frame c (recordSkipped clk formatID res reason c).
Proof. split; simpl; [done|lia]. Qed.

Lemma escalate_frame res c : frame c (escalate clk formatID res c).
Proof. split; simpl; [done|lia]. Qed.

Lemma executeAction_frame cc res ac c : frame c (executeAction Execute clk formatID cc res ac c).2.
Proof.
  unfold executeAction. simpl. destruct (DryRun _); simpl; [split; simpl; [done|lia]|].
  destruct (attempts _ _ _ _ _ _) as [[w [r|e]] rsc]; simpl; (split; simpl; [done|lia]).
Qed.

(** The fields of a record that only [processResult] itself changes. *)
Definition budget (st : RemediationState) :=
  (rs_ScenarioID st, rs_Resource st, rs_LastRemediation st, rs_RemediationCount st,
   rs_CooldownUntil st, rs_Escalated st).

Lemma run_actions_frame cc res acts st c :
  frame c (run cc res acts st c).2 /\ budget (run cc res acts st c).1 = budget st.
Proof.
  revert st c. induction acts as [|ac acts IH]; intros st c; simpl; [done|].
  pose proof (executeAction_frame cc res ac c) as F.
  destruct (executeAction _ _ _ _ _ _ _) as [r c1]; simpl in F.
  assert (frame c (sendResult r c1)) as F1 by (etrans; [exact F|apply sendResult_frame]).
  case_decide; simpl; [done|].
  destruct (IH (set_LastActionStatus (ar_Status r) st) (sendResult r c1)) as [F2 B].
  split; [by etrans|by rewrite B].
Qed.

Lemma executeActions_frame cc res st c :
  frame c (executeActions Execute clk formatID cc res st c).2 /\
  budget (executeActions Execute clk formatID cc res st c).1 = budget st.
Proof. unfold executeActions. destruct (dr_RecommendedActions res); [done|]. apply run_actions_frame. Qed.

Lemma publishTask_frame cc res st c :
  frame c (publishTask Publish cc res st c).2 /\ budget (publishTask Publish cc res st c).1 = budget st.
Proof.
  unfold publishTask. destruct (dr_RecommendedActions res); [done|].
  destruct (Publish _ _ _) as [w [u|e]]; simpl; split; done || apply set_world_frame.
Qed.

Lemma isInCooldown_spec st c :
  frame c (isInCooldown clk st c).2 /\ world (isInCooldown clk st c).2 = world c /\
  rout (isInCooldown clk st c).2 = rout c /\
  ((isInCooldown clk st c).1 = true <->
    rs_CooldownUntil st <> 0 /\ clk (ticks c) < rs_CooldownUntil st).
Proof.
  unfold isInCooldown, time_IsZero, time_Before. destruct (rs_CooldownUntil st =? 0) eqn:E; simpl.
  - apply Z.eqb_eq in E. split; [done|]. naive_solver.
  - apply Z.eqb_neq in E. split; [apply now_frame|]. rewrite Z.ltb_lt. naive_solver.
Qed.

(** ** One result *)

Definition state_of res c : RemediationState :=
  default (fresh_state res) (rstates c !! result_key res).

(** What [processResult] does to the records, verdict by verdict. *)
Lemma processResult_spec cc res c v c' :
  process cc res c = (v, c') ->
  let st := state_of res c in
  (ticks c <= ticks c')%nat /\
  match v with
  | NotCovered => policy_skips cc (dr_Resource res) = true /\ c' = c
  | InCooldown => rs_CooldownUntil st <> 0 /\ clk (ticks c) < rs_CooldownUntil st /\
      rstates c' = rstates c /\ world c' = world c
  | Exhausted => DefaultMaxRetries (cc_config cc) <= rs_RemediationCount st /\ rs_Escalated st = true /\
      rstates c' = rstates c /\ world c' = world c
  | Escalating => DefaultMaxRetries (cc_config cc) <= rs_RemediationCount st /\ rs_Escalated st = false /\
      rstates c' = <[result_key res := set_Escalated st]> (rstates c) /\ world c' = world c
  | Attempted => policy_skips cc (dr_Resource res) = false /\
      rs_RemediationCount st < DefaultMaxRetries (cc_config cc) /\
      (rs_CooldownUntil st = 0 \/ rs_CooldownUntil st <= clk (ticks c)) /\
      exists st', rstates c' = <[result_key res := st']> (rstates c) /\
        rs_RemediationCount st' = i64 (rs_RemediationCount st + 1) /\
        rs_Escalated st' = rs_Escalated st /\
        (ticks c < ticks c')%nat /\
        rs_CooldownUntil st' = clk (pred (ticks c')) + DefaultCooldown (cc_config cc)
  end.
Proof.
  unfold processResult. fold (result_key res). unfold GetState. fold (state_of res c).
  destruct (policy_skips _ _); [intros [= <- <-]; done|].
  destruct (isInCooldown_spec (state_of res c) c) as (F & Hw & Ho & HC).
  destruct (isInCooldown clk (state_of res c) c) as [cooling c1]; simpl in F, Hw, Ho, HC.
  destruct cooling.
  { intros [= <- <-]. destruct (recordSkipped_frame res "cooldown" c1) as [S2 T2], F as [S1 T1].
    split; [lia|]. destruct HC as [HC _]. destruct (HC eq_refl). split_and!; try done; congruence. }
  destruct (_ <=? _) eqn:Hmax.
  { apply Z.leb_le in Hmax. destruct F as [S1 T1]. destruct (rs_Escalated _) eqn:He; intros [= <- <-]; simpl.
    - split; [lia|]. done.
    - split; [lia|]. rewrite S1. done. }
  apply Z.leb_gt in Hmax.
  assert (rs_CooldownUntil (state_of res c) = 0 \/ rs_CooldownUntil (state_of res c) <= clk (ticks c)) as Hcool.
  { destruct (Z.eq_dec (rs_CooldownUntil (state_of res c)) 0); [by left|right].
    apply Z.nlt_ge. intros ?. by assert (false = true) by naive_solver. }
  assert (exists st1 c2, (if cc_publishes cc then publishTask Publish cc res (state_of res c) c1
      else executeActions Execute clk formatID cc res (state_of res c) c1) = (st1, c2) /\
      frame c1 c2 /\ budget st1 = budget (state_of res c)) as (st1 & c2 & E & F2 & B).
  { destruct (cc_publishes cc).
    - destruct (publishTask_frame cc res (state_of res c) c1). destruct (publishTask _ _ _ _ _). eauto.
    - destruct (executeActions_frame cc res (state_of res c) c1). destruct (executeActions _ _ _ _ _ _ _). eauto. }
  rewrite E. simpl. intros [= <- <-]. destruct F as [S1 T1], F2 as [S2 T2]. simpl.
  split; [lia|]. do 3 (split; [done|]). unfold budget in B. injection B as B1 B2 B3 B4 B5 B6.
  eexists. split; [unfold SetState; by rewrite S2, S1|]. simpl.
  split; [by rewrite B4|]. split; [done|]. split; [lia|done].
Qed.

(** ** Cleanup *)

(** The sweep drops only records that were idle for longer than the threshold
    and whose cooldown had passed at a reading made during the sweep. *)
Lemma cleanup_loop_spec threshold order n c :
  NoDup order.*1 ->
  let c' := (cleanup_loop clk threshold order n c).2 in
  (ticks c <= ticks c')%nat /\ world c' = world c /\ rout c' = rout c /\
  (forall k, k ∉ order.*1 -> rstates c' !! k = rstates c !! k) /\
  (forall k st, (k, st) ∈ order -> rstates c' !! k = rstates c !! k \/
     (rstates c' !! k = None /\ rs_LastRemediation st < threshold /\
      exists i, (ticks c <= i < ticks c')%nat /\ rs_CooldownUntil st < clk i)).
Proof.
  revert n c. induction order as [|[k0 st0] order IH]; intros n c Hnd; cbn zeta.
  { simpl. split_and!; try done. intros k st Hin. by apply elem_of_nil in Hin. }
  rewrite fmap_cons, NoDup_cons in Hnd. destruct Hnd as [Hk0 Hnd]. cbn [cleanup_loop fst snd].
  unfold time_Before, time_After. destruct (_ <? threshold) eqn:Eth; cbn [now].
  - apply Z.ltb_lt in Eth. destruct (rs_CooldownUntil st0 <? clk (ticks c)) eqn:Ecd.
    + apply Z.ltb_lt in Ecd. set (c1 := set_rstates _ _).
      destruct (IH (S n) c1 Hnd) as (T & Wd & O & Hout & Hin). simpl in T, Wd, O.
      split_and!; [lia|done|done| |].
      * intros k Hk. rewrite fmap_cons, not_elem_of_cons in Hk. destruct Hk as [Hne Hk].
        rewrite Hout by done. simpl. unfold DeleteState. by rewrite lookup_delete_ne.
      * intros k st. rewrite elem_of_cons. intros [[= -> ->]|Hk].
        -- right. rewrite Hout by done. simpl. unfold DeleteState. rewrite lookup_delete_eq.
           split_and!; try done. exists (ticks c). split; [lia|done].
        -- assert (k <> k0) by (intros ->; apply Hk0, list_elem_of_fmap; by exists (k0, st)).
           destruct (Hin k st Hk) as [Hl|(Hl & Hl' & i & Hi & Hcd)].
           ++ left. rewrite Hl. simpl. unfold DeleteState. by rewrite lookup_delete_ne.
           ++ right. split_and!; try done. exists i. simpl in Hi. split; [lia|done].
    + set (c1 := mkController _ _ _ _).
      destruct (IH n c1 Hnd) as (T & Wd & O & Hout & Hin). simpl in T, Wd, O.
      split_and!; [lia|done|done| |].
      * intros k Hk. rewrite fmap_cons, not_elem_of_cons in Hk. destruct Hk as [_ Hk]. by apply Hout.
      * intros k st. rewrite elem_of_cons. intros [[= -> ->]|Hk]; [left; exact (Hout k0 Hk0)|].
        destruct (Hin k st Hk) as [Hl|(Hl & Hl' & i & Hi & Hcd)]; [by left|right].
        split_and!; try done. exists i. simpl in Hi. split; [lia|done].
  - destruct (IH n c Hnd) as (T & Wd & O & Hout & Hin).
    split_and!; try done.
    + intros k Hk. rewrite fmap_cons, not_elem_of_cons in Hk. destruct Hk as [_ Hk]. by apply Hout.
    + intros k st. rewrite elem_of_cons. intros [[= -> ->]|Hk]; [left; exact (Hout k0 Hk0)|]. by apply Hin.
Qed.

Lemma Cleanup_spec order c :
  order ≡ₚ map_to_list (rstates c) ->
  let c' := (Cleanup clk order c).2 in
  (ticks c <= ticks c')%nat /\ world c' = world c /\ rout c' = rout c /\
  forall k, rstates c' !! k = rstates c !! k \/
    exists st, rstates c !! k = Some st /\ rstates c' !! k = None /\
      rs_LastRemediation st < clk (ticks c) - 30 * Minute /\
      exists i, (ticks c <= i < ticks c')%nat /\ rs_CooldownUntil st < clk i.
Proof.
  intros HP. unfold Cleanup. cbn [now]. set (c1 := mkController _ _ _ _).
  assert (NoDup order.*1) as Hnd by (rewrite HP; apply NoDup_fst_map_to_list).
  destruct (cleanup_loop_spec (time_Add (clk (ticks c)) (- (30 * Minute))) order 0 c1 Hnd)
    as (T & Wd & O & Hout & Hin). simpl in T.
  split_and!; [lia|done|done|]. intros k.
  destruct (rstates c !! k) as [st|] eqn:E.
  - assert ((k, st) ∈ order) as Hk by (rewrite HP; by apply elem_of_map_to_list).
    destruct (Hin k st Hk) as [Hl|(Hl & Ht & i & Hi & Hcd)]; [left; rewrite Hl; exact E|right].
    exists st. split_and!; try done. exists i. simpl in Hi. split; [lia|done].
  - left. rewrite Hout; [exact E|]. intros Hk. apply list_elem_of_fmap in Hk as ([k' st'] & -> & Hk).
    rewrite HP in Hk. apply elem_of_map_to_list in Hk. simpl in E. congruence.
Qed.

(** ** Cooldowns *)

(** The key [k] is held back until [U]: either that time has come, or the record
    of [k] says so. *)
Definition cooled (k : string) (U : Z) c : Prop :=
  U <= clk (ticks c) \/ exists st, rstates c !! k = Some st /\ U <= rs_CooldownUntil st.

Section monotone.
Context (clk_mono : forall i j, (i <= j)%nat -> clk i <= clk j) (clk_nonneg : 0 <= clk 0).

Lemma clk_pos i : 0 <= clk i.
Proof using clk_mono clk_nonneg. etrans; [exact clk_nonneg|]. apply clk_mono. lia. Qed.

Lemma state_of_Some res c st : rstates c !! result_key res = Some st -> state_of res c = st.
Proof. unfold state_of. by intros ->. Qed.

Lemma cooled_process k U cc res c v c' :
  process cc res c = (v, c') -> cooled k U c -> cooled k U c'.
Proof using clk_mono clk_nonneg.
  intros HP [Ht|(st & Hst & HU)].
  { left. destruct (processResult_spec cc res c v c' HP) as [T _]. etrans; [exact Ht|by apply clk_mono]. }
  destruct (processResult_spec cc res c v c' HP) as [T Hv]. unfold cooled.
  destruct v.
  - destruct Hv as [_ ->]. eauto.
  - destruct Hv as (_ & _ & -> & _). eauto.
  - destruct Hv as (_ & _ & -> & _). right. rewrite lookup_insert. case_decide as E; [|eauto].
    subst. rewrite (state_of_Some _ _ _ Hst). eauto.
  - destruct Hv as (_ & _ & -> & _). eauto.
  - destruct Hv as (_ & _ & Hc & st' & -> & _). rewrite lookup_insert. case_decide as E; [|eauto].
    subst. rewrite (state_of_Some _ _ _ Hst) in Hc. left. destruct Hc as [Hc|Hc].
    + pose proof (clk_pos (ticks c')). lia.
    + pose proof (clk_mono _ _ T). lia.
Qed.

Lemma cooled_step k U cc c l c' :
  rstep Execute Publish clk formatID cc c l c' -> cooled k U c -> cooled k U c'.
Proof using clk_mono clk_nonneg.
  intros Hs HC. destruct Hs as [c res v c' HP|c order HP|c r ch Hr].
  - by eapply cooled_process.
  - destruct (Cleanup_spec order c HP) as (T & _ & _ & Hk).
    destruct HC as [Ht|(st & Hst & HU)]; [left; etrans; [exact Ht|by apply clk_mono]|].
    destruct (Hk k) as [E|(st' & Hst' & _ & _ & i & Hi & Hcd)]; [right; rewrite E; eauto|].
    left. simplify_eq. pose proof (clk_mono i (ticks (Cleanup clk order c).2) ltac:(lia)). lia.
  - exact HC.
Qed.

Lemma cooled_trace k U cc c ls c' :
  rtrace Execute Publish clk formatID cc c ls c' -> cooled k U c -> cooled k U c'.
Proof using clk_mono clk_nonneg. induction 1; eauto using cooled_step. Qed.

(** Cooldowns hold across everything the controller does.  Whatever results,
    cleanups and receives come in between, two remediation attempts for the same
    scenario and resource are at least the configured cooldown apart, measured
    from the end of the first to the moment the second is considered; the clock
    is only assumed not to go back. *)
Theorem attempts_are_a_cooldown_apart cc c1 r1 c2 ls c3 r2 c4 :
  rstep Execute Publish clk formatID cc c1 (RProcess r1 Attempted) c2 ->
  rtrace Execute Publish clk formatID cc c2 ls c3 ->
  rstep Execute Publish clk formatID cc c3 (RProcess r2 Attempted) c4 ->
  result_key r1 = result_key r2 ->
  clk (pred (ticks c2)) + DefaultCooldown (cc_config cc) <= clk (ticks c3).
Proof using clk_mono clk_nonneg.
  intros H1 Ht H2 Hkey. inversion H1 as [? ? ? ? P1| |]; subst. inversion H2 as [? ? ? ? P2| |]; subst.
  apply processResult_spec in P1 as (_ & _ & _ & _ & st1 & E1 & _ & _ & _ & HC1).
  apply processResult_spec in P2 as (_ & _ & _ & HC2 & _).
  assert (cooled (result_key r1) (rs_CooldownUntil st1) c2) as K.
  { right. exists st1. rewrite E1, lookup_insert_eq. done. }
  apply (cooled_trace _ _ _ _ _ _ Ht) in K. rewrite <- HC1.
  destruct K as [K|(st & Hst & HU)]; [exact K|].
  rewrite Hkey in Hst. rewrite (state_of_Some _ _ _ Hst) in HC2.
  pose proof (clk_pos (ticks c3)). lia.
Qed.

End monotone.

(** ** The retry budget *)

Definition is_verdict (k : string) (v : verdict) (l : rlabel) : bool :=
  match l with
  | RProcess r v' => bool_decide (result_key r = k) && bool_decide (v' = v)
  | _ => false
  end.

Fixpoint verdicts (k : string) (v : verdict) (ls : list rlabel) : Z :=
  match ls with
  | [] => 0
  | l :: ls => (if is_verdict k v l then 1 else 0) + verdicts k v ls
  end.

(** The record of [k] tells the [a] attempts and [e] escalations so far. *)
Definition tally (max : Z) (k : string) (a e : Z) c : Prop :=
  match rstates c !! k with
  | None => a = 0 /\ e = 0
  | Some st => rs_RemediationCount st = a /\ e = (if rs_Escalated st then 1 else 0)
  end /\ 0 <= a <= Z.max 0 max /\ (e = 1 -> a = Z.max 0 max).

Lemma tally_process cc res c v c' k a e :
  DefaultMaxRetries (cc_config cc) < 2 ^ 63 ->
  process cc res c = (v, c') -> tally (DefaultMaxRetries (cc_config cc)) k a e c ->
  tally (DefaultMaxRetries (cc_config cc)) k
    (a + (if is_verdict k Attempted (RProcess res v) then 1 else 0))
    (e + (if is_verdict k Escalating (RProcess res v) then 1 else 0)) c'.
Proof.
  intros Hmax HP [Hk Hb]. destruct (processResult_spec cc res c v c' HP) as [_ Hv].
  unfold tally, is_verdict. destruct (decide (result_key res = k)) as [E|E].
  - rewrite (bool_decide_true (result_key res = k)) by done. simpl.
    assert (rs_RemediationCount (state_of res c) = a /\
            e = (if rs_Escalated (state_of res c) then 1 else 0)) as [Ha He].
    { unfold state_of. rewrite E. destruct (rstates c !! k); simpl; [done|]. destruct Hk; by subst. }
    destruct v; simpl.
    + destruct Hv as [_ ->]. by rewrite !Z.add_0_r.
    + destruct Hv as (_ & _ & -> & _). by rewrite !Z.add_0_r.
    + destruct Hv as (Hm & Hesc & -> & _). rewrite E, lookup_insert_eq. simpl.
      rewrite Hesc in He. split; [lia|]. lia.
    + destruct Hv as (_ & _ & -> & _). by rewrite !Z.add_0_r.
    + destruct Hv as (_ & Hc & _ & st' & -> & Hcnt & Hesc & _). rewrite E, lookup_insert_eq.
      rewrite Hcnt, Hesc, Ha, <- He. rewrite wrap_small by (unfold fits; simpl; lia). lia.
  - rewrite (bool_decide_false (result_key res = k)) by done. simpl. rewrite !Z.add_0_r.
    assert (rstates c' !! k = rstates c !! k) as ->; [|done].
    destruct v; [destruct Hv as [_ ->] | destruct Hv as (_ & _ & -> & _) |
      destruct Hv as (_ & _ & -> & _) | destruct Hv as (_ & _ & -> & _) |
      destruct Hv as (_ & _ & _ & st' & -> & _)]; rewrite ?lookup_insert_ne by done; done.
Qed.

Lemma tally_trace cc c ls c' k a e :
  DefaultMaxRetries (cc_config cc) < 2 ^ 63 ->
  rtrace Execute Publish clk formatID cc c ls c' -> Forall (fun l => l <> RCleanup) ls ->
  tally (DefaultMaxRetries (cc_config cc)) k a e c ->
  tally (DefaultMaxRetries (cc_config cc)) k (a + verdicts k Attempted ls) (e + verdicts k Escalating ls) c'.
Proof.
  intros Hmax Ht. revert a e. induction Ht as [c|c1 l c2 ls c3 Hs Ht IH]; intros a e Hl HT; cbn [verdicts].
  - by rewrite !Z.add_0_r.
  - apply Forall_cons in Hl as [Hl Hls]. rewrite !Z.add_assoc. apply IH; [done|].
    destruct Hs as [c res v c' HP|c order HP|c r ch Hr].
    + by eapply tally_process.
    + done.
    + simpl. by rewrite !Z.add_0_r.
Qed.

(** The retry budget.  From a fresh controller, and as long as no cleanup
    forgets the record, a scenario is attempted on a resource at most
    [DefaultMaxRetries] times and escalated at most once, whatever results and
    receives come in whatever order; the escalation comes only when the budget
    is used up. *)
Theorem retry_budget cap w cc ls c k :
  DefaultMaxRetries (cc_config cc) < 2 ^ 63 ->
  rtrace Execute Publish clk formatID cc (newControllerImpl cap w) ls c ->
  Forall (fun l => l <> RCleanup) ls ->
  verdicts k Attempted ls <= Z.max 0 (DefaultMaxRetries (cc_config cc)) /\
  verdicts k Escalating ls <= 1 /\
  (verdicts k Escalating ls = 1 ->
   verdicts k Attempted ls = Z.max 0 (DefaultMaxRetries (cc_config cc))).
Proof.
  intros Hmax Ht Hls.
  assert (tally (DefaultMaxRetries (cc_config cc)) k 0 0 (newControllerImpl cap w)) as T0.
  { unfold tally. simpl. rewrite lookup_empty. lia. }
  destruct (tally_trace _ _ _ _ _ _ _ Hmax Ht Hls T0) as (Hk & Hb & He). simpl in *.
  destruct (rstates c !! k) as [st|]; [destruct (rs_Escalated st)|]; lia.
Qed.

(** ** Running the actions *)

(** Run the given actions one after the other, whatever their outcome. *)
Fixpoint exec_seq cc res (acts : list ActionConfig) c : list ActionResult * controller (W := W) :=
  match acts with
  | [] => ([], c)
  | ac :: acts =>
    let '(r, c) := executeAction Execute clk formatID cc res ac c in
    let '(rs, c) := exec_seq cc res acts (sendResult r c) in
    (r :: rs, c)
  end.

Lemma run_actions_prefix cc res acts st c :
  exists pre post rs, acts = pre ++ post /\
    exec_seq cc res pre c = (rs, (run cc res acts st c).2) /\
    Forall (fun r => ar_Status r <> ActionStatusFailed) (removelast rs) /\
    (post <> [] -> (ar_Status <$> last rs) = Some ActionStatusFailed) /\
    rs_LastActionStatus (run cc res acts st c).1 = default (rs_LastActionStatus st) (ar_Status <$> last rs).
Proof.
  revert st c. induction acts as [|ac acts IH]; intros st c; simpl.
  { exists [], [], []. by split_and!. }
  destruct (executeAction _ _ _ _ _ _ _) as [r c1] eqn:E. case_decide as D.
  { exists [ac], acts, [r]. cbn [exec_seq]. rewrite E. simpl. rewrite D. by split_and!. }
  destruct (IH (set_LastActionStatus (ar_Status r) st) (sendResult r c1))
    as (pre & post & rs & -> & Hx & Hf & Hp & Hs).
  exists (ac :: pre), post, (r :: rs). cbn [exec_seq]. rewrite E, Hx.
  split_and!; try done.
  - destruct rs; [constructor|]. simpl. by constructor.
  - intros Hne. rewrite last_cons. specialize (Hp Hne). by destruct (last rs).
  - rewrite last_cons. destruct (last rs); simpl in *; done.
Qed.

(** C28: actions run in order and stop at the first failure.  [executeActions]
    runs a prefix of some arrangement of the recommended actions by
    non-decreasing [Order], in that order; no action but the last it ran
    failed, and if any action was left out the last one it ran did fail.  The
    record keeps the status of the last one. *)
Theorem executeActions_in_order cc res st c st' c' :
  executeActions Execute clk formatID cc res st c = (st', c') ->
  exists pre post rs,
    pre ++ post ≡ₚ dr_RecommendedActions res /\ sorted_by ac_Order (pre ++ post) /\
    exec_seq cc res pre c = (rs, c') /\
    Forall (fun r => ar_Status r <> ActionStatusFailed) (removelast rs) /\
    (post <> [] -> (ar_Status <$> last rs) = Some ActionStatusFailed) /\
    rs_LastActionStatus st' = default (rs_LastActionStatus st) (ar_Status <$> last rs).
Proof.
  unfold executeActions. destruct (dr_RecommendedActions res) as [|a l].
  { intros [= <- <-]. exists [], [], []. split_and!; try done. constructor. }
  intros HR. destruct (run_actions_prefix cc res (slice_sort ac_Order (a :: l)) st c)
    as (pre & post & rs & Hs & Hx & Hf & Hp & Hst).
  rewrite HR in Hx, Hst. exists pre, post, rs. rewrite <- Hs.
  split_and!; try done; [apply slice_sort_perm|apply slice_sort_sorted].
Qed.

(** ** The gate *)

(** C27: the gate.  The cluster is touched only by an attempt, and an attempt
    happens exactly when the policy covers the resource without labels, no
    cooldown is running and the budget is not used up.  A result that the
    policy skips - in particular every result while the policies are paused -
    changes nothing at all. *)
Theorem processResult_gate cc res c v c' :
  process cc res c = (v, c') ->
  (v = Attempted <->
    policy_skips cc (dr_Resource res) = false /\
    (rs_CooldownUntil (state_of res c) = 0 \/ rs_CooldownUntil (state_of res c) <= clk (ticks c)) /\
    rs_RemediationCount (state_of res c) < DefaultMaxRetries (cc_config cc)) /\
  (v <> Attempted -> world c' = world c) /\
  (policy_skips cc (dr_Resource res) = true -> c' = c) /\
  (forall p, cc_policyChecker cc = Some p -> pc_IsPaused p = true -> c' = c).
Proof.
  intros HP. destruct (processResult_spec cc res c v c' HP) as [_ Hv].
  assert (policy_skips cc (dr_Resource res) = true -> c' = c) as Hskip.
  { intros Hs. unfold processResult in HP. rewrite Hs in HP. by injection HP. }
  split_and!; [| |done|].
  - destruct v; split; try done; intros; destruct_and?; try congruence; try lia; naive_solver lia.
  - destruct v; destruct_and?; subst; done.
  - intros p Hp Hpaused. apply Hskip. unfold policy_skips. by rewrite Hp, Hpaused.
Qed.

(** Every attempt counts.  An attempt raises the count of its record by one
    and starts a new cooldown whether the actions succeeded, failed, or were
    never published; nothing that [processResult] does ever lowers a count. *)
Theorem attempt_always_counts cc res c v c' k st :
  DefaultMaxRetries (cc_config cc) < 2 ^ 63 ->
  process cc res c = (v, c') -> 0 <= rs_RemediationCount st ->
  rstates c !! k = Some st ->
  exists st', rstates c' !! k = Some st' /\
    rs_RemediationCount st' = rs_RemediationCount st +
      (if decide (result_key res = k /\ v = Attempted) then 1 else 0).
Proof.
  intros Hmax HP Hpos Hst. destruct (processResult_spec cc res c v c' HP) as [_ Hv].
  destruct (decide (result_key res = k)) as [E|E].
  - assert (state_of res c = st) as Hs by (unfold state_of; by rewrite E, Hst).
    rewrite Hs in Hv. destruct v.
    + destruct Hv as [_ ->]. exists st. rewrite decide_False by naive_solver. split; [done|lia].
    + destruct Hv as (_ & _ & -> & _). exists st. rewrite decide_False by naive_solver. split; [done|lia].
    + destruct Hv as (_ & _ & -> & _). rewrite E, lookup_insert_eq. eexists. split; [done|].
      rewrite decide_False by naive_solver. simpl. lia.
    + destruct Hv as (_ & _ & -> & _). exists st. rewrite decide_False by naive_solver. split; [done|lia].
    + destruct Hv as (_ & Hc & _ & st' & -> & Hcnt & _). rewrite E, lookup_insert_eq. exists st'.
      rewrite decide_True by done. split; [done|]. rewrite Hcnt. apply wrap_small; [done|].
      unfold fits. simpl. lia.
  - rewrite decide_False by naive_solver. exists st. split; [|lia].
    destruct v; [destruct Hv as [_ ->] | destruct Hv as (_ & _ & -> & _) |
      destruct Hv as (_ & _ & -> & _) | destruct Hv as (_ & _ & -> & _) |
      destruct Hv as (_ & _ & _ & st' & -> & _)]; rewrite ?lookup_insert_ne by done; done.
Qed.

(** ** Dry run *)

Lemma dry_executeAction_world cc res ac c :
  DryRun (cc_config cc) = true -> world (executeAction Execute clk formatID cc res ac c).2 = world c.
Proof. unfold executeAction. simpl. by intros ->. Qed.

Lemma dry_run_actions_world cc res acts st c :
  DryRun (cc_config cc) = true -> world (run cc res acts st c).2 = world c.
Proof.
  intros HD. revert st c. induction acts as [|ac acts IH]; intros st c; simpl; [done|].
  pose proof (dry_executeAction_world cc res ac c HD) as Hw.
  destruct (executeAction _ _ _ _ _ _ _) as [r c1]; simpl in Hw.
  case_decide; simpl; [done|]. by rewrite IH.
Qed.

Lemma dry_run_trace_world cc c ls c' :
  DryRun (cc_config cc) = true -> cc_publishes cc = false ->
  rtrace Execute Publish clk formatID cc c ls c' -> world c' = world c.
Proof.
  intros HD HM. induction 1 as [|c1 l c2 ls c3 Hs Ht IH]; [done|]. rewrite IH. clear IH Ht.
  destruct Hs as [c res v c' HP|c order HP|c r ch Hr]; [|by apply Cleanup_spec|done].
  destruct (decide (v = Attempted)) as [->|Hv].
  - revert HP. unfold processResult. destruct (policy_skips _ _); [done|].
    match goal with |- context [isInCooldown clk ?st c] =>
      destruct (isInCooldown_spec st c) as (_ & Hw & _); destruct (isInCooldown clk st c) as [[] c1] end;
      [done|]. simpl in Hw.
    case_match; [case_match; done|]. rewrite HM. unfold executeActions.
    destruct (dr_RecommendedActions res) as [|a l]; simpl.
    + by intros [= <-].
    + match goal with |- context [run_actions _ _ _ _ _ ?l ?st _] =>
        pose proof (dry_run_actions_world cc res l st c1 HD) as Hd;
        destruct (run cc res l st c1) end.
      simpl in *. intros [= <-]. simpl. congruence.
  - destruct (processResult_spec cc res c v c' HP) as [_ Hspec].
    destruct v; destruct_and?; subst; done.
Qed.

(** Dry run is harmless.  A standalone controller in dry-run mode leaves the
    cluster as it found it along every interleaving of results, cleanups and
    receives. *)
Theorem dry_run_harmless cc c ls c' :
  DryRun (cc_config cc) = true -> cc_publishes cc = false ->
  rtrace Execute Publish clk formatID cc c ls c' -> world c' = world c.
Proof. apply dry_run_trace_world. Qed.

Definition with_dry_run (b : bool) cc : controllerConfig (W := W) :=
  let r := cc_config cc in
  mkControllerConfig (mkRemediationConfig (DefaultCooldown r) (DefaultMaxRetries r) b (ActionTimeout r))
    (cc_publishes cc) (cc_ownerResolver cc) (cc_policyChecker cc).

Lemma rstep_publish_dry b cc c l c' :
  cc_publishes cc = true ->
  rstep Execute Publish clk formatID cc c l c' -> rstep Execute Publish clk formatID (with_dry_run b cc) c l c'.
Proof.
  intros HM [c0 res v c0' HP|c0 order HP|c0 r ch Hr]; [|by constructor..].
  constructor. rewrite <- HP. unfold processResult.
  change (cc_publishes (with_dry_run b cc)) with (cc_publishes cc). by rewrite HM.
Qed.

(** Dry run does not reach the workers.  A controller that publishes tasks
    behaves the same whatever its dry-run flag says: every run of it, with the
    flag off, is a run with the flag on - the same results, the same published
    tasks, the same cluster at the end. *)
Theorem leader_ignores_dry_run cc c ls c' :
  cc_publishes cc = true ->
  rtrace Execute Publish clk formatID cc c ls c' ->
  rtrace Execute Publish clk formatID (with_dry_run true cc) c ls c'.
Proof.
  intros HM. induction 1 as [|c1 l c2 ls c3 Hs _ IH]; [constructor|].
  eapply rtrace_cons; [by apply rstep_publish_dry|exact IH].
Qed.

(** A workload is attempted once.  When the detected resource already is a
    workload, owner resolution - whatever resolver is configured - never adds a
    second attempt: the action is executed exactly once, under a deadline that is
    the action timeout after its start, and its outcome alone
    decides the result, which carries the identifiers of the detection. *)
Theorem workload_attempted_once cc res ac c :
  workloadKinds (Kind (dr_Resource res)) = true -> DryRun (cc_config cc) = false ->
  let deadline := clk (S (ticks c)) + ActionTimeout (cc_config cc) in
  let '(w, r) := Execute deadline (world c) (dr_Resource res) ac in
  let '(ar, c') := executeAction Execute clk formatID cc res ac c in
  world c' = w /\
  ar_DetectionResultID ar = dr_ID res /\ ar_ScenarioID ar = dr_ScenarioID res /\
  match r with
  | Ok r => ar_Status ar = ar_Status r /\ ar_Resource ar = ar_Resource r
  | Err e => ar_Status ar = ActionStatusFailed /\ ar_Resource ar = dr_Resource res /\ ar_Error ar = e
  end.
Proof.
  intros HK HD. unfold executeAction. simpl. rewrite HD. unfold attempts, other_owner.
  destruct (Execute _ _ _ _) as [w [r|e]]; simpl; [done|].
  destruct (cc_ownerResolver cc) as [rv|]; simpl; [|done].
  rewrite resolve_workload by done. by rewrite decide_True.
Qed.

End properties.

(** * Witnesses *)

(** A cluster that counts the calls; pods are refused, as their actions need an
    owner. *)
Definition demo_Execute (_ : Z) (w : nat) (r : ResourceReference) (ac : ActionConfig) : nat * result ActionResult :=
  (S w, if decide (Kind r = "Pod") then Err "pod"
        else Ok (mkActionResult "" "" "" r ac ActionStatusSucceeded 0 0 "done" "" [])).
Definition demo_Publish (w : nat) (_ : DetectionResult) (_ : ResourceReference) : nat * result () :=
  (S w, Ok ()).
Definition demo_clk (n : nat) : Z := Z.of_nat n * Hour.
Definition demo_id (_ : Z) : string := "id".
#[local] Instance demo_sort : SliceSort ActionConfig ac_Order := insertion_SliceSort ac_Order.

Definition demo_deploy : ResourceReference := mkRef "apps/v1" "Deployment" "prod" "web" "d".
Definition demo_result : DetectionResult :=
  mkDetectionResult "det" "S1" "oom" demo_deploy SeverityHigh 0 0 1 true "m"
    [mkAction "restartPod" 2 ∅; mkAction "scaleUp" 1 ∅].
Definition demo_cc (dry : bool) (retries : Z) : controllerConfig (W := nat) :=
  mkControllerConfig (mkRemediationConfig (15 * Minute) retries dry (30 * Second)) false None None.

Abbreviation demo_process dry n := (processResult demo_Execute demo_Publish demo_clk demo_id (demo_cc dry n)).
Definition demo_c1 : controller := (demo_process false 3 demo_result (newControllerImpl 8 0%nat)).2.
Definition demo_c2 : controller := (demo_process false 3 demo_result demo_c1).2.

Lemma demo_clk_mono i j : (i <= j)%nat -> demo_clk i <= demo_clk j.
Proof. unfold demo_clk, Hour, Minute, Second, Millisecond. lia. Qed.

Lemma attempts_are_a_cooldown_apart_witness :
  demo_clk (pred (ticks demo_c1)) + 15 * Minute <= demo_clk (ticks demo_c1).
Proof.
  apply (attempts_are_a_cooldown_apart demo_Execute demo_Publish demo_clk demo_id demo_clk_mono
    ltac:(vm_compute; discriminate) (demo_cc false 3) (newControllerImpl 8 0%nat) demo_result demo_c1 []
    demo_c1 demo_result demo_c2).
  - constructor. vm_compute. done.
  - constructor.
  - constructor. vm_compute. done.
  - done.
Defined.

Lemma retry_budget_witness :
  verdicts "S1/Deployment/prod/web" Attempted [RProcess demo_result Attempted; RProcess demo_result Attempted] <= 3.
Proof.
  apply (retry_budget demo_Execute demo_Publish demo_clk demo_id 8 0%nat (demo_cc false 3)
    [RProcess demo_result Attempted; RProcess demo_result Attempted] demo_c2 "S1/Deployment/prod/web").
  - vm_compute; done.
  - apply rtrace_cons with demo_c1; [constructor; by vm_compute|].
    apply rtrace_cons with demo_c2; [constructor; by vm_compute|constructor].
  - repeat constructor; done.
Defined.

Lemma executeActions_in_order_witness :
  exists pre post rs,
    pre ++ post ≡ₚ dr_RecommendedActions demo_result /\ sorted_by ac_Order (pre ++ post) /\
    exec_seq demo_Execute demo_clk demo_id (demo_cc false 3) demo_result pre (newControllerImpl 8 0%nat) =
      (rs, (executeActions demo_Execute demo_clk demo_id (demo_cc false 3) demo_result
              (fresh_state demo_result) (newControllerImpl 8 0%nat)).2).
Proof.
  destruct (executeActions demo_Execute demo_clk demo_id (demo_cc false 3) demo_result
              (fresh_state demo_result) (newControllerImpl 8 0%nat)) as [st' c'] eqn:E.
  destruct (executeActions_in_order _ _ _ _ _ _ _ _ _ E) as (pre & post & rs & H1 & H2 & H3 & _).
  exists pre, post, rs. done.
Defined.

Lemma processResult_gate_witness :
  world (demo_process false 0 demo_result (newControllerImpl 8 0%nat)).2 = 0%nat.
Proof.
  apply (processResult_gate demo_Execute demo_Publish demo_clk demo_id (demo_cc false 0) demo_result
    (newControllerImpl 8 0%nat) Escalating).
  - by vm_compute.
  - done.
Defined.

Lemma attempt_always_counts_witness :
  exists st', rstates demo_c2 !! "S1/Deployment/prod/web" = Some st' /\ rs_RemediationCount st' = 1 + 1.
Proof.
  apply (attempt_always_counts demo_Execute demo_Publish demo_clk demo_id (demo_cc false 3) demo_result demo_c1
    Attempted demo_c2 "S1/Deployment/prod/web"
    (mkRemediationState "S1" demo_deploy (6 * Hour) 1 (7 * Hour + 15 * Minute) false ActionStatusSucceeded)).
  - vm_compute; done.
  - by vm_compute.
  - vm_compute; done.
  - by vm_compute.
Defined.

Lemma dry_run_harmless_witness :
  world (demo_process true 3 demo_result (newControllerImpl 8 0%nat)).2 = 0%nat.
Proof.
  apply (dry_run_harmless demo_Execute demo_Publish demo_clk demo_id (demo_cc true 3) (newControllerImpl 8 0%nat)
    [RProcess demo_result Attempted]).
  - done.
  - done.
  - eapply rtrace_cons; [constructor; by vm_compute|constructor].
Defined.

Lemma workload_attempted_once_witness :
  (executeAction demo_Execute demo_clk demo_id (demo_cc false 3) demo_result (mkAction "scaleUp" 1 ∅)
     (newControllerImpl 8 0%nat)).2.(world) = 1%nat.
Proof.
  pose proof (workload_attempted_once demo_Execute demo_clk demo_id (demo_cc false 3) demo_result
    (mkAction "scaleUp" 1 ∅) (newControllerImpl 8 0%nat)) as H.
  destruct (executeAction _ _ _ _ _ _ _) as [ar c'] eqn:E. simpl in *. by apply H.
Defined.

(** In leader mode a dry run publishes the task all the same. *)
Definition demo_leader (dry : bool) : controllerConfig (W := nat) :=
  mkControllerConfig (mkRemediationConfig (15 * Minute) 3 dry (30 * Second)) true None None.

Lemma leader_ignores_dry_run_witness :
  rtrace demo_Execute demo_Publish demo_clk demo_id (demo_leader true) (newControllerImpl 8 0%nat)
    [RProcess demo_result Attempted]
    (processResult demo_Execute demo_Publish demo_clk demo_id (demo_leader false) demo_result
       (newControllerImpl 8 0%nat)).2 /\
  world (processResult demo_Execute demo_Publish demo_clk demo_id (demo_leader false) demo_result
       (newControllerImpl 8 0%nat)).2 = 1%nat.
Proof.
  split; [|by vm_compute].
  apply (leader_ignores_dry_run demo_Execute demo_Publish demo_clk demo_id (demo_leader false)).
  - done.
  - eapply rtrace_cons; [constructor; by vm_compute|constructor].
Defined.
