(* ===== verification/RemediationConc.v ===== *)
(** The remediation controller at the granularity of its reads and writes:
    [processResult] holds a pointer to a record and assigns its fields one at a
    time, without the store's lock, while the cleanup goroutine reads them under
    it.  The cooldown holds all the same. *)

From S2P Require Import Prelude Types Policy Owner Remediation RemediationProps.

Section conc.
Context {W : Type}.
Context (Execute : Z -> W -> ResourceReference -> ActionConfig -> W * result ActionResult).
Context (Publish : W -> DetectionResult -> ResourceReference -> W * result ()).
Context (clk : nat -> Z) (formatID : Z -> string).
Context `{Sort : !SliceSort ActionConfig ac_Order}.
Context (cc : controllerConfig (W := W)).

Abbreviation key := result_key.
Abbreviation cooldown := (DefaultCooldown (cc_config cc)).

(** * The goroutines *)

(** Where [processResult] is; from [PGot] on it holds the pointer [l].  The actions
    to run are [None] when a task is published instead. *)
Inductive ppc :=
  | PIdle
  | PGot (res : DetectionResult) (l : positive)
  | PAct (res : DetectionResult) (l : positive) (acts : option (list ActionConfig))
  | PLast (res : DetectionResult) (l : positive)
  | PCount (res : DetectionResult) (l : positive)
  | PCool (res : DetectionResult) (l : positive)
  | PSet (res : DetectionResult) (l : positive).

(** Where [Cleanup] is, which holds the lock unless it is idle: in its loop, before
    reading the clock for a record, before reading [CooldownUntil]. *)
Inductive cpc :=
  | CIdle
  | CLoop (threshold : Z) (todo : list (string * positive))
  | CNow (threshold : Z) (k : string) (l : positive) (todo : list (string * positive))
  | CUntil (threshold t : Z) (k : string) (l : positive) (todo : list (string * positive)).

(** The records live in [heap]; [ctl] has the output channel, the cluster and the
    clock, its own map of records is not used. *)
Record cstate := mkC {
  heap : gmap positive RemediationState;
  smap : gmap string positive;
  ctl : controller (W := W);
  pc : ppc;
  cl : cpc;
}.

Definition new_cstate (cap : nat) (w : W) : cstate := mkC ∅ ∅ (newControllerImpl cap w) PIdle CIdle.

Definition locked (c : cstate) : bool := match cl c with CIdle => false | _ => true end.

(** The process goes on: to [p], with the rest of the controller as in [c']. *)
Definition goto (p : ppc) (c' : controller) (c : cstate) : cstate := mkC (heap c) (smap c) c' p (cl c).

Definition write (l : positive) (f : RemediationState -> RemediationState) (c : cstate) : cstate :=
  mkC (alter f l (heap c)) (smap c) (ctl c) (pc c) (cl c).

Definition set_LastRemediation (t : Z) (st : RemediationState) : RemediationState :=
  mkRemediationState (rs_ScenarioID st) (rs_Resource st) t (rs_RemediationCount st)
    (rs_CooldownUntil st) (rs_Escalated st) (rs_LastActionStatus st).
Definition count_up (st : RemediationState) : RemediationState :=
  mkRemediationState (rs_ScenarioID st) (rs_Resource st) (rs_LastRemediation st)
    (i64 (rs_RemediationCount st + 1)) (rs_CooldownUntil st) (rs_Escalated st) (rs_LastActionStatus st).
Definition set_CooldownUntil (t : Z) (st : RemediationState) : RemediationState :=
  mkRemediationState (rs_ScenarioID st) (rs_Resource st) (rs_LastRemediation st)
    (rs_RemediationCount st) t (rs_Escalated st) (rs_LastActionStatus st).

(** A result arrives: the policies, then [GetState] under the read lock. *)
Definition take_result (res : DetectionResult) (c : cstate) : option cstate :=
  match pc c with
  | PIdle =>
    if policy_skips cc (dr_Resource res) then Some c
    else if locked c then None
    else match smap c !! key res with
         | Some l => Some (goto (PGot res l) (ctl c) c)
         | None =>
           let l := fresh (dom (heap c)) in
           Some (mkC (<[l := fresh_state res]> (heap c)) (smap c) (ctl c) (PGot res l) (cl c))
         end
  | _ => None
  end.

(** The cooldown and the budget. *)
Definition consider (res : DetectionResult) (l : positive) (st : RemediationState) (c : cstate) : cstate :=
  let '(cooling, ct) := isInCooldown clk st (ctl c) in
  if cooling then goto PIdle (recordSkipped clk formatID res "cooldown" ct) c
  else if DefaultMaxRetries (cc_config cc) <=? rs_RemediationCount st then
    if rs_Escalated st then goto PIdle ct c
    else write l set_Escalated (goto (PSet res l) (escalate clk formatID res ct) c)
  else goto (PAct res l (if cc_publishes cc then None else Some (slice_sort ac_Order (dr_RecommendedActions res)))) ct c.

(** One action, its result sent and its status noted. *)
Definition act (res : DetectionResult) (l : positive) (ac : ActionConfig) (acts : list ActionConfig) (c : cstate)
  : cstate :=
  let '(r, ct) := executeAction Execute clk formatID cc res ac (ctl c) in
  let c := goto (PAct res l (Some acts)) (sendResult r ct) c in
  if decide (ar_Status r = ActionStatusFailed)
  then write l (set_LastActionStatus ActionStatusFailed) (goto (PLast res l) (ctl c) c)
  else write l (set_LastActionStatus (ar_Status r)) c.

Definition own_step (c : cstate) : option cstate :=
  match pc c with
  | PIdle => None
  | PGot res l => (fun st => consider res l st c) <$> heap c !! l
  | PAct res l None =>
    st ← heap c !! l;
    let '(st', ct) := publishTask Publish cc res st (ctl c) in
    Some (write l (set_LastActionStatus (rs_LastActionStatus st')) (goto (PLast res l) ct c))
  | PAct res l (Some []) => Some (goto (PLast res l) (ctl c) c)
  | PAct res l (Some (ac :: acts)) => Some (act res l ac acts c)
  | PLast res l =>
    let '(t, ct) := now clk (ctl c) in Some (write l (set_LastRemediation t) (goto (PCount res l) ct c))
  | PCount res l => Some (write l count_up (goto (PCool res l) (ctl c) c))
  | PCool res l =>
    let '(t, ct) := now clk (ctl c) in
    Some (write l (set_CooldownUntil (time_Add t cooldown)) (goto (PSet res l) ct c))
  | PSet res l =>
    if locked c then None else Some (mkC (heap c) (<[key res := l]> (smap c)) (ctl c) PIdle (cl c))
  end.

Definition at_cleanup (q : cpc) (ct : controller) (c : cstate) : cstate := mkC (heap c) (smap c) ct (pc c) q.

(** The ticker: the lock is taken, the records are visited in some order. *)
Definition start_cleanup (order : list (string * positive)) (c : cstate) : option cstate :=
  match cl c with
  | CIdle =>
    if decide (order ≡ₚ map_to_list (smap c)) then
      let '(t, ct) := now clk (ctl c) in
      Some (at_cleanup (CLoop (time_Add t (- (30 * Minute))) order) ct c)
    else None
  | _ => None
  end.

Definition cleanup_own (c : cstate) : option cstate :=
  match cl c with
  | CIdle => None
  | CLoop th [] => Some (at_cleanup CIdle (ctl c) c)
  | CLoop th ((k, l) :: todo) =>
    st ← heap c !! l;
    Some (at_cleanup (if time_Before (rs_LastRemediation st) th then CNow th k l todo else CLoop th todo) (ctl c) c)
  | CNow th k l todo => let '(t, ct) := now clk (ctl c) in Some (at_cleanup (CUntil th t k l todo) ct c)
  | CUntil th t k l todo =>
    st ← heap c !! l;
    Some (mkC (heap c) (if time_After t (rs_CooldownUntil st) then delete k (smap c) else smap c) (ctl c) (pc c)
            (CLoop th todo))
  end.

Inductive label :=
  | LTake (res : DetectionResult)
  | LOwn
  | LTicker (order : list (string * positive))
  | LCleanup
  | LRecv               (* the reader of the output channel *)
  | LClock.             (* somebody else reads the clock *)

Definition exec (l : label) (c : cstate) : option cstate :=
  match l with
  | LTake res => take_result res c
  | LOwn => own_step c
  | LTicker order => start_cleanup order c
  | LCleanup => cleanup_own c
  | LRecv =>
    match chan_recv (rout (ctl c)) with
    | Some (_, ch) => Some (goto (pc c) (mkController (rstates (ctl c)) ch (world (ctl c)) (ticks (ctl c))) c)
    | None => None
    end
  | LClock => Some (goto (pc c) (now clk (ctl c)).2 c)
  end.

Fixpoint exec_all (ls : list label) (c : cstate) : option cstate :=
  match ls with
  | [] => Some c
  | l :: ls => match exec l c with Some c => exec_all ls c | None => None end
  end.

(** The step that lets an attempt for [res] go ahead, and the one that starts its
    cooldown at its end. *)
Definition goes_ahead (res : DetectionResult) (c c' : cstate) : Prop :=
  exec LOwn c = Some c' /\ exists l acts, pc c = PGot res l /\ pc c' = PAct res l acts.
Definition finishes (res : DetectionResult) (c c' : cstate) : Prop :=
  exec LOwn c = Some c' /\ exists l, pc c = PCool res l.

(** * The invariant *)

Definition holding (p : ppc) : option (DetectionResult * positive) :=
  match p with
  | PIdle => None
  | PGot res l | PAct res l _ | PLast res l | PCount res l | PCool res l | PSet res l => Some (res, l)
  end.

(** The entries the cleanup has still to look at. *)
Definition pending (q : cpc) : list (string * positive) :=
  match q with
  | CIdle => []
  | CLoop _ todo => todo
  | CNow _ k l todo | CUntil _ _ k l todo => (k, l) :: todo
  end.

Record wf (c : cstate) : Prop := {
  wf_heap k l : smap c !! k = Some l -> is_Some (heap c !! l);
  wf_inj k1 k2 l : smap c !! k1 = Some l -> smap c !! k2 = Some l -> k1 = k2;
  wf_held res l : holding (pc c) = Some (res, l) -> is_Some (heap c !! l) /\
    (forall k, smap c !! k = Some l -> k = key res) /\ (forall l', smap c !! key res = Some l' -> l' = l);
  wf_pending k l : (k, l) ∈ pending (cl c) -> smap c !! k = Some l;
  wf_order : NoDup (pending (cl c)).*1;
  wf_read th t k l todo : cl c = CUntil th t k l todo -> t <= clk (ticks (ctl c));
}.

Context (clk_mono : forall i j, (i <= j)%nat -> clk i <= clk j) (clk_nonneg : 0 <= clk 0).

(** Steps that keep the map: the held pointer and the cleanup's place stay. *)
Lemma wf_goto p ct c : wf c -> (ticks (ctl c) <= ticks ct)%nat ->
  (forall res l, holding p = Some (res, l) -> holding (pc c) = Some (res, l)) -> wf (goto p ct c).
Proof using clk_mono.
  intros [A B C D E F] Ht Hh. split; cbn; [exact A|exact B|intros res l Hp; by apply C, Hh|exact D|exact E|].
  intros th t k l todo Hq. etrans; [by eapply F|]. by apply clk_mono.
Qed.

Lemma wf_write l f c : wf c -> wf (write l f c).
Proof.
  intros [A B C D E F]. split; cbn; try done.
  - intros k l' Hk. rewrite lookup_alter_is_Some. by eapply A.
  - intros res l' Hp. rewrite lookup_alter_is_Some. by apply C.
Qed.

(** * Cooldowns *)

(** The record that holds [k] back: the one the store has, which is the one the
    process works on if it works on [k]; while it carries out an attempt no
    record need hold [k] back. *)
Definition reaches (k : string) (l : positive) (c : cstate) : Prop :=
  match holding (pc c) with
  | Some (res, l0) =>
    if decide (key res = k) then
      l0 = l /\ match pc c with PGot _ _ => smap c !! k = Some l | PSet _ _ => True | _ => False end
    else smap c !! k = Some l
  | None => smap c !! k = Some l
  end.

Definition held_back (k : string) (U : Z) (c : cstate) : Prop :=
  U <= clk (ticks (ctl c)) \/
  exists l st, heap c !! l = Some st /\ U <= rs_CooldownUntil st /\ reaches k l c.

(** Writing at the held pointer. *)
Lemma held_write k U res l f c :
  wf c -> holding (pc c) = Some (res, l) -> key res <> k -> held_back k U c -> held_back k U (write l f c).
Proof.
  intros HW Hh Hk [Ht|(l1 & st & Hst & HU & Hr)]; [by left|right]. exists l1, st. cbn.
  split; [|split; [exact HU|exact Hr]]. unfold reaches in Hr. rewrite Hh, decide_False in Hr by done.
  rewrite lookup_alter_ne; [exact Hst|]. intros ->. destruct (wf_held _ HW _ _ Hh) as (_ & Hpr & _).
  by apply Hk, eq_sym, Hpr.
Qed.

(** Going on with the same pointer, for a key that is not the one worked on. *)
Lemma held_goto k U p ct c :
  (ticks (ctl c) <= ticks ct)%nat ->
  (forall res l, holding (pc c) = Some (res, l) -> key res <> k) ->
  (forall res l, holding p = Some (res, l) -> key res <> k) ->
  held_back k U c -> held_back k U (goto p ct c).
Proof using clk_mono.
  intros Ht H1 H2 [Hu|(l & st & Hst & HU & Hr)]; [left; etrans; [exact Hu|by apply clk_mono]|right].
  exists l, st. split; [exact Hst|]. split; [exact HU|]. unfold reaches in *. cbn.
  assert (smap c !! k = Some l) as Hm.
  { destruct (holding (pc c)) as [[res l0]|] eqn:Eh; [|exact Hr]. by rewrite decide_False in Hr by (by eapply H1). }
  destruct (holding p) as [[res l0]|] eqn:Eh; [|exact Hm]. by rewrite decide_False by (by eapply H2).
Qed.

Lemma held_time k U c c' : U <= clk (ticks (ctl c)) -> (ticks (ctl c) <= ticks (ctl c'))%nat -> held_back k U c'.
Proof using clk_mono. intros Hu Ht. left. etrans; [exact Hu|by apply clk_mono]. Qed.

(** ** The process *)

(** Every step between [PAct] and [PCool]: nothing holds the key back but the time. *)
Lemma busy_held k U res l p ct f c :
  wf c -> holding (pc c) = Some (res, l) -> match pc c with PGot _ _ | PSet _ _ => False | _ => True end ->
  holding p = Some (res, l) -> (ticks (ctl c) <= ticks ct)%nat ->
  held_back k U c -> held_back k U (write l f (goto p ct c)).
Proof using clk_mono.
  intros HW Hh Hpc Hp Ht HB. destruct (decide (key res = k)) as [Hk|Hk].
  - eapply held_time; [|exact Ht]. destruct HB as [Hu|(l1 & st & _ & _ & Hr)]; [exact Hu|].
    unfold reaches in Hr. rewrite Hh, decide_True in Hr by done. destruct Hr as [_ Hr]. by destruct (pc c).
  - eapply held_write; [|exact Hp|exact Hk|].
    + apply wf_goto; [done|done|]. intros res' l'. by rewrite Hp, Hh.
    + apply held_goto; [done|..|done]; intros res' l'; rewrite ?Hp, ?Hh; by intros [= <- <-].
Qed.

Lemma take_ok k U res c c' :
  wf c -> take_result res c = Some c' -> wf c' /\ (held_back k U c -> held_back k U c').
Proof using clk_mono.
  intros HW E. unfold take_result in E. destruct (pc c) eqn:Ep; try done.
  destruct (policy_skips _ _); [by injection E as <-|]. destruct (locked c) eqn:El; [done|].
  assert (cl c = CIdle) as Ec by (unfold locked in El; by destruct (cl c)).
  destruct (smap c !! key res) as [l|] eqn:Em; injection E as <-.
  - split.
    + destruct HW as [A B C D E F]. split; cbn; try done. intros res' l' [= <- <-].
      split; [by eapply A|]. split; [intros k' Hk'; by eapply B|]. intros l'. congruence.
    + intros [Hu|(l1 & st & Hst & HU & Hr)]; [by left|right]. exists l1, st. split; [done|]. split; [done|].
      unfold reaches in *. rewrite Ep in Hr. cbn in *. case_decide as Dk; [|done]. subst. split; congruence.
  - set (l := fresh (dom (heap c))). assert (heap c !! l = None) as Hf by (apply not_elem_of_dom, is_fresh).
    assert (forall k' l', smap c !! k' = Some l' -> l <> l') as Hn.
    { intros k' l' Hk' ->. destruct (wf_heap _ HW k' _ Hk'). congruence. }
    split.
    + destruct HW as [A B C D E F]. split; cbn; try done.
      * intros k' l' Hk'. rewrite lookup_insert_ne by (by eapply Hn). by eapply A.
      * intros res' l' [= <- <-]. rewrite lookup_insert_eq. split; [done|]. split; [|congruence].
        intros k' Hk'. by destruct (Hn _ _ Hk').
    + intros [Hu|(l1 & st & Hst & HU & Hr)]; [by left|]. unfold reaches in Hr. rewrite Ep in Hr. cbn in Hr.
      right. exists l1, st. cbn. rewrite lookup_insert_ne by (by eapply Hn). split; [done|]. split; [done|].
      unfold reaches. cbn. rewrite decide_False; [done|]. intros <-. congruence.
Qed.

(** The cooldown check, at the record that holds the key back. *)
Lemma consider_ok k U res l st c :
  wf c -> pc c = PGot res l -> heap c !! l = Some st ->
  wf (consider res l st c) /\ (held_back k U c -> held_back k U (consider res l st c)) /\
  (forall acts, pc (consider res l st c) = PAct res l acts -> key res = k -> held_back k U c -> U <= clk (ticks (ctl c))).
Proof using clk_mono clk_nonneg.
  intros HW Ep Hst. unfold consider. destruct (isInCooldown_spec clk st (ctl c)) as ([_ Ht] & _ & _ & Hcool).
  destruct (isInCooldown clk st (ctl c)) as [cooling ct]. cbn [fst snd] in *.
  assert (holding (pc c) = Some (res, l)) as Hh by (by rewrite Ep).
  assert (cooling = false -> key res = k -> held_back k U c -> U <= clk (ticks (ctl c))) as Hpast.
  { intros -> Hk [Hu|(l1 & st1 & Hst1 & HU & Hr)]; [exact Hu|]. unfold reaches in Hr.
    rewrite Hh, decide_True in Hr by done. destruct Hr as [<- _]. assert (st1 = st) as -> by congruence.
    destruct (Z.eq_dec (rs_CooldownUntil st) 0) as [E0|N0].
    - pose proof (clk_mono 0 (ticks (ctl c)) ltac:(lia)). lia.
    - destruct (Z.lt_ge_cases (clk (ticks (ctl c))) (rs_CooldownUntil st)) as [Hlt|]; [|lia].
      by destruct Hcool as [_ Hc]; specialize (Hc (conj N0 Hlt)). }
  (* another key, or one whose time has come *)
  assert (forall p ct', (ticks (ctl c) <= ticks ct')%nat -> (forall res' l', holding p = Some (res', l') -> res' = res /\ l' = l) ->
    cooling = false -> held_back k U c -> held_back k U (goto p ct' c)) as Hother.
  { intros p ct' Ht' Hp Hf HB. destruct (decide (key res = k)) as [Hk|Hk]; [eapply held_time; [by apply Hpast|exact Ht']|].
    apply held_goto; [exact Ht'|..|exact HB]; intros res' l' Hp'; [congruence|by destruct (Hp _ _ Hp') as [-> _]]. }
  assert (forall p ct', (ticks (ctl c) <= ticks ct')%nat -> holding p = None \/ holding p = Some (res, l) ->
    wf (goto p ct' c)) as Hwf.
  { intros p ct' Ht' Hp. apply wf_goto; [done|done|]. intros res' l'. destruct Hp as [-> | ->]; [done|by rewrite Hh]. }
  destruct cooling; [|specialize (Hpast eq_refl); specialize (fun p ct' A B => Hother p ct' A B eq_refl)].
  - pose proof (recordSkipped_frame clk formatID res "cooldown" ct) as [_ Ht2].
    split; [apply Hwf; [lia|by left]|]. split; [|done].
    intros [Hu|(l1 & st1 & Hst1 & HU & Hr)]; [eapply held_time; [exact Hu|cbn in *; lia]|right].
    exists l1, st1. split; [done|]. split; [done|]. unfold reaches in *. rewrite Hh in Hr. cbn.
    case_decide; [by destruct Hr as [_ Hr]; rewrite Ep in Hr|done].
  - destruct (_ <=? _); [destruct (rs_Escalated st)|].
    + split; [apply Hwf; [done|by left]|]. split; [by apply Hother|done].
    + pose proof (escalate_frame clk formatID res ct) as [_ Ht2].
      split; [apply wf_write, Hwf; [lia|by right]|]. split; [|done]. intros HB.
      destruct (decide (key res = k)) as [Hk|Hk]; [eapply held_time; [by apply Hpast|cbn in *; lia]|].
      eapply held_write; [apply Hwf; [lia|by right]|done|exact Hk|]. apply Hother; [lia|by intros ? ? [= <- <-]|exact HB].
    + split; [apply Hwf; [done|by right]|]. split; [|done].
      intros HB. apply Hother; [done|by intros ? ? [= <- <-]|exact HB].
Qed.

Lemma own_ok k U c c' :
  wf c -> own_step c = Some c' -> wf c' /\ (held_back k U c -> held_back k U c').
Proof using clk_mono clk_nonneg.
  intros HW E. unfold own_step in E. destruct (pc c) as [|res l|res l acts|res l|res l|res l|res l] eqn:Ep; [done|..];
    assert (holding (pc c) = Some (res, l)) as Hh by (by rewrite Ep).
  - apply fmap_Some in E as (st & Hst & ->). destruct (consider_ok k U res l st c HW Ep Hst) as (H1 & H2 & _). done.
  - assert (forall f p ct, holding p = Some (res, l) -> (ticks (ctl c) <= ticks ct)%nat ->
      wf (write l f (goto p ct c)) /\ (held_back k U c -> held_back k U (write l f (goto p ct c)))) as Hgo.
    { intros f p ct Hp Ht. split; [apply wf_write, wf_goto; [done..|]; intros res' l'; by rewrite Hp, Hh|].
      apply (busy_held k U res); [done|done|by rewrite Ep|done|done]. }
    destruct acts as [[|ac acts]|].
    + injection E as <-. assert (goto (PLast res l) (ctl c) c = write l id (goto (PLast res l) (ctl c) c)) as ->.
      { unfold write. cbn. by rewrite alter_id by done. }
      by apply Hgo.
    + injection E as <-. unfold act. pose proof (executeAction_frame Execute clk formatID cc res ac (ctl c)) as [_ Ht].
      destruct (executeAction _ _ _ _ _ _ _) as [r ct]. cbn [snd] in Ht. cbn [ctl goto].
      case_decide; [|by apply Hgo]. by apply (Hgo _ (PLast res l) (sendResult r ct)).
    + destruct (heap c !! l) as [st|]; [|done]. cbn in E.
      pose proof (publishTask_frame Publish cc res st (ctl c)) as [[_ Ht] _].
      destruct (publishTask _ _ _ _ _) as [st' ct]. injection E as <-. by apply Hgo.
  - cbn in E. injection E as <-. split; [apply wf_write, wf_goto; [done|cbn; lia|]; intros res' l'; cbn; by rewrite Hh|].
    apply (busy_held k U res); [done|done|by rewrite Ep|done|cbn; lia].
  - injection E as <-. split; [apply wf_write, wf_goto; [done|done|]; intros res' l'; cbn; by rewrite Hh|].
    apply (busy_held k U res); [done|done|by rewrite Ep|done|done].
  - cbn in E. injection E as <-. split; [apply wf_write, wf_goto; [done|cbn; lia|]; intros res' l'; cbn; by rewrite Hh|].
    apply (busy_held k U res); [done|done|by rewrite Ep|done|cbn; lia].
  - destruct (locked c) eqn:El; [done|]. injection E as <-.
    assert (cl c = CIdle) as Ec by (unfold locked in El; by destruct (cl c)).
    destruct (wf_held _ HW _ _ Hh) as (Hs & Hp & Hu). split.
    + destruct HW as [A B C D E F]. split; cbn; rewrite ?Ec in *; try done.
      * intros k' l' Hk. apply lookup_insert_Some in Hk as [[_ <-]|[_ Hk]]; [done|by eapply A].
      * intros k1 k2 l' H1 H2. apply lookup_insert_Some in H1 as [[E1 E1']|[N1 H1]], H2 as [[E2 E2']|[N2 H2]].
        -- congruence.
        -- subst l'. rewrite <- E1. symmetry. by apply Hp.
        -- subst l'. rewrite <- E2. by apply Hp.
        -- by eapply B.
      * intros k' l' Hin. by apply elem_of_nil in Hin.
    + intros [Ht|(l1 & st & Hst & HU & Hr)]; [by left|right]. exists l1, st. split; [done|]. split; [done|].
      unfold reaches in *. rewrite Hh in Hr. cbn. case_decide as Dk.
      * subst k. destruct Hr as [<- _]. apply lookup_insert_eq.
      * by rewrite lookup_insert_ne.
Qed.

(** ** The cleanup *)

Lemma at_cleanup_ok k U q ct c :
  wf c -> (ticks (ctl c) <= ticks ct)%nat -> (forall kl, kl ∈ pending q -> smap c !! kl.1 = Some kl.2) ->
  NoDup (pending q).*1 -> (forall th t k l todo, q = CUntil th t k l todo -> t <= clk (ticks ct)) ->
  wf (at_cleanup q ct c) /\ (held_back k U c -> held_back k U (at_cleanup q ct c)).
Proof using clk_mono.
  intros [A B C D E F] Ht Hp Hn Hq. split.
  - split; cbn; try done. intros k' l' Hin. by apply (Hp (k', l')).
  - intros [Hu|(l & st & Hst & HU & Hr)]; [by eapply held_time|right]. by exists l, st.
Qed.

Lemma cleanup_ok k U c c' :
  wf c -> cleanup_own c = Some c' -> wf c' /\ (held_back k U c -> held_back k U c').
Proof using clk_mono.
  intros HW E. pose proof HW as [A B C D En F]. unfold cleanup_own in E.
  assert (forall kl, kl ∈ pending (cl c) -> smap c !! kl.1 = Some kl.2) as Hp by (intros [k' l'] Hin; by apply D).
  destruct (cl c) as [|th [|[k0 l0] todo]|th k0 l0 todo|th t k0 l0 todo] eqn:Eq; cbn [pending] in *; [done|..].
  - injection E as <-. by apply at_cleanup_ok.
  - rewrite fmap_cons, NoDup_cons in En. destruct En as [Hno Hn].
    destruct (heap c !! l0) as [st|]; [|done]. cbn in E. injection E as <-. apply at_cleanup_ok; try done; case_match; try done;
      cbn [pending]; [intros kl Hin; apply Hp; by right|by rewrite fmap_cons, NoDup_cons].
  - cbn in E. injection E as <-. apply at_cleanup_ok; cbn; try done; [lia|].
    intros th' t' k' l' todo' [= _ <- _ _ _]. apply clk_mono. lia.
  - destruct (heap c !! l0) as [st|] eqn:El; [|done]. cbn in E. injection E as <-.
    rewrite fmap_cons, NoDup_cons in En. destruct En as [Hno Hn]. cbn [fst] in Hno.
    pose proof (Hp (k0, l0) ltac:(by left)) as Hk0. cbn [fst snd] in Hk0.
    specialize (F th t k0 l0 todo eq_refl). unfold time_After.
    destruct (rs_CooldownUntil st <? t) eqn:Et.
    + apply Z.ltb_lt in Et. split.
      * split; cbn; try done.
        -- intros k' l' [_ Hk]%lookup_delete_Some. by eapply A.
        -- intros k1 k2 l' [_ H1]%lookup_delete_Some [_ H2]%lookup_delete_Some. by eapply B.
        -- intros res l' Hh. destruct (C _ _ Hh) as (C1 & C2 & C3). split; [done|]. split.
           ++ intros k' [_ Hk]%lookup_delete_Some. by apply C2.
           ++ intros l2 [_ Hk]%lookup_delete_Some. by apply C3.
        -- intros k' l' Hin. rewrite lookup_delete_ne; [apply (Hp (k', l')); by right|].
           intros ->. apply Hno. by apply (list_elem_of_fmap_2' fst todo (k', l')).
      * intros [Hu|(l1 & st1 & Hst & HU & Hr)]; [by left|].
        destruct (decide (k = k0)) as [->|Hk].
        -- destruct (decide (l1 = l0)) as [->|Hl]; [left; cbn; assert (st1 = st) as -> by congruence; lia|].
           right. exists l1, st1. split; [done|]. split; [done|]. unfold reaches in *. cbn.
           destruct (holding (pc c)) as [[res l']|] eqn:Hh; [|congruence]. case_decide as Dk; [|congruence].
           destruct Hr as [-> Hr]. split; [done|]. destruct (pc c); try done. congruence.
        -- right. exists l1, st1. split; [done|]. split; [done|]. unfold reaches in *. cbn.
           rewrite !lookup_delete_ne by done. exact Hr.
    + assert (mkC (heap c) (smap c) (ctl c) (pc c) (CLoop th todo) = at_cleanup (CLoop th todo) (ctl c) c) as -> by done.
      apply at_cleanup_ok; try done. intros kl Hin. apply Hp. by right.
Qed.

Lemma exec_ok k U l c c' : wf c -> exec l c = Some c' -> wf c' /\ (held_back k U c -> held_back k U c').
Proof using clk_mono clk_nonneg.
  intros HW E. destruct l as [res| |order| | |]; cbn [exec] in E.
  - by eapply take_ok.
  - by eapply own_ok.
  - unfold start_cleanup in E. destruct (cl c) eqn:Eq; try done. case_decide as Hperm; [|done]. cbn in E. injection E as <-.
    apply at_cleanup_ok; cbn; try done; [lia|..].
    + intros [k' l']. rewrite Hperm. apply elem_of_map_to_list.
    + rewrite Hperm. apply NoDup_fst_map_to_list.
  - by eapply cleanup_ok.
  - destruct (chan_recv _) as [[r ch]|]; [|done]. injection E as <-. split; [by apply wf_goto|].
    intros [Hu|(l & st & ? & ? & Hr)]; [by left|right]. by exists l, st.
  - injection E as <-. split; [apply wf_goto; [done|cbn; lia|done]|].
    intros [Hu|(l & st & ? & ? & Hr)]; [eapply held_time; [exact Hu|cbn; lia]|right]. by exists l, st.
Qed.

Lemma exec_all_ok k U ls c c' :
  wf c -> exec_all ls c = Some c' -> wf c' /\ (held_back k U c -> held_back k U c').
Proof using clk_mono clk_nonneg.
  revert c. induction ls as [|l ls IH]; intros c HW; cbn [exec_all]; [by intros [= <-]|].
  destruct (exec l c) as [c1|] eqn:E; [|done]. intros E2. destruct (exec_ok k U _ _ _ HW E) as [HW1 H1].
  destruct (IH c1 HW1 E2) as [HW2 H2]. eauto.
Qed.

Lemma wf_new cap w : wf (new_cstate cap w).
Proof. split; cbn; try done; [intros k l Hin; by apply elem_of_nil in Hin|constructor]. Qed.

(** C4: the cooldown is race-free.  [processResult] assigns the fields of a record
    without the store's lock while the cleanup reads them and deletes entries,
    and a pointer it holds may be deleted from the store and put back: in every
    interleaving of their single reads and writes, an attempt goes ahead for a
    scenario and resource only when the cooldown that the last one for it ended
    with has passed. *)
Theorem cooldown_race_free cap w ls1 c1 r1 c2 ls c3 r2 c4 :
  exec_all ls1 (new_cstate cap w) = Some c1 -> finishes r1 c1 c2 ->
  exec_all ls c2 = Some c3 -> goes_ahead r2 c3 c4 -> key r1 = key r2 ->
  clk (ticks (ctl c1)) + cooldown <= clk (ticks (ctl c3)).
Proof using clk_mono clk_nonneg.
  intros E1 [Ef (l & Ep)] E2 [Eg (l2 & acts & Ep3 & Ep4)] Hk.
  set (U := clk (ticks (ctl c1)) + cooldown).
  destruct (exec_all_ok (key r1) U _ _ _ (wf_new cap w) E1) as [HW1 _].
  destruct (wf_held _ HW1 r1 l) as ([st Hst] & _); [by rewrite Ep|].
  assert (held_back (key r1) U c2) as HB.
  { cbn [exec] in Ef. unfold own_step in Ef. rewrite Ep in Ef. cbn in Ef. injection Ef as <-.
    right. exists l. eexists. cbn. rewrite lookup_alter_eq, Hst. split; [done|]. split; [done|].
    unfold reaches. cbn. by rewrite decide_True. }
  destruct (exec_ok (key r1) U _ _ _ HW1 Ef) as [HW2 _].
  destruct (exec_all_ok (key r1) U _ _ _ HW2 E2) as [HW3 H3]. specialize (H3 HB).
  cbn [exec] in Eg. unfold own_step in Eg. rewrite Ep3 in Eg. apply fmap_Some in Eg as (st3 & Hst3 & ->).
  destruct (consider_ok (key r1) U r2 l2 st3 c3 HW3 Ep3 Hst3) as (_ & _ & H). by eapply H.
Qed.

End conc.

(** A first attempt; before the second is considered, the cleanup has dropped the
    record that it holds. *)
#[local] Existing Instance demo_sort.

Definition demo_exec : list label -> cstate (W := nat) -> option (cstate (W := nat)) :=
  exec_all demo_Execute demo_Publish demo_clk demo_id (demo_cc false 3).
Definition demo_first : list label := [LTake demo_result; LOwn; LOwn; LOwn; LOwn; LOwn; LOwn].
Definition demo_between : list label :=
  [LOwn; LClock; LTake demo_result; LTicker [("S1/Deployment/prod/web", 1%positive)]; LCleanup; LCleanup; LCleanup].

Lemma cooldown_race_free_witness :
  exists c1 c2 c3, demo_exec demo_first (new_cstate 8 0%nat) = Some c1 /\ demo_exec [LOwn] c1 = Some c2 /\
    demo_exec demo_between c2 = Some c3 /\ smap c3 = ∅ /\
    demo_clk (ticks (ctl c1)) + 15 * Minute <= demo_clk (ticks (ctl c3)).
Proof.
  do 3 eexists. split; [vm_compute; reflexivity|]. split; [vm_compute; reflexivity|].
  split; [vm_compute; reflexivity|]. split; [vm_compute; reflexivity|].
  eapply (cooldown_race_free demo_Execute demo_Publish demo_clk demo_id (demo_cc false 3) demo_clk_mono
    ltac:(vm_compute; discriminate) 8 0%nat demo_first _ demo_result _ demo_between _ demo_result _).
  - vm_compute. reflexivity.
  - split; [vm_compute; reflexivity|]. eexists. reflexivity.
  - vm_compute. reflexivity.
  - split; [vm_compute; reflexivity|]. do 2 eexists. split; reflexivity.
  - reflexivity.
Defined.
