(* ===== verification/RemediationBudget.v ===== *)
(** The retry budget at the granularity of reads and writes ([RemediationConc]):
    from one record no more attempts go ahead than the budget allows, and a record
    is made anew only half an hour after the last attempt. *)

From S2P Require Import Prelude Types Policy Owner Remediation RemediationProps RemediationConc.

Section budget.
Context {W : Type}.
Context (Execute : Z -> W -> ResourceReference -> ActionConfig -> W * result ActionResult).
Context (Publish : W -> DetectionResult -> ResourceReference -> W * result ()).
Context (clk : nat -> Z) (formatID : Z -> string).
Context `{Sort : !SliceSort ActionConfig ac_Order}.
Context (cc : controllerConfig (W := W)).
Context (clk_mono : forall i j, (i <= j)%nat -> clk i <= clk j) (clk_nonneg : 0 <= clk 0).

Abbreviation key := result_key.
Abbreviation cstate := (RemediationConc.cstate (W := W)).
Abbreviation take_result := (RemediationConc.take_result (W := W) cc).
Abbreviation consider := (RemediationConc.consider (W := W) clk formatID cc).
Abbreviation own_step := (RemediationConc.own_step (W := W) Execute Publish clk formatID cc).
Abbreviation cleanup_own := (RemediationConc.cleanup_own (W := W) clk).
Abbreviation exec := (RemediationConc.exec (W := W) Execute Publish clk formatID cc).
Abbreviation exec_all := (RemediationConc.exec_all (W := W) Execute Publish clk formatID cc).
Abbreviation wf := (RemediationConc.wf (W := W) clk).

Lemma exec_wf l c c' : wf c -> exec l c = Some c' -> wf c'.
Proof using clk_mono clk_nonneg.
  intros HW E. by destruct (exec_ok Execute Publish clk formatID cc clk_mono clk_nonneg "" 0 l c c' HW E).
Qed.

(** * The budget *)

Abbreviation budget := (DefaultMaxRetries (cc_config cc)).

(** An attempt for [k] goes ahead; a record for [k] is created. *)
Definition starts (k : string) (c c' : cstate) : bool :=
  match pc c, pc c' with PGot res _, PAct _ _ _ => bool_decide (key res = k) | _, _ => false end.
Definition renews (k : string) (l : label) (c : cstate) : bool :=
  match l, pc c with
  | LTake res, PIdle => bool_decide (key res = k /\ smap c !! k = None) && negb (policy_skips cc (dr_Resource res))
  | _, _ => false
  end.

(** The attempts for [k] along a run, counted from the last record on. *)
Fixpoint attempts_since (k : string) (ls : list label) (c : cstate) (n : nat) : nat :=
  match ls with
  | [] => n
  | l :: ls =>
    match exec l c with
    | Some c' => attempts_since k ls c' (if renews k l c then 0 else if starts k c c' then S n else n)%nat
    | None => n
    end
  end.

(** The record for [k], the one that is worked on first; and whether an attempt
    for [k] is on its way that is not counted yet. *)
Definition current (k : string) (c : cstate) : option positive :=
  match holding (pc c) with
  | Some (res, l) => if decide (key res = k) then Some l else smap c !! k
  | None => smap c !! k
  end.
Definition uncounted (k : string) (p : ppc) : bool :=
  match p with PAct res _ _ | PLast res _ | PCount res _ => bool_decide (key res = k) | _ => false end.

Definition within_budget (k : string) (n : nat) (c : cstate) : Prop :=
  Z.of_nat n <= Z.max 0 budget /\
  forall l, current k c = Some l -> exists st, heap c !! l = Some st /\
    Z.of_nat n = rs_RemediationCount st + (if uncounted k (pc c) then 1 else 0) /\
    (uncounted k (pc c) = true -> rs_RemediationCount st < budget).

(** A step that leaves the record and its count alone. *)
Lemma within_keep k n c c' :
  within_budget k n c ->
  (forall l, current k c' = Some l -> current k c = Some l /\ uncounted k (pc c') = uncounted k (pc c) /\
    rs_RemediationCount <$> heap c' !! l = rs_RemediationCount <$> heap c !! l) ->
  within_budget k n c'.
Proof.
  intros [Hn H] Hsame. split; [exact Hn|]. intros l Hl. destruct (Hsame l Hl) as (Hl0 & Hu & Hc).
  destruct (H l Hl0) as (st & Hst & Hcount & Hlt). rewrite Hst in Hc. cbn in Hc.
  apply fmap_Some in Hc as (st' & Hst' & Ec). exists st'. rewrite Hu, <- Ec. by split_and!.
Qed.

(** The process goes on with its pointer, and may write anything but the count. *)
Lemma within_go k n res l f p ct c :
  wf c -> holding (pc c) = Some (res, l) -> holding p = Some (res, l) ->
  (key res = k -> uncounted k p = uncounted k (pc c)) ->
  (forall st, rs_RemediationCount (f st) = rs_RemediationCount st) ->
  within_budget k n c -> within_budget k n (write l f (goto p ct c)).
Proof.
  intros HW Hh Hp Hu Hf HB. apply (within_keep k n c); [done|]. intros l1. unfold current. cbn. rewrite Hh, Hp.
  intros Hl. split; [done|]. split.
  - destruct (decide (key res = k)) as [E|N]; [by apply Hu|].
    assert (forall q, holding q = Some (res, l) -> uncounted k q = false) as Hno.
    { intros [] [= -> ->]; cbn; try done; by apply bool_decide_eq_false. }
    by rewrite (Hno p), (Hno (pc c)).
  - destruct (decide (l1 = l)) as [->|N]; [|by rewrite lookup_alter_ne].
    rewrite lookup_alter_eq. destruct (heap c !! l) as [st|]; [|done]. cbn. by rewrite Hf.
Qed.

(** It is done with its pointer and puts nothing into the store. *)
Lemma within_leave k n res l ct c :
  wf c -> pc c = PGot res l -> within_budget k n c -> within_budget k n (goto PIdle ct c).
Proof.
  intros HW Ep HB. apply (within_keep k n c); [done|]. intros l1. unfold current. cbn. rewrite Ep. cbn. intros Hl.
  split; [|done]. case_decide as D; [|done]. subst k.
  destruct (wf_held _ _ HW res l) as (_ & _ & Hu); [by rewrite Ep|]. f_equal. symmetry. by apply Hu.
Qed.

Lemma within_take k n res c c' :
  wf c -> take_result res c = Some c' -> within_budget k n c ->
  within_budget k (if renews k (LTake res) c then 0 else n)%nat c'.
Proof.
  intros HW E HB. unfold take_result in E. unfold renews. destruct (pc c) eqn:Ep; try done.
  destruct (policy_skips _ _); [injection E as <-; by rewrite andb_false_r|]. destruct (locked c); [done|].
  destruct (smap c !! key res) as [l|] eqn:Em; injection E as <-.
  - rewrite bool_decide_false by (intros [<- ?]; congruence). cbn.
    apply (within_keep k n c); [done|]. intros l1. unfold current. cbn. rewrite Ep. cbn. intros Hl.
    split; [|done]. case_decide; congruence.
  - set (l := fresh (dom (heap c))). assert (heap c !! l = None) as Hf by (apply not_elem_of_dom, is_fresh).
    destruct (decide (key res = k)) as [Hk|Hk].
    + rewrite bool_decide_true by (split; congruence). cbn. split; [lia|]. intros l1. unfold current. cbn.
      rewrite decide_True by done. intros [= <-]. eexists. rewrite lookup_insert_eq. by split_and!.
    + rewrite bool_decide_false by (by intros [? _]). cbn. apply (within_keep k n c); [done|]. intros l1.
      unfold current. cbn. rewrite Ep, decide_False by done. cbn. intros Hl. split; [done|]. split; [done|].
      rewrite lookup_insert_ne; [done|]. intros ->. destruct (wf_heap _ _ HW _ _ Hl). congruence.
Qed.

Lemma within_consider k n res l st c :
  wf c -> pc c = PGot res l -> heap c !! l = Some st -> within_budget k n c ->
  within_budget k (if starts k c (consider res l st c) then S n else n) (consider res l st c).
Proof.
  intros HW Ep Hst HB. unfold consider. destruct (isInCooldown clk st (ctl c)) as [cooling ct].
  assert (holding (pc c) = Some (res, l)) as Hh by (by rewrite Ep).
  destruct cooling; [unfold starts; rewrite Ep; cbn; by eapply within_leave|].
  destruct (_ <=? _) eqn:Eb; [destruct (rs_Escalated st); unfold starts; rewrite Ep; cbn|].
  - by eapply within_leave.
  - apply (within_go k n res); try done. by rewrite Ep.
  - unfold starts. rewrite Ep. cbn [pc goto]. case_bool_decide as Hk.
    + destruct HB as [Hn HB]. destruct (HB l) as (st0 & Hst0 & Hc & _).
      { unfold current. by rewrite Hh, decide_True. }
      rewrite Ep in Hc. cbn in Hc. assert (st0 = st) as -> by congruence. apply Z.leb_gt in Eb.
      split; [lia|]. intros l1. unfold current. cbn. rewrite decide_True by done. intros [= <-].
      exists st. rewrite bool_decide_true by done. split; [done|]. split; [lia|done].
    + apply (within_keep k n c); [done|]. intros l1. unfold current. rewrite Hh. cbn. rewrite Ep. cbn.
      rewrite decide_False by done. by rewrite bool_decide_false.
Qed.

Context (budget_fits : fits 64 budget).

Lemma within_own k n c c' :
  wf c -> own_step c = Some c' -> within_budget k n c ->
  within_budget k (if starts k c c' then S n else n) c'.
Proof using budget_fits.
  intros HW E HB. unfold own_step in E. destruct (pc c) as [|res l|res l acts|res l|res l|res l|res l] eqn:Ep; [done|..];
    assert (holding (pc c) = Some (res, l)) as Hh by (by rewrite Ep).
  - apply fmap_Some in E as (st & Hst & ->). by apply within_consider.
  - unfold starts. rewrite Ep. assert (forall f p ct, holding p = Some (res, l) -> uncounted k p = bool_decide (key res = k) ->
      (forall st, rs_RemediationCount (f st) = rs_RemediationCount st) -> within_budget k n (write l f (goto p ct c))) as Hgo.
    { intros f p ct Hp Hu Hf. apply (within_go k n res); try done. by rewrite Ep. }
    destruct acts as [[|ac acts]|].
    + injection E as <-. assert (goto (PLast res l) (ctl c) c = write l id (goto (PLast res l) (ctl c) c)) as ->.
      { unfold write. cbn. by rewrite alter_id by done. }
      by apply Hgo.
    + injection E as <-. unfold act. destruct (executeAction _ _ _ _ _ _ _) as [r ct]. cbn [ctl goto].
      destruct (decide (ar_Status r = _)); [by apply (Hgo _ (PLast res l) (sendResult r ct))|by apply Hgo].
    + destruct (heap c !! l) as [st|]; [|done]. cbn in E.
      destruct (publishTask _ _ _ _ _) as [st' ct]. injection E as <-. by apply Hgo.
  - cbn in E. injection E as <-. unfold starts. rewrite Ep. apply (within_go k n res); try done. by rewrite Ep.
  - injection E as <-. unfold starts. rewrite Ep. destruct (decide (key res = k)) as [Hk|Hk].
    + destruct HB as [Hn HB]. destruct (HB l) as (st & Hst & Hc & Hlt).
      { unfold current. by rewrite Hh, decide_True. }
      rewrite Ep in Hc, Hlt. cbn in Hc, Hlt. rewrite bool_decide_true in Hc, Hlt by done. specialize (Hlt eq_refl).
      split; [done|]. intros l1. unfold current. cbn. rewrite decide_True by done. intros [= <-].
      exists (count_up st). rewrite lookup_alter_eq, Hst. split; [done|]. cbn. split; [|done].
      rewrite wrap_small; [lia|lia|]. unfold fits in *. lia.
    + apply (within_keep k n c); [done|]. intros l1. unfold current. rewrite Hh. cbn. rewrite decide_False by done.
      intros Hl. split; [done|]. rewrite Ep. cbn. rewrite bool_decide_false by done. split; [done|].
      rewrite lookup_alter_ne; [done|]. intros <-. destruct (wf_held _ _ HW _ _ Hh) as (_ & Hpr & _). by apply Hk, eq_sym, Hpr.
  - cbn in E. injection E as <-. unfold starts. rewrite Ep. apply (within_go k n res); try done. by rewrite Ep.
  - destruct (locked c); [done|]. injection E as <-. unfold starts. rewrite Ep. apply (within_keep k n c); [done|].
    intros l1. unfold current. rewrite Hh. cbn. rewrite Ep. intros Hl. split; [|done]. case_decide as D.
    + subst k. by rewrite lookup_insert_eq in Hl.
    + by rewrite lookup_insert_ne in Hl.
Qed.

(** Steps of the others: the process stays where it is, the store keeps or loses
    a record. *)
Lemma within_other k n (c c' : cstate) :
  heap c' = heap c -> pc c' = pc c -> (forall l, smap c' !! k = Some l -> smap c !! k = Some l) ->
  within_budget k n c -> within_budget k (if starts k c c' then S n else n) c'.
Proof.
  intros Eh Ep Es HB. assert (starts k c c' = false) as -> by (unfold starts; rewrite Ep; by destruct (pc c)).
  apply (within_keep k n c); [done|]. unfold current. rewrite Eh, Ep. intros l Hl. split; [|done].
  destruct (holding (pc c)) as [[res l0]|]; [case_decide; [done|]|]; by apply Es.
Qed.

Lemma cleanup_own_frame c c' k : cleanup_own c = Some c' ->
  heap c' = heap c /\ pc c' = pc c /\ forall l, smap c' !! k = Some l -> smap c !! k = Some l.
Proof.
  unfold cleanup_own. destruct (cl c) as [|th [|[k0 l0] todo]|th k0 l0 todo|th t k0 l0 todo]; intros E; [done|..].
  - by injection E as <-.
  - destruct (heap c !! l0); [|done]. by injection E as <-.
  - by injection E as <-.
  - destruct (heap c !! l0); [|done]. injection E as <-. split; [done|]. split; [done|]. cbn. case_match; [|done].
    by intros l [_ Hl]%lookup_delete_Some.
Qed.

Lemma within_exec k n l c c' :
  wf c -> exec l c = Some c' -> within_budget k n c ->
  within_budget k (if renews k l c then 0 else if starts k c c' then S n else n)%nat c'.
Proof using budget_fits.
  intros HW E HB. destruct l as [res| |order| | |]; cbn [exec renews] in *.
  - pose proof (within_take k n res c c' HW E HB) as H. cbn [renews] in H. destruct (match pc c with PIdle => _ | _ => _ end); [done|].
    unfold take_result in E. unfold starts. by destruct (pc c).
  - by apply within_own.
  - unfold start_cleanup in E. destruct (cl c); try done. case_decide; [|done]. cbn in E. injection E as <-. by apply within_other.
  - destruct (cleanup_own_frame c c' k E) as (? & ? & ?). by apply within_other.
  - destruct (chan_recv _) as [[r ch]|]; [|done]. injection E as <-. by apply within_other.
  - injection E as <-. by apply within_other.
Qed.

(** C18: the retry budget is race-free.  In every interleaving of the single reads
    and writes of processResult and the cleanup, from the record that the store
    has for a scenario and resource - or is about to have - no more attempts go
    ahead than the budget allows; only a record made anew, because the cleanup had
    removed the last, starts the count again. *)
Theorem budget_race_free cap w k ls c :
  exec_all ls (new_cstate cap w) = Some c ->
  Z.of_nat (attempts_since k ls (new_cstate cap w) 0) <= Z.max 0 budget.
Proof using clk_mono clk_nonneg budget_fits.
  intros E. assert (within_budget k 0 (new_cstate cap w)) as HB.
  { split; [lia|]. intros l. unfold current. cbn. done. }
  pose proof (wf_new clk cap w) as HW. revert E HB HW. generalize (new_cstate cap w), 0%nat.
  induction ls as [|l ls IH]; intros c0 n E HB HW; cbn [exec_all attempts_since] in *; [by destruct HB|].
  destruct (exec l c0) as [c1|] eqn:E1; [|done].
  apply IH; [done|by apply within_exec|]. by eapply exec_wf.
Qed.

(** * A fresh start *)

Abbreviation quiet := (30 * Minute).

(** The process is past the assignment of [LastRemediation] in the record at [l]. *)
Definition noted_at (l : positive) (p : ppc) : Prop :=
  match p with PCount _ l' | PCool _ l' | PSet _ l' => l' = l | _ => False end.

(** What the cleanup has decided on: the thresholds lie in the past, and a record
    it is about to remove was old when it looked, or is being assigned. *)
Record sweeping (c : cstate) : Prop := {
  sw_past : match cl c with CIdle => True | CLoop th _ | CNow th _ _ _ | CUntil th _ _ _ _ => th + quiet <= clk (ticks (ctl c)) end;
  sw_old : match cl c with
           | CNow th k l _ | CUntil th _ k l _ =>
             noted_at l (pc c) \/ exists st, heap c !! l = Some st /\ rs_LastRemediation st < th
           | _ => True end;
  sw_last l st : heap c !! l = Some st -> rs_LastRemediation st <= clk (ticks (ctl c));
}.

(** The store has the record for [k] at [l], or will have it again. *)
Definition remains (k : string) (l : positive) (c : cstate) : Prop :=
  match holding (pc c) with
  | Some (res, l0) =>
    if decide (key res = k) then l0 = l /\ (match pc c with PGot _ _ => smap c !! k = Some l | _ => True end)
    else smap c !! k = Some l
  | None => smap c !! k = Some l
  end.

Definition remembered (k : string) (T : Z) (c : cstate) : Prop :=
  T <= clk (ticks (ctl c)) \/
  exists l st, heap c !! l = Some st /\ T <= rs_LastRemediation st + quiet /\ remains k l c.

Lemma remembered_time k T (c c' : cstate) : T <= clk (ticks (ctl c)) -> (ticks (ctl c) <= ticks (ctl c'))%nat -> remembered k T c'.
Proof using clk_mono. intros Hu Ht. left. etrans; [exact Hu|by apply clk_mono]. Qed.

(** The process goes on; what it writes does not make [LastRemediation] earlier. *)
Lemma go_sweeping res l f p ct (c : cstate) :
  wf c -> holding (pc c) = Some (res, l) -> holding p = Some (res, l) \/ holding p = None /\ f = id ->
  (ticks (ctl c) <= ticks ct)%nat -> (noted_at l (pc c) -> noted_at l p \/ locked c = false) ->
  ((forall st, rs_LastRemediation (f st) = rs_LastRemediation st) \/
    noted_at l p /\ forall st, rs_LastRemediation (f st) <= clk (ticks ct)) ->
  sweeping c -> sweeping (write l f (goto p ct c)).
Proof using clk_mono.
  intros HW Hh Hp Ht Hn Hf [A B C]. split; cbn.
  - destruct (cl c); try done; (etrans; [exact A|by apply clk_mono]).
  - assert (locked c = false -> match cl c with CNow _ _ _ _ | CUntil _ _ _ _ _ => False | _ => True end) as Hl
      by (unfold locked; by destruct (cl c)).
    assert (forall th l1, noted_at l1 (pc c) \/ (exists st, heap c !! l1 = Some st /\ rs_LastRemediation st < th) ->
      locked c <> false ->
      noted_at l1 p \/ exists st, alter f l (heap c) !! l1 = Some st /\ rs_LastRemediation st < th) as Hgo.
    { intros th l1 [Hno|(st & Hst & Hlt)] Hlk.
      - assert (l1 = l) as -> by (destruct (pc c); cbn in *; try done; congruence).
        destruct (Hn Hno); [by left|done].
      - destruct (decide (l1 = l)) as [->|Hne].
        + destruct Hf as [Hf|[Hf _]]; [right|by left]. exists (f st). by rewrite lookup_alter_eq, Hst, Hf.
        + right. exists st. by rewrite lookup_alter_ne. }
    destruct (cl c) eqn:Ec; try done; apply Hgo; try done; unfold locked; by rewrite Ec.
  - assert (clk (ticks (ctl c)) <= clk (ticks ct)) as Hc by by apply clk_mono.
    intros l1 st Hst. apply lookup_alter_Some in Hst as [(-> & st0 & Hst0 & ->)|[_ Hst]].
    + destruct Hf as [Hf|[_ Hf]]; [rewrite Hf; etrans; [by eapply C|done]|apply Hf].
    + etrans; [by eapply C|done].
Qed.

Lemma go_remembered k T res l f p ct (c : cstate) :
  wf c -> holding (pc c) = Some (res, l) -> holding p = Some (res, l) -> match p with PGot _ _ => False | _ => True end ->
  (ticks (ctl c) <= ticks ct)%nat ->
  (forall st, heap c !! l = Some st -> rs_LastRemediation st <= rs_LastRemediation (f st)) ->
  remembered k T c -> remembered k T (write l f (goto p ct c)).
Proof using clk_mono.
  intros HW Hh Hp Hg Ht Hf [Hu|(l1 & st & Hst & HT & Hr)]; [by eapply remembered_time|].
  destruct (decide (l1 = l)) as [->|Hne].
  - right. exists l, (f st). cbn. rewrite lookup_alter_eq, Hst.
    split; [done|]. split; [specialize (Hf st Hst); lia|]. unfold remains in *. rewrite Hh in Hr. cbn. rewrite Hp.
    case_decide; [by destruct p|done].
  - right. exists l1, st. cbn. rewrite lookup_alter_ne by done. split; [done|]. split; [done|].
    unfold remains in *. rewrite Hh in Hr. cbn. rewrite Hp. case_decide; [by destruct Hr|done].
Qed.

Lemma take_remembered k T res c c' :
  wf c -> take_result res c = Some c' -> sweeping c ->
  sweeping c' /\ (remembered k T c -> remembered k T c' /\ (renews k (LTake res) c = true -> T <= clk (ticks (ctl c)))).
Proof using clk_mono clk_nonneg.
  intros HW E HS. unfold take_result in E. unfold renews. destruct (pc c) eqn:Ep; try done.
  destruct (policy_skips _ _); [injection E as <-; rewrite andb_false_r; split; [done|by intros HR]|].
  destruct (locked c) eqn:El; [done|]. rewrite andb_true_r. destruct HS as [A B C].
  assert (cl c = CIdle) as Ec by (unfold locked in El; by destruct (cl c)).
  destruct (smap c !! key res) as [l|] eqn:Em; injection E as <-.
  - split; [split; cbn; rewrite ?Ec; done|]. intros HR. rewrite bool_decide_eq_true. split; [|intros [<- ?]; congruence].
    destruct HR as [Hu|(l1 & st & Hst & HT & Hr)]; [by left|right]. exists l1, st. split; [done|]. split; [done|].
    unfold remains in *. rewrite Ep in Hr. cbn in *. case_decide as Dk; [|done]. subst. split; congruence.
  - set (l := fresh (dom (heap c))). assert (heap c !! l = None) as Hf by (apply not_elem_of_dom, is_fresh).
    split.
    + split; cbn; rewrite ?Ec; try done. intros l1 st Hst. apply lookup_insert_Some in Hst as [[_ <-]|[_ Hst]]; [|by eapply C].
      unfold fresh_state, zero_time. cbn. pose proof (clk_mono 0 (ticks (ctl c)) ltac:(lia)). lia.
    + intros HR. rewrite bool_decide_eq_true. destruct HR as [Hu|(l1 & st & Hst & HT & Hr)].
      * split; [by left|done].
      * unfold remains in Hr. rewrite Ep in Hr. cbn in Hr. split; [|intros [<- ?]; congruence]. right. exists l1, st. cbn.
        assert (l1 <> l) as Hne by (intros ->; congruence). rewrite lookup_insert_ne by done. split; [done|]. split; [done|].
        unfold remains. cbn. rewrite decide_False; [done|]. intros <-. congruence.
Qed.

(** The pointer is let go without a word. *)
Lemma leave_remembered k T res l ct (c : cstate) :
  wf c -> pc c = PGot res l -> (ticks (ctl c) <= ticks ct)%nat -> sweeping c ->
  sweeping (goto PIdle ct c) /\ (remembered k T c -> remembered k T (goto PIdle ct c)).
Proof using clk_mono.
  intros HW Ep Ht HS. split.
  - assert (goto PIdle ct c = write l id (goto PIdle ct c)) as -> by (unfold write; cbn; by rewrite alter_id by done).
    apply (go_sweeping res); try done; [by rewrite Ep|by right|rewrite Ep; done|by left].
  - intros [Hu|(l1 & st & Hst & HT & Hr)]; [by eapply remembered_time|right]. exists l1, st. split; [done|]. split; [done|].
    unfold remains in *. rewrite Ep in Hr. cbn in *. case_decide; [by destruct Hr|done].
Qed.

Lemma own_remembered k T c c' :
  wf c -> own_step c = Some c' -> sweeping c -> sweeping c' /\ (remembered k T c -> remembered k T c').
Proof using clk_mono clk_nonneg.
  intros HW E HS. unfold own_step in E. destruct (pc c) as [|res l|res l acts|res l|res l|res l|res l] eqn:Ep; [done|..];
    assert (holding (pc c) = Some (res, l)) as Hh by (by rewrite Ep).
  all: assert (forall f p ct, holding p = Some (res, l) -> match p with PGot _ _ => False | _ => True end ->
      (ticks (ctl c) <= ticks ct)%nat -> (noted_at l (pc c) -> noted_at l p) ->
      (forall st, rs_LastRemediation (f st) = rs_LastRemediation st) ->
      sweeping (write l f (goto p ct c)) /\ (remembered k T c -> remembered k T (write l f (goto p ct c)))) as Hgo
    by (intros f p ct Hp Hg Ht Hn Hf; split;
        [apply (go_sweeping res); try done; [by left|by left; apply Hn|by left]|
         apply (go_remembered k T res); try done; intros st _; by rewrite Hf]).
  - apply fmap_Some in E as (st & Hst & ->). unfold consider.
    destruct (isInCooldown_spec clk st (ctl c)) as ([_ Ht] & _). destruct (isInCooldown clk st (ctl c)) as [cooling ct]. cbn [snd] in Ht.
    destruct cooling; [|destruct (_ <=? _); [destruct (rs_Escalated st)|]].
    + pose proof (recordSkipped_frame clk formatID res "cooldown" ct) as [_ Ht2]. apply (leave_remembered k T res l); [done..|lia|done].
    + by apply (leave_remembered k T res l).
    + pose proof (escalate_frame clk formatID res ct) as [_ Ht2]. apply Hgo; try done. lia.
    + assert (forall p, goto p ct c = write l id (goto p ct c)) as Hid by (intros p; unfold write; cbn; by rewrite alter_id by done).
      rewrite Hid. apply Hgo; try done. by rewrite Ep.
  - rewrite Ep in Hgo. destruct acts as [[|ac acts]|].
    + injection E as <-. assert (goto (PLast res l) (ctl c) c = write l id (goto (PLast res l) (ctl c) c)) as ->.
      { unfold write. cbn. by rewrite alter_id by done. }
      by apply Hgo.
    + injection E as <-. unfold act. pose proof (executeAction_frame Execute clk formatID cc res ac (ctl c)) as [_ Ht].
      destruct (executeAction _ _ _ _ _ _ _) as [r ct]. cbn [snd] in Ht. cbn [ctl goto].
      destruct (decide (ar_Status r = _)); [by apply (Hgo _ (PLast res l) (sendResult r ct))|by apply Hgo].
    + destruct (heap c !! l) as [st|]; [|done]. cbn in E.
      pose proof (publishTask_frame Publish cc res st (ctl c)) as [[_ Ht] _].
      destruct (publishTask _ _ _ _ _) as [st' ct]. injection E as <-. by apply Hgo.
  - cbn in E. injection E as <-.
    assert (clk (ticks (ctl c)) <= clk (S (ticks (ctl c)))) as Hc by (apply clk_mono; lia). split.
    + apply (go_sweeping res); try done; [by left|cbn; lia|by rewrite Ep|right; by split].
    + apply (go_remembered k T res); try done; [cbn; lia|]. intros st Hst. by apply (sw_last _ HS l).
  - rewrite Ep in Hgo. injection E as <-. by apply Hgo.
  - rewrite Ep in Hgo. cbn in E. injection E as <-. apply Hgo; try done. cbn. lia.
  - destruct (locked c) eqn:El; [done|]. injection E as <-.
    assert (cl c = CIdle) as Ec by (unfold locked in El; by destruct (cl c)). split.
    + destruct HS as [A B C]. split; cbn; rewrite ?Ec; done.
    + intros [Hu|(l1 & st & Hst & HT & Hr)]; [by left|right]. exists l1, st. split; [done|]. split; [done|].
      unfold remains in *. rewrite Hh in Hr. cbn. case_decide as Dk.
      * subst k. destruct Hr as [<- _]. apply lookup_insert_eq.
      * by rewrite lookup_insert_ne.
Qed.

Lemma sweeping_cleanup q ct (c : cstate) :
  (ticks (ctl c) <= ticks ct)%nat ->
  match q with CIdle => True | CLoop th _ | CNow th _ _ _ | CUntil th _ _ _ _ => th + quiet <= clk (ticks ct) end ->
  match q with
  | CNow th k l _ | CUntil th _ k l _ => noted_at l (pc c) \/ exists st, heap c !! l = Some st /\ rs_LastRemediation st < th
  | _ => True end ->
  sweeping c -> sweeping (at_cleanup q ct c).
Proof using clk_mono.
  intros Ht HA HB [A B C]. split; cbn; [done|done|]. intros l st Hst. etrans; [by eapply C|by apply clk_mono].
Qed.

Lemma remembered_cleanup k T q ct (c : cstate) :
  (ticks (ctl c) <= ticks ct)%nat -> remembered k T c -> remembered k T (at_cleanup q ct c).
Proof using clk_mono. intros Ht [Hu|(l & st & H)]; [by eapply remembered_time|right]. by exists l, st. Qed.

(** A record that is removed is old, or comes back. *)
Lemma cleanup_remembered k T c c' :
  wf c -> cleanup_own c = Some c' -> sweeping c -> sweeping c' /\ (remembered k T c -> remembered k T c').
Proof using clk_mono.
  intros HW E HS. pose proof HS as [A B C]. unfold cleanup_own in E.
  destruct (cl c) as [|th [|[k0 l0] todo]|th k0 l0 todo|th t k0 l0 todo] eqn:Eq; [done|..].
  - injection E as <-. split; [by apply sweeping_cleanup|by apply remembered_cleanup].
  - destruct (heap c !! l0) as [st|] eqn:Est; [|done]. cbn in E. injection E as <-. split; [|by apply remembered_cleanup].
    unfold time_Before. destruct (rs_LastRemediation st <? th) eqn:El; apply sweeping_cleanup; try done.
    right. exists st. by apply Z.ltb_lt in El.
  - cbn in E. injection E as <-. split; [|apply remembered_cleanup; cbn; lia].
    apply sweeping_cleanup; cbn; try done; [lia|]. etrans; [exact A|apply clk_mono; lia].
  - destruct (heap c !! l0) as [st|] eqn:El; [|done]. cbn in E. injection E as <-.
    split; [split; [exact A|done|exact C]|]. intros [Hu|(l1 & st1 & Hst & HT & Hr)]; [by left|].
    destruct (time_After t (rs_CooldownUntil st)); [|by right; exists l1, st1].
    assert (smap c !! k0 = Some l0) as Hk0 by (apply (wf_pending _ _ HW); rewrite Eq; by left).
    unfold remembered, remains in *. cbn. destruct (decide (k = k0)) as [->|Hk].
    + assert (l1 = l0) as ->.
      { destruct (holding (pc c)) as [[res l']|] eqn:Hh; [|congruence]. case_decide as Dk; [|congruence].
        destruct Hr as [<- _]. destruct (wf_held _ _ HW _ _ Hh) as (_ & _ & Hu). symmetry. apply Hu. congruence. }
      destruct B as [Hn|(st2 & Hst2 & Hlt)]; [right|left; assert (st2 = st1) as -> by congruence; lia].
      exists l0, st1. split; [done|]. split; [done|].
      destruct (holding (pc c)) as [[res l']|] eqn:Hh; [|by destruct (pc c)].
      assert (l' = l0) as -> by (destruct (pc c); cbn in *; try done; congruence).
      destruct (wf_held _ _ HW _ _ Hh) as (_ & Hpr & _). rewrite (Hpr k0 Hk0), decide_True by done.
      split; [done|]. by destruct (pc c).
    + right. exists l1, st1. split; [done|]. split; [done|]. by rewrite !lookup_delete_ne.
Qed.

Lemma exec_remembered k T l c c' :
  wf c -> exec l c = Some c' -> sweeping c -> sweeping c' /\ (remembered k T c -> remembered k T c').
Proof using clk_mono clk_nonneg.
  intros HW E HS. destruct l as [res| |order| | |]; cbn [exec] in E.
  - destruct (take_remembered k T res c c' HW E HS) as [HS' HR]. split; [done|]. intros H. by apply HR.
  - by eapply own_remembered.
  - unfold start_cleanup in E. destruct (cl c) eqn:Eq; try done. case_decide; [|done]. cbn in E. injection E as <-.
    split; [|apply remembered_cleanup; cbn; lia]. apply sweeping_cleanup; cbn; try done; [lia|].
    unfold time_Add. pose proof (clk_mono (ticks (ctl c)) (S (ticks (ctl c))) ltac:(lia)). lia.
  - by eapply cleanup_remembered.
  - destruct (chan_recv _) as [[r ch]|]; [|done]. injection E as <-. destruct HS as [A B C]. split; [by split|].
    intros [Hu|(l & st & H)]; [by left|right]. by exists l, st.
  - injection E as <-. destruct HS as [A B C]. assert (clk (ticks (ctl c)) <= clk (S (ticks (ctl c)))) by (apply clk_mono; lia). split.
    + split; cbn; [destruct (cl c); try done; lia|done|]. intros l st Hst. specialize (C l st Hst). lia.
    + intros [Hu|(l & st & H1)]; [eapply remembered_time; [exact Hu|cbn; lia]|right]. by exists l, st.
Qed.

Lemma exec_all_remembered k T ls c c' :
  wf c -> exec_all ls c = Some c' -> sweeping c -> wf c' /\ sweeping c' /\ (remembered k T c -> remembered k T c').
Proof using clk_mono clk_nonneg.
  revert c. induction ls as [|l ls IH]; intros c HW; cbn [exec_all]; [by intros [= <-]|].
  destruct (exec l c) as [c1|] eqn:E; [|done]. intros E2 HS. pose proof (exec_wf _ _ _ HW E) as HW1.
  destruct (exec_remembered k T _ _ _ HW E HS) as [HS1 H1]. destruct (IH c1 HW1 E2 HS1) as (HW2 & HS2 & H2). eauto.
Qed.

(** The assignment of [LastRemediation] after an attempt for [res]. *)
Definition notes (res : DetectionResult) (c c' : cstate) : Prop :=
  exec LOwn c = Some c' /\ exists l, pc c = PLast res l.

(** C19: the budget is renewed only after quiet.  In every interleaving with the
    cleanup, a record is made anew for a scenario and resource - and the count of
    attempts starts again - only when half an hour has passed since the last
    attempt for them was noted. *)
Theorem renewal_after_quiet cap w ls1 c1 r1 c2 ls c3 r2 c4 :
  exec_all ls1 (new_cstate cap w) = Some c1 -> notes r1 c1 c2 -> exec_all ls c2 = Some c3 ->
  exec (LTake r2) c3 = Some c4 -> renews (key r1) (LTake r2) c3 = true ->
  clk (ticks (ctl c1)) + 30 * Minute <= clk (ticks (ctl c3)).
Proof using clk_mono clk_nonneg.
  intros E1 [En (l & Ep)] E2 E3 Hr. set (T := clk (ticks (ctl c1)) + 30 * Minute).
  assert (sweeping (new_cstate cap w)) as HS0 by (by split).
  destruct (exec_all_remembered (key r1) T _ _ _ (wf_new clk cap w) E1 HS0) as (HW1 & HS1 & _).
  pose proof (exec_wf _ _ _ HW1 En) as HW2.
  destruct (exec_remembered (key r1) T _ _ _ HW1 En HS1) as [HS2 _].
  assert (remembered (key r1) T c2) as HR.
  { destruct (wf_held _ _ HW1 r1 l) as ([st Hst] & _); [by rewrite Ep|].
    cbn [exec] in En. unfold own_step in En. rewrite Ep in En. cbn in En. injection En as <-.
    right. exists l. eexists. cbn. rewrite lookup_alter_eq, Hst. split; [done|]. split; [done|].
    unfold remains. cbn. by rewrite decide_True. }
  destruct (exec_all_remembered (key r1) T _ _ _ HW2 E2 HS2) as (HW3 & HS3 & HR3).
  destruct (take_remembered (key r1) T r2 c3 c4 HW3 E3 HS3) as [_ H]. by apply H; [apply HR3|].
Qed.

End budget.

(** * Witnesses *)

#[local] Existing Instance demo_sort.

(** Two attempts use up a budget of two; a third result is not acted on. *)
Definition demo_three : list label :=
  demo_first ++ [LOwn; LOwn; LClock] ++ demo_first ++ [LOwn; LOwn; LClock; LTake demo_result; LOwn; LOwn].

Lemma budget_race_free_witness :
  let attempts := attempts_since demo_Execute demo_Publish demo_clk demo_id (demo_cc false 2) (result_key demo_result)
    demo_three (new_cstate 8 0%nat) 0 in
  attempts = 2%nat /\ Z.of_nat attempts <= 2.
Proof.
  split; [by vm_compute|].
  eapply (budget_race_free demo_Execute demo_Publish demo_clk demo_id (demo_cc false 2) demo_clk_mono
    ltac:(vm_compute; discriminate) ltac:(by vm_compute) 8 0%nat (result_key demo_result) demo_three).
  vm_compute. reflexivity.
Defined.

(** An attempt, a cleanup hours later, and a new record. *)
Definition demo_noted : list label := [LTake demo_result; LOwn; LOwn; LOwn; LOwn].
Definition demo_swept : list label :=
  [LOwn; LOwn; LOwn; LClock; LTicker [("S1/Deployment/prod/web", 1%positive)]; LCleanup; LCleanup; LCleanup; LCleanup].

Lemma renewal_after_quiet_witness :
  exists c1 c2 c3, demo_exec demo_noted (new_cstate 8 0%nat) = Some c1 /\ demo_exec [LOwn] c1 = Some c2 /\
    demo_exec demo_swept c2 = Some c3 /\ renews (demo_cc false 3) (result_key demo_result) (LTake demo_result) c3 = true /\
    demo_clk (ticks (ctl c1)) + 30 * Minute <= demo_clk (ticks (ctl c3)).
Proof.
  do 3 eexists. split; [vm_compute; reflexivity|]. split; [vm_compute; reflexivity|].
  split; [vm_compute; reflexivity|]. split; [vm_compute; reflexivity|].
  eapply (renewal_after_quiet demo_Execute demo_Publish demo_clk demo_id (demo_cc false 3) demo_clk_mono
    ltac:(vm_compute; discriminate) 8 0%nat demo_noted _ demo_result _ demo_swept _ demo_result _).
  - vm_compute. reflexivity.
  - split; [vm_compute; reflexivity|]. eexists. reflexivity.
  - vm_compute. reflexivity.
  - vm_compute. reflexivity.
  - vm_compute. reflexivity.
Defined.
