(* ===== verification/Action.v ===== *)
(** The action layer (internal/action): the executor with its registry of
    handlers, and the handlers that change the cluster. *)

From S2P Require Import Prelude Types GoNum.

(** * The Kubernetes client *)

(** Quantities belong to apimachinery. *)
Class QuantityLib := {
  Quantity : Type;
  QFormat : Type;
  zeroQuantity : Quantity;
  q_Value : Quantity -> Z;
  q_Format : Quantity -> QFormat;
  q_String : Quantity -> string;
  NewQuantity : Z -> QFormat -> Quantity;
  ParseQuantity : string -> option Quantity;
}.

Record apierror := mkApiError { ae_msg : string; ae_conflict : bool }.

Inductive ScaleKind := ScaleDeployment | ScaleStatefulSet.

(** The calls of the handlers into client-go, on a cluster of type [W].  Reads
    leave the cluster alone; a write returns the new one and an error, if any. *)
Class KubeClient `{QuantityLib} (W : Type) := {
  Scale : Type;
  Template : Type;
  Spec_Replicas : Scale -> Z;
  with_Replicas : Scale -> Z -> Scale;
  GetScale : W -> ScaleKind -> string -> string -> Scale + apierror;
  UpdateScale : W -> ScaleKind -> string -> string -> Scale -> W * option apierror;
  DeletePod : W -> string -> string -> option Z -> W * option apierror;
  (** UID, and the containers with their resource limits *)
  GetDeployment : W -> string -> string ->
    (string * list (string * gmap string Quantity)) + apierror;
  (** Of each replica set: the UIDs of its owners, its annotations and its template. *)
  ListReplicaSets : W -> string ->
    list (list string * gmap string string * Template) + apierror;
  (** A merge patch of [spec.template]. *)
  PatchTemplate : W -> string -> string -> Template -> W * option apierror;
  (** A strategic merge patch of one limit of each named container. *)
  PatchLimits : W -> string -> string -> string -> list (string * string) -> W * option apierror;
}.

(** What a handler returns: [ActionResult] and the error. *)
Abbreviation hresult := (ActionResult * option string)%type.

Abbreviation params_t := (gmap string param).

Section action.
Context {W : Type} `{KubeClient W}.
(** Conversions of floats that do not fit, and unusual float literals. *)
Context (cvt : Z -> spec_float -> Z) (other : string -> option spec_float).
(** Whether the executor was given a client; without one the field is a nil
    interface, and the first call through it panics. *)
Context (client : bool).
Implicit Types w : W.

Definition unset_result (resource : ResourceReference) (ty : string) (params : params_t)
    (status : ActionStatus) (msg err : string) (changes : list ResourceChange) : ActionResult :=
  mkActionResult "" "" "" resource (mkAction ty 0 params) status zero_time zero_time msg err changes.

Definition failResult (resource : ResourceReference) (ty : string) (params : params_t) (err : string)
  : ActionResult :=
  unset_result resource ty params ActionStatusFailed "" err [].

Definition fail_with (resource : ResourceReference) (ty : string) (params : params_t) (err : string)
  : hresult := (failResult resource ty params err, Some err).

(** [Handler]: [Execute] may panic. *)
Record Handler := mkHandler {
  GetType : string;
  Validate : ResourceReference -> params_t -> option string;
  h_Execute : W -> ResourceReference -> params_t -> outcome (W * hresult);
}.

(** ** ScaleHandler *)

Definition scale_increment (params : params_t) : Z :=
  match params !! "increment" with
  | Some (PInt iv) => i32 iv
  | Some (PFloat iv) => int_of_float cvt 32 iv
  | Some (PString iv) => match Atoi iv with Some parsed => i32 parsed | None => 1 end
  | _ => 1
  end.

Definition new_replicas (oldReplicas increment : Z) : Z :=
  let newReplicas := i32 (oldReplicas + increment) in
  if newReplicas <? 0 then 0 else newReplicas.

Definition scale_kind (kind : string) : option ScaleKind :=
  if decide (kind = "Deployment") then Some ScaleDeployment
  else if decide (kind = "StatefulSet") then Some ScaleStatefulSet
  else None.

Definition scale_message (r : ResourceReference) (o n : Z) : string :=
  "Scaled " +:+ ResourceReference_String r +:+ " from " +:+ pretty o +:+ " to " +:+ pretty n +:+ " replicas".

Definition Scale_Execute (scaleUp : bool) (ty : string) w (resource : ResourceReference)
    (params : params_t) : outcome (W * hresult) :=
  let increment := scale_increment params in
  let increment := if scaleUp then increment else i32 (- increment) in
  match scale_kind (Kind resource) with
  | None => Ret (w, fail_with resource ty params ("unsupported kind for scale: " +:+ Kind resource))
  | Some k =>
    if negb client then Panic else
    match GetScale w k (Namespace resource) (Name resource) with
    | inr e => Ret (w, fail_with resource ty params (ae_msg e))
    | inl scale =>
      let oldReplicas := Spec_Replicas scale in
      let newReplicas := new_replicas oldReplicas increment in
      match UpdateScale w k (Namespace resource) (Name resource) (with_Replicas scale newReplicas) with
      | (w, Some e) => Ret (w, fail_with resource ty params (ae_msg e))
      | (w, None) =>
        Ret (w, (unset_result resource ty params ActionStatusSucceeded
          (scale_message resource oldReplicas newReplicas) ""
          [mkChange "spec.replicas" (pretty oldReplicas) (pretty newReplicas)], None))
      end
    end
  end.

Definition Scale_Validate (resource : ResourceReference) (params : params_t) : option string :=
  if negb (bool_decide (Kind resource = "Deployment")) && negb (bool_decide (Kind resource = "StatefulSet"))
  then Some ("scale action only supports Deployment and StatefulSet, got: " +:+ Kind resource)
  else None.

Definition NewScaleHandler : Handler := {|
  GetType := ActionTypeScaleUp;
  Validate := Scale_Validate;
  h_Execute := Scale_Execute true ActionTypeScaleUp;
|}.

(** ** RestartPodHandler *)

Definition grace_period (params : params_t) : option Z :=
  match params !! "gracePeriodSeconds" with
  | Some (PInt gv) => Some gv
  | Some (PFloat gv) => Some (int_of_float cvt 64 gv)
  | _ => None
  end.

Definition Restart_Execute (ty : string) w (resource : ResourceReference) (params : params_t)
  : outcome (W * hresult) :=
  if negb client then Panic else
  match DeletePod w (Namespace resource) (Name resource) (grace_period params) with
  | (w, Some e) => Ret (w, fail_with resource ty params (ae_msg e))
  | (w, None) =>
    Ret (w, (unset_result resource ty params ActionStatusSucceeded
      ("Restarted pod " +:+ ResourceReference_String resource) "" [], None))
  end.

Definition Restart_Validate (resource : ResourceReference) (params : params_t) : option string :=
  if bool_decide (Kind resource = "Pod") then None
  else Some ("restart action only supports Pod, got: " +:+ Kind resource).

Definition NewRestartPodHandler : Handler := {|
  GetType := ActionTypeRestartPod;
  Validate := Restart_Validate;
  h_Execute := Restart_Execute ActionTypeRestartPod;
|}.

(** ** RollbackHandler *)

Abbreviation replicaset := (list string * gmap string string * Template)%type.

Definition rs_owners (rs : replicaset) : list string := rs.1.1.
Definition rs_annotations (rs : replicaset) : gmap string string := rs.1.2.
Definition rs_template (rs : replicaset) : Template := rs.2.

(** A missing annotation reads as the empty string. *)
Definition parseRevision (rs : replicaset) : Z :=
  (ParseInt (default "" (rs_annotations rs !! "deployment.kubernetes.io/revision"))).1.

Definition owned_by (uid : string) (l : list replicaset) : list replicaset :=
  filter (fun rs => uid ∈ rs_owners rs) l.

(** The loop over the owned replica sets: [prevRS], [maxRevision] and
    [secondMaxRevision]. *)
Fixpoint prev_loop (l : list replicaset) (prevRS : option replicaset) (maxRevision secondMaxRevision : Z)
  : option replicaset * Z :=
  match l with
  | [] => (prevRS, maxRevision)
  | rs :: l =>
    let rev := parseRevision rs in
    let '(prevRS, maxRevision, secondMaxRevision) :=
      if maxRevision <? rev then (None, rev, maxRevision) else (prevRS, maxRevision, secondMaxRevision) in
    let prevRS := if (rev =? secondMaxRevision) && (0 <? rev) then Some rs else prevRS in
    prev_loop l prevRS maxRevision secondMaxRevision
  end.

Definition pick_previous (ownedRS : list replicaset) : option replicaset :=
  match prev_loop ownedRS None 0 0 with
  | (Some rs, _) => Some rs
  | (None, maxRevision) =>
    match ownedRS with
    | rs0 :: rs1 :: _ => Some (if parseRevision rs0 =? maxRevision then rs1 else rs0)
    | _ => None
    end
  end.

Definition Rollback_Execute (ty : string) w (resource : ResourceReference) (params : params_t)
  : outcome (W * hresult) :=
  if negb client then Panic else
  match GetDeployment w (Namespace resource) (Name resource) with
  | inr e => Ret (w, fail_with resource ty params (ae_msg e))
  | inl (uid, _) =>
    match ListReplicaSets w (Namespace resource) with
    | inr e => Ret (w, fail_with resource ty params (ae_msg e))
    | inl items =>
      let ownedRS := owned_by uid items in
      if decide (length ownedRS < 2)%nat then
        Ret (w, fail_with resource ty params
          ("no previous revision found for " +:+ ResourceReference_String resource +:+ " (only "
           +:+ pretty (length ownedRS) +:+ " ReplicaSet(s))"))
      else match pick_previous ownedRS with
      | None => Ret (w, fail_with resource ty params
                  ("could not determine previous revision for " +:+ ResourceReference_String resource))
      | Some prevRS =>
        match PatchTemplate w (Namespace resource) (Name resource) (rs_template prevRS) with
        | (w, Some e) => Ret (w, fail_with resource ty params (ae_msg e))
        | (w, None) =>
          Ret (w, (unset_result resource ty params ActionStatusSucceeded
            ("Rolled back " +:+ ResourceReference_String resource +:+ " to previous revision") "" [], None))
        end
      end
    end
  end.

Definition Rollback_Validate (resource : ResourceReference) (params : params_t) : option string :=
  if bool_decide (Kind resource = "Deployment") then None
  else Some ("rollback action only supports Deployment, got: " +:+ Kind resource).

Definition NewRollbackHandler : Handler := {|
  GetType := ActionTypeRollbackToPrevious;
  Validate := Rollback_Validate;
  h_Execute := Rollback_Execute ActionTypeRollbackToPrevious;
|}.

(** ** AdjustResourceHandler *)

(** [strings.TrimSuffix(s, "%")] where [strings.HasSuffix(s, "%")]. *)
Fixpoint strip_percent (s : string) : option string :=
  match s with
  | EmptyString => None
  | String c EmptyString => if is_char 37 c then Some EmptyString else None
  | String c s' => String c <$> strip_percent s'
  end.

Definition percentage (increase : string) : spec_float :=
  let pct := float64_of_int 25 in
  match strip_percent increase with
  | Some s => default pct (ParseFloat other s)
  | None => pct
  end.

Definition increase_delta (currentBytes : Z) (pct : spec_float) : Z :=
  int_of_float cvt 64 (Ceil (f64_div (f64_mul (float64_of_int currentBytes) pct) (float64_of_int 100))).

(** [resource.MustParse] panics on a malformed quantity. *)
Definition applyIncrease (current : Quantity) (increase maxValue : string) : outcome Quantity :=
  let pct := percentage increase in
  let currentBytes := if q_Value current =? 0 then 128 * 1024 * 1024 else q_Value current in
  let newValue := i64 (currentBytes + increase_delta currentBytes pct) in
  newValue ← (if decide (maxValue = "") then Ret newValue
              else match ParseQuantity maxValue with
                   | None => Panic
                   | Some maxQ => Ret (if q_Value maxQ <? newValue then q_Value maxQ else newValue)
                   end);
  Ret (NewQuantity newValue (q_Format current)).

Definition string_param (key dflt : string) (params : params_t) : string :=
  match params !! key with Some (PString s) => s | _ => dflt end.

(** The new limit of every container, with its record of the change. *)
Fixpoint adjust_containers (resourceName increase maxValue : string)
    (containers : list (string * gmap string Quantity))
  : outcome (list ResourceChange * list (string * string)) :=
  match containers with
  | [] => Ret ([], [])
  | (name, limits) :: containers =>
    let oldLimit := default zeroQuantity (limits !! resourceName) in
    newLimit ← applyIncrease oldLimit increase maxValue;
    rest ← adjust_containers resourceName increase maxValue containers;
    Ret (mkChange ("containers[" +:+ name +:+ "].resources.limits." +:+ resourceName)
           (q_String oldLimit) (q_String newLimit) :: rest.1,
         (name, q_String newLimit) :: rest.2)
  end.

Definition resource_name (ty : string) : string :=
  if decide (ty = ActionTypeAdjustMemory) then "memory" else "cpu".

(** [tries] attempts are left; [lastErr] is the conflict of the one before. *)
Fixpoint adjust_loop (tries : nat) (ty increase maxValue : string) (lastErr : string) w
    (ref : ResourceReference) (params : params_t) : outcome (W * hresult) :=
  match tries with
  | O => Ret (w, fail_with ref ty params lastErr)
  | S tries =>
    if negb client then Panic else
    match GetDeployment w (Namespace ref) (Name ref) with
    | inr e => Ret (w, fail_with ref ty params (ae_msg e))
    | inl (_, containers) =>
      patch ← adjust_containers (resource_name ty) increase maxValue containers;
      match PatchLimits w (Namespace ref) (Name ref) (resource_name ty) patch.2 with
      | (w, None) =>
        Ret (w, (unset_result ref ty params ActionStatusSucceeded
          ("Adjusted " +:+ resource_name ty +:+ " limits on " +:+ ResourceReference_String ref
           +:+ " by " +:+ increase) "" patch.1, None))
      | (w, Some e) =>
        if ae_conflict e then adjust_loop tries ty increase maxValue (ae_msg e) w ref params
        else Ret (w, fail_with ref ty params (ae_msg e))
      end
    end
  end.

Definition maxRetries : nat := 3.

Definition Adjust_Execute (ty : string) w (ref : ResourceReference) (params : params_t)
  : outcome (W * hresult) :=
  adjust_loop maxRetries ty (string_param "increase" "25%" params) (string_param "maxValue" "" params)
    "" w ref params.

Definition Adjust_Validate (resource : ResourceReference) (params : params_t) : option string :=
  if negb (bool_decide (Kind resource = "Deployment")) && negb (bool_decide (Kind resource = "StatefulSet"))
  then Some ("adjust resource action only supports Deployment and StatefulSet, got: " +:+ Kind resource)
  else None.

Definition NewAdjustResourceHandler (actionType : string) : Handler := {|
  GetType := actionType;
  Validate := Adjust_Validate;
  h_Execute := Adjust_Execute actionType;
|}.

(** ** NotifyHandler *)

Definition Notify_Execute (ty : string) w (resource : ResourceReference) (params : params_t)
  : outcome (W * hresult) :=
  Ret (w, (unset_result resource ty params ActionStatusSucceeded
    ("Notification sent for " +:+ ResourceReference_String resource +:+ " (severity="
     +:+ string_param "severity" "medium" params +:+ ")") "" [], None)).

Definition NewNotifyHandler : Handler := {|
  GetType := ActionTypeNotify;
  Validate _ _ := None;
  h_Execute := Notify_Execute ActionTypeNotify;
|}.

(** ** The executor *)

Abbreviation registry := (gmap string Handler).

Definition RegisterHandler (handler : Handler) (handlers : registry) : registry :=
  <[GetType handler := handler]> handlers.

Definition GetHandler (actionType : string) (handlers : registry) : option Handler :=
  handlers !! actionType.

Definition default_handlers : list Handler :=
  [NewScaleHandler; NewRestartPodHandler; NewRollbackHandler;
   NewAdjustResourceHandler ActionTypeAdjustCPU; NewAdjustResourceHandler ActionTypeAdjustMemory;
   NewNotifyHandler].

Definition registerDefaultHandlers (handlers : registry) : registry :=
  foldl (fun hs h => RegisterHandler h hs) handlers default_handlers.

Definition newExecutorImpl : registry := registerDefaultHandlers ∅.

Definition with_times (t1 t2 : Z) (r : ActionResult) : ActionResult :=
  mkActionResult (ar_ID r) (ar_DetectionResultID r) (ar_ScenarioID r) (ar_Resource r) (ar_Action r)
    (ar_Status r) t1 t2 (ar_Message r) (ar_Error r) (ar_Changes r).

Definition mark_failed (e : string) (r : ActionResult) : ActionResult :=
  mkActionResult (ar_ID r) (ar_DetectionResultID r) (ar_ScenarioID r) (ar_Resource r) (ar_Action r)
    ActionStatusFailed (ar_StartTime r) (ar_EndTime r) (ar_Message r) e (ar_Changes r).

(** [t1] and [t2] are the clock readings at the start and at the end. *)
Definition Execute (handlers : registry) (t1 t2 : Z) w (resource : ResourceReference) (action : ActionConfig)
  : outcome (W * hresult) :=
  match GetHandler (ac_Type action) handlers with
  | None =>
    Ret (w, (mkActionResult "" "" "" resource action ActionStatusFailed t1 t2 ""
               ("no handler registered for action type: " +:+ ac_Type action) [],
             Some ("no handler for action type: " +:+ ac_Type action)))
  | Some handler =>
    match Validate handler resource (ac_Params action) with
    | Some err =>
      Ret (w, (mkActionResult "" "" "" resource action ActionStatusFailed t1 t2 ""
                 ("validation failed: " +:+ err) [], Some err))
    | None =>
      x ← h_Execute handler w resource (ac_Params action);
      let '(w, (result, err)) := x in
      let result := with_times t1 t2 result in
      match err with
      | Some e => Ret (w, (mark_failed e result, Some e))
      | None => Ret (w, (result, None))
      end
    end
  end.

End action.
Arguments Handler W : clear implicits.
