(* ===== verification/ActionProps.v ===== *)
(** The properties of the action layer: dispatch and consistency of results,
    replica arithmetic, the choice of the revision to roll back to, and the
    limits that are written. *)

From S2P Require Import Prelude Types GoNum Action.

Section properties.
Context {W : Type} `{KubeClient W}.
Context (cvt : Z -> spec_float -> Z) (other : string -> option spec_float) (client : bool).
Implicit Types w : W.

Abbreviation exec := (Execute (W := W)).
Abbreviation defaults := (newExecutorImpl (W := W) cvt other client).

(** ** The registry *)

Definition default_types : list string :=
  [ActionTypeScaleUp; ActionTypeRestartPod; ActionTypeRollbackToPrevious;
   ActionTypeAdjustCPU; ActionTypeAdjustMemory; ActionTypeNotify].

Lemma newExecutorImpl_Some ty h : GetHandler ty defaults = Some h -> h ∈ default_handlers cvt other client /\ GetType h = ty.
Proof.
  unfold GetHandler, newExecutorImpl, registerDefaultHandlers, default_handlers, RegisterHandler.
  cbn [foldl]. rewrite !lookup_insert_Some, lookup_empty.
  intros; destruct_or?; destruct_and?; simplify_eq; split; try done; set_solver.
Qed.

Lemma newExecutorImpl_is_Some ty : is_Some (GetHandler ty defaults) <-> ty ∈ default_types.
Proof.
  unfold GetHandler, newExecutorImpl, registerDefaultHandlers, default_handlers, RegisterHandler, default_types.
  cbn [foldl]. rewrite !lookup_insert_is_Some', lookup_empty. simpl.
  rewrite !elem_of_cons, elem_of_nil. split; [intros; destruct_or?; subst|intros; destruct_or?; subst]; 
    try (by auto 10); naive_solver.
Qed.

(** ** Handlers report what they did *)

(** A handler that returns reports the resource it was given, and either
    success without an error or failure with one. *)
Definition reports (resource : ResourceReference) (o : outcome (W * hresult)) : Prop :=
  match o with
  | Ret (_, (r, None)) => ar_Status r = ActionStatusSucceeded /\ ar_Resource r = resource
  | Ret (_, (r, Some _)) => ar_Status r = ActionStatusFailed /\ ar_Resource r = resource
  | _ => True
  end.

Lemma adjust_loop_reports n ty inc mx e w ref params :
  reports ref (adjust_loop cvt other client n ty inc mx e w ref params).
Proof.
  revert e w. induction n as [|n IH]; intros e w; simpl; [done|]. destruct client; cbn [negb]; [|done].
  destruct (GetDeployment _ _ _) as [[uid cs]|]; [|done].
  destruct (adjust_containers _ _ _ _ _ _) as [patch| |]; simpl; [|done..].
  destruct (PatchLimits _ _ _ _ _) as [w' [err|]]; [|done]. by destruct (ae_conflict err).
Qed.

Lemma default_handlers_report h w resource params :
  h ∈ default_handlers cvt other client -> reports resource (h_Execute h w resource params).
Proof.
  unfold default_handlers. rewrite !elem_of_cons, elem_of_nil.
  intros Hin; destruct_or?; subst; try done; simpl.
  - unfold Scale_Execute. repeat case_match; done.
  - unfold Restart_Execute. repeat case_match; done.
  - unfold Rollback_Execute. repeat case_match; done.
  - apply adjust_loop_reports.
  - apply adjust_loop_reports.
Qed.

(** The executor's answer is consistent.  With the default handlers, when
    [Execute] returns, the error is nil exactly when the status is "succeeded"
    and set exactly when it is "failed", the result names the resource asked
    for and the two clock readings; and when the action type has no handler or
    the handler's validation refuses the resource, the cluster is untouched. *)
Theorem Execute_consistent t1 t2 w resource action w' r err :
  exec defaults t1 t2 w resource action = Ret (w', (r, err)) ->
  (err = None <-> ar_Status r = ActionStatusSucceeded) /\
  (err <> None <-> ar_Status r = ActionStatusFailed) /\
  ar_Resource r = resource /\ ar_StartTime r = t1 /\ ar_EndTime r = t2 /\
  (ac_Type action ∉ default_types -> w' = w /\ err <> None) /\
  (forall h e, GetHandler (ac_Type action) defaults = Some h ->
     Validate h resource (ac_Params action) = Some e -> w' = w /\ err = Some e).
Proof.
  unfold Execute. pose proof (newExecutorImpl_is_Some (ac_Type action)) as HS.
  destruct (GetHandler _ _) as [h|] eqn:E.
  - destruct (newExecutorImpl_Some _ _ E) as [Hin _].
    assert (ac_Type action ∉ default_types -> False) as Hty by naive_solver.
    destruct (Validate h resource (ac_Params action)) as [e|] eqn:V.
    { intros [= <- <- <-]. split_and!; try done; naive_solver. }
    pose proof (default_handlers_report h w resource (ac_Params action) Hin) as HR.
    destruct (h_Execute h _ _ _) as [[w1 [r1 [e1|]]]| |]; simpl; try done; simpl in HR; destruct HR as [H1 H2];
      intros [= <- <- <-]; split_and!; simpl; try done; try naive_solver congruence.
  - intros [= <- <- <-]. split_and!; try done; naive_solver.
Qed.

(** The default executor has a handler for exactly six action types; an
    action of any other type - "scaleDown", "rollbackToPrevious",
    "updateConfig", "runJob" among the types the API accepts - fails without
    touching the cluster, on every resource and with every parameter. *)
Theorem default_registry t1 t2 w resource action :
  (is_Some (GetHandler (ac_Type action) defaults) <-> ac_Type action ∈ default_types) /\
  (forall ty, ty ∈ [ActionTypeScaleDown; "rollbackToPrevious"; ActionTypeUpdateConfig; ActionTypeRunJob] ->
     ac_Type action = ty ->
     exists r e, exec defaults t1 t2 w resource action = Ret (w, (r, Some e)) /\
       ar_Status r = ActionStatusFailed).
Proof.
  split; [apply newExecutorImpl_is_Some|]. intros ty Hty Hac.
  assert (ac_Type action ∉ default_types) as Hno.
  { rewrite Hac. clear Hac. rewrite !elem_of_cons, elem_of_nil in Hty. unfold default_types.
    rewrite !elem_of_cons, elem_of_nil. intros Hin. destruct_or?; subst; discriminate. }
  unfold Execute. destruct (GetHandler (ac_Type action) defaults) eqn:E; [|eauto].
  destruct Hno. apply newExecutorImpl_is_Some. by rewrite E.
Qed.

(** ** Scaling *)

Lemma new_replicas_correct o inc :
  fits 32 o -> fits 32 inc ->
  0 <= new_replicas o inc < 2 ^ 31 /\
  (fits 32 (o + inc) -> new_replicas o inc = Z.max 0 (o + inc)) /\
  (2 ^ 31 <= o + inc -> new_replicas o inc = 0).
Proof.
  intros Ho Hi. unfold new_replicas. pose proof (wrap_fits 32 (o + inc) ltac:(lia)) as Hf.
  unfold fits in *. simpl in *. split; [|split].
  - destruct (_ <? 0) eqn:E; [lia|]. apply Z.ltb_ge in E. lia.
  - intros Hs. rewrite wrap_small by (unfold fits; simpl; lia).
    destruct (_ <? 0) eqn:E; [apply Z.ltb_lt in E|apply Z.ltb_ge in E]; lia.
  - intros Hs. destruct (_ <? 0) eqn:E; [done|]. apply Z.ltb_ge in E. exfalso. revert E.
    unfold wrap. change (2 ^ (32 - 1)) with 2147483648. change (2 ^ 32) with 4294967296.
    rewrite <- (Z.mod_unique_pos _ 4294967296 1 (o + inc - 2147483648)); lia.
Qed.

(** C39: replica arithmetic.  A scale action that succeeds has read the scale of a
    Deployment or StatefulSet and written it back with a count that is never
    negative and fits 32 bits: the old count plus (or, scaling down, minus) the
    increment, cut off at zero, as long as that sum fits 32 bits - a sum past
    the largest 32-bit integer wraps around and is written as zero. *)
Theorem Scale_writes (up : bool) ty w resource params w' r :
  (forall s : Scale (W := W), fits 32 (Spec_Replicas s)) -> fits 32 (scale_increment cvt params) ->
  Scale_Execute cvt client up ty w resource params = Ret (w', (r, None)) ->
  let inc := if up then scale_increment cvt params else wrap 32 (- scale_increment cvt params) in
  exists k scale n, scale_kind (Kind resource) = Some k /\
    GetScale w k (Namespace resource) (Name resource) = inl scale /\
    UpdateScale w k (Namespace resource) (Name resource) (with_Replicas scale n) = (w', None) /\
    0 <= n < 2 ^ 31 /\
    (fits 32 (Spec_Replicas scale + inc) -> n = Z.max 0 (Spec_Replicas scale + inc)) /\
    (2 ^ 31 <= Spec_Replicas scale + inc -> n = 0).
Proof.
  intros Hfit Hinc HE inc. revert HE. unfold Scale_Execute. fold inc.
  assert (fits 32 inc) as Hi by (subst inc; destruct up; [done|by apply wrap_fits]).
  destruct (scale_kind _) as [k|]; [|done]. destruct client; cbn [negb]; [|done].
  destruct (GetScale _ _ _ _) as [scale|e] eqn:G; [|done].
  destruct (UpdateScale _ _ _ _ _) as [w1 [e|]] eqn:U; [done|]. intros [= <- <-].
  exists k, scale, (new_replicas (Spec_Replicas scale) inc). do 3 (split; [done|]).
  apply new_replicas_correct; [apply Hfit|done].
Qed.

(** ** Rolling back *)

Lemma prev_loop_distinct l mx snd :
  NoDup (parseRevision (W := W) <$> l) -> Forall (fun rs => 0 < parseRevision (W := W) rs) l ->
  0 <= snd <= mx -> (snd = mx -> mx = 0) ->
  Forall (fun rs => parseRevision (W := W) rs <> mx) l -> Forall (fun rs => parseRevision (W := W) rs <> snd) l ->
  prev_loop (W := W) l None mx snd = (None, foldr Z.max mx (parseRevision (W := W) <$> l)).
Proof.
  revert mx snd. induction l as [|rs l IH]; intros mx snd Hnd Hpos Hle Heq Hmx Hsnd; cbn [prev_loop]; [done|].
  rewrite fmap_cons, NoDup_cons in Hnd. destruct Hnd as [Hrs Hnd].
  apply Forall_cons in Hpos as [Hp Hpos]. apply Forall_cons in Hmx as [Hm Hmx].
  apply Forall_cons in Hsnd as [Hs Hsnd].
  assert (Forall (fun rs' => parseRevision (W := W) rs' <> parseRevision (W := W) rs) l) as Hne.
  { apply Forall_forall. intros rs' Hin E. apply Hrs. rewrite <- E. apply list_elem_of_fmap. eauto. }
  destruct (mx <? parseRevision rs) eqn:E.
  - apply Z.ltb_lt in E. replace (parseRevision rs =? mx) with false by (symmetry; apply Z.eqb_neq; lia).
    cbn [andb]. rewrite IH by (try done; lia). f_equal.
    rewrite fmap_cons. cbn [foldr]. rewrite <- foldr_Zmax_base. f_equal. lia.
  - apply Z.ltb_ge in E. replace (parseRevision rs =? snd) with false by (symmetry; apply Z.eqb_neq; lia).
    cbn [andb]. rewrite IH by done. f_equal. rewrite fmap_cons. cbn [foldr].
    pose proof (foldr_Zmax_ge mx (parseRevision (W := W) <$> l)). lia.
Qed.

(** What the rollback really picks.  When the replica sets of a Deployment
    carry distinct positive revisions, the search for "the second highest
    revision" never finds anything, and the handler falls back on position: it
    takes the first owned replica set of the listing, or the second one if the
    first has the highest revision.  With exactly two replica sets this is the
    older of the two; with more it need not be the previous revision. *)
Theorem pick_previous_by_position rs0 rs1 l :
  let owned := rs0 :: rs1 :: l in
  let rev := parseRevision (W := W) in
  NoDup (rev <$> owned) -> Forall (fun rs => 0 < rev rs) owned ->
  pick_previous owned =
    Some (if decide (Forall (fun rs => rev rs <= rev rs0) owned) then rs1 else rs0) /\
  (l = [] -> exists prev, pick_previous owned = Some prev /\ prev ∈ owned /\ rev prev = Z.min (rev rs0) (rev rs1)).
Proof.
  intros owned rev Hnd Hpos.
  assert (pick_previous owned = Some (if decide (Forall (fun rs => rev rs <= rev rs0) owned) then rs1 else rs0)) as HP.
  { unfold pick_previous. rewrite prev_loop_distinct; try done; try lia.
    2, 3: eapply Forall_impl; [exact Hpos|]; intros rs Hrs; unfold rev in Hrs; simpl in *; lia.
    unfold owned. fold owned. f_equal.
    assert (forall mx : Z, Forall (fun rs => rev rs <= mx) owned <-> foldr Z.max 0 (rev <$> owned) <= Z.max 0 mx) as Hmax.
    { intros mx. clear -Hpos. induction Hpos as [|x xs Hx _ IH]; [cbn; split; [lia|constructor]|].
      rewrite Forall_cons, IH, fmap_cons. cbn [foldr]. lia. }
    assert (0 < rev rs0) by (by apply Forall_cons in Hpos as [? _]).
    assert (rev rs0 <= foldr Z.max 0 (rev <$> owned)) by (unfold owned; rewrite fmap_cons; cbn [foldr]; lia).
    fold rev. case_decide as D.
    - apply Hmax in D. replace (_ =? _) with true; [done|]. symmetry. apply Z.eqb_eq. lia.
    - rewrite Hmax in D. replace (_ =? _) with false; [done|]. symmetry. apply Z.eqb_neq. lia. }
  split; [exact HP|]. intros ->. rewrite HP. eexists. split; [done|]. unfold owned in *. clear HP.
  case_decide as D; rewrite !Forall_cons in D; (split; [set_solver|]).
  - lia.
  - destruct (Z.le_gt_cases (rev rs1) (rev rs0)); [|lia]. exfalso. apply D. split_and!; try lia. constructor.
Qed.

(** ** Adjusting limits *)

(** C0: [applyIncrease] never exceeds the cap: it returns exactly when the cap is
    absent or a well-formed quantity (a malformed one panics), and then, with a
    cap, the new quantity is at most the cap, in the format of the old one. *)
Theorem applyIncrease_capped current increase maxValue
    (NewQuantity_Value : forall n f, fits 64 n -> q_Value (NewQuantity n f) = n)
    (Value_fits : forall q, fits 64 (q_Value q)) :
  (applyIncrease cvt other current increase maxValue = Panic <->
     maxValue <> "" /\ ParseQuantity maxValue = None) /\
  (forall q, applyIncrease cvt other current increase maxValue = Ret q ->
     exists n, fits 64 n /\ q = NewQuantity n (q_Format current) /\
       forall m, maxValue <> "" -> ParseQuantity maxValue = Some m -> q_Value q <= q_Value m).
Proof.
  unfold applyIncrease. cbv zeta. set (cur := if q_Value current =? 0 then _ else _).
  set (nv := wrap 64 _). assert (fits 64 nv) as Hnv by (by apply wrap_fits).
  destruct (decide (maxValue = "")) as [->|Hne]; simpl.
  - split; [naive_solver|]. intros q [= <-]. exists nv. by split_and!.
  - destruct (ParseQuantity maxValue) as [m|]; simpl; [|naive_solver].
    split; [naive_solver|]. intros q [= <-]. destruct (q_Value m <? nv) eqn:E.
    + eexists. split; [|split; [done|]]; [apply Value_fits|].
      intros m' _ [= <-]. rewrite NewQuantity_Value by apply Value_fits. lia.
    + apply Z.ltb_ge in E. eexists. split; [|split; [done|]]; [done|].
      intros m' _ [= <-]. by rewrite NewQuantity_Value.
Qed.

(** ** Panics *)

(** The cap of an action, when it has one that is no quantity. *)
Definition malformed_cap (params : params_t) : Prop :=
  exists mx, params !! "maxValue" = Some (PString mx) /\ mx <> "" /\ ParseQuantity mx = None.

Lemma applyIncrease_ends current increase mx :
  match applyIncrease cvt other current increase mx with
  | Ret _ => True
  | Panic => mx <> "" /\ ParseQuantity mx = None
  | Hang => False
  end.
Proof. unfold applyIncrease. case_decide; cbn; [done|]. by destruct (ParseQuantity mx). Qed.

Lemma adjust_containers_ends rn inc mx cs :
  match adjust_containers cvt other rn inc mx cs with
  | Ret _ => True
  | Panic => cs <> [] /\ mx <> "" /\ ParseQuantity mx = None
  | Hang => False
  end.
Proof.
  induction cs as [|[name limits] cs IH]; [done|]. cbn [adjust_containers].
  pose proof (applyIncrease_ends (default zeroQuantity (limits !! rn)) inc mx) as Hi.
  destruct (applyIncrease _ _ _ _ _); cbn; [|done|done].
  destruct (adjust_containers _ _ _ _ _ cs); cbn; [done| |done]. by destruct IH.
Qed.

Lemma adjust_loop_ends n ty inc mx e w ref params :
  match adjust_loop cvt other true n ty inc mx e w ref params with
  | Ret _ => True
  | Panic => (mx <> "" /\ ParseQuantity mx = None) /\
      exists w1 uid c cs, GetDeployment w1 (Namespace ref) (Name ref) = inl (uid, c :: cs)
  | Hang => False
  end.
Proof.
  revert e w. induction n as [|n IH]; intros e w; cbn [adjust_loop negb]; [done|].
  destruct (GetDeployment _ _ _) as [[uid cs]|] eqn:Eg; [|done].
  pose proof (adjust_containers_ends (resource_name ty) inc mx cs) as Hc.
  destruct (adjust_containers _ _ _ _ _ _); cbn; [| |done].
  - destruct (PatchLimits _ _ _ _ _) as [w' [err|]]; [|done]. destruct (ae_conflict err); [apply IH|done].
  - destruct Hc as (Hcs & Hm). split; [done|]. destruct cs as [|c cs]; [done|]. by exists w, uid, c, cs.
Qed.

Lemma string_param_set key params mx :
  string_param key "" params = mx -> mx <> "" -> params !! key = Some (PString mx).
Proof. unfold string_param. destruct (params !! key) as [[]|]; naive_solver. Qed.

Lemma default_handlers_notify h w resource params :
  h ∈ default_handlers cvt other client -> GetType h = ActionTypeNotify ->
  exists r, h_Execute h w resource params = Ret (w, (r, None)).
Proof.
  unfold default_handlers. rewrite !elem_of_cons, elem_of_nil.
  intros Hin Ht; destruct_or?; subst; try done. by eexists.
Qed.

(** A workload whose replicas or limits an action can change. *)
Definition workload (kind : string) : Prop := kind = "Deployment" \/ kind = "StatefulSet".

(** What the validation of the handlers that use the client accepts. *)
Definition accepted (ty kind : string) : Prop :=
  (ty = ActionTypeRestartPod /\ kind = "Pod") \/
  (ty = ActionTypeRollbackToPrevious /\ kind = "Deployment") \/
  ((ty = ActionTypeScaleUp \/ ty = ActionTypeAdjustCPU \/ ty = ActionTypeAdjustMemory) /\ workload kind).

(** A default handler, its validation and its type. *)
Lemma default_handlers_accept h resource params :
  h ∈ default_handlers cvt other client ->
  (Validate h resource params = None <-> GetType h = ActionTypeNotify \/ accepted (GetType h) (Kind resource)).
Proof.
  unfold default_handlers, accepted, workload. rewrite !elem_of_cons, elem_of_nil.
  intros Hin; destruct_or?; subst; try done; cbn [Validate GetType NewScaleHandler NewRestartPodHandler
    NewRollbackHandler NewAdjustResourceHandler NewNotifyHandler];
    unfold Scale_Validate, Restart_Validate, Rollback_Validate, Adjust_Validate;
    repeat case_bool_decide; cbn [negb andb]; (split; [intros|intros; destruct_or?; destruct_and?; destruct_or?]); try done; auto 10.
Qed.

(** Without a client every handler but the notification panics once its
    validation has passed. *)
Lemma no_client h w resource params :
  h ∈ default_handlers cvt other false -> GetType h <> ActionTypeNotify -> Validate h resource params = None ->
  h_Execute h w resource params = Panic.
Proof.
  unfold default_handlers. rewrite !elem_of_cons, elem_of_nil.
  intros Hin Hn; destruct_or?; subst; try done; cbn [Validate h_Execute NewScaleHandler NewRestartPodHandler
    NewRollbackHandler NewAdjustResourceHandler]; try done.
  unfold Scale_Validate, Scale_Execute, scale_kind. repeat case_bool_decide; cbn [negb andb]; try done; intros _;
    repeat case_decide; done.
Qed.

Lemma default_handlers_end h w resource params :
  h ∈ default_handlers cvt other true ->
  match h_Execute h w resource params with
  | Ret _ => True
  | Panic => (GetType h = ActionTypeAdjustCPU \/ GetType h = ActionTypeAdjustMemory) /\ malformed_cap params /\
      exists w1 uid c cs, GetDeployment w1 (Namespace resource) (Name resource) = inl (uid, c :: cs)
  | Hang => False
  end.
Proof.
  unfold default_handlers. rewrite !elem_of_cons, elem_of_nil.
  intros Hin; destruct_or?; subst; try done; cbn [h_Execute NewScaleHandler NewRestartPodHandler NewRollbackHandler NewAdjustResourceHandler].
  1: by unfold Scale_Execute; cbn [negb]; repeat case_match.
  1: by unfold Restart_Execute; cbn [negb]; repeat case_match.
  1: by unfold Rollback_Execute; cbn [negb]; repeat case_match.
  all: unfold Adjust_Execute;
    match goal with |- context [adjust_loop cvt other true ?n ?ty ?inc ?mx ?e ?w ?ref ?params] =>
      pose proof (adjust_loop_ends n ty inc mx e w ref params) as Ha; destruct (adjust_loop _ _ _ n ty inc mx e w ref params)
    end; [done| |done]; destruct Ha as [[Hne Hq] Hg]; (split; [by (left + right)|]); (split; [|done]);
    eexists; split_and!; [by apply string_param_set|done|done].
Qed.

(** A malformed cap meets a container. *)
Lemma malformed_maxValue_panics ty w resource params uid c cs :
  malformed_cap params -> GetDeployment w (Namespace resource) (Name resource) = inl (uid, c :: cs) ->
  Adjust_Execute cvt other true ty w resource params = Panic.
Proof.
  intros (mx & Hp & Hne & Hq) Hg. unfold Adjust_Execute, string_param at 2. rewrite Hp. unfold maxRetries.
  cbn [adjust_loop negb]. rewrite Hg. destruct c as [name limits]. cbn [adjust_containers]. unfold applyIncrease.
  rewrite decide_False by done. by rewrite Hq.
Qed.
End properties.

Section panics.
Context {W : Type} `{KubeClient W}.
Context (cvt : Z -> spec_float -> Z) (other : string -> option spec_float).

Abbreviation exec client := (Execute (newExecutorImpl (W := W) cvt other client)).

(** C26: when the executor panics, with the default handlers.  Without a client -
    Kubernetes disabled, or no configuration found - exactly on the actions that
    validation accepts, notifications apart: a restart of a pod, a rollback of a
    Deployment, scaling or adjusting a Deployment or StatefulSet.  With a
    client, only on an adjustCPU or adjustMemory action on a Deployment or
    StatefulSet whose "maxValue" is set and no quantity, and only when a
    Deployment of that name is read that has a container; and then it does
    panic, if it is the first one read.  The operator recovers neither. *)
Theorem Execute_panics t1 t2 (w : W) resource action :
  (exec false t1 t2 w resource action = Panic <-> accepted (ac_Type action) (Kind resource)) /\
  (let malformed := (ac_Type action = ActionTypeAdjustCPU \/ ac_Type action = ActionTypeAdjustMemory) /\
     workload (Kind resource) /\ malformed_cap (ac_Params action) in
   (exec true t1 t2 w resource action = Panic -> malformed /\
      exists w1 uid c cs, GetDeployment w1 (Namespace resource) (Name resource) = inl (uid, c :: cs)) /\
   (forall uid c cs, malformed -> GetDeployment w (Namespace resource) (Name resource) = inl (uid, c :: cs) ->
      exec true t1 t2 w resource action = Panic)).
Proof.
  cbv zeta. split; [|split].
  - unfold Execute. destruct (GetHandler (ac_Type action) _) as [h|] eqn:Eh.
    + apply newExecutorImpl_Some in Eh as [Hin Hty].
      pose proof (default_handlers_accept cvt other false h resource (ac_Params action) Hin) as HV. rewrite Hty in HV.
      destruct (Validate h resource (ac_Params action)) eqn:Ev; [split; [done|]; intros; naive_solver|].
      destruct (decide (ac_Type action = ActionTypeNotify)) as [En|Hn].
      * split; [|unfold accepted; rewrite En; intros; destruct_or?; destruct_and?; destruct_or?; done].
        pose proof (default_handlers_notify cvt other false h w resource (ac_Params action) Hin) as Hr.
        rewrite Hty in Hr. destruct (Hr En) as (r & ->). done.
      * rewrite (no_client cvt other h w resource) by (rewrite ?Hty; done). cbn. split; [|done]. intros _. naive_solver.
    + split; [done|]. intros Ha.
      assert (is_Some (GetHandler (ac_Type action) (newExecutorImpl (W := W) cvt other false))) as [? ?]; [|congruence].
      apply newExecutorImpl_is_Some. unfold accepted, default_types in *. rewrite !elem_of_cons. tauto.
  - unfold Execute. destruct (GetHandler (ac_Type action) _) as [h|] eqn:Eh; [|done].
    apply newExecutorImpl_Some in Eh as [Hin Hty].
    pose proof (default_handlers_accept cvt other true h resource (ac_Params action) Hin) as HV. rewrite Hty in HV.
    destruct (Validate h resource (ac_Params action)) eqn:Ev; [done|].
    pose proof (default_handlers_end cvt other h w resource (ac_Params action) Hin) as He.
    destruct (h_Execute h w resource (ac_Params action)) as [[w' [r [e|]]]| |]; cbn; [done..| |done].
    rewrite Hty in He. destruct He as (Ht & Hm & Hg). intros _. split; [|done]. split; [done|]. split; [|done].
    destruct HV as [HV _]. specialize (HV eq_refl). unfold accepted in HV. destruct Ht as [Ht|Ht]; rewrite Ht in HV;
      destruct HV as [?|[[? _]|[[? _]|[_ ?]]]]; done.
  - intros uid c cs (Ht & Hk & Hm) Hg. unfold Execute.
    assert (GetHandler (ac_Type action) (newExecutorImpl (W := W) cvt other true) =
      Some (NewAdjustResourceHandler cvt other true (ac_Type action))) as -> by (destruct Ht as [-> | ->]; done).
    cbn [Validate NewAdjustResourceHandler h_Execute].
    assert (Adjust_Validate resource (ac_Params action) = None) as ->.
    { unfold Adjust_Validate. destruct Hk as [-> | ->]; done. }
    by rewrite (malformed_maxValue_panics cvt other _ w resource _ uid c cs Hm Hg).
Qed.
End panics.

Section retries.
Context {W : Type} `{KubeClient W}.
Context (cvt : Z -> spec_float -> Z) (other : string -> option spec_float) (client : bool).
Implicit Types w : W.

(** The limit written for a container, the empty string if it is not written. *)
Definition written (name : string) (patch : list (string * string)) : list string :=
  snd <$> filter (fun x => x.1 = name) patch.

Lemma adjust_containers_names rn inc mx cs patch :
  adjust_containers cvt other rn inc mx cs = Ret patch -> patch.2.*1 = cs.*1 /\ length patch.1 = length cs.
Proof.
  revert patch. induction cs as [|[name limits] cs IH]; intros patch; simpl; [by intros [= <-]|].
  destruct (applyIncrease _ _ _ _ _) as [q| |]; simpl; [|done..].
  destruct (adjust_containers _ _ _ _ _ cs) as [p| |]; simpl; [|done..].
  intros [= <-]. cbn [fst snd length]. rewrite !fmap_cons. cbn [fst snd].
  destruct (IH p eq_refl) as [-> ->]. done.
Qed.

(** The clusters reached by [n] conflicting patches. *)
Inductive conflicts (ty : string) (ref : ResourceReference) : nat -> W -> W -> Prop :=
  | conflicts_0 w : conflicts ty ref 0 w w
  | conflicts_S n w patch w1 e w2 :
      PatchLimits w (Namespace ref) (Name ref) (resource_name ty) patch = (w1, Some e) ->
      ae_conflict e = true -> conflicts ty ref n w1 w2 -> conflicts ty ref (S n) w w2.

Lemma adjust_loop_spec n ty inc mx e w ref params w' r err :
  adjust_loop cvt other client n ty inc mx e w ref params = Ret (w', (r, err)) ->
  exists k w1, conflicts ty ref k w w1 /\
    ((k = n /\ w' = w1 /\ err <> None) \/
     (k < n)%nat /\
     ((w' = w1 /\ err <> None /\ exists e', GetDeployment w1 (Namespace ref) (Name ref) = inr e') \/
      exists uid cs patch res, GetDeployment w1 (Namespace ref) (Name ref) = inl (uid, cs) /\
        patch.*1 = cs.*1 /\
        PatchLimits w1 (Namespace ref) (Name ref) (resource_name ty) patch = (w', res) /\
        (err = None <-> res = None))).
Proof.
  revert e w. induction n as [|n IH]; intros e w; cbn [adjust_loop].
  { intros [= <- <- <-]. exists 0%nat, w. split; [constructor|]. left. by split_and!. }
  destruct client; cbn [negb]; [|done].
  destruct (GetDeployment w (Namespace ref) (Name ref)) as [[uid cs]|ge] eqn:G.
  2: { intros [= <- <- <-]. exists 0%nat, w. split; [constructor|]. right. split; [lia|]. left.
       split_and!; try done. eauto. }
  destruct (adjust_containers cvt other (resource_name ty) inc mx cs) as [patch| |] eqn:P; simpl; [|done..].
  destruct (adjust_containers_names _ _ _ _ _ P) as [Hn _].
  destruct (PatchLimits w (Namespace ref) (Name ref) (resource_name ty) patch.2) as [w1 [pe|]] eqn:Hp.
  - destruct (ae_conflict pe) eqn:Hc.
    + intros HR. apply IH in HR as (k & w2 & Hk & Hcase). exists (S k), w2.
      split; [by eapply conflicts_S|].
      destruct Hcase as [(-> & Hw & Herr)|[Hlt Hcase]]; [left; by split_and!|right; split; [lia|done]].
    + intros [= <- <- <-]. exists 0%nat, w. split; [constructor|]. right. split; [lia|]. right.
      exists uid, cs, patch.2, (Some pe). split_and!; try done.
  - intros [= <- <- <-]. exists 0%nat, w. split; [constructor|]. right. split; [lia|]. right.
    exists uid, cs, patch.2, None. split_and!; try done.
Qed.

(** Adjusting limits retries only on conflicts, and at most three times.
    Whatever the cluster answers, the handler makes some number of patches that
    conflict, at most three, each from a fresh read; if it ends before the
    third, its last step is either a failed read or one further patch, which
    names exactly the containers just read, in their order, and whose outcome
    is the handler's outcome. *)
Theorem Adjust_retries_conflicts ty w ref params w' r err :
  Adjust_Execute cvt other client ty w ref params = Ret (w', (r, err)) ->
  exists k w1, conflicts ty ref k w w1 /\
    ((k = 3%nat /\ w' = w1 /\ err <> None) \/
     (k < 3)%nat /\
     ((w' = w1 /\ err <> None /\ exists e', GetDeployment w1 (Namespace ref) (Name ref) = inr e') \/
      exists uid cs patch res, GetDeployment w1 (Namespace ref) (Name ref) = inl (uid, cs) /\
        patch.*1 = cs.*1 /\
        PatchLimits w1 (Namespace ref) (Name ref) (resource_name ty) patch = (w', res) /\
        (err = None <-> res = None))).
Proof. apply adjust_loop_spec. Qed.

End retries.

(** * Witnesses *)

(** A cluster that is a number: the replicas of every workload, raised by every
    patch; limits can be patched only when the number is even. *)
#[local] Instance demo_quantities : QuantityLib := {|
  Quantity := Z; QFormat := unit; zeroQuantity := 0; q_Value := wrap 64; q_Format _ := tt;
  q_String := pretty; NewQuantity n _ := n;
  ParseQuantity s := if decide (s = "150Mi") then Some (150 * 1048576) else None;
|}.

#[local] Instance demo_kube : KubeClient Z := {|
  Scale := Z; Template := string; Spec_Replicas := wrap 32; with_Replicas _ n := n;
  GetScale w _ _ _ := inl w;
  UpdateScale _ _ _ _ s := (s, None);
  DeletePod w _ _ _ := (w - 1, None);
  GetDeployment _ _ _ := inl ("uid", [("app", {["memory" := 134217728]})]);
  ListReplicaSets _ _ := inl [];
  PatchTemplate w _ _ _ := (w + 1, None);
  PatchLimits w _ _ _ _ := (w + 1, if Z.even w then None else Some (mkApiError "conflict" true));
|}.

Definition demo_cvt (w : Z) (_ : spec_float) : Z := - 2 ^ (w - 1).
Definition demo_other (_ : string) : option spec_float := None.
Definition demo_dep : ResourceReference := mkRef "apps/v1" "Deployment" "prod" "web" "d".
Definition demo_registry := newExecutorImpl (W := Z) demo_cvt demo_other true.
Definition demo_rs (name revision : string) : list string * gmap string string * Template (W := Z) :=
  ([ "uid" ], {["deployment.kubernetes.io/revision" := revision]}, name).

Lemma Execute_consistent_witness :
  exists r, Execute demo_registry 1 2 3 demo_dep (mkAction "scaleUp" 0 {["increment" := PString "2"]})
    = Ret (5, (r, None)) /\ ar_Status r = ActionStatusSucceeded.
Proof.
  destruct (Execute demo_registry 1 2 3 demo_dep (mkAction "scaleUp" 0 {["increment" := PString "2"]}))
    as [[w [r [e|]]]| |] eqn:E; [by vm_compute in E| |by vm_compute in E..].
  pose proof E as E'. vm_compute in E. injection E as <- <-. eexists. split; [reflexivity|].
  apply (Execute_consistent demo_cvt demo_other true 1 2 3 demo_dep
    (mkAction "scaleUp" 0 {["increment" := PString "2"]}) 5 _ None E'). done.
Defined.

Lemma Scale_writes_witness :
  exists n : Z, 0 <= n < 2 ^ 31 /\ n = 2147483646.
Proof.
  destruct (Scale_writes demo_cvt true true "scaleUp" (W := Z) 2147483645 demo_dep ∅ 2147483646
    (unset_result demo_dep "scaleUp" ∅ ActionStatusSucceeded
       (scale_message demo_dep 2147483645 2147483646) ""
       [mkChange "spec.replicas" "2147483645" "2147483646"]))
    as (k & scale & n & _ & Hg & _ & Hn & Hsum & _).
  - intros s. apply wrap_fits. lia.
  - vm_compute. split; congruence.
  - by vm_compute.
  - exists n. split; [exact Hn|]. injection Hg as <-. rewrite Hsum; [done|].
    vm_compute. split; congruence.
Defined.

Lemma pick_previous_by_position_witness :
  pick_previous (W := Z) [demo_rs "a" "1"; demo_rs "b" "2"; demo_rs "c" "3"] = Some (demo_rs "a" "1").
Proof.
  destruct (pick_previous_by_position (W := Z) (demo_rs "a" "1") (demo_rs "b" "2") [demo_rs "c" "3"]) as [-> _].
  - by vm_compute; repeat constructor; set_solver.
  - repeat constructor.
  - done.
Defined.

Lemma applyIncrease_capped_witness :
  exists q, applyIncrease (H := demo_quantities) demo_cvt demo_other 134217728 "25%" "150Mi" = Ret q /\
    wrap 64 q <= 150 * 1048576.
Proof.
  exists (150 * 1048576). split; [by vm_compute|].
  destruct (applyIncrease_capped (H := demo_quantities) demo_cvt demo_other 134217728 "25%" "150Mi") as [_ Hcap].
  - intros n f Hn. by apply wrap_small.
  - intros q. by apply wrap_fits.
  - destruct (Hcap (150 * 1048576)) as (n & _ & _ & Hm); [by vm_compute|].
    apply (Hm (150 * 1048576)); [done|by vm_compute].
Defined.

(** A malformed cap with a client; a restart without one. *)
Lemma Execute_panics_witness :
  Execute demo_registry 1 2 3 demo_dep (mkAction "adjustMemory" 0 {["maxValue" := PString "lots"]}) = Panic /\
  Execute (newExecutorImpl (W := Z) demo_cvt demo_other false) 1 2 3 (mkRef "v1" "Pod" "prod" "web-0" "u")
    (mkAction "restartPod" 0 ∅) = Panic.
Proof.
  split.
  - destruct (Execute_panics demo_cvt demo_other 1 2 3 demo_dep
      (mkAction "adjustMemory" 0 {["maxValue" := PString "lots"]})) as (_ & _ & HP).
    apply (HP "uid" ("app", {["memory" := 134217728]}) []); [|done].
    split; [by right|]. split; [by left|]. exists "lots". split_and!; by vm_compute.
  - destruct (Execute_panics demo_cvt demo_other 1 2 3 (mkRef "v1" "Pod" "prod" "web-0" "u") (mkAction "restartPod" 0 ∅))
      as ([_ HP] & _). apply HP. by left.
Defined.

Lemma Adjust_retries_conflicts_witness :
  exists k w1, conflicts (W := Z) "adjustMemory" demo_dep k 3 w1 /\ (k <= 3)%nat.
Proof.
  destruct (Adjust_Execute demo_cvt demo_other true "adjustMemory" 3 demo_dep ∅) as [[w' [r err]]| |] eqn:E;
    [|by vm_compute in E..].
  destruct (Adjust_retries_conflicts demo_cvt demo_other true "adjustMemory" 3 demo_dep ∅ w' r err E)
    as (k & w1 & Hk & Hcase).
  exists k, w1. split; [exact Hk|]. destruct Hcase as [[-> _]|[? _]]; lia.
Defined.
