(* ===== verification/GoText.v ===== *)
(** The text processing of Go that the task names use: the runes of a string
    (UTF-8 decoding), lower case and trimming. *)

From S2P Require Import Prelude.

Definition byte_of (c : Ascii.ascii) : Z := Z.of_nat (Ascii.nat_of_ascii c).

Definition between (lo hi n : Z) : bool := (lo <=? n) && (n <=? hi).

(** How many bytes the rune at the front of a string takes, when it is well
    formed: the number of continuation bytes and the range of the first. *)
Definition utf8_lead (b : Z) : option (nat * Z * Z) :=
  if between 194 223 b then Some (1%nat, 128, 191)
  else if b =? 224 then Some (2%nat, 160, 191)
  else if b =? 237 then Some (2%nat, 128, 159)
  else if between 225 239 b then Some (2%nat, 128, 191)
  else if b =? 240 then Some (3%nat, 144, 191)
  else if b =? 244 then Some (3%nat, 128, 143)
  else if between 241 243 b then Some (3%nat, 128, 191)
  else None.

(** [n] continuation bytes, the first of them between [lo] and [hi]. *)
Fixpoint utf8_tail (n : nat) (lo hi acc : Z) (s : string) : option (Z * string) :=
  match n with
  | O => Some (acc, s)
  | S n =>
    match s with
    | String c s' =>
      if between lo hi (byte_of c) then utf8_tail n 128 191 (64 * acc + (byte_of c - 128)) s' else None
    | EmptyString => None
    end
  end.

Definition utf8_lead_bits (n : nat) (b : Z) : Z :=
  match n with 1%nat => b - 192 | 2%nat => b - 224 | _ => b - 240 end.

(** U+FFFD, for a byte that starts no well-formed rune. *)
Definition RuneError : Z := 65533.

(** The runes of a string, as [range] yields them; [fuel] bounds their number. *)
Fixpoint decode (fuel : nat) (s : string) : list Z :=
  match fuel with
  | O => []
  | S fuel =>
    match s with
    | EmptyString => []
    | String c s' =>
      let b := byte_of c in
      if b <? 128 then b :: decode fuel s'
      else match utf8_lead b with
           | None => RuneError :: decode fuel s'
           | Some (n, lo, hi) =>
             match utf8_tail n lo hi (utf8_lead_bits n b) s' with
             | Some (r, rest) => r :: decode fuel rest
             | None => RuneError :: decode fuel s'
             end
           end
    end
  end.

Definition runes (s : string) : list Z := decode (String.length s) s.

(** [unicode.ToLower], as far as its result is ASCII: the ASCII letters, the
    Kelvin sign and the dotted capital I; other runes stay outside ASCII. *)
Definition ToLower (r : Z) : Z :=
  if between 65 90 r then r + 32
  else if r =? 8490 then 107
  else if r =? 304 then 105
  else r.

(** [strings.TrimFunc] on ASCII text. *)
Fixpoint trim_left (f : Z -> bool) (l : list Z) : list Z :=
  match l with
  | [] => []
  | r :: l' => if f r then trim_left f l' else l
  end.

Definition trim (f : Z -> bool) (l : list Z) : list Z :=
  reverse (trim_left f (reverse (trim_left f l))).

Definition is_space (r : Z) : bool := between 9 13 r || (r =? 32) || (r =? 133) || (r =? 160).

Fixpoint string_of (l : list Z) : string :=
  match l with
  | [] => EmptyString
  | r :: l => String (Ascii.ascii_of_nat (Z.to_nat r)) (string_of l)
  end.

Lemma trim_left_suffix f l : trim_left f l `suffix_of` l.
Proof.
  induction l as [|r l IH]; simpl; [by exists []|].
  destruct (f r); [by apply suffix_cons_r|by exists []].
Qed.

Lemma trim_left_head f l r l' : trim_left f l = r :: l' -> f r = false.
Proof. induction l as [|x l IH]; simpl; [done|]. destruct (f x) eqn:E; [auto|]. by intros [= <- <-]. Qed.

Lemma trim_left_incl f l x : x ∈ trim_left f l -> x ∈ l.
Proof.
  intros H. destruct (trim_left_suffix f l) as [k E]. rewrite E. apply elem_of_app. by right.
Qed.

Lemma trim_incl f l x : x ∈ trim f l -> x ∈ l.
Proof.
  unfold trim. rewrite elem_of_reverse. intros H. apply trim_left_incl in H.
  rewrite elem_of_reverse in H. by apply trim_left_incl in H.
Qed.

Lemma trim_last f l r : last (trim f l) = Some r -> f r = false.
Proof.
  unfold trim. rewrite last_reverse.
  destruct (trim_left f (reverse (trim_left f l))) as [|x k] eqn:E; simpl; [done|].
  intros [= <-]. by apply trim_left_head in E.
Qed.

Lemma trim_head f l r : head (trim f l) = Some r -> f r = false.
Proof.
  unfold trim. rewrite head_reverse.
  destruct (trim_left_suffix f (reverse (trim_left f l))) as [k E].
  destruct (trim_left f (reverse (trim_left f l))) as [|x t] eqn:Et; [done|].
  intros Hl.
  assert (last (reverse (trim_left f l)) = Some r) as Hr.
  { rewrite E, last_app, Hl. done. }
  rewrite last_reverse in Hr. destruct (trim_left f l) as [|y u] eqn:Eu; [done|].
  injection Hr as ->. by apply trim_left_head in Eu.
Qed.

Example runes_ex : runes (string_of [195; 169; 65; 255; 226; 132; 170]) = [233; 65; 65533; 8490].
Proof. by vm_compute. Qed.
