(* ===== verification/GoTime.v ===== *)
(** [time.ParseDuration], which reads the timeout of a task. *)

From S2P Require Import Prelude GoNum.

(** * Parsing *)

(** The fraction's digits: those after the value has reached its limit are
    skipped.  The value, the power of ten it is over, and the rest. *)
Fixpoint leadingFraction (x scale : Z) (overflow : bool) (s : string) : Z * Z * string :=
  match s with
  | String c s' =>
    match digit_value c with
    | Some d =>
      if overflow then leadingFraction x scale true s'
      else if (2 ^ 63 - 1) / 10 <? x then leadingFraction x scale true s'
      else let y := 10 * x + d in
           if 2 ^ 63 <? y then leadingFraction x scale true s'
           else leadingFraction y (10 * scale) false s'
    | None => (x, scale, s)
    end
  | EmptyString => (x, scale, s)
  end.

Definition is_digit (c : Ascii.ascii) : bool := bool_decide (digit_value c <> None).
Definition is_point (c : Ascii.ascii) : bool := is_char 46 c.

(** The unit: up to the next digit or point. *)
Fixpoint read_unit (s : string) : string * string :=
  match s with
  | String c s' =>
    if is_digit c || is_point c then ("", s)
    else let '(u, rest) := read_unit s' in (String c u, rest)
  | EmptyString => ("", "")
  end.

(** The micro sign and the Greek letter, each in UTF-8. *)
Definition micro_sign : string :=
  String (Ascii.ascii_of_nat 194) (String (Ascii.ascii_of_nat 181) "s").
Definition mu : string := String (Ascii.ascii_of_nat 206) (String (Ascii.ascii_of_nat 188) "s").

Definition unitMap (u : string) : option Z :=
  if decide (u = "ns") then Some Nanosecond
  else if decide (u = "us") then Some 1000
  else if decide (u = micro_sign) then Some 1000
  else if decide (u = mu) then Some 1000
  else if decide (u = "ms") then Some Millisecond
  else if decide (u = "s") then Some Second
  else if decide (u = "m") then Some Minute
  else if decide (u = "h") then Some Hour
  else None.

(** The fraction in nanoseconds, computed on floats. *)
Definition fraction_of_unit (f scale unit : Z) : Z :=
  default 0 (truncate (f64_mul (float64_of_int f) (f64_div (float64_of_int unit) (float64_of_int scale)))).

(** One component: a number with an optional fraction, then a unit; its value
    in nanoseconds and the rest of the text. *)
Definition read_component (s : string) : option (Z * string) :=
  let '(v, pre, s1) := read_digits 0 0 s in
  let '(f, scale, post, s2) :=
    match s1 with
    | String c s' =>
      if is_point c then
        let '(f, scale, rest) := leadingFraction 0 1 false s' in
        (f, scale, negb (Nat.eqb (String.length rest) (String.length s')), rest)
      else (0, 1, false, s1)
    | EmptyString => (0, 1, false, s1)
    end in
  if 2 ^ 63 <? v then None
  else if Nat.eqb pre 0 && negb post then None
  else
    let '(u, rest) := read_unit s2 in
    unit ← unitMap u;
    if 2 ^ 63 / unit <? v then None
    else
      let v := v * unit + (if 0 <? f then fraction_of_unit f scale unit else 0) in
      if 2 ^ 63 <? v then None else Some (v, rest).

(** The components are added up; [fuel] bounds their number. *)
Fixpoint read_components (fuel : nat) (d : Z) (s : string) : option Z :=
  match s with
  | EmptyString => Some d
  | _ =>
    match fuel with
    | O => None
    | S fuel =>
      match read_component s with
      | Some (v, rest) => if 2 ^ 63 <? d + v then None else read_components fuel (d + v) rest
      | None => None
      end
    end
  end.

(** [None] when the error is not nil. *)
Definition ParseDuration (s : string) : option duration :=
  let '(neg, s1) := read_sign s in
  if decide (s1 = "0") then Some 0
  else if decide (s1 = "") then None
  else
    d ← read_components (String.length s1) 0 s1;
    if neg then Some (- d) else if 2 ^ 63 - 1 <? d then None else Some d.

Example ParseDuration_ex :
  ParseDuration "60s" = Some (60 * Second) /\ ParseDuration "1h30m" = Some (90 * Minute) /\
  ParseDuration "1.5h" = Some (90 * Minute) /\ ParseDuration "-2ms" = Some (- (2 * Millisecond)) /\
  ParseDuration "+.25us" = Some 250 /\ ParseDuration "0" = Some 0 /\
  ParseDuration "" = None /\ ParseDuration "5" = None /\ ParseDuration "1d" = None /\
  ParseDuration "." = None /\ ParseDuration ".s" = None /\ ParseDuration "9223372036854775808ns" = None /\
  ParseDuration "-9223372036854775808ns" = Some minDuration /\ ParseDuration "3000000h" = None.
Proof. by vm_compute. Qed.

(** * Lemmas *)

Lemma read_digits_length acc n s :
  let '(_, k, rest) := read_digits acc n s in (String.length rest + k = String.length s + n)%nat.
Proof.
  revert acc n. induction s as [|c s IH]; intros acc n; cbn [read_digits]; [lia|].
  destruct (digit_value c) as [d|]; [|lia].
  specialize (IH (10 * acc + d) (S n)). destruct (read_digits _ _ s) as [[? ?] ?]. cbn [String.length]. lia.
Qed.

Lemma leadingFraction_length x sc o s :
  (String.length (leadingFraction x sc o s).2 <= String.length s)%nat.
Proof.
  revert x sc o. induction s as [|c s IH]; intros x sc o; cbn [leadingFraction]; [done|].
  destruct (digit_value c); [|done]. repeat case_match; cbn [String.length]; etrans; try apply IH; lia.
Qed.

Lemma read_unit_length s : (String.length (read_unit s).1 + String.length (read_unit s).2 = String.length s)%nat.
Proof.
  induction s as [|c s IH]; cbn [read_unit]; [done|]. destruct (_ || _); [done|].
  destruct (read_unit s) as [u rest]. cbn in *. lia.
Qed.

Lemma unitMap_pos u n : unitMap u = Some n -> 0 < n /\ (0 < String.length u)%nat.
Proof. unfold unitMap. repeat case_decide; intros [= <-]; subst; (split; [by vm_compute|cbn; lia]). Qed.

(** A component takes at least a character, and its value is within bounds. *)
Lemma read_component_shrinks s v rest :
  read_component s = Some (v, rest) -> (String.length rest < String.length s)%nat /\ v <= 2 ^ 63.
Proof.
  unfold read_component. pose proof (read_digits_length 0 0 s) as HL.
  destruct (read_digits 0 0 s) as [[d k] s1].
  set (fr := match s1 with EmptyString => _ | String _ _ => _ end).
  assert (String.length fr.2 <= String.length s1)%nat as HF.
  { subst fr. destruct s1 as [|c s']; [done|]. destruct (is_point c); [|done].
    pose proof (leadingFraction_length 0 1 false s'). destruct (leadingFraction 0 1 false s') as [[? ?] ?].
    cbn in *. lia. }
  destruct fr as [[[f scale] post] s2]. cbn [snd] in HF.
  destruct (_ <? d); [done|]. destruct (_ && _); [done|].
  pose proof (read_unit_length s2) as HU. destruct (read_unit s2) as [u rest']. cbn [fst snd] in HU.
  destruct (unitMap u) as [unit|] eqn:EU; [|done]. apply unitMap_pos in EU. cbn [mbind option_bind].
  destruct (_ <? d); [done|]. set (v' := d * unit + _). destruct (2 ^ 63 <? v') eqn:EV; [done|].
  intros [= <- <-]. apply Z.ltb_ge in EV. lia.
Qed.

(** The length of the text is fuel enough: more changes nothing. *)
Lemma read_components_fuel fuel d s :
  (String.length s <= fuel)%nat -> read_components fuel d s = read_components (String.length s) d s.
Proof.
  revert d s. assert (forall n fuel d s, (String.length s <= n)%nat -> (String.length s <= fuel)%nat ->
    read_components fuel d s = read_components n d s) as H.
  { intros n. induction n as [|n IH]; intros f d s Hn Hf.
    { destruct s; [|cbn in Hn; lia]. by destruct f. }
    destruct s as [|c s]; [by destruct f|]. destruct f as [|f]; [cbn in Hf; lia|].
    cbn [read_components]. destruct (read_component (String c s)) as [[v rest]|] eqn:E; [|done].
    apply read_component_shrinks in E as [E _]. destruct (_ <? _); [done|]. apply IH; lia. }
  intros d s Hf. by apply H.
Qed.

Lemma read_components_bound fuel d s r : d <= 2 ^ 63 -> read_components fuel d s = Some r -> r <= 2 ^ 63.
Proof.
  revert d s. induction fuel as [|fuel IH]; intros d s Hd; destruct s as [|c s]; cbn [read_components];
    try (intros [= <-]; done).
  destruct (read_component _) as [[v rest]|]; [|done]. destruct (2 ^ 63 <? d + v) eqn:E; [done|].
  apply Z.ltb_ge in E. by apply IH.
Qed.

(** ** Signs *)

(** Not a negative number. *)
Definition nonneg_float (x : spec_float) : Prop :=
  match x with S754_finite s _ _ => s = false | _ => True end.

Lemma round_aux_nonneg m e l : nonneg_float (binary_round_aux 53 1024 false m e l).
Proof.
  unfold binary_round_aux. destruct (shr_fexp _ _ m e l) as [mrs e1]. destruct (shr_fexp _ _ _ e1 _) as [mrs2 e2].
  destruct (shr_m mrs2); [done| |done]. by destruct (_ <=? _).
Qed.

Lemma float64_of_int_nonneg z : 0 <= z -> nonneg_float (float64_of_int z).
Proof.
  intros Hz. unfold float64_of_int, binary_normalize. destruct z as [|p|p]; [done| |lia].
  unfold binary_round. destruct (shl_align _ _ _) as [mz ez]. apply round_aux_nonneg.
Qed.

Lemma f64_mul_nonneg x y : nonneg_float x -> nonneg_float y -> nonneg_float (f64_mul x y).
Proof.
  unfold f64_mul, SFmul. destruct x as [| | |sx mx ex], y as [| | |sy my ey]; cbn [nonneg_float]; try done.
  intros -> ->. apply round_aux_nonneg.
Qed.

Lemma f64_div_nonneg x y : nonneg_float x -> nonneg_float y -> nonneg_float (f64_div x y).
Proof.
  unfold f64_div, SFdiv. destruct x as [| | |sx mx ex], y as [| | |sy my ey]; cbn [nonneg_float]; try done.
  intros -> ->. destruct (SFdiv_core_binary _ _ _ _ _ _) as [[mz ez] lz]. apply round_aux_nonneg.
Qed.

Lemma truncate_nonneg x : nonneg_float x -> 0 <= default 0 (truncate x).
Proof.
  destruct x as [| | |s m e]; cbn; try lia. intros ->. cbn. destruct (Z.leb_spec 0 e); [lia|].
  apply Z.div_pos; [lia|]. apply Z.pow_pos_nonneg; lia.
Qed.

Lemma read_digits_nonneg acc n s : 0 <= acc -> 0 <= (read_digits acc n s).1.1.
Proof.
  revert acc n. induction s as [|c s IH]; intros acc n Ha; cbn [read_digits]; [done|].
  unfold digit_value. destruct ((48 <=? _) && _) eqn:E; [|done]. apply IH.
  apply andb_true_iff in E as [E _]. apply Z.leb_le in E. lia.
Qed.

Lemma read_digits_pos n s : 0 <= (read_digits 0 n s).1.1.
Proof. by apply read_digits_nonneg. Qed.

Lemma leadingFraction_nonneg x sc o s :
  0 <= x -> 0 < sc -> 0 <= (leadingFraction x sc o s).1.1 /\ 0 < (leadingFraction x sc o s).1.2.
Proof.
  revert x sc o. induction s as [|c s IH]; intros x sc o Hx Hs; cbn [leadingFraction]; [done|].
  unfold digit_value. destruct ((48 <=? _) && _) eqn:E; [|done].
  apply andb_true_iff in E as [E _]. apply Z.leb_le in E. repeat case_match; apply IH; lia.
Qed.

Lemma read_component_nonneg s v rest : read_component s = Some (v, rest) -> 0 <= v.
Proof.
  unfold read_component. pose proof (read_digits_pos 0 s) as HD.
  destruct (read_digits 0 0 s) as [[d k] s1]. cbn [fst] in HD.
  set (fr := match s1 with EmptyString => _ | String _ _ => _ end).
  assert (0 <= fr.1.1.1 /\ 0 < fr.1.1.2) as HF.
  { subst fr. destruct s1 as [|c s']; [cbn; lia|]. destruct (is_point c); [|cbn; lia].
    pose proof (leadingFraction_nonneg 0 1 false s' ltac:(lia) ltac:(lia)).
    destruct (leadingFraction 0 1 false s') as [[? ?] ?]. done. }
  destruct fr as [[[f scale] post] s2]. cbn [fst snd] in HF.
  destruct (_ <? d); [done|]. destruct (_ && _); [done|]. destruct (read_unit s2) as [u rest'].
  destruct (unitMap u) as [unit|] eqn:EU; [|done]. apply unitMap_pos in EU. cbn [mbind option_bind].
  destruct (_ <? d); [done|].
  assert (0 <= fraction_of_unit f scale unit) as HP.
  { apply truncate_nonneg, f64_mul_nonneg; [|apply f64_div_nonneg]; apply float64_of_int_nonneg; lia. }
  destruct (2 ^ 63 <? _); [done|]. intros [= <- _]. destruct (0 <? f); nia.
Qed.

Lemma read_components_nonneg fuel d s r : 0 <= d -> read_components fuel d s = Some r -> 0 <= r.
Proof.
  revert d s. induction fuel as [|fuel IH]; intros d s Hd; destruct s as [|c s]; cbn [read_components];
    try (intros [= <-]; done).
  destruct (read_component _) as [[v rest]|] eqn:E; [|done]. apply read_component_nonneg in E.
  destruct (_ <? _); [done|]. apply IH. lia.
Qed.

(** A parsed duration is a 64-bit integer. *)
Lemma ParseDuration_fits s d : ParseDuration s = Some d -> fits 64 d.
Proof.
  unfold ParseDuration, fits. change (64 - 1) with 63. destruct (read_sign s) as [neg s1].
  case_decide; [intros [= <-]; lia|]. case_decide; [done|].
  destruct (read_components _ 0 s1) as [r|] eqn:E; [|done]. cbn [mbind option_bind].
  pose proof (read_components_bound _ 0 _ _ ltac:(lia) E). pose proof (read_components_nonneg _ 0 _ _ ltac:(lia) E).
  destruct neg; [intros [= <-]; lia|]. destruct (2 ^ 63 - 1 <? r) eqn:EM; [done|].
  apply Z.ltb_ge in EM. intros [= <-]. lia.
Qed.
