(* ===== verification/TaskQueue.v ===== *)
(** The task queue (internal/taskqueue): the leader publishes remediation tasks
    as objects of the API server, workers claim and run them, and the janitor
    expires and deletes them. *)

From S2P Require Import Prelude Types GoText GoTime.

(** * The objects *)

(** A timestamp field as [time.Parse(time.RFC3339, ...)] reads it: missing (the
    empty string), malformed, or a time.  [stamp_of] formats a time, which
    drops the fraction of the second. *)
Inductive stamp := NoStamp | BadStamp | At (t : Z).

Definition stamp_of (t : Z) : stamp := At (t - t mod Second).

Definition TaskPhasePending : string := "Pending".
Definition TaskPhaseRunning : string := "Running".
Definition TaskPhaseCompleted : string := "Completed".
Definition TaskPhaseFailed : string := "Failed".
Definition TaskPhaseExpired : string := "Expired".

(** An element of [spec.actions], when it is an object: its "type" if that is a
    string, its "order" if an integer, its "params" if an object. *)
Record rawaction := mkRawAction {
  ra_type : option string;
  ra_order : option Z;
  ra_params : option (gmap string param);
}.

Record taskresult := mkTaskResult {
  tr_success : bool;
  tr_message : string;
  tr_error : option string;
}.

Record Task := mkTask {
  t_name : string;
  t_uid : string;
  t_resourceVersion : Z;
  t_created : Z;
  t_scenarioID : string;
  t_scenarioName : string;
  t_detectionResultID : string;
  t_severity : string;
  t_target : string * string * string * string;
  t_actions : list (option rawaction);
  t_timeout : string;
  t_maxRetries : Z;
  t_phase : string;
  t_claimedBy : string;
  t_claimedAt : stamp;
  t_completedAt : stamp;
  t_actionsCompleted : Z;
  t_result : option taskresult;
}.

(** Replacing the status of a task. *)
Definition with_status (phase claimedBy : string) (claimedAt completedAt : stamp)
    (actionsCompleted : Z) (res : option taskresult) (t : Task) : Task :=
  mkTask (t_name t) (t_uid t) (t_resourceVersion t) (t_created t) (t_scenarioID t) (t_scenarioName t)
    (t_detectionResultID t) (t_severity t) (t_target t) (t_actions t) (t_timeout t) (t_maxRetries t)
    phase claimedBy claimedAt completedAt actionsCompleted res.

(** The phase a component sees: a task without one is pending. *)
Definition phase_of (t : Task) : string :=
  if decide (t_phase t = "") then TaskPhasePending else t_phase t.

(** * The publisher *)

(** A character of the name: [[a-z0-9.-]] after lowering, or a dash. *)
Definition name_char (r : Z) : Z :=
  let l := ToLower r in
  if between 97 122 l || between 48 57 l || (l =? 46) || (l =? 45) then l else 45.

Definition is_dash (r : Z) : bool := r =? 45.

Definition sanitizeForRFC1123 (s : string) : string :=
  let out := trim is_dash (trim is_space (name_char <$> runes s)) in
  match out with [] => "unknown" | _ => string_of out end.

(** The [%v] verb; floats are left to [show_float]. *)
Definition show_param (show_float : spec_float -> string) (p : param) : string :=
  match p with
  | PInt n => pretty n
  | PInt64 n => pretty n
  | PFloat f => show_float f
  | PString s => s
  | PBool b => if b then "true" else "false"
  | PNull => "<nil>"
  end.

Section publisher.
Context (show_float : spec_float -> string).
Context `{Sort : SliceSort ActionConfig ac_Order}.

Definition task_name (res : DetectionResult) (resource : ResourceReference) (unixMilli : Z) : string :=
  "task-" +:+ sanitizeForRFC1123 (dr_ScenarioID res) +:+ "-" +:+ sanitizeForRFC1123 (Name resource)
    +:+ "-" +:+ pretty unixMilli.

Definition crd_action (a : ActionConfig) : option rawaction :=
  Some (mkRawAction (Some (ac_Type a)) (Some (ac_Order a))
          (Some ((fun v => PString (show_param show_float v)) <$> ac_Params a))).

(** The object [Publish] asks the API server to create; the server sets the
    identifier, the resource version and the creation time. *)
Definition publish_object (res : DetectionResult) (resource : ResourceReference) (unixMilli : Z) : Task :=
  mkTask (task_name res resource unixMilli) "" 0 zero_time
    (dr_ScenarioID res) (dr_ScenarioName res) (dr_ID res) (severity_string (dr_Severity res))
    (APIVersion resource, Kind resource, Name resource, Namespace resource)
    (crd_action <$> slice_sort ac_Order (dr_RecommendedActions res))
    "60s" 3 "" "" NoStamp NoStamp 0 None.
End publisher.

(** * The API server *)

(** The operations on tasks of the dynamic client, on a cluster of type [W]. *)
Class TaskClient (W : Type) := {
  TaskCreate : W -> Task -> W * option string;
  TaskGet : W -> string -> result Task;
  TaskList : W -> result (list Task);
  TaskUpdateStatus : W -> Task -> W * option string;
  TaskDelete : W -> string -> W * option string;
}.

Section components.
Context {W : Type} `{TaskClient W}.
Context (show_float : spec_float -> string).
Context `{Sort : SliceSort ActionConfig ac_Order}.
(** The executor of the action layer; its first argument is the deadline of the
    context it works under. *)
Context (Execute : Z -> W -> ResourceReference -> ActionConfig -> outcome (W * (ActionResult * option string))).
Implicit Types w : W.

Definition Publish (unixMilli : Z) w (res : DetectionResult) (resource : ResourceReference)
  : W * result () :=
  match TaskCreate w (publish_object show_float res resource unixMilli) with
  | (w, Some e) => (w, Err ("create RemediationTask: " +:+ e))
  | (w, None) => (w, Ok ())
  end.

(** ** The worker *)

Inductive eventType := Added | Modified | Deleted | Bookmark | ErrorEvent.

(** The watch events on which [watchLoop] starts [claimAndExecute]. *)
Definition delivers (ty : eventType) (obj : Task) : bool :=
  match ty with
  | Added | Modified => bool_decide (phase_of obj = TaskPhasePending)
  | _ => false
  end.

Definition claim_status (identity : string) (now : Z) (obj : Task) : Task :=
  with_status TaskPhaseRunning identity (stamp_of now) (t_completedAt obj) (t_actionsCompleted obj)
    (t_result obj) obj.

(** An action read back; an element that is not an object is skipped. *)
Definition extract_action (raw : option rawaction) : option ActionConfig :=
  match raw with
  | None => None
  | Some m => Some (mkAction (default "" (ra_type m)) (default 0 (ra_order m)) (default ∅ (ra_params m)))
  end.

Definition extractFromTask (obj : Task) : ResourceReference * list ActionConfig :=
  let '(api, kind, name, ns) := t_target obj in
  (mkRef api kind ns name "", omap extract_action (t_actions obj)).

(** The state of the loop: [completed], [overallOK], the last result and error. *)
Record progress := mkProgress {
  pg_completed : Z;
  pg_ok : bool;
  pg_result : option ActionResult;
  pg_error : option string;
}.

Fixpoint run_sequence (deadline : Z) (acts : list ActionConfig) (resource : ResourceReference) (pg : progress) w
  : outcome (W * progress) :=
  match acts with
  | [] => Ret (w, pg)
  | ac :: acts =>
    x ← Execute deadline w resource ac;
    let '(w, (r, err)) := x in
    match err with
    | Some _ => Ret (w, mkProgress (pg_completed pg) false (Some r) err)
    | None =>
      if decide (ar_Status r = ActionStatusFailed)
      then Ret (w, mkProgress (pg_completed pg) false (Some r) None)
      else run_sequence deadline acts resource (mkProgress (i32 (pg_completed pg + 1)) (pg_ok pg) (Some r) None) w
    end
  end.

Definition start_progress : progress := mkProgress 0 true None None.

(** The status written at the end; the zero [ActionResult] has empty texts. *)
Definition final_status (now : Z) (pg : progress) (obj : Task) : Task :=
  let msg := default "" (ar_Message <$> pg_result pg) in
  let err := default "" (ar_Error <$> pg_result pg) in
  with_status (if pg_ok pg then TaskPhaseCompleted else TaskPhaseFailed)
    (t_claimedBy obj) (t_claimedAt obj) (stamp_of now) (pg_completed pg)
    (Some (mkTaskResult (pg_ok pg) msg
      (match pg_error pg with
       | Some e => Some e
       | None => if decide (err = "") then None else Some err
       end))) obj.

Definition updateTaskStatus (now : Z) (taskName : string) (pg : progress) w : W :=
  match TaskGet w taskName with
  | Err _ => w
  | Ok obj => (TaskUpdateStatus w (final_status now pg obj)).1
  end.

(** The task's own timeout, or a minute. *)
Definition taskTimeout (obj : Task) : duration :=
  match ParseDuration (t_timeout obj) with
  | Some d => if 0 <? d then d else 60 * Second
  | None => 60 * Second
  end.

(** [t1], [tx] and [t2] are the clock readings of the claim, of the context for
    the actions, and of the final status; the boolean says whether the claim
    succeeded. *)
Definition claimAndExecute (identity : string) (t1 tx t2 : Z) (obj : Task) w : outcome (W * bool) :=
  let obj := claim_status identity t1 obj in
  match TaskUpdateStatus w obj with
  | (w, Some _) => Ret (w, false)
  | (w, None) =>
    let '(resource, actions) := extractFromTask obj in
    x ← run_sequence (time_Add tx (taskTimeout obj)) (slice_sort ac_Order actions) resource
          start_progress w;
    let '(w, pg) := x in
    Ret (updateTaskStatus t2 (t_name obj) pg w, true)
  end.

(** ** The janitor *)

Record TaskQueueConfig := mkTaskQueueConfig {
  ActiveDeadline : Z;
  RetentionPeriod : Z;
  TrailingRetention : Z;
}.

Section janitor.
Context (cfg : TaskQueueConfig).

Definition terminalTime (obj : Task) : Z :=
  match t_completedAt obj with At t => t | _ => zero_time end.

(** The timestamp that retention looks at. *)
Definition retained_from (obj : Task) : Z :=
  let ts := terminalTime obj in if time_IsZero ts then t_created obj else ts.

Definition isStuck (now : Z) (obj : Task) : bool :=
  match t_claimedAt obj with
  | At claimedAt => time_After now (time_Add claimedAt (ActiveDeadline cfg))
  | _ => false
  end.

Definition isPastRetention (now : Z) (obj : Task) : bool :=
  let ts := terminalTime obj in
  if negb (time_IsZero ts) then time_After now (time_Add ts (RetentionPeriod cfg))
  else time_After now (time_Add (t_created obj) (RetentionPeriod cfg)).

Definition shouldDeleteTerminal (now tLast : Z) (obj : Task) : bool :=
  if (0 <? TrailingRetention cfg) && negb (time_IsZero tLast) then
    time_Before (retained_from obj) (time_Add tLast (- TrailingRetention cfg))
  else isPastRetention now obj.

Definition is_terminal (phase : string) : bool :=
  bool_decide (phase = TaskPhaseCompleted) || bool_decide (phase = TaskPhaseFailed) ||
  bool_decide (phase = TaskPhaseExpired).

Definition last_terminal (items : list Task) : Z :=
  if 0 <? TrailingRetention cfg then
    foldl (fun tLast obj =>
      if negb (is_terminal (phase_of obj)) then tLast
      else if time_After (retained_from obj) tLast then retained_from obj else tLast) zero_time items
  else zero_time.

Definition expired_status (now : Z) (obj : Task) (duration_text : string) : Task :=
  with_status TaskPhaseExpired (t_claimedBy obj) (t_claimedAt obj) (stamp_of now) (t_actionsCompleted obj)
    (Some (mkTaskResult false ("Expired: stuck in Running for longer than " +:+ duration_text) None)) obj.

(** [show_duration]: the [%s] verb on the deadline. *)
Context (show_duration : Z -> string).

Definition expireTask (now : Z) (obj : Task) w : W :=
  (TaskUpdateStatus w (expired_status now obj (show_duration (ActiveDeadline cfg)))).1.

Definition deleteTask (obj : Task) w : W := (TaskDelete w (t_name obj)).1.

Record counts := mkCounts {
  n_pending : Z; n_running : Z; n_completed : Z; n_failed : Z; n_expired : Z;
  n_expiredCount : Z; n_deletedCount : Z;
}.

(** One task of the sweep; [later] is the clock reading of [expireTask]. *)
Definition sweep_one (now tLast : Z) (later : Task -> Z) (wc : W * counts) (obj : Task) : W * counts :=
  let '(w, c) := wc in
  let '(mkCounts p r co f e ec dc) := c in
  let phase := phase_of obj in
  if decide (phase = TaskPhasePending) then (w, mkCounts (p + 1) r co f e ec dc)
  else if decide (phase = TaskPhaseRunning) then
    if isStuck now obj then (expireTask (later obj) obj w, mkCounts p r co f (e + 1) (ec + 1) dc)
    else (w, mkCounts p (r + 1) co f e ec dc)
  else if decide (phase = TaskPhaseCompleted) then
    if shouldDeleteTerminal now tLast obj then (deleteTask obj w, mkCounts p r co f e ec (dc + 1))
    else (w, mkCounts p r (co + 1) f e ec dc)
  else if decide (phase = TaskPhaseFailed) then
    if shouldDeleteTerminal now tLast obj then (deleteTask obj w, mkCounts p r co f e ec (dc + 1))
    else (w, mkCounts p r co (f + 1) e ec dc)
  else if decide (phase = TaskPhaseExpired) then
    if shouldDeleteTerminal now tLast obj then (deleteTask obj w, mkCounts p r co f e ec (dc + 1))
    else (w, mkCounts p r co f (e + 1) ec dc)
  else (w, c).

Definition sweep (now : Z) (later : Task -> Z) w : W * option counts :=
  match TaskList w with
  | Err _ => (w, None)
  | Ok items =>
    let '(w, c) := foldl (sweep_one now (last_terminal items) later)
                     (w, mkCounts 0 0 0 0 0 0 0) items in
    (w, Some c)
  end.
End janitor.

End components.
