(* ===== verification/TaskSystem.v ===== *)
(** Workers, janitor and publisher against one API server: what the server
    promises, the system of components as a transition system, and the claim
    protocol. *)

From S2P Require Import Prelude Types TaskQueue.

(** * What the API server promises *)

(** The stored objects, the revision counter behind resource versions, and the
    identifiers ever given out. *)
Class TaskStore (W : Type) := {
  lookup_task : W -> string -> option Task;
  revision : W -> Z;
  used : W -> string -> Prop;
}.

Section effects.
Context {W : Type} `{TaskStore W}.
Implicit Types w : W.

(** Nothing happened to the tasks; the cluster may have changed elsewhere. *)
Record unchanged w w' : Prop := {
  un_lookup n : lookup_task w' n = lookup_task w n;
  un_revision : revision w <= revision w';
  un_used u : used w u -> used w' u;
}.

(** The object stored under [n] was replaced by [new] (or removed), which
    carries a resource version that was never used before. *)
Record replaced w (n : string) (new : option Task) w' : Prop := {
  re_lookup m : lookup_task w' m = if decide (n = m) then new else lookup_task w m;
  re_fresh t : new = Some t -> revision w < t_resourceVersion t <= revision w';
  re_revision : revision w <= revision w';
  re_used u : used w u -> used w' u;
}.

(** [new] is [cur] with the status of [t], at another version. *)
Definition status_of (t cur new : Task) : Prop :=
  exists rv, new = with_status (t_phase t) (t_claimedBy t) (t_claimedAt t) (t_completedAt t)
    (t_actionsCompleted t) (t_result t)
    (mkTask (t_name cur) (t_uid cur) rv (t_created cur) (t_scenarioID cur) (t_scenarioName cur)
       (t_detectionResultID cur) (t_severity cur) (t_target cur) (t_actions cur) (t_timeout cur)
       (t_maxRetries cur) (t_phase cur) (t_claimedBy cur) (t_claimedAt cur) (t_completedAt cur)
       (t_actionsCompleted cur) (t_result cur)).

(** A status update that took effect: the version it named was the current one. *)
Definition updated w (t : Task) w' : Prop :=
  exists cur new, lookup_task w (t_name t) = Some cur /\
    t_resourceVersion cur = t_resourceVersion t /\ status_of t cur new /\
    replaced w (t_name t) (Some new) w'.
End effects.

(** Optimistic concurrency as the Kubernetes API documents it.  A call that
    reports an error may still have taken effect (a lost answer). *)
Class TaskServer (W : Type) `{TaskClient W, TaskStore W} := {
  Get_stored (w : W) n t : TaskGet w n = Ok t -> lookup_task w n = Some t;
  List_stored (w : W) l t : TaskList w = Ok l -> t ∈ l -> lookup_task w (t_name t) = Some t;
  stored_name (w : W) n t : lookup_task w n = Some t -> t_name t = n;
  stored_version (w : W) n t : lookup_task w n = Some t -> t_resourceVersion t <= revision w;
  stored_used (w : W) n t : lookup_task w n = Some t -> used w (t_uid t);
  version_inj (w : W) n1 n2 t1 t2 :
    lookup_task w n1 = Some t1 -> lookup_task w n2 = Some t2 ->
    t_resourceVersion t1 = t_resourceVersion t2 -> t1 = t2;
  uid_inj (w : W) n1 n2 t1 t2 :
    lookup_task w n1 = Some t1 -> lookup_task w n2 = Some t2 -> t_uid t1 = t_uid t2 -> t1 = t2;
  UpdateStatus_ok (w : W) t w' : TaskUpdateStatus w t = (w', None) -> updated w t w';
  UpdateStatus_err (w : W) t w' e :
    TaskUpdateStatus w t = (w', Some e) -> unchanged w w' \/ updated w t w';
  Create_effect (w : W) t w' r :
    TaskCreate w t = (w', r) ->
    unchanged w w' \/ exists new, lookup_task w (t_name t) = None /\ t_name new = t_name t /\
      ~ used w (t_uid new) /\ replaced w (t_name t) (Some new) w';
  Delete_effect (w : W) n w' r :
    TaskDelete w n = (w', r) -> unchanged w w' \/ replaced w n None w';
}.

(** * The system *)

Section system.
Context {W : Type} `{TaskServer W}.
Context (show_float : spec_float -> string) (show_duration : Z -> string).
Context `{Sort : !SliceSort ActionConfig ac_Order}.
Implicit Types w : W.

(** A configuration: the cluster, and the objects any component has read.  Every
    write below is one call of the modelled components, on an object read
    earlier - how much earlier is not restricted. *)
Abbreviation sconf := (W * list Task)%type.

Inductive slabel :=
  | SRead (t : Task)
  | SClaim (t : Task) (won : bool)
  | SOther.

Inductive sstep : sconf -> slabel -> sconf -> Prop :=
  | s_read w seen n t :
      lookup_task w n = Some t -> sstep (w, seen) (SRead t) (w, t :: seen)
  | s_claim w seen t ty identity now w' r :
      t ∈ seen -> delivers ty t = true ->
      TaskUpdateStatus w (claim_status identity now t) = (w', r) ->
      sstep (w, seen) (SClaim t (bool_decide (r = None))) (w', seen)
  | s_finish w seen t now pg w' r :
      t ∈ seen -> TaskUpdateStatus w (final_status now pg t) = (w', r) ->
      sstep (w, seen) SOther (w', seen)
  | s_expire w seen t now text w' r :
      t ∈ seen -> TaskUpdateStatus w (expired_status now t text) = (w', r) ->
      sstep (w, seen) SOther (w', seen)
  | s_delete w seen n w' r : TaskDelete w n = (w', r) -> sstep (w, seen) SOther (w', seen)
  | s_publish w seen ms res resource w' r :
      TaskCreate w (publish_object show_float res resource ms) = (w', r) ->
      sstep (w, seen) SOther (w', seen)
  | s_cluster w seen w' : unchanged w w' -> sstep (w, seen) SOther (w', seen).

Inductive strace : sconf -> list slabel -> sconf -> Prop :=
  | strace_nil c : strace c [] c
  | strace_cons c1 l c2 ls c3 : sstep c1 l c2 -> strace c2 ls c3 -> strace c1 (l :: ls) c3.

(** The claims of the task with identifier [u] that a worker won. *)
Definition won (u : string) (l : slabel) : bool :=
  match l with SClaim t true => bool_decide (t_uid t = u) | _ => false end.

Fixpoint claims (u : string) (ls : list slabel) : nat :=
  match ls with [] => O | l :: ls => ((if won u l then 1 else 0) + claims u ls)%nat end.

(** What has been read is no newer than what is stored, and is the stored object
    itself when the versions agree. *)
Definition seen_ok (c : sconf) : Prop :=
  forall t, t ∈ c.2 -> t_resourceVersion t <= revision c.1 /\
    forall n cur, lookup_task c.1 n = Some cur ->
      (t_resourceVersion cur = t_resourceVersion t -> cur = t) /\
      (t_uid cur = t_uid t -> t_resourceVersion t <= t_resourceVersion cur).

(** After a claim of [u] was won at version [K]: no later version is pending. *)
Definition claimed_at (u : string) (K : Z) (c : sconf) : Prop :=
  K <= revision c.1 /\ used c.1 u /\
  (forall t, t ∈ c.2 -> t_uid t = u -> phase_of t = TaskPhasePending -> t_resourceVersion t <= K) /\
  (forall n t, lookup_task c.1 n = Some t -> t_uid t = u ->
     K < t_resourceVersion t /\ phase_of t <> TaskPhasePending).

(** ** The three effects *)

Lemma unchanged_seen w w' seen : unchanged w w' -> seen_ok (w, seen) -> seen_ok (w', seen).
Proof.
  intros [Hl Hr Hu] Hs t Ht. destruct (Hs t Ht) as [H3 H4]. simpl in *.
  split; [lia|]. intros n cur. rewrite Hl. apply H4.
Qed.

Lemma unchanged_claimed u K w w' seen :
  unchanged w w' -> claimed_at u K (w, seen) -> claimed_at u K (w', seen).
Proof.
  intros [Hl Hr Hu] (H3 & H4 & H5 & H6). unfold claimed_at in *. simpl in *.
  split; [lia|]. split; [auto|]. split; [done|]. intros n t. rewrite Hl. apply H6.
Qed.

Lemma replaced_seen w w' seen n new :
  replaced w n new w' -> seen_ok (w, seen) -> seen_ok (w', seen).
Proof.
  intros [Hl Hf Hr Hu] Hs t Ht. destruct (Hs t Ht) as [H3 H4]. simpl in *.
  split; [lia|]. intros m cur. rewrite Hl. case_decide; [|apply H4].
  intros ->. specialize (Hf cur eq_refl). split; intros; lia.
Qed.

Lemma replaced_claimed u K w w' seen n new :
  replaced w n new w' -> claimed_at u K (w, seen) ->
  (forall t, new = Some t -> t_uid t = u -> phase_of t <> TaskPhasePending) ->
  claimed_at u K (w', seen).
Proof.
  intros [Hl Hf Hr Hu] (H3 & H4 & H5 & H6) Hnew. unfold claimed_at in *. simpl in *.
  split; [lia|]. split; [auto|]. split; [done|].
  intros m t. rewrite Hl. case_decide; [|apply H6]. intros -> Hut.
  specialize (Hf t eq_refl). split; [lia|by apply Hnew].
Qed.

(** A status update of an object that was read replaces that very object. *)
Lemma updated_current w w' seen told t :
  seen_ok (w, seen) -> told ∈ seen -> t_name t = t_name told ->
  t_resourceVersion t = t_resourceVersion told -> updated w t w' ->
  lookup_task w (t_name told) = Some told /\
  exists new, t_uid new = t_uid told /\ t_phase new = t_phase t /\ replaced w (t_name told) (Some new) w'.
Proof.
  intros Hs Hin0 Hn Hv (cur & new & Hl & Hrv & (rv & Hst) & Hre). rewrite Hn in *.
  destruct (Hs told Hin0) as [_ Hcur]. simpl in *.
  assert (cur = told) as -> by (eapply Hcur; [done|congruence]).
  split; [done|]. exists new. by subst new.
Qed.

Lemma nonpending_update u K w w' seen told t :
  seen_ok (w, seen) -> told ∈ seen -> t_name t = t_name told ->
  t_resourceVersion t = t_resourceVersion told -> phase_of t <> TaskPhasePending ->
  unchanged w w' \/ updated w t w' ->
  seen_ok (w', seen) /\ (claimed_at u K (w, seen) -> claimed_at u K (w', seen)).
Proof.
  intros Hs Hin0 Hn Hv Hp [Hc|Hc].
  - split; [by eapply unchanged_seen|by apply unchanged_claimed].
  - destruct (updated_current w w' seen told t Hs Hin0 Hn Hv Hc) as (_ & new & _ & Hph & Hre).
    split; [by eapply replaced_seen|]. intros HC. eapply replaced_claimed; [done..|].
    intros ? [= <-] _. unfold phase_of in *. by rewrite Hph.
Qed.

Lemma update_effect w t w' r :
  TaskUpdateStatus w t = (w', r) -> unchanged w w' \/ updated w t w'.
Proof. destruct r; [apply UpdateStatus_err|]. right. by apply UpdateStatus_ok. Qed.

Lemma claim_nonpending identity now t : phase_of (claim_status identity now t) <> TaskPhasePending.
Proof. done. Qed.

Lemma final_nonpending now pg t : phase_of (final_status now pg t) <> TaskPhasePending.
Proof. unfold final_status, with_status, phase_of. simpl. by destruct (pg_ok pg). Qed.

Lemma expired_nonpending now t text : phase_of (expired_status now t text) <> TaskPhasePending.
Proof. done. Qed.

(** ** Steps *)

Lemma sstep_inv u K c l c' :
  sstep c l c' -> seen_ok c ->
  seen_ok c' /\ (claimed_at u K c -> claimed_at u K c').
Proof.
  intros Hs HC. destruct Hs as [w seen n t Hl|w seen t ty identity now w' r Hin Hd Hu|
    w seen t now pg w' r Hin Hu|w seen t now text w' r Hin Hu|w seen n w' r Hd|
    w seen ms res resource w' r Hcr|w seen w' Hun].
  - split.
    + intros t' Ht'. simpl in *. apply elem_of_cons in Ht' as [->|Ht']; [|by apply HC].
      split; [by eapply stored_version|]. intros m cur Hm. split; intros E.
      * by eapply version_inj.
      * by rewrite (uid_inj _ _ _ _ _ Hm Hl E).
    + intros (H3 & H4 & H5 & H6). unfold claimed_at in *. simpl in *. do 2 (split; [done|]). split; [|done].
      intros t' Ht' Hut Hp. apply elem_of_cons in Ht' as [->|Ht']; [|by apply H5].
      by destruct (H6 n t Hl Hut) as [_ []].
  - eapply (nonpending_update u K w w' seen t (claim_status identity now t)); try done.
    by eapply update_effect.
  - eapply (nonpending_update u K w w' seen t (final_status now pg t)); try done;
      [apply final_nonpending|by eapply update_effect].
  - eapply (nonpending_update u K w w' seen t (expired_status now t text)); try done.
    by eapply update_effect.
  - destruct (Delete_effect w n w' r Hd) as [Hc|Hc].
    + split; [by eapply unchanged_seen|by apply unchanged_claimed].
    + split; [by eapply replaced_seen|]. intros HK. by eapply replaced_claimed.
  - destruct (Create_effect w _ w' r Hcr) as [Hc|(new & _ & _ & Hfresh & Hc)].
    + split; [by eapply unchanged_seen|by apply unchanged_claimed].
    + split; [by eapply replaced_seen|]. intros HK. eapply replaced_claimed; [done..|].
      intros ? [= <-] Hut. destruct HK as (_ & Hused & _). simpl in *. by subst.
  - split; [by eapply unchanged_seen|by apply unchanged_claimed].
Qed.

(** Winning a claim starts the reign of [claimed_at], and needs its absence. *)
Lemma claim_won u c t c' :
  sstep c (SClaim t true) c' -> seen_ok c -> t_uid t = u ->
  claimed_at u (t_resourceVersion t) c' /\ forall K, ~ claimed_at u K c.
Proof.
  intros Hs HC Hut. inversion Hs as [|w seen ? ty identity now w' r Hin Hd Hu| | | | |]; subst.
  match goal with E : bool_decide (r = None) = true |- _ =>
    rewrite E in Hd; apply bool_decide_eq_true_1 in E; subst r end.
  apply UpdateStatus_ok in Hu.
  destruct (updated_current w w' seen t (claim_status identity now t) HC Hin eq_refl eq_refl Hu)
    as (Hcur & new & Hnu & Hnp & Hre).
  destruct (HC t Hin) as [Hv Huniq]. simpl in *.
  pose proof Hre as [Hl Hf Hr Hus]. specialize (Hf new eq_refl).
  split.
  - unfold claimed_at. simpl. split; [lia|]. split; [apply Hus; by eapply stored_used|].
    assert (phase_of new <> TaskPhasePending) as Hph by (unfold phase_of; by rewrite Hnp).
    split.
    + intros t' Ht' Hut' _. destruct (HC t' Ht') as [_ Huniq'].
      apply (Huniq' _ _ Hcur). congruence.
    + intros n t' Hn Hut'. assert (lookup_task w' (t_name t) = Some new) as Hnew.
      { rewrite Hl. by rewrite decide_True. }
      assert (t' = new) as -> by (eapply uid_inj; [done..|congruence]). split; [lia|done].
  - intros K (_ & _ & _ & HK). destruct (HK _ _ Hcur eq_refl) as [_ Hph]. apply Hph.
    unfold delivers in Hd. by destruct ty; try done; apply bool_decide_eq_true in Hd.
Qed.

Lemma claims_once u K ls c c' :
  strace c ls c' -> seen_ok c -> claimed_at u K c -> claims u ls = 0%nat.
Proof.
  induction 1 as [|c1 l c2 ls c3 Hs Ht IH]; intros HC HK; [done|]. cbn [claims].
  destruct (sstep_inv u K _ _ _ Hs HC) as [HC' HK']. rewrite (IH HC' (HK' HK)).
  destruct (won u l) eqn:E; [|done]. exfalso.
  destruct l as [|t [|]|]; try done. simpl in E. apply bool_decide_eq_true in E.
  destruct (claim_won u _ _ _ Hs HC E) as [_ Hno]. by apply (Hno K).
Qed.

(** C5: a task is claimed at most once.  In a system of any number of workers,
    janitors and publishers that share one API server - every write made from an
    arbitrarily old read, answers lost, tasks expired, finished and deleted in
    any order - at most one claim of a task is ever won.  In particular a task
    that failed or got stuck is not tried again, although the comments on the
    API type speak of a retry that takes Failed back to Pending. *)
Theorem task_claimed_at_most_once w u ls c :
  strace (w, []) ls c -> (claims u ls <= 1)%nat.
Proof.
  assert (seen_ok (w, [])) as HC0 by (intros t Ht; by apply elem_of_nil in Ht).
  generalize dependent (w, ([] : list Task)). intros c0 HC0 Ht. 
  induction Ht as [|c1 l c2 ls c3 Hs Ht IH]; [simpl; lia|]. cbn [claims].
  destruct (sstep_inv u 0 _ _ _ Hs HC0) as [HC' _].
  destruct (won u l) eqn:E; [|simpl; auto].
  destruct l as [|t [|]|]; try done. simpl in E. apply bool_decide_eq_true in E.
  destruct (claim_won u _ _ _ Hs HC0 E) as [HK _]. by rewrite (claims_once u _ _ _ _ Ht HC' HK).
Qed.

End system.

(** * A server that keeps the promises *)

(** One slot, a revision counter, and the identifiers given out so far. *)
Definition slot_server : Type := option Task * Z * list string.

Definition with_identity (uid : string) (rv : Z) (t : Task) : Task :=
  mkTask (t_name t) uid rv (t_created t) (t_scenarioID t) (t_scenarioName t) (t_detectionResultID t)
    (t_severity t) (t_target t) (t_actions t) (t_timeout t) (t_maxRetries t) (t_phase t) (t_claimedBy t)
    (t_claimedAt t) (t_completedAt t) (t_actionsCompleted t) (t_result t).

Definition slot_lookup (w : slot_server) (n : string) : option Task :=
  match w.1.1 with
  | Some t => if decide (t_name t = n) then Some (with_identity (t_uid t) w.1.2 t) else None
  | None => None
  end.

#[local] Instance slot_client : TaskClient slot_server := {|
  TaskCreate w t :=
    match w.1.1 with
    | Some _ => (w, Some "exists")
    | None => let uid := fresh w.2 in ((Some (with_identity uid 0 t), w.1.2 + 1, uid :: w.2), None)
    end;
  TaskGet w n := match slot_lookup w n with Some t => Ok t | None => Err "not found" end;
  TaskList w := Ok (match w.1.1 with Some t => [with_identity (t_uid t) w.1.2 t] | None => [] end);
  TaskUpdateStatus w t :=
    match slot_lookup w (t_name t) with
    | Some cur =>
      if decide (t_resourceVersion cur = t_resourceVersion t) then
        ((Some (with_status (t_phase t) (t_claimedBy t) (t_claimedAt t) (t_completedAt t)
                  (t_actionsCompleted t) (t_result t) cur), w.1.2 + 1, w.2), None)
      else (w, Some "conflict")
    | None => (w, Some "not found")
    end;
  TaskDelete w n :=
    match slot_lookup w n with
    | Some t => ((None, w.1.2 + 1, t_uid t :: w.2), None)
    | None => (w, Some "not found")
    end;
|}.

#[local] Instance slot_store : TaskStore slot_server := {|
  lookup_task := slot_lookup;
  revision w := w.1.2;
  used w u := u ∈ w.2 \/ exists t, w.1.1 = Some t /\ t_uid t = u;
|}.

Lemma slot_lookup_Some w n t :
  slot_lookup w n = Some t -> exists t0, w.1.1 = Some t0 /\ t_name t0 = n /\ t = with_identity (t_uid t0) w.1.2 t0.
Proof. unfold slot_lookup. destruct (w.1.1) as [t0|]; [|done]. case_decide; [|done]. intros [= <-]. eauto. Qed.

Lemma slot_unchanged (w : slot_server) : unchanged w w.
Proof. by split. Qed.

Lemma slot_update_ok (w : slot_server) t w' : TaskUpdateStatus w t = (w', None) -> updated w t w'.
Proof.
  simpl. destruct (slot_lookup w (t_name t)) as [cur|] eqn:E; [|done]. case_decide as D; [|done].
  intros [= <-]. destruct (slot_lookup_Some _ _ _ E) as (t0 & E0 & En & ->).
  eexists _, _. split; [exact E|]. split; [exact D|]. split; [by exists (w.1.2 + 1)|].
  split; simpl.
  - intros m. unfold slot_lookup at 1. simpl. rewrite En.
    case_decide; [unfold with_identity, with_status; simpl; by rewrite En|].
    unfold slot_lookup. rewrite E0. by rewrite decide_False by congruence.
  - intros t' [= <-]. simpl. lia.
  - lia.
  - intros u [Hu|(t1 & Ht1 & Hu)]; [by left|right]. eexists. split; [done|]. simpl. congruence.
Qed.

#[local] Instance slot_TaskServer : TaskServer slot_server.
Proof.
  split.
  - intros w n t. simpl. destruct (slot_lookup w n); [by intros [= ->]|done].
  - intros w l t. simpl. intros [= <-]. unfold slot_lookup. destruct (w.1.1) as [t0|]; [|by rewrite elem_of_nil].
    rewrite list_elem_of_singleton. intros ->. by rewrite decide_True.
  - intros w n t E. by destruct (slot_lookup_Some _ _ _ E) as (t0 & _ & <- & ->).
  - intros w n t E. destruct (slot_lookup_Some _ _ _ E) as (t0 & _ & _ & ->). simpl. lia.
  - intros w n t E. destruct (slot_lookup_Some _ _ _ E) as (t0 & E0 & _ & ->). right. eauto.
  - intros w n1 n2 t1 t2 E1 E2 _. destruct (slot_lookup_Some _ _ _ E1) as (? & ? & _ & ->).
    destruct (slot_lookup_Some _ _ _ E2) as (? & ? & _ & ->). congruence.
  - intros w n1 n2 t1 t2 E1 E2 _. destruct (slot_lookup_Some _ _ _ E1) as (? & ? & _ & ->).
    destruct (slot_lookup_Some _ _ _ E2) as (? & ? & _ & ->). congruence.
  - apply slot_update_ok.
  - intros w t w' e. simpl. destruct (slot_lookup w (t_name t)) as [cur|]; [case_decide|];
      intros [= <- _]; try done; left; apply slot_unchanged.
  - intros [[[t0|] rv] us] t w' r; simpl; [intros [= <- _]; left; apply slot_unchanged|].
    intros [= <- _]. right. exists (with_identity (fresh us) (rv + 1) t).
    split; [done|]. split; [done|]. split; [intros [Hu|(? & ? & _)]; [by apply infinite_is_fresh in Hu|done]|].
    split; simpl.
    + intros m. unfold slot_lookup. simpl. by case_decide.
    + intros t' [= <-]. simpl. lia.
    + lia.
    + intros u [Hu|(? & ? & _)]; [|done]. left. by right.
  - intros w n w' r. simpl. destruct (slot_lookup w n) as [t|] eqn:E; intros [= <- _];
      [right|left; apply slot_unchanged].
    destruct (slot_lookup_Some _ _ _ E) as (t0 & E0 & En & ->). split; simpl.
    + intros m. case_decide; [done|]. unfold slot_lookup. rewrite E0. by rewrite decide_False by congruence.
    + done.
    + lia.
    + intros u [Hu|(t1 & Ht1 & Hu)]; left; [by right|]. apply elem_of_cons. left. congruence.
Qed.

#[local] Instance demo_sort : SliceSort ActionConfig ac_Order := insertion_SliceSort ac_Order.

Definition demo_task : Task :=
  with_identity "u1" 1 (publish_object (fun _ => "") 
    (mkDetectionResult "det" "S1" "oom" (mkRef "apps/v1" "Deployment" "prod" "web" "d") SeverityHigh 0 0 1 true "m"
       [mkAction "scaleUp" 1 ∅]) (mkRef "apps/v1" "Deployment" "prod" "web" "d") 7).

Definition demo_slot : slot_server := (Some demo_task, 1, []).
Definition demo_slot' : slot_server := (TaskUpdateStatus demo_slot (claim_status "worker-0" 9 demo_task)).1.

(** One worker wins the claim; another, with the same read, loses it. *)
Lemma task_claimed_at_most_once_witness :
  strace (fun _ => "") (demo_slot, []) [SRead demo_task; SClaim demo_task true; SClaim demo_task false]
    (demo_slot', [demo_task]) /\
  (claims "u1" [SRead demo_task; SClaim demo_task true; SClaim demo_task false] <= 1)%nat.
Proof.
  assert (strace (fun _ => "") (demo_slot, []) [SRead demo_task; SClaim demo_task true; SClaim demo_task false]
    (demo_slot', [demo_task])) as Ht.
  { eapply strace_cons; [apply (s_read _ _ _ (t_name demo_task)); by vm_compute|].
    eapply strace_cons.
    - apply (s_claim _ _ _ demo_task Added "worker-0" 9 demo_slot' None); [by left|by vm_compute|by vm_compute].
    - eapply strace_cons; [|apply strace_nil].
      apply (s_claim _ _ _ demo_task Added "worker-1" 9 demo_slot' (Some "conflict"));
        [by left|by vm_compute|by vm_compute]. }
  split; [exact Ht|]. exact (task_claimed_at_most_once (fun _ => "") _ "u1" _ _ Ht).
Defined.
