(* ===== verification/TaskQueueProps.v ===== *)
(** The properties of publisher, worker and janitor: what a published task says,
    what a worker runs, and what a sweep expires, deletes and counts. *)

From S2P Require Import Prelude Types GoText GoNum GoTime Action TaskQueue TaskSystem.

(** * Names *)

(** The characters of a name. *)
Definition name_ok (r : Z) : Prop := 97 <= r <= 122 \/ 48 <= r <= 57 \/ r = 46 \/ r = 45.

Lemma between_spec lo hi r : between lo hi r = true <-> lo <= r <= hi.
Proof. unfold between. rewrite andb_true_iff, !Z.leb_le. done. Qed.

Lemma name_char_ok r : name_ok (name_char r).
Proof.
  unfold name_char, name_ok. destruct (_ || _) eqn:E; [|lia].
  rewrite !orb_true_iff, !between_spec, !Z.eqb_eq in E. lia.
Qed.

Lemma name_char_id r : name_ok r -> name_char r = r.
Proof.
  unfold name_ok, name_char. intros Hr. assert (ToLower r = r) as ->.
  { unfold ToLower. destruct (between 65 90 r) eqn:E1; [apply between_spec in E1; lia|].
    destruct (r =? 8490) eqn:E2; [lia|]. destruct (r =? 304) eqn:E3; lia. }
  destruct (_ || _) eqn:E; [done|]. exfalso. apply not_true_iff_false in E. apply E.
  rewrite !orb_true_iff, !between_spec, !Z.eqb_eq. lia.
Qed.

Lemma name_ok_not_space r : name_ok r -> is_space r = false.
Proof.
  unfold name_ok, is_space. intros Hr. apply not_true_iff_false.
  rewrite !orb_true_iff, between_spec, !Z.eqb_eq. lia.
Qed.

(** ASCII text decodes to itself. *)
Lemma byte_of_ascii r : 0 <= r < 256 -> byte_of (Ascii.ascii_of_nat (Z.to_nat r)) = r.
Proof. intros. unfold byte_of. rewrite Ascii.nat_ascii_embedding by lia. lia. Qed.

Lemma runes_string_of l : Forall (fun r => 0 <= r < 128) l -> runes (string_of l) = l.
Proof.
  intros H. unfold runes. assert (String.length (string_of l) = length l) as -> by (induction l; simpl; [done|inversion H; auto]).
  induction H as [|r l Hr Hl IH]; cbn [decode string_of length]; [done|].
  rewrite byte_of_ascii by lia. destruct (r <? 128) eqn:E; [by rewrite IH|]. apply Z.ltb_ge in E. lia.
Qed.

Lemma trim_left_id f l : (forall r, head l = Some r -> f r = false) -> trim_left f l = l.
Proof. destruct l as [|r l]; simpl; [done|]. intros H. by rewrite (H r eq_refl). Qed.

Lemma trim_id f l :
  (forall r, head l = Some r -> f r = false) -> (forall r, last l = Some r -> f r = false) -> trim f l = l.
Proof.
  intros Hh Hl. unfold trim. rewrite (trim_left_id f l Hh). rewrite trim_left_id; [apply reverse_involutive|].
  intros r. rewrite head_reverse. apply Hl.
Qed.

Definition clean (l : list Z) : Prop :=
  l <> [] /\ Forall name_ok l /\ head l <> Some 45 /\ last l <> Some 45.

Lemma sanitize_clean s : exists l, sanitizeForRFC1123 s = string_of l /\ clean l.
Proof.
  unfold sanitizeForRFC1123. destruct (trim is_dash _) as [|r l] eqn:E.
  - exists [117; 110; 107; 110; 111; 119; 110]. split; [done|]. split_and!; try done.
    repeat constructor; unfold name_ok; lia.
  - exists (r :: l). split; [done|]. rewrite <- E. split_and!.
    + by rewrite E.
    + apply Forall_forall. intros x Hx. apply trim_incl, trim_incl in Hx.
      apply list_elem_of_fmap in Hx as (y & -> & _). apply name_char_ok.
    + intros H. by apply trim_head in H.
    + intros H. by apply trim_last in H.
Qed.

Lemma sanitize_of_clean l : clean l -> sanitizeForRFC1123 (string_of l) = string_of l.
Proof.
  intros (Hne & Hok & Hh & Hl). unfold sanitizeForRFC1123.
  assert (name_char <$> runes (string_of l) = l) as ->.
  { rewrite runes_string_of.
    - clear Hne Hh Hl. induction Hok as [|r l Hr _ IH]; [done|]. rewrite fmap_cons, IH. by rewrite name_char_id.
    - eapply Forall_impl; [exact Hok|]. unfold name_ok. intros r Hr. simpl in Hr. lia. }
  rewrite (trim_id is_space).
  2: { intros r E. apply name_ok_not_space. rewrite Forall_forall in Hok. apply Hok. destruct l; simpl in *; set_solver. }
  2: { intros r E. apply name_ok_not_space. rewrite Forall_forall in Hok. apply Hok. by apply last_Some_elem_of. }
  rewrite trim_id.
  - by destruct l.
  - intros r E. unfold is_dash. apply Z.eqb_neq. congruence.
  - intros r E. unfold is_dash. apply Z.eqb_neq. congruence.
Qed.

(** The names of tasks are made of allowed characters.  Whatever bytes the
    scenario identifier or resource name holds - upper case, colons, any UTF-8
    or invalid text - sanitizing gives a non-empty text of lower-case letters,
    digits, dots and dashes that neither starts nor ends with a dash, and
    sanitizing that again changes nothing. *)
Theorem sanitizeForRFC1123_correct s :
  (exists l, sanitizeForRFC1123 s = string_of l /\ l <> [] /\
     Forall (fun r => 97 <= r <= 122 \/ 48 <= r <= 57 \/ r = 46 \/ r = 45) l /\
     head l <> Some 45 /\ last l <> Some 45) /\
  sanitizeForRFC1123 (sanitizeForRFC1123 s) = sanitizeForRFC1123 s.
Proof.
  destruct (sanitize_clean s) as (l & E & Hl). split; [by exists l|].
  rewrite E. by apply sanitize_of_clean.
Qed.

(** The comment of the function says that runs of dashes collapse; they do not. *)
Example sanitize_keeps_runs : sanitizeForRFC1123 "a::b" = "a--b".
Proof. by vm_compute. Qed.

(** * Publishing *)

Section publish.
Context (show_float : spec_float -> string).
Context `{Sort : !SliceSort ActionConfig ac_Order}.

Definition in_text (a : ActionConfig) : ActionConfig :=
  mkAction (ac_Type a) (ac_Order a) ((fun v => PString (show_param show_float v)) <$> ac_Params a).

Lemma omap_extract_crd (l : list ActionConfig) : omap extract_action (crd_action show_float <$> l) = in_text <$> l.
Proof. induction l as [|a l IH]; [done|]. simpl. f_equal. exact IH. Qed.

(** C40: publishing and reading back.  The worker that reads a published task gets
    the same target, without its UID, and the same actions - a rearrangement by
    non-decreasing order, with the same types and orders - except that every
    parameter value has become text; so a grace period is always lost, since
    the restart handler does not read text. *)
Theorem publish_extract_roundtrip res resource ms cvt :
  exists acts,
    extractFromTask (publish_object show_float res resource ms) =
      (mkRef (APIVersion resource) (Kind resource) (Namespace resource) (Name resource) "",
       in_text <$> acts) /\
    acts ≡ₚ dr_RecommendedActions res /\ sorted_by ac_Order acts /\
    Forall (fun a => grace_period cvt (ac_Params a) = None)
      (extractFromTask (publish_object show_float res resource ms)).2.
Proof.
  exists (slice_sort ac_Order (dr_RecommendedActions res)).
  assert (extractFromTask (publish_object show_float res resource ms) =
      (mkRef (APIVersion resource) (Kind resource) (Namespace resource) (Name resource) "",
       in_text <$> slice_sort ac_Order (dr_RecommendedActions res))) as E.
  { unfold extractFromTask, publish_object. simpl. f_equal. apply omap_extract_crd. }
  split; [exact E|]. split; [apply slice_sort_perm|]. split; [apply slice_sort_sorted|].
  rewrite E. simpl. apply Forall_fmap, Forall_forall. intros a _. simpl.
  unfold grace_period. rewrite lookup_fmap. by destruct (ac_Params a !! "gracePeriodSeconds").
Qed.
End publish.

(** * The worker *)

Section worker.
Context {W : Type} `{TaskClient W}.
Context `{Sort : !SliceSort ActionConfig ac_Order}.
Context (Execute : Z -> W -> ResourceReference -> ActionConfig -> outcome (W * (ActionResult * option string))).
Implicit Types w : W.

(** The actions ran one after the other, each without error or failure. *)
Inductive succeeded (deadline : Z) (resource : ResourceReference) : list ActionConfig -> W -> W -> Prop :=
  | succeeded_nil w : succeeded deadline resource [] w w
  | succeeded_cons ac acts w w1 r w2 :
      Execute deadline w resource ac = Ret (w1, (r, None)) -> ar_Status r <> ActionStatusFailed ->
      succeeded deadline resource acts w1 w2 -> succeeded deadline resource (ac :: acts) w w2.

Definition failed_at (deadline : Z) (resource : ResourceReference) (ac : ActionConfig) w w' : Prop :=
  exists r err, Execute deadline w resource ac = Ret (w', (r, err)) /\
    (err <> None \/ ar_Status r = ActionStatusFailed).

Lemma run_sequence_spec deadline acts resource pg w w' pg' :
  0 <= pg_completed pg -> pg_completed pg + Z.of_nat (length acts) < 2 ^ 31 ->
  run_sequence Execute deadline acts resource pg w = Ret (w', pg') ->
  exists pre post w1, acts = pre ++ post /\ succeeded deadline resource pre w w1 /\
    pg_completed pg' = pg_completed pg + Z.of_nat (length pre) /\
    ((post = [] /\ w' = w1 /\ pg_ok pg' = pg_ok pg) \/
     (exists ac post', post = ac :: post' /\ failed_at deadline resource ac w1 w' /\ pg_ok pg' = false)).
Proof.
  revert pg w. induction acts as [|ac acts IH]; intros pg w H0 Hlen; cbn [run_sequence length] in *.
  { intros [= <- <-]. exists [], [], w. split_and!; try done; [constructor|simpl; lia|by left]. }
  destruct (Execute deadline w resource ac) as [[w1 [r [e|]]]| |] eqn:E; simpl; [| |done..].
  - intros [= <- <-]. exists [], (ac :: acts), w. split_and!; try done; [constructor|simpl; lia|].
    right. exists ac, acts. split_and!; try done. exists r, (Some e). auto.
  - case_decide as D.
    + intros [= <- <-]. exists [], (ac :: acts), w. split_and!; try done; [constructor|simpl; lia|].
      right. exists ac, acts. split_and!; try done. exists r, None. auto.
    + intros HR. apply IH in HR; simpl in *; [|rewrite wrap_small by (unfold fits; simpl; lia); lia..].
      destruct HR as (pre & post & w2 & -> & Hs & Hc & Hcase).
      exists (ac :: pre), post, w2. split; [done|]. split; [by eapply succeeded_cons|].
      split; [|done]. rewrite Hc. rewrite wrap_small by (unfold fits; simpl; lia). simpl length. lia.
Qed.

Lemma taskTimeout_range obj : 0 < taskTimeout obj <= maxDuration.
Proof.
  unfold taskTimeout. assert (0 < 60 * Second <= maxDuration) as H60 by (split; by vm_compute).
  destruct (ParseDuration (t_timeout obj)) as [d|] eqn:E; [|done].
  apply ParseDuration_fits in E. unfold fits in E. destruct (0 <? d) eqn:E0; [|done].
  apply Z.ltb_lt in E0. unfold maxDuration. change (64 - 1) with 63 in E. lia.
Qed.

(** C29: what a worker does with a task.  If its claim fails it does nothing more.
    If it wins, it runs the task's actions arranged by non-decreasing order,
    under a deadline that lies a positive 64-bit duration ahead (the task's
    timeout, or a minute if that is missing, malformed or not positive): a
    prefix of them succeeds and the first failure stops it.  Then it reads the
    task again; if it is gone nothing is written, else the status it sends says
    "Completed", and success, exactly when all actions succeeded and "Failed"
    otherwise, with the number of actions that succeeded and the time, on the
    version just read. *)
Theorem claimAndExecute_correct identity t1 tx t2 obj w w' b :
  Z.of_nat (length (t_actions obj)) < 2 ^ 31 ->
  claimAndExecute Execute identity t1 tx t2 obj w = Ret (w', b) ->
  let claim := TaskUpdateStatus w (claim_status identity t1 obj) in
  let '(resource, actions) := extractFromTask obj in
  let deadline := tx + taskTimeout obj in
  0 < taskTimeout obj <= maxDuration /\
  (b = true <-> claim.2 = None) /\
  (b = false -> w' = claim.1) /\
  (b = true -> exists pre post w1 w2,
     pre ++ post ≡ₚ actions /\ sorted_by ac_Order (pre ++ post) /\
     succeeded deadline resource pre claim.1 w1 /\
     ((post = [] /\ w2 = w1) \/
      (exists ac post', post = ac :: post' /\ failed_at deadline resource ac w1 w2)) /\
     match TaskGet w2 (t_name obj) with
     | Err _ => w' = w2
     | Ok cur => exists new r, w' = (TaskUpdateStatus w2 new).1 /\
         t_name new = t_name cur /\ t_resourceVersion new = t_resourceVersion cur /\
         t_phase new = (if decide (post = []) then TaskPhaseCompleted else TaskPhaseFailed) /\
         t_actionsCompleted new = Z.of_nat (length pre) /\ t_completedAt new = stamp_of t2 /\
         t_result new = Some r /\ (tr_success r = true <-> post = [])
     end).
Proof.
  intros Hlen. unfold claimAndExecute. pose proof (taskTimeout_range obj) as HT.
  assert (taskTimeout (claim_status identity t1 obj) = taskTimeout obj) as -> by done.
  assert (extractFromTask (claim_status identity t1 obj) = extractFromTask obj) as -> by done.
  assert (length (extractFromTask obj).2 <= length (t_actions obj))%nat as Hl.
  { unfold extractFromTask. destruct (t_target obj) as [[[? ?] ?] ?]. simpl.
    clear. induction (t_actions obj) as [|[m|] l IH]; [done| |]; cbn; change (list_omap _ _ extract_action l) with (omap extract_action l); lia. }
  destruct (extractFromTask obj) as [resource actions]; simpl in Hl.
  destruct (TaskUpdateStatus w (claim_status identity t1 obj)) as [wc [e|]]; simpl.
  { intros [= <- <-]. split_and!; try done; apply HT. }
  pose proof (Permutation_length (slice_sort_perm ac_Order actions)) as Hp.
  destruct (run_sequence Execute (time_Add tx (taskTimeout obj)) (slice_sort ac_Order actions) resource start_progress wc)
    as [[w2 pg]| |] eqn:R; simpl; [|done..].
  apply run_sequence_spec in R as (pre & post & w1 & Hs & Hsucc & Hc & Hcase); simpl; [|lia..].
  intros [= <- <-]. split; [done|]. split; [done|]. split; [done|]. intros _.
  exists pre, post, w1, w2. rewrite <- Hs. split; [apply slice_sort_perm|].
  split; [apply slice_sort_sorted|]. split; [done|].
  assert (pg_ok pg = true <-> post = []) as Hok by (destruct Hcase as [(-> & _ & ->)|(? & ? & -> & _ & ->)]; done).
  split; [destruct Hcase as [(? & ? & _)|(ac & p' & ? & ? & _)]; [by left|right; by exists ac, p']|].
  unfold updateTaskStatus. destruct (TaskGet w2 (t_name obj)) as [cur|e]; [|done].
  exists (final_status t2 pg cur). eexists. do 3 (split; [done|]). split; [|split; [exact Hc|done]]. cbn [t_phase final_status with_status].
  destruct (pg_ok pg); case_decide as Dp; try done; [by destruct Dp; apply Hok|]. by apply Hok in Dp.
Qed.
End worker.

(** A late worker overwrites an expired task.  The final status is written
    without looking at the phase: when the janitor has expired a task and the
    worker then finishes its actions, the task ends up "Completed". *)
Theorem late_worker_overwrites_expired `{TaskServer W} now n pg (w : W) obj :
  TaskGet w n = Ok obj -> t_phase obj = TaskPhaseExpired -> pg_ok pg = true ->
  (TaskUpdateStatus w (final_status now pg obj)).2 = None ->
  exists new, lookup_task (updateTaskStatus now n pg w) n = Some new /\
    t_uid new = t_uid obj /\ t_phase new = TaskPhaseCompleted.
Proof.
  intros Hg _ Hok. unfold updateTaskStatus. rewrite Hg.
  destruct (TaskUpdateStatus w (final_status now pg obj)) as [w' [e|]] eqn:E; [done|]. intros _. simpl.
  apply UpdateStatus_ok in E as (cur & new & Hl & _ & (rv & Hst) & Hre).
  apply Get_stored in Hg. pose proof (stored_name _ _ _ Hg) as Hn.
  simpl in *. rewrite Hn in *. assert (cur = obj) as -> by congruence.
  exists new. rewrite (re_lookup _ _ _ _ Hre), decide_True by done. subst new. simpl. by rewrite Hok.
Qed.

(** * Witnesses *)

#[local] Existing Instance slot_client.
#[local] Existing Instance slot_store.
#[local] Existing Instance slot_TaskServer.
#[local] Existing Instance demo_sort.

Definition demo_run (_ : Z) (w : slot_server) (r : ResourceReference) (ac : ActionConfig)
  : outcome (slot_server * (ActionResult * option string)) :=
  Ret (w, (mkActionResult "" "" "" r ac ActionStatusSucceeded 0 0 "ok" "" [], None)).

Lemma claimAndExecute_correct_witness :
  exists w', claimAndExecute demo_run "worker-0" 9 9 10 demo_task demo_slot = Ret (w', true) /\
  exists pre post w1, pre ++ post ≡ₚ (extractFromTask demo_task).2 /\
    succeeded demo_run (9 + taskTimeout demo_task) (extractFromTask demo_task).1 pre
      (TaskUpdateStatus demo_slot (claim_status "worker-0" 9 demo_task)).1 w1.
Proof.
  destruct (claimAndExecute demo_run "worker-0" 9 9 10 demo_task demo_slot) as [[w' [|]]| |] eqn:E;
    [|by vm_compute in E..].
  exists w'. split; [done|].
  pose proof (claimAndExecute_correct demo_run "worker-0" 9 9 10 demo_task demo_slot w' true ltac:(by vm_compute) E)
    as HC. cbn zeta in HC. destruct (extractFromTask demo_task) as [resource actions].
  destruct HC as (_ & _ & _ & HC). destruct (HC eq_refl) as (pre & post & w1 & w2 & Hp & _ & Hs & _).
  exists pre, post, w1. done.
Defined.

Definition demo_expired : Task :=
  with_status TaskPhaseExpired "worker-0" (At 9) (At 10) 0 None demo_task.

Lemma late_worker_overwrites_expired_witness :
  exists new, lookup_task (updateTaskStatus 20 (t_name demo_task) start_progress ((Some demo_expired, 1, []) : slot_server))
    (t_name demo_task) = Some new /\ t_uid new = "u1" /\ t_phase new = TaskPhaseCompleted.
Proof.
  apply (late_worker_overwrites_expired (W := slot_server) 20 (t_name demo_task) start_progress
    (Some demo_expired, 1, []) demo_expired).
  - by vm_compute.
  - done.
  - done.
  - by vm_compute.
Defined.
