(* ===== verification/TaskJanitor.v ===== *)
(** The properties of the janitor's sweep (internal/taskqueue/janitor.go). *)

From S2P Require Import Prelude Types TaskQueue TaskSystem.

Section janitor.
Context {W : Type} `{TaskClient W}.
Context (cfg : TaskQueueConfig) (show_duration : Z -> string).
Implicit Types w : W.

(** ** Decisions *)

Inductive decision := Keep | Expire | Delete.

Definition decide_task (now tLast : Z) (obj : Task) : decision :=
  if bool_decide (phase_of obj = TaskPhaseRunning) && isStuck cfg now obj then Expire
  else if is_terminal (phase_of obj) && shouldDeleteTerminal cfg now tLast obj then Delete
  else Keep.

Definition apply_decision (later : Task -> Z) (d : decision) (obj : Task) w : W :=
  match d with
  | Keep => w
  | Expire => expireTask cfg show_duration (later obj) obj w
  | Delete => deleteTask obj w
  end.

Lemma sweep_one_decides now tLast later w c obj :
  (sweep_one cfg show_duration now tLast later (w, c) obj).1 =
    apply_decision later (decide_task now tLast obj) obj w.
Proof.
  destruct c as [p r co f e ec dc]. unfold sweep_one, decide_task, is_terminal.
  destruct (decide (phase_of obj = TaskPhasePending)) as [E|N1]; [by rewrite E|].
  destruct (decide (phase_of obj = TaskPhaseRunning)) as [E|N2]; [rewrite E; simpl; by case_match|].
  destruct (decide (phase_of obj = TaskPhaseCompleted)) as [E|N3]; [rewrite E; simpl; by case_match|].
  destruct (decide (phase_of obj = TaskPhaseFailed)) as [E|N4]; [rewrite E; simpl; by case_match|].
  destruct (decide (phase_of obj = TaskPhaseExpired)) as [E|N5]; [rewrite E; simpl; by case_match|].
  by rewrite !bool_decide_false by done.
Qed.

Lemma sweep_fold now tLast later items w c :
  (foldl (sweep_one cfg show_duration now tLast later) (w, c) items).1 =
    foldl (fun w obj => apply_decision later (decide_task now tLast obj) obj w) w items.
Proof.
  revert w c. induction items as [|obj items IH]; intros w c; cbn [foldl]; [done|].
  pose proof (sweep_one_decides now tLast later w c obj) as E.
  destruct (sweep_one _ _ _ _ _ (w, c) obj) as [w1 c1]. simpl in E. by rewrite IH, E.
Qed.

Lemma isStuck_spec now obj :
  isStuck cfg now obj = true <-> exists t, t_claimedAt obj = At t /\ t + ActiveDeadline cfg < now.
Proof.
  unfold isStuck, time_After, time_Add. destruct (t_claimedAt obj) as [| |t]; try naive_solver.
  rewrite Z.ltb_lt. naive_solver.
Qed.

Lemma shouldDelete_spec now tLast obj :
  shouldDeleteTerminal cfg now tLast obj = true <->
  (if (0 <? TrailingRetention cfg) && negb (tLast =? 0)
   then retained_from obj + TrailingRetention cfg < tLast
   else retained_from obj + RetentionPeriod cfg < now).
Proof.
  unfold shouldDeleteTerminal, isPastRetention, time_IsZero, time_Before, time_After, time_Add.
  destruct (_ && _); [rewrite Z.ltb_lt; lia|].
  unfold retained_from, time_IsZero. by destruct (terminalTime obj =? 0); simpl; rewrite Z.ltb_lt.
Qed.

Lemma is_terminal_spec ph :
  is_terminal ph = true <-> ph = TaskPhaseCompleted \/ ph = TaskPhaseFailed \/ ph = TaskPhaseExpired.
Proof. unfold is_terminal. rewrite !orb_true_iff, !bool_decide_eq_true. tauto. Qed.

(** What a sweep does.  It takes one decision per listed task, from the
    listing alone, and carries the decisions out in order: a task is expired
    exactly when it is running and was claimed longer than the active deadline
    ago; it is deleted exactly when it is completed, failed or expired and older
    than the retention - measured back from the newest finished task when
    trailing retention is on, from now otherwise; every other task, in
    particular a pending one, is left alone. *)
Theorem sweep_decisions now later w items :
  TaskList w = Ok items ->
  let tLast := last_terminal cfg items in
  (sweep cfg show_duration now later w).1 =
    foldl (fun w obj => apply_decision later (decide_task now tLast obj) obj w) w items /\
  forall obj,
    (decide_task now tLast obj = Expire <->
       phase_of obj = TaskPhaseRunning /\
       exists t, t_claimedAt obj = At t /\ t + ActiveDeadline cfg < now) /\
    (decide_task now tLast obj = Delete <->
       (phase_of obj = TaskPhaseCompleted \/ phase_of obj = TaskPhaseFailed \/ phase_of obj = TaskPhaseExpired) /\
       (if (0 <? TrailingRetention cfg) && negb (tLast =? 0)
        then retained_from obj + TrailingRetention cfg < tLast
        else retained_from obj + RetentionPeriod cfg < now)) /\
    (phase_of obj = TaskPhasePending -> decide_task now tLast obj = Keep).
Proof.
  intros HL tLast. split.
  - unfold sweep. rewrite HL. fold tLast. rewrite <- (sweep_fold now tLast later items w (mkCounts 0 0 0 0 0 0 0)).
    by destruct (foldl _ _ _).
  - intros obj. rewrite <- isStuck_spec, <- shouldDelete_spec, <- is_terminal_spec. unfold decide_task.
    destruct (decide (phase_of obj = TaskPhaseRunning)) as [E|N].
    + rewrite E. simpl. destruct (isStuck cfg now obj); naive_solver.
    + rewrite bool_decide_false by done. simpl.
      destruct (is_terminal (phase_of obj)) eqn:T, (shouldDeleteTerminal _ _ _ _); split_and!; try naive_solver.
      intros E. by rewrite E in T.
Qed.

(** ** Trailing retention *)

Definition latest (tLast : Z) (obj : Task) : Z :=
  if negb (is_terminal (phase_of obj)) then tLast
  else if time_After (retained_from obj) tLast then retained_from obj else tLast.

Lemma latest_fold_ge items t0 :
  t0 <= foldl latest t0 items /\
  forall obj, obj ∈ items -> is_terminal (phase_of obj) = true -> retained_from obj <= foldl latest t0 items.
Proof.
  revert t0. induction items as [|x items IH]; intros t0; cbn [foldl].
  { split; [lia|]. intros obj Hin. by apply elem_of_nil in Hin. }
  destruct (IH (latest t0 x)) as [H1 H2].
  assert (t0 <= latest t0 x /\ (is_terminal (phase_of x) = true -> retained_from x <= latest t0 x)) as [H3 H4].
  { unfold latest, time_After. destruct (is_terminal _); simpl; [|split; [lia|done]].
    destruct (t0 <? retained_from x) eqn:E; [apply Z.ltb_lt in E|apply Z.ltb_ge in E]; lia. }
  split; [lia|]. intros obj Hin Ht. apply elem_of_cons in Hin as [->|Hin]; [specialize (H4 Ht); lia|auto].
Qed.

Lemma latest_fold_in items t0 :
  foldl latest t0 items = t0 \/
  exists obj, obj ∈ items /\ is_terminal (phase_of obj) = true /\ foldl latest t0 items = retained_from obj.
Proof.
  revert t0. induction items as [|x items IH]; intros t0; cbn [foldl]; [by left|].
  destruct (IH (latest t0 x)) as [E|(obj & Hin & Ht & E)]; [|right; exists obj; split_and!; [by right|done..]].
  rewrite E. unfold latest. destruct (is_terminal (phase_of x)) eqn:T; simpl; [|by left].
  destruct (time_After _ _); [|by left]. right. exists x. split_and!; [by left|done..].
Qed.

(** Trailing retention keeps the tail of the last incident together.  When it
    is on, a sweep deletes a finished task exactly when some finished task of
    the same listing is newer by more than the trailing retention; so the
    newest finished task always stays, however old it is. *)
Theorem trailing_retention now items obj :
  0 < TrailingRetention cfg -> obj ∈ items -> is_terminal (phase_of obj) = true ->
  (forall o, o ∈ items -> is_terminal (phase_of o) = true -> 0 < retained_from o) ->
  decide_task now (last_terminal cfg items) obj = Delete <->
    exists newer, newer ∈ items /\ is_terminal (phase_of newer) = true /\
      retained_from obj + TrailingRetention cfg < retained_from newer.
Proof.
  intros HR Hin Ht Hpos.
  assert (last_terminal cfg items = foldl latest 0 items) as El.
  { unfold last_terminal. replace (0 <? TrailingRetention cfg) with true by (symmetry; by apply Z.ltb_lt). done. }
  destruct (latest_fold_ge items 0) as [_ Hge]. pose proof (Hge obj Hin Ht). pose proof (Hpos obj Hin Ht).
  assert (decide_task now (last_terminal cfg items) obj = Delete <->
    retained_from obj + TrailingRetention cfg < last_terminal cfg items) as ->.
  { unfold decide_task. rewrite Ht.
    assert (bool_decide (phase_of obj = TaskPhaseRunning) = false) as ->.
    { apply bool_decide_eq_false. intros E. by rewrite E in Ht. }
    cbn [andb]. pose proof (shouldDelete_spec now (last_terminal cfg items) obj) as S.
    replace (0 <? TrailingRetention cfg) with true in S by (symmetry; by apply Z.ltb_lt).
    replace (last_terminal cfg items =? 0) with false in S by (symmetry; apply Z.eqb_neq; lia).
    simpl in S. rewrite <- S. destruct (shouldDeleteTerminal _ _ _ _); naive_solver. }
  rewrite El. split.
  - intros Hlt. destruct (latest_fold_in items 0) as [E|(o & Ho & Hto & E)]; [lia|].
    exists o. split_and!; [done..|]. lia.
  - intros (o & Ho & Hto & Hlt). pose proof (Hge o Ho Hto). lia.
Qed.

(** ** The gauges *)

Definition total (c : counts) : Z :=
  n_pending c + n_running c + n_completed c + n_failed c + n_expired c + n_deletedCount c.

Definition known_phase (ph : string) : bool :=
  bool_decide (ph = TaskPhasePending) || bool_decide (ph = TaskPhaseRunning) || is_terminal ph.

Lemma sweep_one_total now tLast later wc obj :
  total (sweep_one cfg show_duration now tLast later wc obj).2 =
    total wc.2 + (if known_phase (phase_of obj) then 1 else 0).
Proof.
  destruct wc as [w [p r co f e ec dc]]. unfold sweep_one, known_phase, is_terminal.
  destruct (decide (phase_of obj = TaskPhasePending)) as [E|N1]; [rewrite E; unfold total; simpl; lia|].
  destruct (decide (phase_of obj = TaskPhaseRunning)) as [E|N2]; [rewrite E; case_match; unfold total; simpl; lia|].
  destruct (decide (phase_of obj = TaskPhaseCompleted)) as [E|N3]; [rewrite E; case_match; unfold total; simpl; lia|].
  destruct (decide (phase_of obj = TaskPhaseFailed)) as [E|N4]; [rewrite E; case_match; unfold total; simpl; lia|].
  destruct (decide (phase_of obj = TaskPhaseExpired)) as [E|N5]; [rewrite E; case_match; unfold total; simpl; lia|].
  rewrite !bool_decide_false by done. unfold total. simpl. lia.
Qed.

(** The gauges account for every task.  The five phase gauges that a sweep
    publishes, together with the deletions it counted, add up to the number of
    listed tasks in a known phase; an expired task moves from the running to
    the expired gauge, whether or not the API server accepted the change. *)
Theorem sweep_gauges_account now later w items c :
  TaskList w = Ok items -> (sweep cfg show_duration now later w).2 = Some c ->
  n_pending c + n_running c + n_completed c + n_failed c + n_expired c + n_deletedCount c =
    Z.of_nat (length (filter (fun obj => known_phase (phase_of obj) = true) items)).
Proof.
  intros HL. unfold sweep. rewrite HL. generalize (last_terminal cfg items). intros tLast.
  assert (forall wc, total (foldl (sweep_one cfg show_duration now tLast later) wc items).2 =
    total wc.2 + Z.of_nat (length (filter (fun obj => known_phase (phase_of obj) = true) items))) as HF.
  { clear HL. induction items as [|obj items' IH]; intros wc; [simpl; lia|]. cbn [foldl].
    rewrite IH, sweep_one_total, filter_cons. destruct (known_phase (phase_of obj)).
    - rewrite decide_True by done. simpl length. lia.
    - rewrite decide_False by done. lia. }
  specialize (HF (w, mkCounts 0 0 0 0 0 0 0)).
  destruct (foldl _ _ _) as [w1 c1]. simpl in *. intros [= <-]. exact HF.
Qed.
End janitor.

(** * Witnesses *)

#[local] Existing Instance slot_client.

Definition demo_cfg : TaskQueueConfig := mkTaskQueueConfig (5 * Minute) Hour (10 * Minute).

Definition demo_finished (completedAt : Z) : Task :=
  with_status TaskPhaseCompleted "w" (At 1) (At completedAt) 1 None demo_task.

Lemma sweep_decisions_witness :
  decide_task demo_cfg (20 * Minute) 0 (with_status TaskPhaseRunning "w" (At Minute) NoStamp 0 None demo_task) = Expire.
Proof.
  apply (sweep_decisions (W := slot_server) demo_cfg (fun _ => "5m0s") (20 * Minute) (fun _ => 0)
    (None, 0, []) [] ltac:(by vm_compute)).
  split; [done|]. exists Minute. split; [done|]. by vm_compute.
Defined.

Lemma trailing_retention_witness :
  decide_task demo_cfg (100 * Hour) (last_terminal demo_cfg [demo_finished Hour; demo_finished Minute])
    (demo_finished Minute) = Delete.
Proof.
  destruct (trailing_retention demo_cfg (fun _ => "") (100 * Hour) [demo_finished Hour; demo_finished Minute]
    (demo_finished Minute)) as [_ HD].
  - by vm_compute.
  - rewrite !elem_of_cons. auto.
  - done.
  - intros o Ho _. repeat (apply elem_of_cons in Ho as [->|Ho]; [by vm_compute|]). by apply elem_of_nil in Ho.
  - apply HD. exists (demo_finished Hour). split; [rewrite !elem_of_cons; auto|]. split; [done|]. by vm_compute.
Defined.

Lemma sweep_gauges_account_witness :
  exists c, (sweep (W := slot_server) demo_cfg (fun _ => "5m0s") Hour (fun _ => Hour)
    (Some (demo_finished Minute), 3, [])).2 = Some c /\
  n_pending c + n_running c + n_completed c + n_failed c + n_expired c + n_deletedCount c = 1.
Proof.
  destruct (sweep (W := slot_server) demo_cfg (fun _ => "5m0s") Hour (fun _ => Hour)
    (Some (demo_finished Minute), 3, [])).2 as [c|] eqn:E; [|by vm_compute in E].
  exists c. split; [done|].
  rewrite (sweep_gauges_account (W := slot_server) demo_cfg (fun _ => "5m0s") Hour (fun _ => Hour)
    (Some (demo_finished Minute), 3, []) [with_identity "u1" 3 (demo_finished Minute)] c ltac:(by vm_compute) E).
  by vm_compute.
Defined.
