(* ===== verification/TaskLife.v ===== *)
(** The life of a task on a server that answers: a sweep of the janitor brings
    about what it decides, a published task that reaches a worker ends, and one
    whose worker died is expired and then removed. *)

From S2P Require Import Prelude Types GoTime TaskQueue TaskSystem TaskQueueProps TaskJanitor.

(** * A server that answers *)

(** What [Create] stores: the object it was given, with an identifier, a version
    and a creation time. *)
Definition created_as (uid : string) (rv created : Z) (t : Task) : Task :=
  mkTask (t_name t) uid rv created (t_scenarioID t) (t_scenarioName t) (t_detectionResultID t)
    (t_severity t) (t_target t) (t_actions t) (t_timeout t) (t_maxRetries t) (t_phase t) (t_claimedBy t)
    (t_claimedAt t) (t_completedAt t) (t_actionsCompleted t) (t_result t).

(** The API server keeps its promises and is reachable: reads succeed, a write
    that names the current version is accepted, what was created is stored. *)
Class HealthyServer (W : Type) `{TaskServer W} := {
  List_live (w : W) : exists l, TaskList w = Ok l /\ NoDup (t_name <$> l) /\
    forall n t, lookup_task w n = Some t -> t ∈ l;
  Get_live (w : W) n t : lookup_task w n = Some t -> TaskGet w n = Ok t;
  Update_live (w : W) t cur :
    lookup_task w (t_name t) = Some cur -> t_resourceVersion cur = t_resourceVersion t ->
    (TaskUpdateStatus w t).2 = None;
  Delete_live (w : W) n t :
    lookup_task w n = Some t -> (TaskDelete w n).2 = None /\ lookup_task (TaskDelete w n).1 n = None;
  Create_stores (w : W) t w' :
    TaskCreate w t = (w', None) ->
    exists uid rv created, lookup_task w' (t_name t) = Some (created_as uid rv created t);
}.

Section life.
Context {W : Type} `{HealthyServer W}.
Context (cfg : TaskQueueConfig) (show_duration : Z -> string).
Implicit Types w : W.

(** * A sweep *)

Lemma updated_lookup w t w' n :
  updated w t w' -> n <> t_name t -> lookup_task w' n = lookup_task w n.
Proof. intros (? & ? & _ & _ & _ & Hr) Hn. rewrite (re_lookup _ _ _ _ Hr). by rewrite decide_False by congruence. Qed.

(** A decision about one task touches no other. *)
Lemma apply_decision_other later d obj w n :
  n <> t_name obj -> lookup_task (apply_decision cfg show_duration later d obj w) n = lookup_task w n.
Proof.
  intros Hn. destruct d; cbn [apply_decision]; [done|..].
  - unfold expireTask. destruct (TaskUpdateStatus _ _) as [w' r] eqn:E. cbn.
    destruct (update_effect _ _ _ _ E) as [Hu|Hu]; [apply Hu|by eapply updated_lookup].
  - unfold deleteTask. destruct (TaskDelete _ _) as [w' r] eqn:E. cbn.
    destruct (Delete_effect _ _ _ _ E) as [Hu|Hu]; [apply Hu|].
    rewrite (re_lookup _ _ _ _ Hu). by rewrite decide_False by congruence.
Qed.

(** What becomes of a task on which a decision is carried out. *)
Definition carried_out (later : Task -> Z) (d : decision) (obj : Task) (o : option Task) : Prop :=
  match d with
  | Keep => o = Some obj
  | Expire => exists new, o = Some new /\
      status_of (expired_status (later obj) obj (show_duration (ActiveDeadline cfg))) obj new
  | Delete => o = None
  end.

Lemma apply_decision_self later d obj w :
  lookup_task w (t_name obj) = Some obj ->
  carried_out later d obj (lookup_task (apply_decision cfg show_duration later d obj w) (t_name obj)).
Proof.
  intros Hl. destruct d; cbn [apply_decision carried_out]; [done|..].
  - unfold expireTask. set (t := expired_status _ _ _). destruct (TaskUpdateStatus w t) as [w' r] eqn:E. cbn.
    assert (r = None) as ->. { pose proof (Update_live w t obj Hl eq_refl) as HU. by rewrite E in HU. }
    apply UpdateStatus_ok in E as (cur & new & Hc & _ & Hst & Hre). cbn in Hc, Hre.
    assert (cur = obj) as -> by congruence.
    exists new. rewrite (re_lookup _ _ _ _ Hre). by rewrite decide_True.
  - by apply (Delete_live w (t_name obj) obj).
Qed.

Lemma sweep_fold_effect later (dec : Task -> decision) items w n :
  NoDup (t_name <$> items) -> (forall t, t ∈ items -> lookup_task w (t_name t) = Some t) ->
  let w' := foldl (fun w obj => apply_decision cfg show_duration later (dec obj) obj w) w items in
  (forall t, t ∈ items -> t_name t = n -> carried_out later (dec t) t (lookup_task w' n)) /\
  (n ∉ t_name <$> items -> lookup_task w' n = lookup_task w n).
Proof.
  revert w. induction items as [|obj items IH]; intros w Hnd Hst; cbn [foldl].
  { split; [intros t Ht; by apply elem_of_nil in Ht|done]. }
  rewrite fmap_cons, NoDup_cons in Hnd. destruct Hnd as [Hno Hnd].
  set (w1 := apply_decision _ _ _ _ _ _).
  assert (forall t, t ∈ items -> lookup_task w1 (t_name t) = Some t) as Hst1.
  { intros t Ht. unfold w1. rewrite apply_decision_other; [apply Hst; by right|].
    intros E. apply Hno. rewrite <- E. by apply list_elem_of_fmap_2. }
  specialize (IH w1 Hnd Hst1). cbv zeta in IH. destruct IH as [IH1 IH2]. split.
  - intros t Ht Hn. apply elem_of_cons in Ht as [->|Ht]; [|by apply IH1].
    rewrite IH2; [|by rewrite <- Hn]. rewrite <- Hn. apply apply_decision_self. apply Hst. by left.
  - rewrite fmap_cons, not_elem_of_cons. intros [Hn Hn']. rewrite IH2 by done. by apply apply_decision_other.
Qed.

(** The decision of a sweep at [now] about a task it lists among [items]. *)
Definition sweep_decision (now : Z) (items : list Task) (t : Task) : decision :=
  decide_task cfg now (last_terminal cfg items) t.

(** The listing of a server that answers. *)
Lemma sweep_listing w :
  exists items, TaskList w = Ok items /\ NoDup (t_name <$> items) /\
    forall t, t ∈ items <-> lookup_task w (t_name t) = Some t.
Proof.
  destruct (List_live w) as (items & HL & Hnd & Hall). exists items. split; [done|]. split; [done|].
  intros t. split; [by apply List_stored|apply Hall].
Qed.

Lemma sweep_outcome now later w items :
  TaskList w = Ok items -> NoDup (t_name <$> items) -> (forall t, t ∈ items <-> lookup_task w (t_name t) = Some t) ->
  let w' := (sweep cfg show_duration now later w).1 in
  (forall n t, lookup_task w n = Some t ->
     carried_out later (sweep_decision now items t) t (lookup_task w' n)) /\
  (forall n, lookup_task w n = None -> lookup_task w' n = None).
Proof.
  intros HL Hnd Hst. cbv zeta.
  assert ((sweep cfg show_duration now later w).1 =
    foldl (fun w obj => apply_decision cfg show_duration later (sweep_decision now items obj) obj w) w items) as ->.
  { unfold sweep, sweep_decision. rewrite HL.
    rewrite <- (sweep_fold cfg show_duration now (last_terminal cfg items) later items w (mkCounts 0 0 0 0 0 0 0)).
    by destruct (foldl _ _ _). }
  assert (forall t, t ∈ items -> lookup_task w (t_name t) = Some t) as Hst1 by apply Hst.
  split.
  - intros n t Ht. pose proof (stored_name _ _ _ Ht) as Hn.
    apply (sweep_fold_effect later _ items w n Hnd Hst1); [apply Hst; by rewrite Hn|done].
  - intros n Hn. destruct (sweep_fold_effect later (sweep_decision now items) items w n Hnd Hst1) as [_ H3].
    rewrite H3; [done|]. intros Hin. apply list_elem_of_fmap in Hin as (t & -> & Ht). apply Hst in Ht. congruence.
Qed.

Lemma sweep_effect_lookup now later w :
  exists items, forall n t, lookup_task w n = Some t ->
    carried_out later (sweep_decision now items t) t (lookup_task (sweep cfg show_duration now later w).1 n).
Proof.
  destruct (sweep_listing w) as (items & HL & Hnd & Hst). exists items. by apply sweep_outcome.
Qed.

(** A sweep brings about what it decides.  On a server that answers, a sweep
    lists exactly the stored tasks, and afterwards every running task past the
    active deadline is stored as expired with the time of its expiry and
    nothing else changed, every finished task past its retention is gone, and
    every other task is as it was; no task appears. *)
Theorem sweep_effect now later w :
  exists items, TaskList w = Ok items /\ (forall t, t ∈ items <-> lookup_task w (t_name t) = Some t) /\
  let w' := (sweep cfg show_duration now later w).1 in
  (forall n t, lookup_task w n = Some t ->
     carried_out later (sweep_decision now items t) t (lookup_task w' n)) /\
  (forall n, lookup_task w n = None -> lookup_task w' n = None).
Proof.
  destruct (sweep_listing w) as (items & HL & Hnd & Hst). exists items. split; [done|]. split; [done|].
  by apply sweep_outcome.
Qed.

(** * A task whose worker died *)

(** The janitor's ticks and everything else that happens between them, as long as
    nothing else writes the task called [n]. *)
Inductive janitor_run (n : string) : W -> list (Z * (Task -> Z)) -> W -> Prop :=
  | jr_nil w : janitor_run n w [] w
  | jr_else w w1 ls w2 :
      lookup_task w1 n = lookup_task w n -> janitor_run n w1 ls w2 -> janitor_run n w ls w2
  | jr_tick now later w ls w2 :
      janitor_run n (sweep cfg show_duration now later w).1 ls w2 ->
      janitor_run n w ((now, later) :: ls) w2.

Lemma janitor_run_app n w ls1 ls2 w2 :
  janitor_run n w (ls1 ++ ls2) w2 -> exists w1, janitor_run n w ls1 w1 /\ janitor_run n w1 ls2 w2.
Proof.
  intros HJ. remember (ls1 ++ ls2) as ls eqn:E. revert ls1 E.
  induction HJ as [w|w w1 ls w2 Hl HJ IH|now later w ls w2 HJ IH]; intros ls1 E.
  - symmetry in E. apply app_eq_nil in E as [-> ->]. exists w. split; constructor.
  - destruct (IH _ E) as (w1' & HA & HB). exists w1'. split; [by eapply jr_else|done].
  - destruct ls1 as [|tick ls1]; cbn in E.
    + exists w. split; [constructor|]. subst ls2. by constructor.
    + injection E as <- E. destruct (IH _ E) as (w1' & HA & HB). exists w1'. split; [by constructor|done].
Qed.

(** The stages of a task that was claimed at [c] and is written by nobody but the
    janitor: running; expired at some time up to [L], or removed. *)
Definition running_since (c : Z) (o : option Task) : Prop :=
  exists t, o = Some t /\ phase_of t = TaskPhaseRunning /\ t_claimedAt t = At c.

Definition expired_by (L : Z) (o : option Task) : Prop :=
  match o with
  | None => True
  | Some t => phase_of t = TaskPhaseExpired /\ exists s, t_completedAt t = At s /\ 0 < s <= L
  end.

Lemma stamp_range t L : Second <= t <= L -> exists s, stamp_of t = At s /\ 0 < s <= L.
Proof.
  intros Ht. exists (t - t mod Second). split; [done|].
  assert (0 < Second) by by vm_compute.
  pose proof (Z.mod_pos_bound t Second ltac:(done)). pose proof (Z.div_mod t Second ltac:(lia)).
  assert (1 <= t / Second) by (apply Z.div_le_lower_bound; lia). nia.
Qed.

(** A tick finds the task running. *)
Lemma sweep_running c n now later w :
  running_since c (lookup_task w n) ->
  let o := lookup_task (sweep cfg show_duration now later w).1 n in
  (now <= c + ActiveDeadline cfg -> running_since c o) /\
  (forall L, c + ActiveDeadline cfg < now -> (forall t, t_name t = n -> Second <= later t <= L) -> expired_by L o).
Proof.
  intros (t & El & Hph & Hc). destruct (sweep_listing w) as (items & HL & Hnd & Hst).
  destruct (sweep_outcome now later w items HL Hnd Hst) as [Hs _]. cbv zeta in Hs |- *. specialize (Hs n t El).
  unfold sweep_decision, decide_task, is_terminal, isStuck in Hs. rewrite Hph, Hc in Hs.
  unfold time_After, time_Add in Hs. destruct (c + ActiveDeadline cfg <? now) eqn:Eb; cbn in Hs.
  - apply Z.ltb_lt in Eb. split; [lia|]. intros L _ Hk. destruct Hs as (new & -> & (rv & ->)). split; [done|].
    apply stamp_range, Hk. by eapply stored_name.
  - apply Z.ltb_ge in Eb. split; [|lia]. intros _. rewrite Hs. by exists t.
Qed.

(** A tick finds the task expired, or nothing. *)
Lemma sweep_expired L n now later w :
  expired_by L (lookup_task w n) ->
  let o := lookup_task (sweep cfg show_duration now later w).1 n in
  expired_by L o /\ (lookup_task w n = None -> o = None) /\
  (TrailingRetention cfg <= 0 -> L + RetentionPeriod cfg < now -> o = None).
Proof.
  intros Ha. destruct (sweep_listing w) as (items & HL & Hnd & Hst).
  destruct (sweep_outcome now later w items HL Hnd Hst) as [Hs Hnone]. cbv zeta in Hs, Hnone |- *.
  destruct (lookup_task w n) as [t|] eqn:El; [|by rewrite (Hnone n El)].
  specialize (Hs n t El). destruct Ha as [Hph (s & Hcs & Hsp)].
  unfold sweep_decision, decide_task, is_terminal in Hs. rewrite Hph in Hs. cbn in Hs.
  destruct (shouldDeleteTerminal cfg now (last_terminal cfg items) t) eqn:ED; cbn in Hs; rewrite Hs; [done|].
  split; [split; [done|by exists s]|]. split; [done|]. intros HT Hret. exfalso.
  apply not_true_iff_false in ED. apply ED, shouldDelete_spec.
  replace (0 <? TrailingRetention cfg) with false by (symmetry; by apply Z.ltb_ge). cbn.
  unfold retained_from, terminalTime. rewrite Hcs. unfold time_IsZero.
  replace (s =? 0) with false by (symmetry; apply Z.eqb_neq; lia). lia.
Qed.

Lemma run_running c n w ls w' :
  janitor_run n w ls w' -> Forall (fun tick => tick.1 <= c + ActiveDeadline cfg) ls ->
  running_since c (lookup_task w n) -> running_since c (lookup_task w' n).
Proof.
  induction 1 as [w|w w1 ls w2 Hl HJ IH|now later w ls w2 HJ IH]; intros Hk Ha; [done| |].
  - apply IH; [done|]. by rewrite Hl.
  - apply Forall_cons in Hk as [Hk1 Hk2]. apply IH; [done|]. by apply sweep_running.
Qed.

Lemma run_expired L n w ls w' :
  janitor_run n w ls w' -> expired_by L (lookup_task w n) ->
  expired_by L (lookup_task w' n) /\ (lookup_task w n = None -> lookup_task w' n = None) /\
  (TrailingRetention cfg <= 0 -> Exists (fun tick => L + RetentionPeriod cfg < tick.1) ls -> lookup_task w' n = None).
Proof.
  induction 1 as [w|w w1 ls w2 Hl HJ IH|now later w ls w2 HJ IH]; intros Ha.
  - split_and!; try done. intros _ Hx. by apply Exists_nil in Hx.
  - rewrite Hl in IH. by apply IH.
  - destruct (sweep_expired L n now later w Ha) as (H3 & H4 & H5). destruct (IH H3) as (H6 & H7 & H8).
    split; [done|]. split; [auto|]. intros HT Hx. apply Exists_cons in Hx as [Hx|Hx]; [|by apply H8]. by apply H7, H5.
Qed.

(** The tick that is the first past the deadline, and whatever happens around it. *)
Lemma tick_running c L n now later wa wb :
  c + ActiveDeadline cfg < now -> (forall t, t_name t = n -> Second <= later t <= L) ->
  janitor_run n wa [(now, later)] wb -> running_since c (lookup_task wa n) -> expired_by L (lookup_task wb n).
Proof.
  intros Hn Hk HJ. remember [(now, later)] as ls eqn:E. revert E.
  induction HJ as [wa|wa wa1 ls wb Hl HJ IH|now' later' wa ls wb HJ IH]; intros E Ha; [done| |].
  - apply IH; [done|]. by rewrite Hl.
  - injection E as -> -> ->. refine (proj1 (run_expired L n _ [] wb HJ _)). by apply (sweep_running c).
Qed.


End life.

(** * A task that is published *)

Section published.
Context {W : Type} `{HealthyServer W}.
Context (show_float : spec_float -> string).
Context `{Sort : !SliceSort ActionConfig ac_Order}.
Context (Execute : Z -> W -> ResourceReference -> ActionConfig -> outcome (W * (ActionResult * option string))).
Implicit Types w : W.

(** The executor returns, and writes no task. *)
Definition executor_returns : Prop :=
  forall deadline w resource ac, exists w' r, Execute deadline w resource ac = Ret (w', r) /\ unchanged w w'.

Lemma run_sequence_returns deadline acts resource pg w :
  executor_returns ->
  exists w' pg', run_sequence Execute deadline acts resource pg w = Ret (w', pg') /\
    forall n, lookup_task w' n = lookup_task w n.
Proof.
  intros Hex. revert pg w. induction acts as [|ac acts IH]; intros pg w; cbn [run_sequence]; [by exists w, pg|].
  destruct (Hex deadline w resource ac) as (w1 & [r [e|]] & -> & Hun); cbn [mbind outcome_bind];
    [exists w1; eexists; split; [done|]; intros; apply Hun|].
  case_decide; [exists w1; eexists; split; [done|]; intros; apply Hun|].
  destruct (IH (mkProgress (i32 (pg_completed pg + 1)) (pg_ok pg) (Some r) None) w1) as (w2 & pg2 & -> & Hl).
  exists w2, pg2. split; [done|]. intros n. rewrite Hl. apply Hun.
Qed.

(** A status written on the stored object replaces it. *)
Lemma update_stored w t cur :
  lookup_task w (t_name t) = Some cur -> t_resourceVersion cur = t_resourceVersion t ->
  exists w' new, TaskUpdateStatus w t = (w', None) /\ status_of t cur new /\
    forall n, lookup_task w' n = if decide (t_name t = n) then Some new else lookup_task w n.
Proof.
  intros Hl Hv. pose proof (Update_live w t cur Hl Hv) as HU.
  destruct (TaskUpdateStatus w t) as [w' r] eqn:E. cbn in HU. subst r.
  apply UpdateStatus_ok in E as (cur' & new & Hl' & _ & Hst & Hre). assert (cur' = cur) as -> by congruence.
  exists w', new. split; [done|]. split; [done|]. intros n. apply Hre.
Qed.

Lemma extract_published uid rv created res resource ms :
  extractFromTask (created_as uid rv created (publish_object show_float res resource ms)) =
    (mkRef (APIVersion resource) (Kind resource) (Namespace resource) (Name resource) "",
     in_text show_float <$> slice_sort ac_Order (dr_RecommendedActions res)).
Proof. unfold extractFromTask. cbn. f_equal. apply omap_extract_crd. Qed.

(** C15: a published task that reaches a worker ends.  When the leader's create call
    succeeded, the task is stored and the event that announces it is one that
    starts a worker; a worker that then claims it - its executor returns, the
    server answers - runs the recommended actions in order under a deadline a
    minute ahead, and leaves the task "Completed" when all of them succeeded
    and "Failed" otherwise, with its own identity, the time of the end and the
    number of actions that succeeded. *)
Theorem published_task_ends identity ms t1 tx t2 w res resource w1 :
  executor_returns -> Z.of_nat (length (dr_RecommendedActions res)) < 2 ^ 31 ->
  Publish show_float ms w res resource = (w1, Ok ()) ->
  exists obj w2 final pre post, let name := task_name res resource ms in
    let target := mkRef (APIVersion resource) (Kind resource) (Namespace resource) (Name resource) "" in
    let claim := TaskUpdateStatus w1 (claim_status identity t1 obj) in
    lookup_task w1 name = Some obj /\ delivers Added obj = true /\
    claimAndExecute Execute identity t1 tx t2 obj w1 = Ret (w2, true) /\
    lookup_task w2 name = Some final /\
    pre ++ post ≡ₚ in_text show_float <$> dr_RecommendedActions res /\ sorted_by ac_Order (pre ++ post) /\
    (exists w', succeeded Execute (tx + 60 * Second) target pre claim.1 w' /\
       forall a post', post = a :: post' -> exists w'', failed_at Execute (tx + 60 * Second) target a w' w'') /\
    t_phase final = (if decide (post = []) then TaskPhaseCompleted else TaskPhaseFailed) /\
    t_claimedBy final = identity /\ t_completedAt final = stamp_of t2 /\
    t_actionsCompleted final = Z.of_nat (length pre).
Proof.
  intros Hex Hlen HP. unfold Publish in HP.
  destruct (TaskCreate w _) as [w0 [e|]] eqn:EC; [done|]. injection HP as ->.
  apply Create_stores in EC as (uid & rv & created & Hobj).
  set (obj := created_as uid rv created (publish_object show_float res resource ms)) in *.
  change (t_name (publish_object show_float res resource ms)) with (task_name res resource ms) in Hobj.
  destruct (update_stored w1 (claim_status identity t1 obj) obj Hobj eq_refl) as (wc & claimed & EU & (rvc & Hcl) & Hlc).
  set (acts := slice_sort ac_Order (extractFromTask obj).2).
  destruct (run_sequence_returns (time_Add tx (taskTimeout obj)) acts (extractFromTask obj).1 start_progress wc Hex)
    as (wr & pg & ER & Hlr).
  assert (length acts = length (dr_RecommendedActions res)) as Hla.
  { unfold acts, obj. rewrite extract_published. cbn [snd].
    rewrite (Permutation_length (slice_sort_perm ac_Order _)), length_fmap.
    by rewrite (Permutation_length (slice_sort_perm ac_Order _)). }
  destruct (run_sequence_spec Execute _ acts _ start_progress wc wr pg ltac:(done) ltac:(cbn; lia) ER)
    as (pre & post & ws & Hsplit & Hsucc & Hcount & Hend).
  assert (lookup_task wr (task_name res resource ms) = Some claimed) as Hlk.
  { rewrite Hlr, Hlc. by rewrite decide_True. }
  assert (t_name claimed = task_name res resource ms) as Hnm by (by eapply stored_name).
  destruct (update_stored wr (final_status t2 pg claimed) claimed) as (w2 & final & EF & (rvf & Hfin) & Hlf);
    [cbn; by rewrite Hnm|done|].
  exists obj, w2, final, pre, post. cbv zeta. split; [done|]. split; [by vm_compute|]. split; [|split; [|split; [|split]]].
  - unfold claimAndExecute. rewrite EU. destruct (extractFromTask obj) as [resource' actions] eqn:Ex.
    change (taskTimeout (claim_status identity t1 obj)) with (taskTimeout obj).
    change (extractFromTask (claim_status identity t1 obj)) with (extractFromTask obj). rewrite Ex.
    unfold acts in ER. cbn [fst snd] in ER. rewrite ER. cbn. unfold updateTaskStatus.
    change (t_name (claim_status identity t1 obj)) with (task_name res resource ms).
    rewrite (Get_live wr _ _ Hlk), EF. done.
  - rewrite Hlf. cbn. by rewrite Hnm, decide_True.
  - rewrite <- Hsplit. unfold acts, obj. rewrite extract_published. cbn [snd]. rewrite slice_sort_perm.
    by rewrite slice_sort_perm.
  - rewrite <- Hsplit. apply slice_sort_sorted.
  - unfold obj in Hsucc, Hend. rewrite extract_published in Hsucc, Hend. rewrite EU. cbn [fst].
    change (time_Add tx (taskTimeout _)) with (tx + 60 * Second) in Hsucc, Hend.
    split; [exists ws; split; [exact Hsucc|]|].
    + intros a post' ->. destruct Hend as [(? & _)|(ac & p' & [= -> ->] & Hf & _)]; [done|]. by exists wr.
    + subst final claimed. cbn. split; [|split_and!; try done; lia].
      destruct Hend as [(-> & _ & Hok)|(ac & p' & -> & _ & Hok)]; rewrite Hok; cbn; by case_decide.
Qed.

End published.

(** * Witnesses *)

#[local] Existing Instance slot_client.
#[local] Existing Instance slot_store.
#[local] Existing Instance slot_TaskServer.
#[local] Existing Instance demo_sort.

#[local] Instance slot_HealthyServer : HealthyServer slot_server.
Proof.
  split.
  - intros [[[t0|] rv] us]; cbn; eexists; (split; [done|]); cbn; (split; [repeat constructor; set_solver|]);
      intros n t; unfold slot_lookup; cbn; [|done]. case_decide; [|done]. intros [= <-]. by left.
  - intros w n t. cbn. by intros ->.
  - intros w t cur. cbn. intros -> ->. by rewrite decide_True.
  - intros w n t. cbn. intros ->. cbn. done.
  - intros [[[t0|] rv] us] t w'; cbn; [done|]. intros [= <-]. exists (fresh us), (rv + 1), (t_created t).
    unfold slot_lookup. cbn. by rewrite decide_True.
Qed.

Definition demo_stuck : slot_server :=
  (Some (with_status TaskPhaseRunning "worker-0" (At Minute) NoStamp 0 None demo_task), 1, []).

Definition demo_queue : TaskQueueConfig := mkTaskQueueConfig (5 * Minute) Hour 0.

(** [sweep_effect] at a server with one stuck task. *)
Lemma sweep_effect_witness :
  exists t, lookup_task (sweep demo_queue (fun _ => "5m0s") (10 * Minute) (fun _ => 10 * Minute) demo_stuck).1
    (t_name demo_task) = Some t /\ t_phase t = TaskPhaseExpired.
Proof.
  destruct (sweep_effect demo_queue (fun _ => "5m0s") (10 * Minute) (fun _ => 10 * Minute) demo_stuck)
    as (items & HL & _ & Hs & _).
  cbv zeta in Hs. 
  assert (items = [with_identity "u1" 1 (with_status TaskPhaseRunning "worker-0" (At Minute) NoStamp 0 None demo_task)])
    as -> by (vm_compute in HL; injection HL as <-; by vm_compute).
  specialize (Hs (t_name demo_task) _ ltac:(by vm_compute)).
  destruct Hs as (new & Hn & rv & ->). eexists. split; [exact Hn|done].
Defined.


Lemma published_task_ends_witness :
  exists obj w2 final, let w1 := (Publish (W := slot_server) (fun _ => "") 7 (None, 0, [])
      (mkDetectionResult "det" "S1" "oom" (mkRef "apps/v1" "Deployment" "prod" "web" "d") SeverityHigh 0 0 1 true "m"
       [mkAction "scaleUp" 1 ∅]) (mkRef "apps/v1" "Deployment" "prod" "web" "d")).1 in
    claimAndExecute demo_run "worker-0" 9 9 (2 * Second) obj w1 = Ret (w2, true) /\
    lookup_task w2 "task-s1-web-7" = Some final /\ t_completedAt final = At (2 * Second).
Proof.
  destruct (published_task_ends (W := slot_server) (fun _ => "") demo_run "worker-0" 7 9 9 (2 * Second) (None, 0, [])
    (mkDetectionResult "det" "S1" "oom" (mkRef "apps/v1" "Deployment" "prod" "web" "d") SeverityHigh 0 0 1 true "m"
       [mkAction "scaleUp" 1 ∅]) (mkRef "apps/v1" "Deployment" "prod" "web" "d")
    (Publish (W := slot_server) (fun _ => "") 7 (None, 0, [])
      (mkDetectionResult "det" "S1" "oom" (mkRef "apps/v1" "Deployment" "prod" "web" "d") SeverityHigh 0 0 1 true "m"
       [mkAction "scaleUp" 1 ∅]) (mkRef "apps/v1" "Deployment" "prod" "web" "d")).1)
    as (obj & w2 & final & pre & post & _ & _ & H1 & H2 & _ & _ & _ & _ & _ & H3 & _).
  - intros d w r ac. exists w. eexists. split; [done|]. by split.
  - by vm_compute.
  - by vm_compute.
  - exists obj, w2, final. split; [exact H1|]. split; [exact H2|]. rewrite H3. by vm_compute.
Defined.
