(* ===== verification/TaskType.v ===== *)
(** The shape of a task: what a stored task looks like in each phase, that no
    component brings one out of shape, and that its phase only moves forward. *)

From S2P Require Import Prelude Types TaskQueue TaskSystem TaskLife.

(** A server that stores a new task as it was sent, whatever it answers. *)
Class RecordingServer (W : Type) `{TaskServer W} := {
  Create_records (w : W) t w' r :
    TaskCreate w t = (w', r) ->
    unchanged w w' \/ exists uid rv created, lookup_task w (t_name t) = None /\ ~ used w uid /\
      replaced w (t_name t) (Some (created_as uid rv created t)) w';
}.

Section shape.
Context (show_float : spec_float -> string).
Context `{Sort : !SliceSort ActionConfig ac_Order}.

(** The task without what the server adds and without its status. *)
Definition spec_of (t : Task) : Task :=
  created_as "" 0 zero_time (with_status "" "" NoStamp NoStamp 0 None t).

Definition published (t : Task) : Prop :=
  exists res resource ms, spec_of t = publish_object show_float res resource ms.

Definition is_At (s : stamp) : Prop := exists t, s = At t.

(** A finished task says when, and whether it succeeded. *)
Definition finished_with (success : bool) (t : Task) : Prop :=
  is_At (t_completedAt t) /\ exists r, t_result t = Some r /\ tr_success r = success.

Inductive status_ok (t : Task) : Prop :=
  | ok_pending : t_phase t = "" -> t_claimedBy t = "" -> t_claimedAt t = NoStamp -> t_completedAt t = NoStamp ->
      t_actionsCompleted t = 0 -> t_result t = None -> status_ok t
  | ok_running : t_phase t = TaskPhaseRunning -> is_At (t_claimedAt t) -> t_completedAt t = NoStamp ->
      t_actionsCompleted t = 0 -> t_result t = None -> status_ok t
  | ok_completed : t_phase t = TaskPhaseCompleted -> finished_with true t -> status_ok t
  | ok_failed : t_phase t = TaskPhaseFailed -> finished_with false t -> status_ok t
  | ok_expired : t_phase t = TaskPhaseExpired -> finished_with false t -> status_ok t.

Definition task_ok (t : Task) : Prop := published t /\ status_ok t.

(** Waiting, claimed, finished. *)
Definition phase_rank (t : Task) : nat :=
  if decide (phase_of t = TaskPhasePending) then 0%nat
  else if decide (phase_of t = TaskPhaseRunning) then 1%nat else 2%nat.

(** [told] is an earlier state of [t]. *)
Definition earlier (told t : Task) : Prop := (phase_rank told <= phase_rank t)%nat /\ spec_of told = spec_of t.

Lemma status_of_spec t cur new : status_of t cur new -> spec_of new = spec_of cur.
Proof. by intros [rv ->]. Qed.

Lemma status_of_ok t cur new : status_of t cur new -> status_ok t -> status_ok new.
Proof.
  intros [rv ->] [].
  - by constructor 1.
  - by constructor 2.
  - by constructor 3.
  - by constructor 4.
  - by constructor 5.
Qed.

Lemma status_of_rank t cur new : status_of t cur new -> phase_rank new = phase_rank t.
Proof. by intros [rv ->]. Qed.

Lemma created_task_ok uid rv created res resource ms :
  task_ok (created_as uid rv created (publish_object show_float res resource ms)).
Proof. split; [by exists res, resource, ms|by constructor 1]. Qed.

(** ** What the components write *)

Lemma pending_shape ty t :
  delivers ty t = true -> status_ok t -> t_completedAt t = NoStamp /\ t_actionsCompleted t = 0 /\ t_result t = None.
Proof.
  intros Hd [|E|E|E|E]; [done|..]; exfalso; unfold delivers, phase_of in Hd; rewrite E in Hd; by destruct ty.
Qed.

Lemma claim_ok ty identity now t :
  delivers ty t = true -> status_ok t -> status_ok (claim_status identity now t).
Proof.
  intros Hd Hok. destruct (pending_shape ty t Hd Hok) as (E1 & E2 & E3). constructor 2; cbn; try done. by eexists.
Qed.

Lemma final_ok now pg t : status_ok (final_status now pg t).
Proof.
  destruct (pg_ok pg) eqn:E; [constructor 3|constructor 4]; cbn; rewrite ?E; try done;
    (split; cbn; [by eexists|eexists; split; [done|by cbn]]).
Qed.

Lemma expired_ok now t text : status_ok (expired_status now t text).
Proof. constructor 5; [done|]. split; cbn; [by eexists|by eexists]. Qed.

Lemma rank_bound t : (phase_rank t <= 2)%nat.
Proof. unfold phase_rank. repeat case_decide; lia. Qed.

Lemma rank_pending ty t : delivers ty t = true -> phase_rank t = 0%nat.
Proof. intros Hd. unfold phase_rank, delivers in *. destruct ty; try done; by rewrite decide_True by by apply bool_decide_eq_true in Hd. Qed.

Lemma rank_final now pg t : phase_rank (final_status now pg t) = 2%nat.
Proof. unfold phase_rank, phase_of. cbn. by destruct (pg_ok pg). Qed.

(** ** The invariant *)

Context {W : Type} `{RecordingServer W}.
Implicit Types w : W.

Definition all_ok w : Prop := forall n t, lookup_task w n = Some t -> task_ok t.

Record shape_inv (c : W * list Task) : Prop := {
  si_seen : seen_ok c;
  si_stored : all_ok c.1;
  si_read t : t ∈ c.2 -> task_ok t /\ used c.1 (t_uid t);
  si_forward told n t : told ∈ c.2 -> lookup_task c.1 n = Some t -> t_uid told = t_uid t -> earlier told t;
}.

Lemma inv_unchanged w w' seen : unchanged w w' -> shape_inv (w, seen) -> shape_inv (w', seen).
Proof.
  intros Hu [A B C D]. pose proof Hu as [Hl _ Hus]. split; cbn in *.
  - by eapply unchanged_seen.
  - intros n t. rewrite Hl. apply B.
  - intros t Ht. destruct (C t Ht). split; [done|]. by apply Hus.
  - intros told n t Ht. rewrite Hl. by apply D.
Qed.

Lemma inv_replaced w w' seen n new :
  replaced w n new w' -> shape_inv (w, seen) ->
  (forall t, new = Some t -> task_ok t /\ forall told, told ∈ seen -> t_uid told = t_uid t -> earlier told t) ->
  shape_inv (w', seen).
Proof.
  intros Hr [A B C D] Hnew. pose proof Hr as [Hl _ _ Hus]. split; cbn in *.
  - by eapply replaced_seen.
  - intros m t. rewrite Hl. case_decide; [|apply B]. intros E. by destruct (Hnew t E).
  - intros t Ht. destruct (C t Ht). split; [done|]. by apply Hus.
  - intros told m t Ht. rewrite Hl. case_decide; [|by apply D]. intros E Hut. destruct (Hnew t E) as [_ Hf]. by apply Hf.
Qed.

(** A status in shape, written on an object that was read, with no lower rank. *)
Lemma inv_update w w' seen told t r :
  told ∈ seen -> t_name t = t_name told -> t_resourceVersion t = t_resourceVersion told ->
  status_ok t -> (phase_rank told <= phase_rank t)%nat ->
  TaskUpdateStatus w t = (w', r) -> shape_inv (w, seen) -> shape_inv (w', seen).
Proof.
  intros Hin Hn Hv Hok Hrk Hu Hinv. destruct (update_effect _ _ _ _ Hu) as [Hc|Hc]; [by eapply inv_unchanged|].
  destruct Hinv as [A B C D]. pose proof Hc as (cur & new & Hl & Hrv & Hst & Hre).
  destruct (updated_current w w' seen told t A Hin Hn Hv Hc) as (Hcur & _). rewrite Hn in Hl.
  assert (cur = told) as -> by congruence. eapply inv_replaced; [exact Hre|by split|]. intros ? [= <-].
  split.
  - split; [|by eapply status_of_ok]. destruct (C told Hin) as [[(x & y & z & E) _] _].
    exists x, y, z. by rewrite (status_of_spec _ _ _ Hst).
  - intros t0 Ht0 Hut. destruct (D t0 _ told Ht0 Hcur) as [Hrk1 Hsp1].
    { rewrite Hut. by destruct Hst as [rv ->]. }
    split; [rewrite (status_of_rank _ _ _ Hst); cbn in *; lia|by rewrite (status_of_spec _ _ _ Hst)].
Qed.

Lemma inv_step c l c' : sstep show_float c l c' -> shape_inv c -> shape_inv c'.
Proof.
  intros Hs Hinv. destruct (sstep_inv show_float "" 0 _ _ _ Hs (si_seen _ Hinv)) as [Hseen _].
  destruct Hs as [w seen n t Hl|w seen t ty identity now w' r Hin Hd Hu|
    w seen t now pg w' r Hin Hu|w seen t now text w' r Hin Hu|w seen n w' r Hd|
    w seen ms res resource w' r Hcr|w seen w' Hun].
  - destruct Hinv as [A B C D]. split; cbn in *; [done|done|..].
    + intros t' [->|Ht']%elem_of_cons; [|by apply C]. split; [by eapply B|by eapply stored_used].
    + intros told m t' [->|Ht']%elem_of_cons Hm Hut; [|by eapply D].
      assert (t' = t) as -> by (eapply uid_inj; [done..|by symmetry]). by split.
  - assert (status_ok t) as Hok by apply (si_read _ Hinv t Hin).
    refine (inv_update w w' seen t (claim_status identity now t) r Hin eq_refl eq_refl _ _ Hu Hinv).
    + by eapply claim_ok.
    + rewrite (rank_pending ty) by done. lia.
  - refine (inv_update w w' seen t (final_status now pg t) r Hin eq_refl eq_refl _ _ Hu Hinv).
    + apply final_ok.
    + rewrite rank_final. apply rank_bound.
  - refine (inv_update w w' seen t (expired_status now t text) r Hin eq_refl eq_refl _ _ Hu Hinv).
    + apply expired_ok.
    + apply rank_bound.
  - destruct (Delete_effect w n w' r Hd) as [Hc|Hc]; [by eapply inv_unchanged|by eapply inv_replaced].
  - destruct (Create_records w _ w' r Hcr) as [Hc|(uid & rv & created & _ & Hfresh & Hc)]; [by eapply inv_unchanged|].
    eapply inv_replaced; [exact Hc|done|]. intros ? [= <-]. split; [apply created_task_ok|].
    intros told Ht Hut. destruct (si_read _ Hinv told Ht) as [_ Hus]. cbn in *. by subst.
  - by eapply inv_unchanged.
Qed.

(** C6: tasks keep their shape.  Whatever publishers, workers and janitors do from
    arbitrarily old reads, every stored task has one of the five phases with
    the fields that belong to it - nothing set while it waits, a time of claim
    while it runs, a time of completion and a result that says success exactly
    when Completed afterwards - and the target, actions and timeout it was
    published with; and whatever any component has read of a task is an earlier
    state of it: a phase never goes back and the specification never changes.
    The way back from Failed to Pending that the comments on the API type draw
    does not exist in the code. *)
Theorem tasks_keep_shape w ls w' seen :
  all_ok w -> strace show_float (w, []) ls (w', seen) ->
  all_ok w' /\ forall told n t, told ∈ seen -> lookup_task w' n = Some t -> t_uid told = t_uid t -> earlier told t.
Proof.
  intros Hok Ht. assert (shape_inv (w, [])) as Hinv.
  { split; cbn; [intros t Hin; by apply elem_of_nil in Hin|done|intros t Hin; by apply elem_of_nil in Hin|].
    intros told n t Hin. by apply elem_of_nil in Hin. }
  assert (forall c ls c', strace show_float c ls c' -> shape_inv c -> shape_inv c') as Hrun.
  { induction 1; eauto using inv_step. }
  destruct (Hrun _ _ _ Ht Hinv) as [_ B _ D]. split; [exact B|]. intros told n t. apply D.
Qed.
End shape.

(** * The one-slot server *)

#[local] Existing Instance slot_client.
#[local] Existing Instance slot_store.
#[local] Existing Instance slot_TaskServer.
#[local] Existing Instance demo_sort.

#[local] Instance slot_RecordingServer : RecordingServer slot_server.
Proof.
  split. intros w t w' r E. destruct w as [[[t0|] rv] us]; cbn in E; injection E as <- <-; [left; apply slot_unchanged|].
  right. exists (fresh us), (rv + 1), (t_created t). split; [done|].
  split; [intros [Hu|(? & ? & _)]; [by apply infinite_is_fresh in Hu|done]|]. split; cbn.
  - intros m. unfold slot_lookup. cbn. by case_decide.
  - intros t' [= <-]. cbn. lia.
  - lia.
  - intros u [Hu|(? & ? & _)]; [|done]. left. by right.
Qed.

(** A task that was read while it waited, and has been claimed since. *)
Lemma tasks_keep_shape_witness :
  all_ok (fun _ => "") demo_slot /\
  (phase_rank demo_task = 0%nat /\ exists t, lookup_task demo_slot' (t_name demo_task) = Some t /\
    phase_rank t = 1%nat /\ task_ok (fun _ => "") t /\ earlier demo_task t).
Proof.
  assert (all_ok (fun _ => "") demo_slot) as Hok.
  { intros n t E. destruct (slot_lookup_Some _ _ _ E) as (t0 & E0 & _ & ->). injection E0 as <-. split.
    - do 3 eexists. unfold demo_task. reflexivity.
    - by constructor 1. }
  split; [exact Hok|]. split; [by vm_compute|].
  assert (strace (fun _ => "") (demo_slot, []) [SRead demo_task; SClaim demo_task true] (demo_slot', [demo_task])) as Ht.
  { eapply strace_cons; [apply (s_read _ _ _ (t_name demo_task)); by vm_compute|].
    eapply strace_cons; [|apply strace_nil].
    apply (s_claim _ _ _ demo_task Added "worker-0" 9 demo_slot' None); [by left|by vm_compute|by vm_compute]. }
  destruct (tasks_keep_shape (fun _ => "") demo_slot _ demo_slot' [demo_task] Hok Ht) as [Hall Hf].
  eexists. split; [vm_compute; reflexivity|]. split; [by vm_compute|]. split.
  - apply (Hall (t_name demo_task)). by vm_compute.
  - apply (Hf _ (t_name demo_task)); [by left|by vm_compute|done].
Defined.
