(* ===== verification/Metrics.v ===== *)
(** The metrics of the operator (internal/metrics/metrics.go): the collectors the
    package registers when it is initialised, and the gauges a sweep of the
    janitor sets. *)

From S2P Require Import Prelude Types GoNum GoText TaskQueue TaskSystem TaskJanitor TaskLife.

(** * Collectors *)

Inductive collector_kind := CounterKind | GaugeKind | HistogramKind.

#[global] Instance collector_kind_eq_dec : EqDecision collector_kind.
Proof. solve_decision. Defined.

Record Collector := mkCollector {
  c_kind : collector_kind;
  c_Namespace : string;
  c_Subsystem : string;
  c_Name : string;
  c_Help : string;
  c_Buckets : option (list spec_float);
  c_labels : list string;
}.

(** The name under which the collector is exposed. *)
Definition full_name (c : Collector) : string := c_Namespace c +:+ "_" +:+ c_Subsystem c +:+ "_" +:+ c_Name c.

(** What the client library asks of names, labels and buckets. *)
Definition name_start (c : Ascii.ascii) : bool :=
  let n := Z.of_nat (Ascii.nat_of_ascii c) in
  between 97 122 n || between 65 90 n || (n =? 95).

Definition name_rest (c : Ascii.ascii) : bool :=
  name_start c || between 48 57 (Z.of_nat (Ascii.nat_of_ascii c)).

Definition legal (s : string) : bool :=
  match String.list_ascii_of_string s with
  | [] => false
  | c :: l => name_start c && forallb name_rest l
  end.

Definition reserved (s : string) : bool := String.prefix "__" s.

Fixpoint increasing (l : list spec_float) : bool :=
  match l with
  | a :: (b :: _) as l => SFltb a b && increasing l
  | _ => true
  end.

Definition valid_collector (c : Collector) : bool :=
  legal (full_name c) && bool_decide (NoDup (c_labels c)) &&
  forallb (fun l => legal l && negb (reserved l)) (c_labels c) &&
  match c_kind c with
  | HistogramKind => forallb (fun l => negb (bool_decide (l = "le"))) (c_labels c) &&
                     increasing (default [] (c_Buckets c))
  | _ => true
  end.

(** The Prometheus client: [promauto_New] creates a collector and registers it with
    the default registry, and panics when that fails; [GaugeSet] and [GaugeValue]
    are for gauges without labels. *)
Class PromClient (R : Type) := {
  DefBuckets : list spec_float;
  promauto_New : R -> Collector -> outcome R;
  GaugeSet : R -> Collector -> spec_float -> R;
  GaugeValue : R -> Collector -> option spec_float;
  taken : R -> string -> Prop;
}.

(** Its documented behaviour. *)
Class PromLaws (R : Type) `{PromClient R} := {
  DefBuckets_increasing : increasing DefBuckets = true;
  New_registers r c :
    valid_collector c = true -> ~ taken r (full_name c) ->
    exists r', promauto_New r c = Ret r' /\ forall n, taken r' n <-> n = full_name c \/ taken r n;
  Set_value r c v : taken r (full_name c) -> GaugeValue (GaugeSet r c v) c = Some v;
  Set_others r c v c' : full_name c' <> full_name c -> GaugeValue (GaugeSet r c v) c' = GaugeValue r c';
  Set_taken r c v n : taken (GaugeSet r c v) n <-> taken r n;
}.

Section metrics.
Context {R : Type} `{PromClient R}.

Definition namespace : string := "selfhealing".
Definition subsystem : string := "operator".

Definition DetectionsTotal : Collector :=
  mkCollector CounterKind namespace subsystem "detections_total" "Total number of detections by scenario and severity" None ["scenario"; "severity"].
Definition DetectionLatency : Collector :=
  mkCollector HistogramKind namespace subsystem "detection_latency_seconds" "Detection processing latency in seconds" (Some DefBuckets) ["scenario"].
Definition ThresholdMetTotal : Collector :=
  mkCollector CounterKind namespace subsystem "threshold_met_total" "Total number of threshold met events by scenario" None ["scenario"].
Definition RemediationsTotal : Collector :=
  mkCollector CounterKind namespace subsystem "remediations_total" "Total number of remediations by scenario and action type" None ["scenario"; "action"].
Definition RemediationDuration : Collector :=
  mkCollector HistogramKind namespace subsystem "remediation_duration_seconds" "Remediation action duration in seconds" (Some DefBuckets) ["scenario"; "action"].
Definition ActionsSucceededTotal : Collector :=
  mkCollector CounterKind namespace subsystem "actions_succeeded_total" "Total number of successful actions by type" None ["action"].
Definition ActionsFailedTotal : Collector :=
  mkCollector CounterKind namespace subsystem "actions_failed_total" "Total number of failed actions by type" None ["action"].
Definition ActionsSkippedTotal : Collector :=
  mkCollector CounterKind namespace subsystem "actions_skipped_total" "Total number of skipped actions by reason" None ["reason"].
Definition EscalationsTotal : Collector :=
  mkCollector CounterKind namespace subsystem "escalations_total" "Total number of escalations by scenario" None ["scenario"].
Definition CacheSizeBytes : Collector :=
  mkCollector GaugeKind namespace subsystem "cache_size_bytes" "Current cache size in bytes" None ["cache"].
Definition CacheEntries : Collector :=
  mkCollector GaugeKind namespace subsystem "cache_entries" "Current number of cache entries" None ["cache"].
Definition CacheEvictionsTotal : Collector :=
  mkCollector CounterKind namespace subsystem "cache_evictions_total" "Total number of cache evictions" None ["cache"].
Definition CacheHitsTotal : Collector :=
  mkCollector CounterKind namespace subsystem "cache_hits_total" "Total number of cache hits" None ["cache"].
Definition CacheMissesTotal : Collector :=
  mkCollector CounterKind namespace subsystem "cache_misses_total" "Total number of cache misses" None ["cache"].
Definition QueueDepth : Collector :=
  mkCollector GaugeKind namespace subsystem "queue_depth" "Current depth of processing queues" None ["queue"].
Definition DroppedInputsTotal : Collector :=
  mkCollector CounterKind namespace subsystem "dropped_inputs_total" "Total number of dropped inputs due to full queues" None ["source"].
Definition ScenariosEnabled : Collector :=
  mkCollector GaugeKind namespace subsystem "scenarios_enabled" "Number of enabled scenarios" None [].
Definition ScenariosDisabledResource : Collector :=
  mkCollector GaugeKind namespace subsystem "scenarios_disabled_resource" "Number of scenarios disabled due to resource constraints" None [].
Definition MemoryUsageBytes : Collector :=
  mkCollector GaugeKind namespace subsystem "memory_usage_bytes" "Current memory usage in bytes" None [].
Definition MemoryLimitBytes : Collector :=
  mkCollector GaugeKind namespace subsystem "memory_limit_bytes" "Memory limit in bytes" None [].
Definition Goroutines : Collector :=
  mkCollector GaugeKind namespace subsystem "goroutines" "Current number of goroutines" None [].
Definition Info : Collector :=
  mkCollector GaugeKind namespace subsystem "info" "Operator information" None ["version"; "commit"; "build_date"].
Definition TasksPending : Collector :=
  mkCollector GaugeKind namespace subsystem "tasks_pending" "Current number of RemediationTasks in Pending phase" None [].
Definition TasksRunning : Collector :=
  mkCollector GaugeKind namespace subsystem "tasks_running" "Current number of RemediationTasks in Running phase" None [].
Definition TasksCompleted : Collector :=
  mkCollector GaugeKind namespace subsystem "tasks_completed" "Current number of RemediationTasks in Completed phase" None [].
Definition TasksFailed : Collector :=
  mkCollector GaugeKind namespace subsystem "tasks_failed" "Current number of RemediationTasks in Failed phase" None [].
Definition TasksExpired : Collector :=
  mkCollector GaugeKind namespace subsystem "tasks_expired" "Current number of RemediationTasks in Expired phase" None [].
Definition TasksExpiredTotal : Collector :=
  mkCollector CounterKind namespace subsystem "tasks_expired_total" "Total number of RemediationTasks expired by the Janitor (stuck Running)" None [].
Definition TasksDeletedTotal : Collector :=
  mkCollector CounterKind namespace subsystem "tasks_deleted_total" "Total number of terminal RemediationTasks deleted after retention period" None [].
Definition TasksClaimedTotal : Collector :=
  mkCollector CounterKind namespace subsystem "tasks_claimed_total" "Total number of RemediationTasks claimed by Workers" None [].
Definition TasksCompletedTotal : Collector :=
  mkCollector CounterKind namespace subsystem "tasks_completed_total" "Total number of RemediationTasks that completed successfully" None [].
Definition TasksFailedTotal : Collector :=
  mkCollector CounterKind namespace subsystem "tasks_failed_total" "Total number of RemediationTasks that failed" None [].

(** The variables of the package, in the order of their declarations. *)
Definition collectors : list Collector :=
  [DetectionsTotal; DetectionLatency; ThresholdMetTotal; RemediationsTotal; RemediationDuration;
   ActionsSucceededTotal; ActionsFailedTotal; ActionsSkippedTotal; EscalationsTotal; CacheSizeBytes;
   CacheEntries; CacheEvictionsTotal; CacheHitsTotal; CacheMissesTotal; QueueDepth; DroppedInputsTotal;
   ScenariosEnabled; ScenariosDisabledResource; MemoryUsageBytes; MemoryLimitBytes; Goroutines; Info;
   TasksPending; TasksRunning; TasksCompleted; TasksFailed; TasksExpired; TasksExpiredTotal;
   TasksDeletedTotal; TasksClaimedTotal; TasksCompletedTotal; TasksFailedTotal].

Fixpoint register_in_order (cs : list Collector) (r : R) : outcome R :=
  match cs with
  | [] => Ret r
  | c :: cs => r ← promauto_New r c; register_in_order cs r
  end.

(** The initialisation of the package. *)
Definition metrics_init (r : R) : outcome R := register_in_order collectors r.

(** The end of [sweep]: the gauges of the phases. *)
Definition set_phase_gauges (c : counts) (r : R) : R :=
  let r := GaugeSet r TasksPending (float64_of_int (n_pending c)) in
  let r := GaugeSet r TasksRunning (float64_of_int (n_running c)) in
  let r := GaugeSet r TasksCompleted (float64_of_int (n_completed c)) in
  let r := GaugeSet r TasksFailed (float64_of_int (n_failed c)) in
  GaugeSet r TasksExpired (float64_of_int (n_expired c)).

Definition sweep_metered {W : Type} `{TaskClient W} (cfg : TaskQueueConfig) (show_duration : Z -> string)
    (now : Z) (later : Task -> Z) (w : W) (r : R) : W * R :=
  let '(w, oc) := sweep cfg show_duration now later w in
  (w, match oc with Some c => set_phase_gauges c r | None => r end).

End metrics.
