(* ===== verification/MetricsProps.v ===== *)
(** The properties of the metrics: the package registers all its collectors, and
    after a sweep the gauges say what the server holds. *)

From S2P Require Import Prelude Types GoNum TaskQueue TaskSystem TaskQueueProps TaskJanitor TaskLife Metrics.

(** * Registration *)

Section registration.
Context {R : Type} `{PromLaws R}.

(** The naming convention of the package. *)
Definition conventional (c : Collector) : bool :=
  String.prefix "selfhealing_operator_" (full_name c) && negb (bool_decide (c_Help c = "")) &&
  match c_kind c with
  | CounterKind => bool_decide (String.substring (String.length (c_Name c) - 6) 6 (c_Name c) = "_total")
  | HistogramKind => bool_decide (String.substring (String.length (c_Name c) - 8) 8 (c_Name c) = "_seconds")
  | GaugeKind => true
  end.

Lemma collectors_valid : Forall (fun c => valid_collector c = true) collectors.
Proof.
  pose proof DefBuckets_increasing as Hb. vm_compute in Hb.
  repeat constructor; vm_compute; exact Hb.
Qed.

(** The names do not depend on the client. *)
Lemma collectors_distinct : NoDup (full_name <$> collectors).
Proof. vm_compute. apply (bool_decide_unpack _). vm_compute. done. Qed.

Lemma register_all_names cs r :
  Forall (fun c => valid_collector c = true) cs -> NoDup (full_name <$> cs) ->
  (forall c, c ∈ cs -> ~ taken r (full_name c)) ->
  exists r', register_in_order cs r = Ret r' /\ forall n, taken r' n <-> n ∈ full_name <$> cs \/ taken r n.
Proof.
  revert r. induction cs as [|c cs IH]; intros r Hv Hd Hf; cbn [register_in_order].
  { exists r. split; [done|]. set_solver. }
  apply Forall_cons in Hv as [Hc Hv]. rewrite fmap_cons, NoDup_cons in Hd. destruct Hd as [Hno Hd].
  destruct (New_registers r c Hc) as (r1 & E1 & Ht1); [apply Hf; by left|]. rewrite E1. cbn [outcome_bind mbind].
  destruct (IH r1 Hv Hd) as (r2 & E2 & Ht2).
  - intros c' Hin [Hn|Hn]%Ht1; [|by apply (Hf c'); [right|]]. apply Hno. rewrite <- Hn. by apply list_elem_of_fmap_2.
  - exists r2. split; [exact E2|]. intros n. rewrite Ht2, Ht1, fmap_cons, elem_of_cons. tauto.
Qed.

(** The metrics are well formed.  The 32 collectors of the package have legal
    names and labels, increasing buckets and the documented naming, and no two
    share a name, so the initialisation of the package, which panics at the first
    collector that cannot be registered, returns with all of them registered in
    every process that has none of these names taken. *)
Theorem metrics_well_formed r :
  (forall c, c ∈ collectors -> ~ taken r (full_name c)) ->
  Forall (fun c => valid_collector c = true /\ conventional c = true) collectors /\ length collectors = 32%nat /\
  exists r', metrics_init r = Ret r' /\ forall n, taken r' n <-> n ∈ full_name <$> collectors \/ taken r n.
Proof.
  intros Hf. split; [|split; [done|]].
  - apply Forall_and. split; [apply collectors_valid|]. repeat constructor.
  - apply register_all_names; [apply collectors_valid|apply collectors_distinct|exact Hf].
Qed.
End registration.

(** * The gauges of the phases *)

Section gauges.
Context {W : Type} `{HealthyServer W}.
Context {R : Type} `{PromLaws R}.
Context (cfg : TaskQueueConfig) (show_duration : Z -> string).
Implicit Types w : W.

(** How many tasks of a listing are in a phase. *)
Definition in_phase (p : string) (l : list Task) : Z := Z.of_nat (length (filter (fun t => phase_of t = p) l)).

(** The phase a listed task is in after the sweep, if it is still there. *)
Definition phase_after (now tLast : Z) (t : Task) : option string :=
  match decide_task cfg now tLast t with
  | Keep => Some (phase_of t)
  | Expire => Some TaskPhaseExpired
  | Delete => None
  end.

Definition count_after (now tLast : Z) (p : string) (l : list Task) : Z :=
  Z.of_nat (length (filter (fun t => phase_after now tLast t = Some p) l)).

(** The count a phase has among those of a sweep. *)
Definition phase_counts : list (string * (counts -> Z)) :=
  [(TaskPhasePending, n_pending); (TaskPhaseRunning, n_running); (TaskPhaseCompleted, n_completed);
   (TaskPhaseFailed, n_failed); (TaskPhaseExpired, n_expired)].

Lemma count_after_cons now tLast p t l :
  count_after now tLast p (t :: l) =
    (if decide (phase_after now tLast t = Some p) then 1 else 0) + count_after now tLast p l.
Proof. unfold count_after. rewrite filter_cons. case_decide; cbn [length]; lia. Qed.

Lemma sweep_one_counts now tLast later w c t p f :
  (p, f) ∈ phase_counts ->
  f (sweep_one cfg show_duration now tLast later (w, c) t).2 =
    f c + (if decide (phase_after now tLast t = Some p) then 1 else 0).
Proof.
  intros Hp. destruct c as [np nr nco nf ne ec dc]. unfold sweep_one, phase_after, decide_task, is_terminal.
  unfold phase_counts in Hp. rewrite !elem_of_cons, elem_of_nil in Hp.
  destruct (decide (phase_of t = TaskPhasePending)) as [E|N1];
  [|destruct (decide (phase_of t = TaskPhaseRunning)) as [E|N2];
  [|destruct (decide (phase_of t = TaskPhaseCompleted)) as [E|N3];
  [|destruct (decide (phase_of t = TaskPhaseFailed)) as [E|N4];
  [|destruct (decide (phase_of t = TaskPhaseExpired)) as [E|N5]]]]].
  1-5: rewrite E; cbn; repeat case_match; destruct_or?; simplify_eq/=; lia.
  rewrite !bool_decide_false by done. cbn. destruct_or?; simplify_eq; case_decide; simplify_eq; cbn; lia.
Qed.

Lemma sweep_counts now tLast later items w c p f :
  (p, f) ∈ phase_counts ->
  f (foldl (sweep_one cfg show_duration now tLast later) (w, c) items).2 = f c + count_after now tLast p items.
Proof.
  intros Hp. revert w c. induction items as [|t items IH]; intros w c; cbn [foldl]; [by rewrite Z.add_0_r|].
  rewrite count_after_cons. pose proof (sweep_one_counts now tLast later w c t p f Hp) as E.
  destruct (sweep_one _ _ _ _ _ (w, c) t) as [w1 c1]. cbn [snd] in E. rewrite IH, E. lia.
Qed.

(** The tasks of a phase after the sweep are the listed ones that end in it. *)
Lemma sweep_phases now later w items items' p :
  TaskList w = Ok items -> NoDup (t_name <$> items) -> (forall t, t ∈ items <-> lookup_task w (t_name t) = Some t) ->
  NoDup (t_name <$> items') ->
  (forall t, t ∈ items' <-> lookup_task (sweep cfg show_duration now later w).1 (t_name t) = Some t) ->
  in_phase p items' = count_after now (last_terminal cfg items) p items.
Proof.
  intros HL Hnd Hst Hnd' Hst'. unfold in_phase, count_after. f_equal.
  rewrite <- (length_fmap t_name (filter _ items')), <- (length_fmap t_name (filter _ items)).
  apply Permutation_length, NoDup_Permutation.
  - by apply NoDup_fmap_filter.
  - by apply NoDup_fmap_filter.
  - destruct (sweep_outcome cfg show_duration now later w items HL Hnd Hst) as [Hc Hn]. intros n.
    rewrite !list_elem_of_fmap. split.
    + intros (t' & -> & [Hp Ht']%list_elem_of_filter). apply Hst' in Ht'.
      destruct (lookup_task w (t_name t')) as [t|] eqn:El; [|rewrite (Hn _ El) in Ht'; done].
      pose proof (stored_name _ _ _ El) as Ent. specialize (Hc _ _ El). exists t. split; [done|].
      apply list_elem_of_filter. split; [|apply Hst; by rewrite Ent].
      unfold phase_after. unfold sweep_decision in Hc. destruct (decide_task _ _ _ t); cbn [carried_out] in Hc.
      * assert (t' = t) as -> by congruence. by rewrite Hp.
      * destruct Hc as (new & E & rv & Enew). assert (t' = new) as -> by congruence. by rewrite <- Hp, Enew.
      * congruence.
    + intros (t & -> & [Hp Ht]%list_elem_of_filter). apply Hst in Ht. specialize (Hc _ _ Ht).
      unfold phase_after in Hp. unfold sweep_decision in Hc. destruct (decide_task _ _ _ t); cbn [carried_out] in Hc.
      * exists t. split; [done|]. apply list_elem_of_filter. split; [congruence|]. by apply Hst'.
      * destruct Hc as (new & E & rv & Enew). exists new. assert (t_name new = t_name t) as En by (by apply (stored_name _ _ _ E)).
        split; [done|]. apply list_elem_of_filter. split; [|apply Hst'; by rewrite En]. injection Hp as <-. by rewrite Enew.
      * done.
Qed.

Lemma set_phase_gauges_value c (r : R) :
  (forall c, c ∈ collectors -> taken r (full_name c)) ->
  let r' := set_phase_gauges c r in
  GaugeValue r' TasksPending = Some (float64_of_int (n_pending c)) /\
  GaugeValue r' TasksRunning = Some (float64_of_int (n_running c)) /\
  GaugeValue r' TasksCompleted = Some (float64_of_int (n_completed c)) /\
  GaugeValue r' TasksFailed = Some (float64_of_int (n_failed c)) /\
  GaugeValue r' TasksExpired = Some (float64_of_int (n_expired c)).
Proof.
  intros Ht. cbv zeta. unfold set_phase_gauges.
  repeat split; rewrite ?Set_others by (vm_compute; done); apply Set_value; rewrite ?Set_taken; apply Ht;
    unfold collectors; rewrite !elem_of_cons; tauto.
Qed.

(** The gauges of the phases are exact.  On a server that answers, a sweep
    leaves TasksPending, TasksRunning, TasksCompleted, TasksFailed and
    TasksExpired at the number of tasks the server holds in that phase right
    after the sweep: tasks it just expired count as expired, tasks it just
    deleted do not count. *)
Theorem phase_gauges_exact now later w (r : R) :
  (forall c, c ∈ collectors -> taken r (full_name c)) ->
  let '(w', r') := sweep_metered cfg show_duration now later w r in
  exists items', TaskList w' = Ok items' /\
    GaugeValue r' TasksPending = Some (float64_of_int (in_phase TaskPhasePending items')) /\
    GaugeValue r' TasksRunning = Some (float64_of_int (in_phase TaskPhaseRunning items')) /\
    GaugeValue r' TasksCompleted = Some (float64_of_int (in_phase TaskPhaseCompleted items')) /\
    GaugeValue r' TasksFailed = Some (float64_of_int (in_phase TaskPhaseFailed items')) /\
    GaugeValue r' TasksExpired = Some (float64_of_int (in_phase TaskPhaseExpired items')).
Proof.
  intros Ht. destruct (sweep_listing w) as (items & HL & Hnd & Hst).
  destruct (sweep_listing (sweep cfg show_duration now later w).1) as (items' & HL' & Hnd' & Hst').
  assert (forall p f, (p, f) ∈ phase_counts ->
    f (foldl (sweep_one cfg show_duration now (last_terminal cfg items) later)
         (w, mkCounts 0 0 0 0 0 0 0) items).2 = in_phase p items') as Hcount.
  { intros p f Hp. rewrite (sweep_counts now _ later items w _ p f Hp).
    rewrite (sweep_phases now later w items items' p HL Hnd Hst Hnd' Hst').
    unfold phase_counts in Hp. rewrite !elem_of_cons, elem_of_nil in Hp. destruct_or?; simplify_eq; done. }
  unfold sweep_metered, sweep in *. rewrite HL in *. destruct (foldl _ _ _) as [w' c]. cbn [fst snd] in *.
  exists items'. split; [exact HL'|]. destruct (set_phase_gauges_value c r Ht) as (-> & -> & -> & -> & ->).
  unfold phase_counts in Hcount.
  repeat split; do 2 f_equal; apply Hcount; rewrite !elem_of_cons; tauto.
Qed.
End gauges.

(** * Witnesses *)

(** A client that keeps the names it has registered and the values it was given. *)
#[local] Instance demo_prom : PromClient (list string * gmap string spec_float) := {|
  DefBuckets := [decimal_float false 5 (-3); decimal_float false 1 (-2); decimal_float false 25 (-3)];
  promauto_New r c :=
    if valid_collector c && bool_decide (full_name c ∉ r.1) then Ret (full_name c :: r.1, r.2) else Panic;
  GaugeSet r c v := (r.1, <[full_name c := v]> r.2);
  GaugeValue r c := r.2 !! full_name c;
  taken r n := n ∈ r.1;
|}.

#[local] Instance demo_prom_laws : PromLaws (list string * gmap string spec_float).
Proof.
  split.
  - by vm_compute.
  - intros r c Hv Ht. exists (full_name c :: r.1, r.2). cbn. rewrite Hv, bool_decide_true by done.
    split; [done|]. intros n. cbn. by rewrite elem_of_cons.
  - intros r c v _. cbn. apply lookup_insert_eq.
  - intros r c v c' Hne. cbn. by apply lookup_insert_ne.
  - done.
Qed.

Lemma metrics_well_formed_witness :
  (forall c, c ∈ collectors -> ~ taken ([], ∅) (full_name c)) /\
  exists r', metrics_init ([], ∅) = Ret r' /\ taken r' "selfhealing_operator_tasks_pending".
Proof.
  assert (forall c, c ∈ collectors -> ~ taken ([], ∅) (full_name c)) as Hf by (intros c _ Ht; by apply elem_of_nil in Ht).
  split; [exact Hf|]. destruct (metrics_well_formed ([], ∅) Hf) as (_ & _ & r' & E & Ht).
  exists r'. split; [exact E|]. apply Ht. left. apply (bool_decide_unpack _). by vm_compute.
Defined.

#[local] Existing Instance slot_client.
#[local] Existing Instance slot_store.
#[local] Existing Instance slot_TaskServer.
#[local] Existing Instance slot_HealthyServer.

(** A stuck task: after the sweep it counts as expired. *)
Lemma phase_gauges_exact_witness :
  let r := (full_name <$> collectors, ∅) in
  (forall c, c ∈ collectors -> taken r (full_name c)) /\
  let '(w', r') := sweep_metered demo_queue (fun _ => "5m0s") (Hour + 1) (fun _ => Hour + 2) demo_stuck r in
  GaugeValue r' TasksRunning = Some (float64_of_int 0) /\ GaugeValue r' TasksExpired = Some (float64_of_int 1).
Proof.
  intros r. assert (forall c, c ∈ collectors -> taken r (full_name c)) as Hf by (intros c Hc; by apply list_elem_of_fmap_2).
  split; [exact Hf|].
  pose proof (phase_gauges_exact demo_queue (fun _ => "5m0s") (Hour + 1) (fun _ => Hour + 2) demo_stuck r Hf) as Hg.
  destruct (sweep_metered _ _ _ _ _ _) as [w' r'] eqn:E. destruct Hg as (items' & EL & _ & -> & _ & _ & ->).
  apply (f_equal fst) in E. vm_compute in E. rewrite <- E in EL. vm_compute in EL. injection EL as <-. split; by vm_compute.
Defined.
