(* ===== verification/TaskEvents.v ===== *)
(** What the task queue tells the outside (internal/taskqueue/worker.go,
    janitor.go): the counters and the Kubernetes events that a claim, a run and a
    sweep give rise to, on top of the functions of [TaskQueue]; and the loop of
    the janitor. *)

From S2P Require Import Prelude Types GoText GoNum GoTime TaskQueue TaskSystem TaskQueueProps TaskJanitor TaskLife Metrics MetricsProps.

(** * Observations *)

(** An increment of one of the counters, a value given to a gauge, and an event
    about an object, as handed to the recorder. *)
Inductive observation :=
  | Inc (c : Collector)
  | SetGauge (c : Collector) (v : spec_float)
  | Event (ref : ResourceReference) (eventType reason message : string).

Definition EventTypeNormal : string := "Normal".
Definition EventTypeWarning : string := "Warning".

(** How often a counter was incremented. *)
Definition is_inc (c : Collector) (o : observation) : bool :=
  match o with Inc c' => bool_decide (c_Name c' = c_Name c) | _ => false end.
Definition incs (c : Collector) (os : list observation) : nat := length (filter (fun o => is_inc c o = true) os).

Section events.
Context {W : Type} `{TaskClient W}.
Context `{Sort : !SliceSort ActionConfig ac_Order}.
Context (Execute : Z -> W -> ResourceReference -> ActionConfig -> outcome (W * (ActionResult * option string))).
Implicit Types w : W.

(** * The worker *)

(** [Worker], the fields that are not clients. *)
Record Worker := mkWorker {
  wk_namespace : string;
  wk_identity : string;
  wk_ready : bool;
}.

Definition NewWorker (namespace identity : string) : Worker := mkWorker namespace identity false.
Definition wk_setReady (ready : bool) (wk : Worker) : Worker := mkWorker (wk_namespace wk) (wk_identity wk) ready.
Definition wk_Ready (wk : Worker) : bool := wk_ready wk.
Definition wk_Stop (wk : Worker) : Worker := wk_setReady false wk.

(** The reference is built from the metadata of the object. *)
Definition recordEvent (wk : Worker) (obj : Task) (eventType reason message : string) : observation :=
  Event (mkRef "selfhealing.ariadna-ops.com/v1alpha1" "RemediationTask" (wk_namespace wk) (t_name obj) (t_uid obj))
    eventType reason message.

Definition finish_events (wk : Worker) (obj : Task) (pg : progress) : list observation :=
  if pg_ok pg then
    [Inc TasksCompletedTotal;
     recordEvent wk obj EventTypeNormal "TaskCompleted"
       ("All " +:+ pretty (pg_completed pg) +:+ " actions completed successfully")]
  else
    [Inc TasksFailedTotal;
     recordEvent wk obj EventTypeWarning "TaskFailed"
       ("Failed after " +:+ pretty (pg_completed pg) +:+ " action(s)" +:+
        match pg_error pg with Some e => ": " +:+ e | None => "" end)].

(** [claimAndExecute] with what it reports on the way. *)
Definition claimAndExecute_observed (wk : Worker) (t1 tx t2 : Z) (obj : Task) w
  : outcome (W * bool * list observation) :=
  let obj := claim_status (wk_identity wk) t1 obj in
  match TaskUpdateStatus w obj with
  | (w, Some _) => Ret (w, false, [])
  | (w, None) =>
    let claimed := [Inc TasksClaimedTotal;
                    recordEvent wk obj EventTypeNormal "TaskClaimed" ("Worker " +:+ wk_identity wk +:+ " claimed task")] in
    let '(resource, actions) := extractFromTask obj in
    x ← run_sequence Execute (time_Add tx (taskTimeout obj)) (slice_sort ac_Order actions) resource
          start_progress w;
    let '(w, pg) := x in
    Ret (updateTaskStatus t2 (t_name obj) pg w, true, claimed ++ finish_events wk obj pg)
  end.

(** * The janitor *)

Section janitor.
Context (cfg : TaskQueueConfig) (CleanupInterval : Z) (show_duration : Z -> string).

Definition expireTask_observed (now : Z) (obj : Task) w : W * list observation :=
  match TaskUpdateStatus w (expired_status now obj (show_duration (ActiveDeadline cfg))) with
  | (w, Some _) => (w, [])
  | (w, None) => (w, [Inc TasksExpiredTotal])
  end.

Definition deleteTask_observed (obj : Task) w : W * list observation :=
  match TaskDelete w (t_name obj) with
  | (w, Some _) => (w, [])
  | (w, None) => (w, [Inc TasksDeletedTotal])
  end.

(** A task of the sweep, by its phase: the case distinction of [sweep_one], with
    what is reported. *)
Definition sweep_one_observed (now tLast : Z) (later : Task -> Z) (wco : W * counts * list observation) (obj : Task)
  : W * counts * list observation :=
  let '(w, c, os) := wco in
  let '(mkCounts p r co f e ec dc) := c in
  let phase := phase_of obj in
  if decide (phase = TaskPhasePending) then (w, mkCounts (p + 1) r co f e ec dc, os)
  else if decide (phase = TaskPhaseRunning) then
    if isStuck cfg now obj then
      let '(w, os') := expireTask_observed (later obj) obj w in (w, mkCounts p r co f (e + 1) (ec + 1) dc, os ++ os')
    else (w, mkCounts p (r + 1) co f e ec dc, os)
  else if decide (phase = TaskPhaseCompleted) then
    if shouldDeleteTerminal cfg now tLast obj then
      let '(w, os') := deleteTask_observed obj w in (w, mkCounts p r co f e ec (dc + 1), os ++ os')
    else (w, mkCounts p r (co + 1) f e ec dc, os)
  else if decide (phase = TaskPhaseFailed) then
    if shouldDeleteTerminal cfg now tLast obj then
      let '(w, os') := deleteTask_observed obj w in (w, mkCounts p r co f e ec (dc + 1), os ++ os')
    else (w, mkCounts p r co (f + 1) e ec dc, os)
  else if decide (phase = TaskPhaseExpired) then
    if shouldDeleteTerminal cfg now tLast obj then
      let '(w, os') := deleteTask_observed obj w in (w, mkCounts p r co f e ec (dc + 1), os ++ os')
    else (w, mkCounts p r co f (e + 1) ec dc, os)
  else (w, c, os).

(** The gauges at the end of a sweep. *)
Definition gauges (c : counts) : list observation :=
  [SetGauge TasksPending (float64_of_int (n_pending c)); SetGauge TasksRunning (float64_of_int (n_running c));
   SetGauge TasksCompleted (float64_of_int (n_completed c)); SetGauge TasksFailed (float64_of_int (n_failed c));
   SetGauge TasksExpired (float64_of_int (n_expired c))].

Definition sweep_observed (now : Z) (later : Task -> Z) w : W * list observation :=
  match TaskList w with
  | Err _ => (w, [])
  | Ok items =>
    let '(w, c, os) := foldl (sweep_one_observed now (last_terminal cfg items) later)
                         (w, mkCounts 0 0 0 0 0 0 0, []) items in
    (w, os ++ gauges c)
  end.

(** What the janitor's [select] receives: a tick, with the clock readings of the
    sweep, or the end of the context. *)
Inductive jreceive := JTick (now : Z) (later : Task -> Z) | JDone.

(** The loop; the boolean tells whether it has returned.  The cluster may change
    between two ticks. *)
Fixpoint janitor_loop (rs : list (jreceive * (W -> W))) w (os : list observation) : W * list observation * bool :=
  match rs with
  | [] => (w, os, false)
  | (JDone, _) :: _ => (w, os, true)
  | (JTick now later, between) :: rs =>
    let '(w, os') := sweep_observed now later (between w) in janitor_loop rs w (os ++ os')
  end.

(** [time.NewTicker] panics when the interval is not positive. *)
Definition Janitor_Run (rs : list (jreceive * (W -> W))) w : outcome (W * list observation * bool) :=
  if CleanupInterval <=? 0 then Panic else Ret (janitor_loop rs w []).
End janitor.
End events.

(** * Properties *)

#[local] Instance decision_eq_dec : EqDecision decision.
Proof. solve_decision. Defined.

Section worker.
Context {W : Type} `{TaskClient W}.
Context `{Sort : !SliceSort ActionConfig ac_Order}.
Context (Execute : Z -> W -> ResourceReference -> ActionConfig -> outcome (W * (ActionResult * option string))).

Lemma incs_app c l1 l2 : incs c (l1 ++ l2) = (incs c l1 + incs c l2)%nat.
Proof. unfold incs. by rewrite filter_app, length_app. Qed.

Lemma incs_cons c o os : incs c (o :: os) = ((if is_inc c o then 1 else 0) + incs c os)%nat.
Proof. unfold incs. rewrite filter_cons. by destruct (is_inc c o). Qed.

Lemma incs_finish wk obj pg :
  incs TasksClaimedTotal (finish_events wk obj pg) = 0%nat /\
  incs TasksCompletedTotal (finish_events wk obj pg) = (if pg_ok pg then 1 else 0)%nat /\
  incs TasksFailedTotal (finish_events wk obj pg) = (if pg_ok pg then 0 else 1)%nat.
Proof. unfold finish_events. by destruct (pg_ok pg). Qed.

(** The worker's counters account for every claim.  What a worker does is what
    [claimAndExecute] does; a claim that the server refuses is not counted, one
    that it accepts is counted as claimed and, if the run comes to an end, once
    more, as completed exactly when every action succeeded and as failed
    otherwise - whether or not the final status could be written; the two
    events concern the claimed task, the second is a warning exactly when the
    run failed. *)
Theorem worker_counters wk t1 tx t2 obj w w' b os :
  claimAndExecute_observed Execute wk t1 tx t2 obj w = Ret (w', b, os) ->
  claimAndExecute Execute (wk_identity wk) t1 tx t2 obj w = Ret (w', b) /\
  (b = false -> os = []) /\
  incs TasksClaimedTotal os = (if b then 1 else 0)%nat /\
  (incs TasksCompletedTotal os + incs TasksFailedTotal os = incs TasksClaimedTotal os)%nat /\
  (b = true -> exists w1 pg e1 e2, w' = updateTaskStatus t2 (t_name obj) pg w1 /\
     incs TasksCompletedTotal os = (if pg_ok pg then 1 else 0)%nat /\
     omap (fun o => match o with Event ref ty reason _ => Some (Name ref, ty, reason) | _ => None end) os = [e1; e2] /\
     e1 = (t_name obj, EventTypeNormal, "TaskClaimed") /\
     e2 = (t_name obj, (if pg_ok pg then EventTypeNormal else EventTypeWarning),
           (if pg_ok pg then "TaskCompleted" else "TaskFailed"))).
Proof.
  unfold claimAndExecute_observed, claimAndExecute.
  destruct (TaskUpdateStatus w _) as [w1 [e|]]; [by intros [= <- <- <-]|].
  destruct (extractFromTask _) as [resource actions].
  destruct (run_sequence _ _ _ _ _ _) as [[w2 pg]| |]; cbn [mbind outcome_bind]; [|done..].
  intros [= <- <- <-]. destruct (incs_finish wk (claim_status (wk_identity wk) t1 obj) pg) as (E1 & E2 & E3).
  rewrite !incs_cons, E1, E2, E3.
  split; [done|]. split; [done|]. split; [done|]. split; [by destruct (pg_ok pg)|].
  intros _. exists w2, pg, (t_name obj, EventTypeNormal, "TaskClaimed"),
    (t_name obj, (if pg_ok pg then EventTypeNormal else EventTypeWarning), (if pg_ok pg then "TaskCompleted" else "TaskFailed")).
  split; [done|]. split; [done|]. unfold finish_events. by destruct (pg_ok pg).
Qed.
End worker.

Section janitor.
Context {W : Type} `{HealthyServer W}.
Context (cfg : TaskQueueConfig) (show_duration : Z -> string).
Implicit Types w : W.

(** What is reported about one task. *)
Definition task_reports (now tLast : Z) (later : Task -> Z) (obj : Task) w : list observation :=
  match decide_task cfg now tLast obj with
  | Keep => []
  | Expire => (expireTask_observed cfg show_duration (later obj) obj w).2
  | Delete => (deleteTask_observed obj w).2
  end.

Lemma sweep_one_observed_eq now tLast later w c os obj :
  sweep_one_observed cfg show_duration now tLast later (w, c, os) obj =
    (sweep_one cfg show_duration now tLast later (w, c) obj, os ++ task_reports now tLast later obj w).
Proof.
  assert (expireTask cfg show_duration (later obj) obj w = (expireTask_observed cfg show_duration (later obj) obj w).1) as EE.
  { unfold expireTask, expireTask_observed. by destruct (TaskUpdateStatus _ _) as [w' [e|]]. }
  assert (deleteTask obj w = (deleteTask_observed obj w).1) as ED.
  { unfold deleteTask, deleteTask_observed. by destruct (TaskDelete _ _) as [w' [e|]]. }
  destruct c as [p r co f e ec dc]. unfold sweep_one_observed, sweep_one, task_reports, decide_task, is_terminal.
  rewrite EE, ED. destruct (expireTask_observed _ _ _ _ _) as [we oe], (deleteTask_observed _ _) as [wd od]. cbn [fst snd].
  destruct (decide (phase_of obj = TaskPhasePending)) as [E|N1]; [rewrite E; cbn; by rewrite app_nil_r|].
  destruct (decide (phase_of obj = TaskPhaseRunning)) as [E|N2]; [rewrite E; cbn; destruct (isStuck _ _ _); cbn; by rewrite ?app_nil_r|].
  destruct (decide (phase_of obj = TaskPhaseCompleted)) as [E|N3]; [rewrite E; cbn; destruct (shouldDeleteTerminal _ _ _ _); cbn; by rewrite ?app_nil_r|].
  destruct (decide (phase_of obj = TaskPhaseFailed)) as [E|N4]; [rewrite E; cbn; destruct (shouldDeleteTerminal _ _ _ _); cbn; by rewrite ?app_nil_r|].
  destruct (decide (phase_of obj = TaskPhaseExpired)) as [E|N5]; [rewrite E; cbn; destruct (shouldDeleteTerminal _ _ _ _); cbn; by rewrite ?app_nil_r|].
  rewrite !bool_decide_false by done. cbn. by rewrite app_nil_r.
Qed.

Definition decision_counts (d : decision) : nat * nat :=
  match d with Keep => (0, 0) | Expire => (1, 0) | Delete => (0, 1) end%nat.

Lemma task_reports_counts now tLast later obj w :
  lookup_task w (t_name obj) = Some obj ->
  let os := task_reports now tLast later obj w in
  (incs TasksExpiredTotal os, incs TasksDeletedTotal os) = decision_counts (decide_task cfg now tLast obj) /\
  length os = (incs TasksExpiredTotal os + incs TasksDeletedTotal os)%nat.
Proof.
  intros Hl. unfold task_reports. destruct (decide_task cfg now tLast obj); [done|..].
  - unfold expireTask_observed. set (t := expired_status _ _ _).
    pose proof (Update_live w t obj Hl eq_refl) as HU. by destruct (TaskUpdateStatus w t) as [w' [e|]].
  - unfold deleteTask_observed. destruct (Delete_live w (t_name obj) obj Hl) as [HD _].
    by destruct (TaskDelete w _) as [w' [e|]].
Qed.

Definition decided (d : decision) now items : nat :=
  length (filter (fun t => decide_task cfg now (last_terminal cfg items) t = d) items).

(** The tasks of a sweep one after the other, each still as it was listed. *)
Lemma sweep_fold_reports now tLast later items w c os :
  NoDup (t_name <$> items) -> (forall t, t ∈ items -> lookup_task w (t_name t) = Some t) ->
  exists os', foldl (sweep_one_observed cfg show_duration now tLast later) (w, c, os) items =
      (foldl (sweep_one cfg show_duration now tLast later) (w, c) items, os ++ os') /\
    incs TasksExpiredTotal os' = length (filter (fun t => decide_task cfg now tLast t = Expire) items) /\
    incs TasksDeletedTotal os' = length (filter (fun t => decide_task cfg now tLast t = Delete) items) /\
    length os' = (incs TasksExpiredTotal os' + incs TasksDeletedTotal os')%nat.
Proof.
  intros Hnd Hst. revert w c os Hst. induction items as [|obj items IH]; intros w c os Hst; cbn [foldl].
  { exists []. rewrite app_nil_r, !filter_nil. done. }
  rewrite fmap_cons, NoDup_cons in Hnd. destruct Hnd as [Hno Hnd].
  destruct (task_reports_counts now tLast later obj w ltac:(apply Hst; by left)) as [Hi Hl].
  rewrite sweep_one_observed_eq. set (os1 := task_reports now tLast later obj w) in *. cbn zeta in Hi, Hl.
  pose proof (sweep_one_decides cfg show_duration now tLast later w c obj) as Hw.
  destruct (sweep_one _ _ _ _ _ (w, c) obj) as [w1 c1]. cbn [fst] in Hw.
  destruct (IH Hnd w1 c1 (os ++ os1)) as (os2 & E & I1 & I2 & I3).
  { intros t Ht. rewrite Hw, apply_decision_other; [apply Hst; by right|].
    intros En. apply Hno. rewrite <- En. by apply list_elem_of_fmap_2. }
  exists (os1 ++ os2). split; [by rewrite E, (assoc_L (++))|].
  rewrite !incs_app, length_app, I3, Hl, !filter_cons.
  pose proof (f_equal fst Hi) as Hi1. pose proof (f_equal snd Hi) as Hi2. cbn [fst snd] in Hi1, Hi2. rewrite Hi1, Hi2.
  destruct (decide_task cfg now tLast obj); cbn [decision_counts fst snd];
    repeat case_decide; try done; cbn [length]; split_and!; lia.
Qed.

(** C32: the metrics of a sweep are exact.  On a server that answers, and with
    nobody else writing tasks between the listing of a sweep and its writes, the
    sweep does what [sweep] does, and it reports this and no more: one increment
    of TasksExpiredTotal for every listed task that is stuck and one of
    TasksDeletedTotal for every one past its retention, and at the end, once
    each, the five gauges, set to the number of tasks the server then holds in
    that phase - those just expired count as expired, those just deleted do not
    count. *)
Theorem sweep_counters_exact now later w :
  let '(w', os) := sweep_observed cfg show_duration now later w in
  w' = (sweep cfg show_duration now later w).1 /\
  exists items items' reports, TaskList w = Ok items /\ TaskList w' = Ok items' /\
    os = reports ++
      [SetGauge TasksPending (float64_of_int (in_phase TaskPhasePending items'));
       SetGauge TasksRunning (float64_of_int (in_phase TaskPhaseRunning items'));
       SetGauge TasksCompleted (float64_of_int (in_phase TaskPhaseCompleted items'));
       SetGauge TasksFailed (float64_of_int (in_phase TaskPhaseFailed items'));
       SetGauge TasksExpired (float64_of_int (in_phase TaskPhaseExpired items'))] /\
    incs TasksExpiredTotal reports = decided Expire now items /\
    incs TasksDeletedTotal reports = decided Delete now items /\
    length reports = (incs TasksExpiredTotal reports + incs TasksDeletedTotal reports)%nat.
Proof.
  destruct (sweep_listing w) as (items & HL & Hnd & Hst).
  destruct (sweep_listing (sweep cfg show_duration now later w).1) as (items' & HL' & Hnd' & Hst').
  assert (forall p f, (p, f) ∈ phase_counts ->
    f (foldl (sweep_one cfg show_duration now (last_terminal cfg items) later)
         (w, mkCounts 0 0 0 0 0 0 0) items).2 = in_phase p items') as Hcount.
  { intros p f Hp. rewrite (sweep_counts cfg show_duration now _ later items w _ p f Hp).
    rewrite (sweep_phases cfg show_duration now later w items items' p HL Hnd Hst Hnd' Hst').
    unfold phase_counts in Hp. rewrite !elem_of_cons, elem_of_nil in Hp. destruct_or?; simplify_eq; done. }
  destruct (sweep_fold_reports now (last_terminal cfg items) later items w (mkCounts 0 0 0 0 0 0 0) [] Hnd)
    as (os & E & I1 & I2 & I3); [by intros t Ht; apply Hst|].
  unfold sweep_observed, sweep in *. rewrite HL, E in *. destruct (foldl _ _ _) as [w' c]. cbn [fst snd] in *.
  split; [done|]. exists items, items', os. split; [done|]. split; [exact HL'|]. split; [|done].
  unfold gauges. cbn [app]. unfold phase_counts in Hcount.
  rewrite <- (Hcount _ n_pending), <- (Hcount _ n_running), <- (Hcount _ n_completed), <- (Hcount _ n_failed),
    <- (Hcount _ n_expired); [done|rewrite !elem_of_cons; tauto..].
Qed.
End janitor.

(** The janitor's loop.  With a positive interval it sweeps once for every tick
    until the context ends and returns then, and only then; any other interval
    makes [time.NewTicker] panic. *)
Lemma Janitor_Run_ends {W : Type} `{TaskClient W} cfg interval show_duration (rs : list (jreceive * (W -> W))) w :
  match Janitor_Run cfg interval show_duration rs w with
  | Ret (_, _, returned) => 0 < interval /\ (returned = true <-> exists x, x ∈ rs /\ x.1 = JDone)
  | Panic => interval <= 0
  | Hang => False
  end.
Proof.
  unfold Janitor_Run. destruct (interval <=? 0) eqn:E; [by apply Z.leb_le in E|]. apply Z.leb_gt in E.
  generalize (@nil observation). revert w. induction rs as [|[r f] rs IH]; intros w os; cbn [janitor_loop].
  - split; [done|]. split; [done|]. intros (x & Hx & _). by apply elem_of_nil in Hx.
  - destruct r as [now later|]; [|split; [done|]; split; [intros _; exists (JDone, f); split; [by left|done]|done]].
    destruct (sweep_observed cfg show_duration now later (f w)) as [w1 os1].
    specialize (IH w1 (os ++ os1)). destruct (janitor_loop _ _ rs w1 (os ++ os1)) as [[w2 os2] b].
    destruct IH as [IH1 IH2]. split; [done|]. rewrite IH2. split.
    + intros (x & Hx & Ex). exists x. split; [by right|done].
    + intros (x & Hx & Ex). apply elem_of_cons in Hx as [->|Hx]; [done|]. by exists x.
Qed.

(** * Witnesses *)

#[local] Existing Instance slot_client.
#[local] Existing Instance slot_store.
#[local] Existing Instance slot_TaskServer.
#[local] Existing Instance slot_HealthyServer.
#[local] Existing Instance TaskSystem.demo_sort.

Lemma worker_counters_witness :
  exists w os, claimAndExecute_observed TaskQueueProps.demo_run (NewWorker "prod" "worker-0") 9 9 10 demo_task demo_slot
      = Ret (w, true, os) /\ incs TasksClaimedTotal os = 1%nat.
Proof.
  destruct (claimAndExecute_observed TaskQueueProps.demo_run (NewWorker "prod" "worker-0") 9 9 10 demo_task demo_slot)
    as [[[w [|]] os]| |] eqn:E; [|by vm_compute in E..].
  exists w, os. split; [done|].
  by apply (worker_counters TaskQueueProps.demo_run (NewWorker "prod" "worker-0") 9 9 10 demo_task demo_slot w true os E).
Defined.

Lemma sweep_counters_exact_witness :
  exists reports, (sweep_observed demo_queue (fun _ => "5m0s") (10 * Minute) (fun _ => 10 * Minute) demo_stuck).2 =
    reports ++ [SetGauge TasksPending (float64_of_int 0); SetGauge TasksRunning (float64_of_int 0);
      SetGauge TasksCompleted (float64_of_int 0); SetGauge TasksFailed (float64_of_int 0); SetGauge TasksExpired (float64_of_int 1)] /\
    incs TasksExpiredTotal reports = 1%nat.
Proof.
  pose proof (sweep_counters_exact demo_queue (fun _ => "5m0s") (10 * Minute) (fun _ => 10 * Minute) demo_stuck) as H.
  destruct (sweep_observed _ _ _ _ _) as [w' os] eqn:E. destruct H as (_ & items & items' & reports & HL & HL' & Hos & HE & _ & _).
  exists reports. apply (f_equal fst) in E. cbn [fst] in E. rewrite <- E in HL'.
  vm_compute in HL, HL'. injection HL as <-. injection HL' as <-. split; [exact Hos|].
  rewrite HE. by vm_compute.
Defined.
