(* ===== verification/Modes.v ===== *)
(** The two ways of acting on a detection compared: a standalone operator runs
    the actions itself, a leader publishes a task that a worker runs.  Controller,
    owner resolver, executor and task queue put together, on a cluster with the
    tasks on one side and the workloads on the other. *)

From S2P Require Import Prelude GoNum Types Policy Owner Remediation RemediationProps Action ActionProps GoText GoTime TaskQueue TaskSystem TaskQueueProps.

(** What a write does to the owner references of pods and replica sets, as the API
    server answers it: changing the scale or the template of a workload changes
    none; after a pod is deleted each pod is read as before or, like this one, no
    longer found. *)
Class OwnershipLaws (K : Type) `{KubeClient K} `{OwnerClient K} := {
  workload_writes (k k' : K) :
    (exists kind ns n s, k' = (UpdateScale k kind ns n s).1) \/ (exists ns n t, k' = (PatchTemplate k ns n t).1) \/
    (exists ns n r l, k' = (PatchLimits k ns n r l).1) ->
    forall ns n, get_pod_owners k' ns n = get_pod_owners k ns n /\ get_rs_owners k' ns n = get_rs_owners k ns n;
  DeletePod_owners (k : K) ns n grace x y :
    let k' := (DeletePod k ns n grace).1 in
    (get_pod_owners k' x y = get_pod_owners k x y \/ is_ok (get_pod_owners k' x y) = false) /\
    get_rs_owners k' x y = get_rs_owners k x y;
}.

Section modes.
(** [Q] holds the tasks, [K] everything else. *)
Context {Q K : Type} `{TaskClient Q} `{Laws : OwnershipLaws K}.
Context (cvt : Z -> spec_float -> Z) (other : string -> option spec_float) (show_float : spec_float -> string).
(** The clock: of the executor, at the start and the end of an action, and of the
    controller. *)
Context (readings : K -> Z * Z) (clk : nat -> Z) (formatID : Z -> string).
Context `{Sort : !SliceSort ActionConfig ac_Order}.

#[export] Instance both_tasks : TaskClient (Q * K) := {|
  TaskCreate w obj := let '(q, e) := TaskCreate w.1 obj in ((q, w.2), e);
  TaskGet w name := TaskGet w.1 name;
  TaskList w := TaskList w.1;
  TaskUpdateStatus w obj := let '(q, e) := TaskUpdateStatus w.1 obj in ((q, w.2), e);
  TaskDelete w name := let '(q, e) := TaskDelete w.1 name in ((q, w.2), e);
|}.

#[export] Instance both_owners : OwnerClient (Q * K) := {|
  get_pod_owners w := get_pod_owners w.2;
  get_rs_owners w := get_rs_owners w.2;
|}.

(** ** The executor in both places, with a client *)

Definition run_action (k : K) (ref : ResourceReference) (ac : ActionConfig) : outcome (K * hresult) :=
  Action.Execute (newExecutorImpl cvt other true) (readings k).1 (readings k).2 k ref ac.

(** What the controller sees of the executor; a panic ends the process, the
    theorems below exclude it. *)
Definition local_Execute (_ : Z) (w : Q * K) (ref : ResourceReference) (ac : ActionConfig)
  : (Q * K) * Prelude.result ActionResult :=
  match run_action w.2 ref ac with
  | Ret (k, (r, None)) => ((w.1, k), Ok r)
  | Ret (k, (r, Some e)) => ((w.1, k), Err e)
  | Panic | Hang => (w, Err "panic")
  end.

Definition worker_Execute (_ : Z) (w : Q * K) (ref : ResourceReference) (ac : ActionConfig)
  : outcome ((Q * K) * (ActionResult * option string)) :=
  x ← run_action w.2 ref ac;
  Ret ((w.1, x.1), x.2).

(** ** The reference: a list of actions on one resource, up to the first failure. *)

Fixpoint do_all (k : K) (ref : ResourceReference) (acts : list ActionConfig) : K * bool :=
  match acts with
  | [] => (k, true)
  | ac :: acts =>
    match run_action k ref ac with
    | Ret (k, (_, None)) => do_all k ref acts
    | Ret (k, (_, Some _)) => (k, false)
    | Panic | Hang => (k, false)
    end
  end.

(** The action cannot make the executor panic. *)
Definition well_capped (ac : ActionConfig) : Prop :=
  ac_Type ac = ActionTypeAdjustCPU \/ ac_Type ac = ActionTypeAdjustMemory -> ~ malformed_cap (ac_Params ac).

(** An action for workloads; a notification goes anywhere. *)
Definition for_workloads (ac : ActionConfig) : Prop :=
  ac_Type ac ∈ [ActionTypeScaleUp; ActionTypeRollbackToPrevious; ActionTypeAdjustCPU; ActionTypeAdjustMemory].

Lemma run_action_returns k ref ac :
  well_capped ac -> exists k' r err, run_action k ref ac = Ret (k', (r, err)) /\
    (err = None -> ar_Status r = ActionStatusSucceeded) /\ (err <> None -> ar_Status r = ActionStatusFailed).
Proof.
  intros HW. unfold run_action, Action.Execute.
  destruct (GetHandler _ _) as [h|] eqn:E; [|by do 3 eexists].
  apply newExecutorImpl_Some in E as [Hin Hty].
  destruct (Validate h ref (ac_Params ac)) as [e|]; [by do 3 eexists|].
  pose proof (default_handlers_end cvt other h k ref (ac_Params ac) Hin) as He.
  pose proof (default_handlers_report cvt other true h k ref (ac_Params ac) Hin) as HR.
  destruct (h_Execute h k ref (ac_Params ac)) as [[k' [r [e|]]]| |]; cbn in *.
  - by do 3 eexists.
  - do 3 eexists. split; [done|]. cbn. destruct HR. by split.
  - destruct He as (Ht & Hm & _). rewrite Hty in Ht. by destruct (HW Ht).
  - done.
Qed.

(** Looking a handler up. *)
Ltac find_handler :=
  unfold GetHandler, newExecutorImpl, registerDefaultHandlers, default_handlers, RegisterHandler;
  cbn [foldl GetType NewScaleHandler NewRestartPodHandler NewRollbackHandler NewAdjustResourceHandler NewNotifyHandler];
  rewrite ?lookup_insert_ne by done; rewrite lookup_insert_eq.

(** Validation turns pods away from the actions for workloads. *)
Lemma pod_rejected k ref ac :
  for_workloads ac -> Kind ref = "Pod" -> exists r e, run_action k ref ac = Ret (k, (r, Some e)).
Proof.
  intros HF HK. unfold run_action, Action.Execute.
  unfold for_workloads in HF. rewrite !elem_of_cons, elem_of_nil in HF.
  destruct_or!; try done; rewrite HF; find_handler;
    cbn [Validate NewScaleHandler NewRollbackHandler NewAdjustResourceHandler];
    unfold Scale_Validate, Rollback_Validate, Adjust_Validate; rewrite HK; by do 2 eexists.
Qed.

(** Only pods are restarted. *)
Lemma restart_rejected k ref ac :
  ac_Type ac = ActionTypeRestartPod -> Kind ref <> "Pod" -> exists r e, run_action k ref ac = Ret (k, (r, Some e)).
Proof.
  intros HT HK. unfold run_action, Action.Execute. rewrite HT. find_handler. cbn [Validate NewRestartPodHandler].
  unfold Restart_Validate. rewrite bool_decide_false by done. by do 2 eexists.
Qed.

Lemma notified k ref ac :
  ac_Type ac = ActionTypeNotify -> exists r, run_action k ref ac = Ret (k, (r, None)) /\ ar_Status r = ActionStatusSucceeded.
Proof.
  intros HT. unfold run_action, Action.Execute. rewrite HT. find_handler. cbn. by eexists.
Qed.

(** The executor does not look at the UID of the resource. *)
Definition effect (o : outcome (K * hresult)) : option (K * option string) :=
  match o with Ret (k, (_, e)) => Some (k, e) | _ => None end.

Lemma adjust_loop_uid n ty inc mx e k a b c d u u' params :
  effect (adjust_loop cvt other true n ty inc mx e k (mkRef a b c d u) params) =
  effect (adjust_loop cvt other true n ty inc mx e k (mkRef a b c d u') params).
Proof.
  revert e k. induction n as [|n IH]; intros e k; cbn [adjust_loop negb]; [done|]. cbn [Namespace Name].
  destruct (GetDeployment k c d) as [[uid cs]|]; [|done].
  destruct (adjust_containers _ _ _ _ _ _) as [patch| |]; cbn; [|done..].
  destruct (PatchLimits _ _ _ _ _) as [k' [err|]]; [|done]. destruct (ae_conflict err); [apply IH|done].
Qed.

Lemma run_action_uid k a b c d u u' ac :
  effect (run_action k (mkRef a b c d u) ac) = effect (run_action k (mkRef a b c d u') ac).
Proof.
  unfold run_action, Action.Execute. destruct (GetHandler _ _) as [h|] eqn:E; [|done].
  apply newExecutorImpl_Some in E as [Hin _].
  assert (Validate h (mkRef a b c d u) (ac_Params ac) = Validate h (mkRef a b c d u') (ac_Params ac) /\
    effect (h_Execute h k (mkRef a b c d u) (ac_Params ac)) = effect (h_Execute h k (mkRef a b c d u') (ac_Params ac)))
    as [-> HE].
  { unfold default_handlers in Hin. rewrite !elem_of_cons, elem_of_nil in Hin. destruct_or!; subst; try done;
      (split; [done|]); cbn [h_Execute NewScaleHandler NewRestartPodHandler NewRollbackHandler NewAdjustResourceHandler].
    - unfold Scale_Execute. cbn [negb Kind Namespace Name]. by repeat case_match.
    - unfold Restart_Execute. cbn [negb Kind Namespace Name]. by repeat case_match.
    - unfold Rollback_Execute. cbn [negb Kind Namespace Name]. by repeat case_match.
    - apply adjust_loop_uid.
    - apply adjust_loop_uid. }
  destruct (Validate _ _ _); [done|].
  destruct (h_Execute h k (mkRef a b c d u) _) as [[k1 [r1 [e1|]]]| |], (h_Execute h k (mkRef a b c d u') _) as [[k2 [r2 [e2|]]]| |];
    cbn in *; congruence.
Qed.

(** ** Who owns what after an action *)

(** The owner references of all pods, of all replica sets. *)
Definition same_pods (k k' : K) : Prop := forall ns n, get_pod_owners k' ns n = get_pod_owners k ns n.
Definition same_replicasets (k k' : K) : Prop := forall ns n, get_rs_owners k' ns n = get_rs_owners k ns n.
Definition same_or_gone (k k' : K) : Prop :=
  forall ns n, get_pod_owners k' ns n = get_pod_owners k ns n \/ is_ok (get_pod_owners k' ns n) = false.

Lemma adjust_loop_owners n ty inc mx e k ref params k' x :
  adjust_loop cvt other true n ty inc mx e k ref params = Ret (k', x) -> same_pods k k' /\ same_replicasets k k'.
Proof.
  revert e k. induction n as [|n IH]; intros e k; cbn [adjust_loop negb]; [by intros [= <- _]|].
  destruct (GetDeployment _ _ _) as [[uid cs]|]; [|by intros [= <- _]].
  destruct (adjust_containers _ _ _ _ _ _) as [patch| |]; cbn; [|done..].
  destruct (PatchLimits _ _ _ _ _) as [k1 err] eqn:E.
  assert (same_pods k k1 /\ same_replicasets k k1) as [S1 S2].
  { apply (f_equal fst) in E. cbn in E. split; intros ns m; apply (workload_writes k k1); right; right; by do 4 eexists. }
  destruct err as [err|]; [|by intros [= <- _]]. destruct (ae_conflict err); [|by intros [= <- _]].
  intros E2. destruct (IH _ _ E2) as [S3 S4]. split; intros ns m; [by rewrite S3|by rewrite S4].
Qed.

Lemma run_action_owners k ref ac k' x :
  run_action k ref ac = Ret (k', x) ->
  same_replicasets k k' /\ same_or_gone k k' /\ (ac_Type ac <> ActionTypeRestartPod -> same_pods k k').
Proof.
  unfold run_action, Action.Execute. destruct (GetHandler _ _) as [h|] eqn:E; [|by intros [= <- _]; split_and!; [|left|]].
  apply newExecutorImpl_Some in E as [Hin Hty].
  destruct (Validate h ref _) as [e|]; [by intros [= <- _]; split_and!; [|left|]|].
  assert (forall k1 y, h_Execute h k ref (ac_Params ac) = Ret (k1, y) ->
    same_replicasets k k1 /\ same_or_gone k k1 /\ (GetType h <> ActionTypeRestartPod -> same_pods k k1)) as HH.
  { assert (forall k1, same_pods k k1 /\ same_replicasets k k1 ->
      same_replicasets k k1 /\ same_or_gone k k1 /\ (GetType h <> ActionTypeRestartPod -> same_pods k k1)) as Hw.
    { intros k1 [S1 S2]. split; [done|]. split; [intros ns n; left; apply S1|done]. }
    clear Hty. intros k1 y. unfold default_handlers in Hin. rewrite !elem_of_cons, elem_of_nil in Hin.
    destruct_or!; subst; try done; cbn [h_Execute NewScaleHandler NewRestartPodHandler NewRollbackHandler NewAdjustResourceHandler NewNotifyHandler].
    - unfold Scale_Execute. cbn [negb]. destruct (scale_kind _) as [kind|]; [|by intros [= <- _]; apply Hw].
      destruct (GetScale _ _ _ _); [|by intros [= <- _]; apply Hw].
      destruct (UpdateScale _ _ _ _ _) as [k2 err] eqn:E2. intros E3.
      assert (k2 = k1) as -> by (by destruct err; injection E3). apply Hw. apply (f_equal fst) in E2. cbn in E2.
      split; intros ns m; apply (workload_writes k k1); left; by do 4 eexists.
    - unfold Restart_Execute. cbn [negb]. destruct (DeletePod _ _ _ _) as [k2 err] eqn:E2. intros E3.
      assert (k2 = k1) as -> by (by destruct err; injection E3). apply (f_equal fst) in E2. cbn in E2. subst k1.
      split; [|split; [|done]]; intros ns m; apply DeletePod_owners.
    - unfold Rollback_Execute. cbn [negb]. destruct (GetDeployment _ _ _) as [[uid cs]|]; [|by intros [= <- _]; apply Hw].
      destruct (ListReplicaSets _ _); [|by intros [= <- _]; apply Hw]. case_decide; [by intros [= <- _]; apply Hw|].
      destruct (pick_previous _); [|by intros [= <- _]; apply Hw].
      destruct (PatchTemplate _ _ _ _) as [k2 err] eqn:E2. intros E3.
      assert (k2 = k1) as -> by (by destruct err; injection E3). apply Hw. apply (f_equal fst) in E2. cbn in E2.
      split; intros ns m; apply (workload_writes k k1); right; left; by do 3 eexists.
    - intros E3. by eapply Hw, adjust_loop_owners.
    - intros E3. by eapply Hw, adjust_loop_owners.
    - unfold Notify_Execute. intros [= <- _]. by apply Hw. }
  destruct (h_Execute h k ref _) as [[k1 [r1 [e1|]]]| |]; cbn; [..|done|done]; intros [= <- _]; rewrite <- Hty; by eapply HH.
Qed.

Definition without_uid (ref : ResourceReference) : ResourceReference :=
  mkRef (APIVersion ref) (Kind ref) (Namespace ref) (Name ref) "".

Lemma do_all_uid k ref acts : do_all k (without_uid ref) acts = do_all k ref acts.
Proof.
  revert k. induction acts as [|ac acts IH]; intros k; [done|]. cbn [do_all].
  assert (effect (run_action k (without_uid ref) ac) = effect (run_action k ref ac)) as HE.
  { destruct ref. apply run_action_uid. }
  destruct (run_action k (without_uid ref) ac) as [[k1 [r1 [e1|]]]| |], (run_action k ref ac) as [[k2 [r2 [e2|]]]| |];
    cbn in HE; simplify_eq; try done.
Qed.

(** ** The worker *)

Lemma worker_runs_all dl acts ref pg q k :
  Forall well_capped acts ->
  exists pg', run_sequence worker_Execute dl acts ref pg (q, k) = Ret ((q, (do_all k ref acts).1), pg') /\
    pg_ok pg' = (pg_ok pg && (do_all k ref acts).2).
Proof.
  intros HC. revert pg k. induction HC as [|ac acts Hac HC IH]; intros pg k.
  { exists pg. cbn. by rewrite andb_true_r. }
  cbn [run_sequence do_all]. destruct (run_action_returns k ref ac Hac) as (k' & r & err & E & Hok & Hfail).
  assert (worker_Execute dl (q, k) ref ac = Ret ((q, k'), (r, err))) as -> by (unfold worker_Execute; cbn [snd]; by rewrite E).
  rewrite E. cbn. destruct err as [e|].
  - eexists. split; [done|]. cbn. by rewrite andb_false_r.
  - rewrite decide_False by (by rewrite Hok).
    exact (IH (mkProgress (i32 (pg_completed pg + 1)) (pg_ok pg) (Some r) None) k').
Qed.

(** ** The controller on its own *)

Lemma local_Execute_eq dl q k ref ac k' r err :
  run_action k ref ac = Ret (k', (r, err)) ->
  local_Execute dl (q, k) ref ac = ((q, k'), match err with None => Ok r | Some e => Err e end).
Proof. unfold local_Execute. cbn [snd]. intros ->. by destruct err. Qed.

Section standalone.
Context (cc : controllerConfig (W := Q * K)).
Context (Hdry : DryRun (cc_config cc) = false) (Hresolver : cc_ownerResolver cc = Some k8sOwnerResolver).
Context (res : DetectionResult).

(** The resource [publishTask] writes into the task. *)
Definition target (w : Q * K) : ResourceReference := default (dr_Resource res) (other_owner cc w (dr_Resource res)).

Lemma other_owner_eq q k :
  other_owner cc (q, k) (dr_Resource res) =
    match k8s_ResolveWorkloadOwner k (dr_Resource res) with
    | Ok resolved => if decide (Key resolved = Key (dr_Resource res)) then None else Some resolved
    | Err _ => None
    end.
Proof. unfold other_owner. by rewrite Hresolver. Qed.

Lemma owned_is_pod q k o : other_owner cc (q, k) (dr_Resource res) = Some o ->
  Kind (dr_Resource res) = "Pod" /\ Kind o <> "Pod".
Proof.
  rewrite other_owner_eq. unfold k8s_ResolveWorkloadOwner.
  destruct (workloadKinds _); [by rewrite decide_True|]. destruct (decide (Kind (dr_Resource res) = "Pod")) as [E|E].
  - rewrite bool_decide_true by done. cbn [negb]. intros Ho. split; [done|].
    destruct (resolvePodOwner k (dr_Resource res)) as [r|] eqn:ER; [|done]. case_decide as Dk; [done|].
    injection Ho as <-. destruct (resolvePodOwner_settled _ _ _ ER) as [->|[[Hs| ->] _]]; [done| |done].
    intros Ep. rewrite Ep in Hs. by vm_compute in Hs.
  - rewrite bool_decide_false by done. cbn [negb]. by rewrite decide_True.
Qed.

(** An action at home on the resource it is for. *)
Definition fits_owner (ac : ActionConfig) : Prop := for_workloads ac \/ ac_Type ac = ActionTypeNotify.

Lemma fits_owner_no_restart ac : fits_owner ac -> ac_Type ac <> ActionTypeRestartPod.
Proof.
  unfold fits_owner, for_workloads. rewrite !elem_of_cons, elem_of_nil. intros Hf E. rewrite E in Hf.
  by destruct_or!.
Qed.

(** An action leaves the owner of the detected resource as it is, unless it deletes
    the resource, which then has none. *)
Lemma other_owner_kept q k ref ac k' x :
  run_action k ref ac = Ret (k', x) -> (other_owner cc (q, k) (dr_Resource res) <> None -> fits_owner ac) ->
  other_owner cc (q, k') (dr_Resource res) = other_owner cc (q, k) (dr_Resource res).
Proof using Hresolver Laws.
  intros E Hfit. destruct (run_action_owners _ _ _ _ _ E) as (Hrs & Hgone & Hpods). revert Hfit. rewrite !other_owner_eq.
  unfold k8s_ResolveWorkloadOwner, resolvePodOwner, resolveReplicaSetOwner.
  destruct (workloadKinds _); [done|]. destruct (negb _); [done|].
  destruct (Hgone (Namespace (dr_Resource res)) (Name (dr_Resource res))) as [-> | Hg].
  - intros _. destruct (get_pod_owners k _ _) as [[|o os]|]; [done| |done].
    destruct (workloadKinds (ow_Kind o)); [done|]. case_decide; [|done]. by rewrite Hrs.
  - intros Hfit. match goal with |- _ = ?y => destruct y eqn:Ey end.
    + assert (fits_owner ac) as Hf by (by apply Hfit).
      rewrite (Hpods (fits_owner_no_restart _ Hf)) in Hg. by destruct (get_pod_owners k _ _).
    + by destruct (get_pod_owners k' _ _).
Qed.

Lemma executeAction_on_target ac c q k :
  world c = (q, k) -> well_capped ac ->
  (other_owner cc (q, k) (dr_Resource res) <> None -> fits_owner ac) ->
  exists k' r0 err, run_action k (target (q, k)) ac = Ret (k', (r0, err)) /\
    world (executeAction local_Execute clk formatID cc res ac c).2 = (q, k') /\
    ar_Status (executeAction local_Execute clk formatID cc res ac c).1 =
      (match err with None => ActionStatusSucceeded | Some _ => ActionStatusFailed end) /\
    target (q, k') = target (q, k) /\
    other_owner cc (q, k') (dr_Resource res) = other_owner cc (q, k) (dr_Resource res).
Proof using Hdry Hresolver Laws.
  intros Hw Hcap Hfit.
  assert (forall k1 ref x, run_action k ref ac = Ret (k1, x) ->
    other_owner cc (q, k1) (dr_Resource res) = other_owner cc (q, k) (dr_Resource res)) as Hown.
  { intros k1 ref x E. by eapply other_owner_kept. }
  destruct (run_action_returns k (dr_Resource res) ac Hcap) as (k1 & r1 & err1 & E1 & Hok1 & _).
  unfold executeAction. cbn [now]. rewrite Hdry. cbn [world]. rewrite Hw. unfold attempts.
  rewrite (local_Execute_eq _ _ _ _ _ _ _ _ E1). unfold target. rewrite (Hown _ _ _ E1).
  destruct (other_owner cc (q, k) (dr_Resource res)) as [o|] eqn:Eo; cbn [default].
  - destruct (owned_is_pod q k o Eo) as [HP _]. destruct (Hfit ltac:(done)) as [HF|HN].
    + destruct (pod_rejected k (dr_Resource res) ac HF HP) as (r2 & e2 & E2).
      assert (k1 = k /\ err1 = Some e2) as [-> ->] by (rewrite E1 in E2; by injection E2).
      destruct (run_action_returns k o ac Hcap) as (k3 & r3 & err3 & E3 & Hok3 & _).
      rewrite (local_Execute_eq _ _ _ _ _ _ _ _ E3). exists k3, r3, err3. split; [done|].
      rewrite (Hown _ _ _ E3), ?Eo. destruct err3; cbn; auto.
    + destruct (notified k (dr_Resource res) ac HN) as (r2 & E2 & Hs2).
      destruct (notified k o ac HN) as (r3 & E3 & _).
      assert (k1 = k /\ err1 = None /\ r1 = r2) as (-> & -> & ->) by (rewrite E1 in E2; by injection E2).
      exists k, r3, None. split; [done|]. cbn. rewrite Eo. auto.
  - exists k1, r1, err1. split; [done|]. destruct err1; cbn; rewrite ?(Hown _ _ _ E1), ?Eo; auto.
Qed.

Lemma run_actions_on_target acts st c q k :
  world c = (q, k) -> Forall well_capped acts ->
  (other_owner cc (q, k) (dr_Resource res) <> None -> Forall fits_owner acts) ->
  let x := run_actions local_Execute clk formatID cc res acts st c in
  let y := do_all k (target (q, k)) acts in
  world x.2 = (q, y.1) /\
  rs_LastActionStatus x.1 =
    (if y.2 then match acts with [] => rs_LastActionStatus st | _ => ActionStatusSucceeded end else ActionStatusFailed).
Proof using Hdry Hresolver Laws.
  intros Hw HC. revert st c k Hw. induction HC as [|ac acts Hac HC IH]; intros st c k Hw Hfit; cbn zeta; [done|].
  cbn [run_actions do_all].
  destruct (executeAction_on_target ac c q k Hw Hac) as (k' & r0 & err & E & Hw' & Hs & Ht & Ho).
  { intros Hn. specialize (Hfit Hn). by apply Forall_cons in Hfit as [? _]. }
  destruct (executeAction _ _ _ _ _ _ _) as [r c1]. cbn [fst snd] in *. rewrite E.
  destruct err as [e|].
  - rewrite decide_True by done. done.
  - rewrite decide_False by (by rewrite Hs). specialize (IH (set_LastActionStatus (ar_Status r) st) (sendResult r c1) k' Hw').
    rewrite Ho, Ht in IH. cbn zeta in IH. destruct IH as [IH1 IH2].
    { intros Hn. specialize (Hfit Hn). by apply Forall_cons in Hfit as [_ ?]. }
    split; [exact IH1|]. rewrite IH2. destruct (do_all k' _ acts).2; [|done]. cbn. rewrite Hs. by destruct acts.
Qed.
End standalone.

(** ** The worker on a published task *)

Lemma updateTaskStatus_other t name pg q k : exists q', updateTaskStatus t name pg ((q, k) : Q * K) = (q', k).
Proof.
  unfold updateTaskStatus. cbn. destruct (TaskGet q name) as [obj|]; [|by eexists].
  destruct (TaskUpdateStatus q _) as [q' e]. by exists q'.
Qed.

Lemma in_text_all acts : Forall (fun ac => in_text show_float ac = ac) acts -> in_text show_float <$> acts = acts.
Proof. induction 1 as [|ac acts E _ IH]; [done|]. by rewrite fmap_cons, E, IH. Qed.

Lemma worker_runs_published obj res ref ms identity t1 tx t2 q q1 k :
  t_target obj = t_target (publish_object show_float res ref ms) ->
  t_actions obj = t_actions (publish_object show_float res ref ms) ->
  NoDup (ac_Order <$> dr_RecommendedActions res) -> Forall (fun ac => in_text show_float ac = ac) (dr_RecommendedActions res) ->
  Forall well_capped (dr_RecommendedActions res) ->
  TaskUpdateStatus q (claim_status identity t1 obj) = (q1, None) ->
  exists pg, claimAndExecute worker_Execute identity t1 tx t2 obj (q, k) =
    Ret (updateTaskStatus t2 (t_name obj) pg
           (q1, (do_all k ref (slice_sort ac_Order (dr_RecommendedActions res))).1), true) /\
    pg_ok pg = (do_all k ref (slice_sort ac_Order (dr_RecommendedActions res))).2.
Proof.
  intros Ht Ha Hnd Htext Hcap Hclaim. unfold claimAndExecute. cbn [TaskUpdateStatus both_tasks fst snd]. rewrite Hclaim.
  set (acts := slice_sort ac_Order (dr_RecommendedActions res)).
  assert (acts ≡ₚ dr_RecommendedActions res) as HP by apply slice_sort_perm.
  assert (extractFromTask (claim_status identity t1 obj) = (without_uid ref, acts)) as ->.
  { unfold extractFromTask, claim_status, with_status. cbn [t_target t_actions]. rewrite Ht, Ha.
    unfold publish_object. cbn [t_target t_actions]. rewrite omap_extract_crd, in_text_all; [done|]. by rewrite slice_sort_perm. }
  assert (slice_sort ac_Order acts = acts) as ->.
  { apply (sorted_by_unique ac_Order); [apply slice_sort_sorted..|apply slice_sort_perm|].
    by rewrite slice_sort_perm, HP. }
  destruct (worker_runs_all (time_Add tx (taskTimeout (claim_status identity t1 obj))) acts (without_uid ref)
    start_progress q1 k) as (pg & E & Hok); [by rewrite HP|].
  rewrite do_all_uid in E, Hok. rewrite E. cbn. exists pg. by split.
Qed.

(** C2: the two modes do the same.  Outside dry run, take a detection whose actions
    have distinct orders, parameters that are text, as loaded scenarios have
    them, and for limits a cap that is absent or a quantity; when its resource
    is a pod with another owner, let the actions be for workloads or
    notifications (restarts are another matter).  The executors have clients,
    the API server answers writes as OwnershipLaws says, and the worker meets
    the workloads as the leader left them.  Then a leader publishes a task for
    the resource on which a standalone controller ends up acting, and a worker
    that claims the task leaves the workloads exactly as the standalone
    controller does - the same actions in the same order with the same effects,
    up to the same failure - and ends the task in success exactly when the
    standalone controller notes success. *)
Theorem modes_agree cc lead res st st' c c' q k ms obj identity t1 tx t2 q2 q3 :
  DryRun (cc_config cc) = false -> cc_ownerResolver cc = Some k8sOwnerResolver ->
  cc_ownerResolver lead = Some k8sOwnerResolver ->
  (other_owner cc (q, k) (dr_Resource res) <> None -> Forall fits_owner (dr_RecommendedActions res)) ->
  Forall (fun ac => in_text show_float ac = ac) (dr_RecommendedActions res) ->
  Forall well_capped (dr_RecommendedActions res) -> NoDup (ac_Order <$> dr_RecommendedActions res) ->
  dr_RecommendedActions res <> [] ->
  world c = (q, k) -> executeActions local_Execute clk formatID cc res st c = (st', c') ->
  let ref := target lead res (q, k) in
  world (publishTask (fun w r x => TaskQueue.Publish show_float ms w r x) lead res st c).2 =
    ((TaskCreate q (publish_object show_float res ref ms)).1, k) /\
  (t_target obj = t_target (publish_object show_float res ref ms) ->
   t_actions obj = t_actions (publish_object show_float res ref ms) ->
   TaskUpdateStatus q2 (claim_status identity t1 obj) = (q3, None) ->
   exists pg w, claimAndExecute worker_Execute identity t1 tx t2 obj (q2, k) = Ret (w, true) /\
     w = updateTaskStatus t2 (t_name obj) pg (q3, (world c').2) /\ w.2 = (world c').2 /\
     (pg_ok pg = true <-> rs_LastActionStatus st' = ActionStatusSucceeded)).
Proof.
  intros Hdry Hr Hrl Hfit Htext Hcap Hnd Hne Hw HE ref.
  assert (ref = target cc res (q, k)) as Href by (unfold ref, target, other_owner; by rewrite Hr, Hrl).
  split.
  - unfold publishTask. destruct (dr_RecommendedActions res) as [|a l] eqn:Ea; [done|]. rewrite Hw.
    assert (match other_owner lead (q, k) (dr_Resource res) with Some r => r | None => dr_Resource res end = ref) as ->
      by (unfold ref, target; by destruct (other_owner lead _ _)).
    unfold TaskQueue.Publish. cbn [TaskCreate both_tasks fst snd].
    by destruct (TaskCreate q _) as [q1 [e|]].
  - intros Ht Ha Hclaim.
    destruct (worker_runs_published obj res ref ms identity t1 tx t2 q2 q3 k) as (pg & E & Hok); [done..|].
    set (acts := slice_sort ac_Order (dr_RecommendedActions res)) in *.
    assert (acts ≡ₚ dr_RecommendedActions res) as HP by apply slice_sort_perm.
    assert (executeActions local_Execute clk formatID cc res st c = run_actions local_Execute clk formatID cc res acts st c) as Hrun
      by (unfold executeActions, acts; by destruct (dr_RecommendedActions res)).
    rewrite Hrun in HE.
    destruct (run_actions_on_target cc Hdry Hr res acts st c q k Hw) as [Hx Hy]; [by rewrite HP|by rewrite HP|].
    rewrite HE, <- Href in Hx, Hy. cbn [fst snd] in Hx, Hy. cbn zeta in Hx, Hy.
    exists pg. eexists. split; [exact E|]. rewrite Hx. split; [done|]. split.
    + destruct (updateTaskStatus_other t2 (t_name obj) pg q3 (do_all k ref acts).1) as [q' ->]. done.
    + rewrite Hok, Hy. assert (acts <> []) as Hna by (intros En; rewrite En in HP; by apply Permutation_nil_l in HP).
      destruct (do_all k ref acts).2; [|done]. by destruct acts.
Qed.
Lemma restart_runs k ref ac :
  ac_Type ac = ActionTypeRestartPod -> Kind ref = "Pod" ->
  exists r err, run_action k ref ac = Ret ((DeletePod k (Namespace ref) (Name ref) (grace_period cvt (ac_Params ac))).1, (r, err)).
Proof.
  intros HT HK. unfold run_action, Action.Execute. rewrite HT. find_handler. cbn [Validate NewRestartPodHandler].
  unfold Restart_Validate. rewrite bool_decide_true by done. cbn [h_Execute NewRestartPodHandler]. unfold Restart_Execute. cbn [negb].
  destruct (DeletePod _ _ _ _) as [k' [e|]]; cbn; by do 2 eexists.
Qed.

(** C10: a restart does not survive publishing.  When the pod of a detection
    resolves to an owner and the action of lowest order is "restartPod", a
    standalone controller deletes the pod; a leader publishes the task for the
    owner, and the worker that claims it leaves the cluster as it was and ends
    it in failure, since the handler restarts pods only.  The later actions are
    not run either. *)
Theorem restart_lost_in_queue cc res c q k o ac rest ms obj identity t1 tx t2 q2 q3 :
  DryRun (cc_config cc) = false -> cc_ownerResolver cc = Some k8sOwnerResolver ->
  other_owner cc (q, k) (dr_Resource res) = Some o ->
  slice_sort ac_Order (dr_RecommendedActions res) = ac :: rest -> ac_Type ac = ActionTypeRestartPod ->
  Forall (fun ac => in_text show_float ac = ac) (dr_RecommendedActions res) ->
  Forall well_capped (dr_RecommendedActions res) -> NoDup (ac_Order <$> dr_RecommendedActions res) ->
  world c = (q, k) ->
  t_target obj = t_target (publish_object show_float res o ms) ->
  t_actions obj = t_actions (publish_object show_float res o ms) ->
  TaskUpdateStatus q2 (claim_status identity t1 obj) = (q3, None) ->
  let pod := dr_Resource res in
  world (executeAction local_Execute clk formatID cc res ac c).2 =
    (q, (DeletePod k (Namespace pod) (Name pod) (grace_period cvt (ac_Params ac))).1) /\
  exists pg, claimAndExecute worker_Execute identity t1 tx t2 obj (q2, k) =
      Ret (updateTaskStatus t2 (t_name obj) pg (q3, k), true) /\
    pg_ok pg = false.
Proof.
  intros Hdry Hr Ho Hs HT Htext Hcap Hnd Hw Ht Ha Hclaim pod.
  destruct (owned_is_pod cc Hr res q k o Ho) as [HP HK]. split.
  - destruct (restart_runs k pod ac HT HP) as (r & err & E). set (k' := (DeletePod k _ _ _).1) in *.
    unfold executeAction. cbn [now]. rewrite Hdry. cbn [world]. rewrite Hw. unfold attempts.
    rewrite (local_Execute_eq _ _ _ _ _ _ _ _ E). destruct err as [e|]; cbn; [|done].
    destruct (other_owner cc (q, k') (dr_Resource res)) as [o'|] eqn:Eo; cbn; [|done].
    destruct (owned_is_pod cc Hr res q k' o' Eo) as [_ HK'].
    destruct (restart_rejected k' o' ac HT HK') as (r2 & e2 & E2).
    by rewrite (local_Execute_eq _ _ _ _ _ _ _ _ E2).
  - destruct (worker_runs_published obj res o ms identity t1 tx t2 q2 q3 k) as (pg & E & Hok); [done..|].
    rewrite Hs in E, Hok. cbn [do_all] in E, Hok. destruct (restart_rejected k o ac HT HK) as (r & e & E1).
    rewrite E1 in E, Hok. by exists pg.
Qed.

End modes.

(** * Witnesses *)

(** A cluster with one deployment "web", its replicas and whether a pod was
    deleted; one slot for a task that always answers.  Pods called "alone" have
    no owner, a deleted pod is not found. *)
#[local] Instance demo_quantity : QuantityLib := {|
  Quantity := Z; QFormat := unit; zeroQuantity := 0; q_Value z := z; q_Format _ := tt; q_String z := pretty z;
  NewQuantity v _ := v; ParseQuantity _ := None;
|}.
#[local] Instance demo_kube : KubeClient (Z * list string) := {|
  Action.Scale := Z; Template := string; Spec_Replicas s := wrap 32 s; with_Replicas _ n := n;
  GetScale w _ _ _ := inl w.1; UpdateScale w _ _ _ s := ((s, w.2), None);
  DeletePod w _ n _ := ((w.1, n :: w.2), None);
  GetDeployment _ _ _ := inl ("uid", []); ListReplicaSets _ _ := inl [];
  PatchTemplate w _ _ _ := (w, None); PatchLimits w _ _ _ _ := (w, None);
|}.
#[local] Instance demo_owners : OwnerClient (Z * list string) := {|
  get_pod_owners w _ n :=
    if decide (n ∈ w.2) then Err "not found" else if decide (n = "alone") then Ok []
    else Ok [mkOwnerInfo "apps/v1" "Deployment" "web" "d"];
  get_rs_owners _ _ _ := Err "none";
|}.
#[local] Instance demo_laws : OwnershipLaws (Z * list string).
Proof.
  split.
  - intros k k' [(? & ? & ? & ? & ->)|[(? & ? & ? & ->)|(? & ? & ? & ? & ->)]] ns n; done.
  - intros k ns n grace x y. split; [|done].
    cbn [get_pod_owners demo_owners DeletePod demo_kube fst snd].
    destruct (decide (y ∈ n :: k.2)) as [Dy|Dy]; [by right|].
    left. destruct (decide (y ∈ k.2)) as [Hy|Hy]; [|done]. destruct Dy. by right.
Qed.
#[local] Instance demo_slot : TaskClient (option Task) := {|
  TaskCreate _ obj := (Some obj, None);
  TaskGet q _ := match q with Some obj => Ok obj | None => Err "not found" end;
  TaskList q := Ok (match q with Some obj => [obj] | None => [] end);
  TaskUpdateStatus _ obj := (Some obj, None);
  TaskDelete _ _ := (None, None);
|}.
#[local] Instance demo_sort : SliceSort ActionConfig ac_Order := insertion_SliceSort ac_Order.

Definition demo_pod (name : string) : ResourceReference := mkRef "v1" "Pod" "prod" name "u".
Definition demo_detection (name ty : string) : DetectionResult :=
  mkDetectionResult "det" "S1" "oom" (demo_pod name) SeverityHigh 0 0 1 true "m"
    [mkAction ActionTypeNotify 5 ∅; mkAction ty 1 (<["increment" := PString "2"]> ∅)].
Definition demo_cc (publishes : bool) : controllerConfig (W := option Task * (Z * list string)) :=
  mkControllerConfig (mkRemediationConfig (15 * Minute) 3 false (30 * Second)) publishes (Some k8sOwnerResolver) None.
Definition demo_controller : controller (W := option Task * (Z * list string)) := newControllerImpl 8 (None, (3, [])).
Definition demo_published (name ty : string) (ref : ResourceReference) : Task :=
  publish_object (fun _ => "") (demo_detection name ty) ref 7.
Definition demo_web : ResourceReference := mkRef "apps/v1" "Deployment" "prod" "web" "d".
Definition demo_std (name ty : string) :=
  executeActions (local_Execute demo_cvt demo_other (fun k => (k.1, k.1))) (fun n => Z.of_nat n) (fun _ => "id") (demo_cc false)
    (demo_detection name ty) (fresh_state (demo_detection name ty)) demo_controller.

(** Scaling the owner of a pod, and restarting a pod without one. *)
Lemma modes_agree_witness :
  (exists w, claimAndExecute (worker_Execute demo_cvt demo_other (fun k => (k.1, k.1))) "worker-0" 1 2 3
      (demo_published "web-0" ActionTypeScaleUp demo_web) (None, (3, [])) = Ret (w, true) /\
    w.2 = (world (demo_std "web-0" ActionTypeScaleUp).2).2 /\ w.2 = (5, [])) /\
  (exists w, claimAndExecute (worker_Execute demo_cvt demo_other (fun k => (k.1, k.1))) "worker-0" 1 2 3
      (demo_published "alone" ActionTypeRestartPod (demo_pod "alone")) (None, (3, [])) = Ret (w, true) /\
    w.2 = (world (demo_std "alone" ActionTypeRestartPod).2).2 /\ w.2 = (3, ["alone"])).
Proof.
  split.
  - destruct (modes_agree demo_cvt demo_other (fun _ => "") (fun k => (k.1, k.1)) (fun n => Z.of_nat n) (fun _ => "id")
      (demo_cc false) (demo_cc true) (demo_detection "web-0" ActionTypeScaleUp)
      (fresh_state (demo_detection "web-0" ActionTypeScaleUp))
      (demo_std "web-0" ActionTypeScaleUp).1 demo_controller (demo_std "web-0" ActionTypeScaleUp).2 None (3, []) 7
      (demo_published "web-0" ActionTypeScaleUp demo_web) "worker-0" 1 2 3 None
      (Some (claim_status "worker-0" 1 (demo_published "web-0" ActionTypeScaleUp demo_web)))) as (_ & HW).
    + done.
    + done.
    + done.
    + intros _. apply Forall_cons. split; [by right|]. apply Forall_singleton. left. unfold for_workloads. left.
    + apply Forall_cons. split; [done|]. apply Forall_singleton. by vm_compute.
    + apply Forall_cons. split; [|apply Forall_singleton]; intros [Ht|Ht]; by vm_compute in Ht.
    + vm_compute. apply NoDup_cons. split; [by rewrite list_elem_of_singleton|apply NoDup_singleton].
    + done.
    + done.
    + apply surjective_pairing.
    + destruct HW as (pg & w & E & _ & Hk & _); [by vm_compute..|]. exists w. split; [exact E|]. split; [exact Hk|].
      rewrite Hk. by vm_compute.
  - destruct (modes_agree demo_cvt demo_other (fun _ => "") (fun k => (k.1, k.1)) (fun n => Z.of_nat n) (fun _ => "id")
      (demo_cc false) (demo_cc true) (demo_detection "alone" ActionTypeRestartPod)
      (fresh_state (demo_detection "alone" ActionTypeRestartPod))
      (demo_std "alone" ActionTypeRestartPod).1 demo_controller (demo_std "alone" ActionTypeRestartPod).2 None (3, []) 7
      (demo_published "alone" ActionTypeRestartPod (demo_pod "alone")) "worker-0" 1 2 3 None
      (Some (claim_status "worker-0" 1 (demo_published "alone" ActionTypeRestartPod (demo_pod "alone"))))) as (_ & HW).
    + done.
    + done.
    + done.
    + intros Hn. destruct Hn. by vm_compute.
    + apply Forall_cons. split; [done|]. apply Forall_singleton. by vm_compute.
    + apply Forall_cons. split; [|apply Forall_singleton]; intros [Ht|Ht]; by vm_compute in Ht.
    + vm_compute. apply NoDup_cons. split; [by rewrite list_elem_of_singleton|apply NoDup_singleton].
    + done.
    + done.
    + apply surjective_pairing.
    + destruct HW as (pg & w & E & _ & Hk & _); [by vm_compute..|]. exists w. split; [exact E|]. split; [exact Hk|].
      rewrite Hk. by vm_compute.
Defined.

Lemma restart_lost_in_queue_witness :
  (world (executeAction (local_Execute demo_cvt demo_other (fun k => (k.1, k.1))) (fun n => Z.of_nat n) (fun _ => "id")
     (demo_cc false) (demo_detection "web-0" ActionTypeRestartPod)
     (mkAction ActionTypeRestartPod 1 (<["increment" := PString "2"]> ∅)) demo_controller).2).2 = (3, ["web-0"]) /\
  exists w, claimAndExecute (worker_Execute demo_cvt demo_other (fun k => (k.1, k.1))) "worker-0" 1 2 3
      (demo_published "web-0" ActionTypeRestartPod demo_web) (None, (3, [])) = Ret (w, true) /\ w.2 = (3, []).
Proof.
  destruct (restart_lost_in_queue demo_cvt demo_other (fun _ => "") (fun k => (k.1, k.1)) (fun n => Z.of_nat n) (fun _ => "id")
    (demo_cc false) (demo_detection "web-0" ActionTypeRestartPod) demo_controller None (3, [])
    demo_web (mkAction ActionTypeRestartPod 1 (<["increment" := PString "2"]> ∅))
    [mkAction ActionTypeNotify 5 ∅] 7 (demo_published "web-0" ActionTypeRestartPod demo_web) "worker-0" 1 2 3 None
    (Some (claim_status "worker-0" 1 (demo_published "web-0" ActionTypeRestartPod demo_web)))) as (Hd & pg & E & _).
  - done.
  - done.
  - by vm_compute.
  - by vm_compute.
  - done.
  - apply Forall_cons. split; [done|]. apply Forall_singleton. by vm_compute.
  - apply Forall_cons. split; [|apply Forall_singleton]; intros [Ht|Ht]; by vm_compute in Ht.
  - vm_compute. apply NoDup_cons. split; [by rewrite list_elem_of_singleton|apply NoDup_singleton].
  - done.
  - by vm_compute.
  - by vm_compute.
  - done.
  - rewrite Hd. split; [by vm_compute|]. eexists. split; [exact E|]. by vm_compute.
Defined.
