(* ===== verification/CRDLoader.v ===== *)
(** The CRD loader (internal/crdloader/loader.go): from ScenarioLibrary objects
    of the API to the scenarios the engine loads. *)

From S2P Require Import Prelude Types Detection GoNum Action.

(** * The API objects (api/v1alpha1/scenariolibrary_types.go) *)

Record ActionSpec := mkActionSpec {
  as_Type : string;
  as_Order : Z;
  as_Params : gmap string string;
}.

Record Scenario := mkCRDScenario {
  cs_ID : Z;
  cs_Name : string;
  cs_Enabled : bool;
  cs_Severity : string;
  cs_Source : string;
  cs_Resource : option (string * string);
  cs_Expression : string;
  cs_Threshold : option (Z * Z);
  cs_Actions : list ActionSpec;
}.

Definition ScenarioLibrary : Type := list (string * Scenario).

(** * Conversion *)

Definition mapSeverity (s : string) : Severity :=
  if decide (s = "low") then SeverityLow
  else if decide (s = "medium") then SeverityMedium
  else if decide (s = "high") then SeverityHigh
  else if decide (s = "critical") then SeverityCritical
  else SeverityMedium.

Definition convertActions (specs : list ActionSpec) : list ActionConfig :=
  (fun a => mkAction (as_Type a) (as_Order a) (PString <$> as_Params a)) <$> specs.

Definition scenario_id (n : Z) : string := "S" +:+ pretty n.

(** The error is always nil. *)
Definition convertScenario (key : string) (s : Scenario) : result LoadedScenario :=
  Ok (mkScenario (scenario_id (cs_ID s)) (cs_Name s) (cs_Enabled s) (mapSeverity (cs_Severity s))
        (cs_Source s) (cs_Expression s)
        ((fun r => mkFilter r.1 r.2) <$> cs_Resource s)
        ((fun t => mkThreshold t.1 t.2) <$> cs_Threshold s)
        (convertActions (cs_Actions s))).

Definition convert_library (sl : ScenarioLibrary) : list LoadedScenario :=
  omap (fun ks => match convertScenario ks.1 ks.2 with Ok l => Some l | Err _ => None end) sl.

(** [libraries] is what the API server lists, the scenarios of each library in
    the order in which the map is visited. *)
Definition LoadScenarios (libraries : result (list ScenarioLibrary)) : result (list LoadedScenario) :=
  match libraries with
  | Err e => Err ("list ScenarioLibrary CRDs: " +:+ e)
  | Ok items => Ok (concat (convert_library <$> items))
  end.

(** The events on which the watch loop calls the reload callback. *)
Inductive watchEvent := WAdded | WModified | WDeleted | WBookmark | WError.

Definition triggers_reload (ev : watchEvent) : bool :=
  match ev with WAdded | WModified | WDeleted => true | _ => false end.

(** * Properties *)

(** The values the schema of the API accepts for an action's type. *)
Definition schema_action_types : list string :=
  ["scaleUp"; "scaleDown"; "restartPod"; "rollbackToPrevious"; "adjustCPU"; "adjustMemory";
   "updateConfig"; "runJob"; "notify"].

#[export] Instance scenario_id_inj : Inj (=) (=) scenario_id.
Proof. intros n1 n2 H. apply (inj pretty), (string_app_inv_l "S"), H. Qed.

Lemma convert_library_fmap sl :
  convert_library sl = (fun ks => match convertScenario ks.1 ks.2 with Ok l => l | Err _ =>
    mkScenario "" "" false SeverityLow "" "" None None [] end) <$> sl.
Proof. induction sl as [|ks sl IH]; [done|]. rewrite fmap_cons, <- IH. done. Qed.

(** Every scenario of every library is loaded, under a key that distinguishes
    scenarios exactly by their numeric identifiers: two scenarios of the API get
    the same identifier in the engine if and only if their numbers agree, in
    whatever libraries and under whatever keys they are; every other field
    survives, and an unknown severity becomes medium. *)
Theorem LoadScenarios_faithful items l :
  LoadScenarios (Ok items) = Ok l ->
  length l = length (concat items) /\
  (forall i k s, concat items !! i = Some (k, s) ->
     exists ls, l !! i = Some ls /\ sc_Name ls = cs_Name s /\ sc_Enabled ls = cs_Enabled s /\
       sc_Source ls = cs_Source s /\ sc_Expression ls = cs_Expression s /\
       sc_Resource ls = (fun r => mkFilter r.1 r.2) <$> cs_Resource s /\
       sc_Threshold ls = (fun t => mkThreshold t.1 t.2) <$> cs_Threshold s /\
       ac_Type <$> sc_Actions ls = as_Type <$> cs_Actions s /\
       (severity_string (sc_Severity ls) = cs_Severity s \/
        (sc_Severity ls = SeverityMedium /\ cs_Severity s ∉ ["low"; "medium"; "high"; "critical"])) /\
       forall j k' s', concat items !! j = Some (k', s') ->
         exists ls', l !! j = Some ls' /\ (sc_ID ls' = sc_ID ls <-> cs_ID s' = cs_ID s)).
Proof.
  intros [= <-].
  assert (concat (convert_library <$> items) = (fun ks => match convertScenario ks.1 ks.2 with Ok l => l | Err _ =>
    mkScenario "" "" false SeverityLow "" "" None None [] end) <$> concat items) as ->.
  { induction items as [|sl items IH]; [done|]. rewrite fmap_cons. cbn [concat].
    by rewrite fmap_app, IH, convert_library_fmap. }
  split; [by rewrite length_fmap|]. intros i k s Hi.
  eexists. rewrite list_lookup_fmap, Hi. split; [done|]. simpl. do 6 (split; [done|]).
  split; [unfold convertActions; by rewrite <- list_fmap_compose|]. split.
  - unfold mapSeverity. repeat case_decide; subst; try (by left).
    right. split; [done|]. rewrite !elem_of_cons, elem_of_nil. tauto.
  - intros j k' s' Hj. eexists. rewrite list_lookup_fmap, Hj. split; [done|]. simpl.
    split; [by intros ?%(inj scenario_id)|by intros ->].
Qed.

(** What a scenario of the API can make the operator do.  Of the nine action
    types the schema accepts, four have no handler - "scaleDown",
    "rollbackToPrevious" (the handler is registered as "rollback"),
    "updateConfig" and "runJob" - so such an action always fails and leaves the
    cluster alone; and a restart always uses the default grace period, because
    parameters from the API are text and the restart handler reads none. *)
Theorem crd_actions_limited `{KubeClient W} cvt other client t1 t2 (w : W) resource specs a :
  a ∈ convertActions specs ->
  grace_period cvt (ac_Params a) = None /\
  (ac_Type a ∈ schema_action_types ->
   GetHandler (ac_Type a) (newExecutorImpl (W := W) cvt other client) = None <->
     ac_Type a ∈ ["scaleDown"; "rollbackToPrevious"; "updateConfig"; "runJob"]) /\
  (GetHandler (ac_Type a) (newExecutorImpl (W := W) cvt other client) = None ->
   exists r e, Execute (newExecutorImpl cvt other client) t1 t2 w resource a = Ret (w, (r, Some e)) /\
     ar_Status r = ActionStatusFailed).
Proof.
  intros Hin. apply list_elem_of_fmap in Hin as (sp & -> & _). simpl. split; [|split].
  - unfold grace_period. rewrite lookup_fmap. by destruct (as_Params sp !! "gracePeriodSeconds").
  - unfold schema_action_types. rewrite !elem_of_cons, !elem_of_nil. intros Hty.
    destruct_or?; subst; try done; rewrite Hty; split; intros; try done; try tauto; destruct_or?; discriminate.
  - intros Hno. unfold Execute. simpl. rewrite Hno. eauto.
Qed.

(** * Witnesses *)

Definition demo_spec (n : Z) (sev : string) : Scenario :=
  mkCRDScenario n "oom" true sev "kubernetes" (Some ("Pod", "v1")) "true" None
    [mkActionSpec "restartPod" 1 {["gracePeriodSeconds" := "5"]}].

Lemma LoadScenarios_faithful_witness :
  exists l, LoadScenarios (Ok [[("a", demo_spec 1001 "high")]; [("b", demo_spec 1002 "odd")]]) = Ok l /\ length l = 2%nat.
Proof.
  eexists. split; [reflexivity|].
  apply (LoadScenarios_faithful [[("a", demo_spec 1001 "high")]; [("b", demo_spec 1002 "odd")]] _ eq_refl).
Defined.

#[local] Instance no_quantities : QuantityLib := {|
  Quantity := Z; QFormat := unit; zeroQuantity := 0; q_Value := wrap 64; q_Format _ := tt;
  q_String := pretty; NewQuantity n _ := n; ParseQuantity _ := None;
|}.

#[local] Instance no_kube : KubeClient unit := {|
  Scale := Z; Template := string; Spec_Replicas := wrap 32; with_Replicas _ n := n;
  GetScale _ _ _ _ := inl 1; UpdateScale w _ _ _ _ := (w, None); DeletePod w _ _ _ := (w, None);
  GetDeployment _ _ _ := inl ("uid", []); ListReplicaSets _ _ := inl [];
  PatchTemplate w _ _ _ := (w, None); PatchLimits w _ _ _ _ := (w, None);
|}.

Lemma crd_actions_limited_witness :
  exists r e, Execute (newExecutorImpl (fun _ _ => 0) (fun _ => None) true) 1 2 tt
    (mkRef "apps/v1" "Deployment" "prod" "web" "d") (mkAction "rollbackToPrevious" 0 ∅) = Ret (tt, (r, Some e)) /\
    ar_Status r = ActionStatusFailed.
Proof.
  apply (crd_actions_limited (fun _ _ => 0) (fun _ => None) true 1 2 tt
    (mkRef "apps/v1" "Deployment" "prod" "web" "d") [mkActionSpec "rollbackToPrevious" 0 ∅]
    (mkAction "rollbackToPrevious" 0 ∅)).
  - apply elem_of_cons. left. by vm_compute.
  - by vm_compute.
Defined.
