(* ===== verification/Watch.v ===== *)
(** The watches on the API server: the worker's loop on tasks
    (internal/taskqueue/worker.go) and the loader's on scenario libraries
    (internal/crdloader/loader.go), and what they see of the changes. *)

From S2P Require Import Prelude Types TaskQueue TaskSystem TaskJanitor TaskLife CRDLoader.

(** * The loops *)

(** What one turn of the [select] takes: an event, the closing of the channel,
    or the end of the context. *)
Inductive item (E : Type) := IEvent (e : E) | IClosed | IDone.
Arguments IEvent {E} e.
Arguments IClosed {E}.
Arguments IDone {E}.

(** A loop that still waits for its channel, or that has returned. *)
Inductive status := Watching | Returned (err : option string).

(** One call of the watch loop: the version that the list carries ([None] for an
    empty one), what the watch from a version gives, and whether the context is
    found ended after an error. *)
Record session (E : Type) := mkSession {
  se_list : result (option Z);
  se_watch : Z -> result (list (item E));
  se_stop : bool;
}.
Arguments mkSession {E} _ _ _.
Arguments se_list {E} _.
Arguments se_watch {E} _ _.
Arguments se_stop {E} _.

Section loops.
Context {E : Type} (reacts : E -> bool).

(** The [for select] loop, with the result of finding the channel closed. *)
Fixpoint consume (closed : option string) (items : list (item E)) : list E * status :=
  match items with
  | [] => ([], Watching)
  | IDone :: _ => ([], Returned None)
  | IClosed :: _ => ([], Returned closed)
  | IEvent e :: items =>
    let '(es, st) := consume closed items in (if reacts e then e :: es else es, st)
  end.

(** The outer loop around it: an error ends it when the context has ended, by
    then or during the wait of five seconds. *)
Fixpoint run_sessions (loop : session E -> list E * status) (ss : list (session E)) : list E * bool :=
  match ss with
  | [] => ([], false)
  | s :: ss =>
    let '(es, st) := loop s in
    match st with
    | Watching => (es, false)
    | Returned (Some _) =>
      if se_stop s then (es, true)
      else let '(es', b) := run_sessions loop ss in (es ++ es', b)
    | Returned None => let '(es', b) := run_sessions loop ss in (es ++ es', b)
    end
  end.
End loops.

(** The version to watch from; both loops fall back to 1. *)
Definition watch_from (rv : option Z) : Z := default 1 rv.

(** ** The worker's loop *)

Abbreviation task_event := (eventType * Task)%type (only parsing).

Definition watchLoop (s : session task_event) : list task_event * status :=
  match se_list s with
  | Err e => ([], Returned (Some ("list for resource version: " +:+ e)))
  | Ok rv =>
    match se_watch s (watch_from rv) with
    | Err e => ([], Returned (Some ("create retry watcher: " +:+ e)))
    | Ok items => consume (fun e => delivers e.1 e.2) None items
    end
  end.

(** The tasks for which [claimAndExecute] was started, and whether [Run] returned. *)
Definition Worker_Run : list (session task_event) -> list task_event * bool := run_sessions watchLoop.

(** ** The loader's loop *)

Definition watchScenarioLibrariesLoop {Obj} (s : session (watchEvent * Obj)) : list (watchEvent * Obj) * status :=
  match se_list s with
  | Err e => ([], Returned (Some ("list for watch: " +:+ e)))
  | Ok rv =>
    match se_watch s (watch_from rv) with
    | Err e => ([], Returned (Some ("start watch: " +:+ e)))
    | Ok items => consume (fun e => triggers_reload e.1) (Some "watch channel closed") items
    end
  end.

(** The events on which the reload callback ran, and whether the loop returned. *)
Definition WatchScenarioLibraries {Obj} : list (session (watchEvent * Obj)) -> list (watchEvent * Obj) * bool :=
  run_sessions watchScenarioLibrariesLoop.

(** * What the server delivers *)

Section history.
Context {E : Type}.

(** The changes of a resource in the order of their versions. *)
Abbreviation history := (list (Z * E)) (only parsing).

(** The changes after version [lo] up to [hi]. *)
Definition window (h : history) (lo hi : Z) : list E :=
  snd <$> filter (fun c => lo < c.1 <= hi) h.

(** A session as the watch protocol documents it: the list carries the version
    [lo] of the moment, the watch from there gives the changes up to [hi] in
    order, then the channel closes, the context ends, or nothing more has
    happened yet. *)
Definition served (h : history) (s : session E) (lo hi : Z) : Prop :=
  se_list s = Ok (Some lo) /\
  exists tail, tail ∈ [[]; [IClosed]; [IDone]] /\
    se_watch s lo = Ok ((IEvent <$> window h lo hi) ++ tail).

Lemma window_In h lo hi e : e ∈ window h lo hi <-> exists v, (v, e) ∈ h /\ lo < v <= hi.
Proof.
  unfold window. split.
  - intros Hin. apply list_elem_of_fmap in Hin as ([v e'] & -> & Hc). apply list_elem_of_filter in Hc as [Hv Hin]. eauto.
  - intros (v & Hin & Hv). apply list_elem_of_fmap. exists (v, e). split; [done|]. by apply list_elem_of_filter.
Qed.

Lemma consume_served reacts closed (es : list E) tail :
  tail ∈ [[]; [IClosed]; [IDone]] ->
  exists st, consume reacts closed ((IEvent <$> es) ++ tail) = (filter (fun e => reacts e = true) es, st).
Proof.
  intros Ht. induction es as [|e es [st IH]].
  - repeat (apply elem_of_cons in Ht as [->|Ht]; [by eexists|]). by apply elem_of_nil in Ht.
  - rewrite fmap_cons. cbn [app consume]. rewrite IH. exists st. rewrite filter_cons.
    destruct (reacts e); [by rewrite decide_True|by rewrite decide_False].
Qed.

(** The sessions that [run_sessions] gets to. *)
Fixpoint reached (loop : session E -> list E * status) (ss : list (session E)) : list (session E) :=
  match ss with
  | [] => []
  | s :: ss =>
    s :: match (loop s).2 with
         | Watching => []
         | Returned (Some _) => if se_stop s then [] else reached loop ss
         | Returned None => reached loop ss
         end
  end.

Lemma run_sessions_reached (loop : session E -> list E * status) ss :
  (run_sessions loop ss).1 = concat ((fun s => (loop s).1) <$> reached loop ss).
Proof.
  induction ss as [|s ss IH]; [done|]. cbn [run_sessions reached]. rewrite fmap_cons. cbn [concat].
  destruct (loop s) as [es [|[err|]]]; cbn [fst snd].
  - by rewrite app_nil_r.
  - destruct (se_stop s); [by rewrite app_nil_r|]. rewrite <- IH. by destruct (run_sessions loop ss).
  - rewrite <- IH. by destruct (run_sessions loop ss).
Qed.

(** A session that fails with the context ended is the last one. *)
Lemma run_sessions_returns (loop : session E -> list E * status) ss s ss' err :
  Forall (fun s => (loop s).2 <> Watching) ss -> (loop s).2 = Returned (Some err) -> se_stop s = true ->
  (run_sessions loop (ss ++ s :: ss')).2 = true.
Proof.
  intros HF Hs Hst. induction HF as [|s0 ss Hs0 HF IH]; cbn [app run_sessions].
  - destruct (loop s) as [es st]. cbn in Hs. by rewrite Hs, Hst.
  - destruct (loop s0) as [es [|[e|]]]; [done| |].
    + destruct (se_stop s0); [done|]. by destruct (run_sessions loop _).
    + by destruct (run_sessions loop _).
Qed.
End history.

(** * Properties *)

(** A sequence of sessions against one history; [None] for a session whose list
    or watch fails. *)
Definition follows {E} (h : list (Z * E)) (s : session E) (win : option (Z * Z)) : Prop :=
  match win with
  | Some (lo, hi) => served h s lo hi
  | None => (exists e, se_list s = Err e) \/ exists rv e, se_list s = Ok rv /\ se_watch s (watch_from rv) = Err e
  end.

(** The change at version [v] lies in the window of one of the first [n] sessions. *)
Definition seen_by (n : nat) (wins : list (option (Z * Z))) (v : Z) : Prop :=
  exists i lo hi, (i < n)%nat /\ wins !! i = Some (Some (lo, hi)) /\ lo < v <= hi.

Section follow.
Context {E : Type} (reacts : E -> bool) (loop : session E -> list E * status).
(** The loop fails with the list or the watch, and otherwise consumes. *)
Context (Hloop : forall h s win, follows h s win ->
  (loop s).1 = match win with
               | Some (lo, hi) => filter (fun e => reacts e = true) (window h lo hi)
               | None => [] end).

Lemma run_follows h ss wins e :
  Forall2 (follows h) ss wins ->
  e ∈ (run_sessions loop ss).1 <->
  reacts e = true /\ exists v, (v, e) ∈ h /\ seen_by (length (reached loop ss)) wins v.
Proof.
  intros HF. rewrite run_sessions_reached. induction HF as [|s win ss wins Hs HF IH].
  { cbn. split; [by intros ?%elem_of_nil|]. intros (_ & v & _ & i & lo & hi & Hi & _). lia. }
  cbn [reached]. rewrite fmap_cons. cbn [concat]. rewrite elem_of_app, (Hloop h s win Hs).
  set (rest := match (loop s).2 with Watching => _ | Returned _ => _ end).
  assert (rest = [] \/ rest = reached loop ss) as Hrest by (subst rest; repeat case_match; auto).
  clearbody rest. assert (e ∈ concat ((fun s0 => (loop s0).1) <$> rest) <->
    reacts e = true /\ exists v, (v, e) ∈ h /\ seen_by (length rest) wins v) as ->.
  { destruct Hrest as [-> | ->]; [|done]. cbn. split; [by intros ?%elem_of_nil|].
    intros (_ & v & _ & i & lo & hi & Hi & _). lia. }
  split.
  - intros [Hin|(Hr & v & Hv & i & lo & hi & Hi & Hw & Hb)].
    + destruct win as [[lo hi]|]; [|by apply elem_of_nil in Hin].
      apply list_elem_of_filter in Hin as [Hr Hin]. apply window_In in Hin as (v & Hv & Hb).
      split; [done|]. exists v. split; [done|]. exists 0%nat, lo, hi. split; [cbn; lia|done].
    + split; [done|]. exists v. split; [done|]. exists (S i), lo, hi. split; [cbn; lia|done].
  - intros (Hr & v & Hv & i & lo & hi & Hi & Hw & Hb). destruct i as [|i].
    + left. cbn in Hw. injection Hw as ->. apply list_elem_of_filter. split; [done|]. apply window_In. eauto.
    + right. split; [done|]. exists v. split; [done|]. exists i, lo, hi. split; [cbn in Hi; lia|done].
Qed.
End follow.

Lemma watchLoop_follows h s win :
  follows h s win ->
  (watchLoop s).1 = match win with
                    | Some (lo, hi) => filter (fun e => delivers e.1 e.2 = true) (window h lo hi)
                    | None => [] end.
Proof.
  unfold watchLoop. destruct win as [[lo hi]|]; cbn.
  - intros (-> & tail & Ht & Hw). change (watch_from (Some lo)) with lo. rewrite Hw.
    destruct (consume_served (fun e => delivers e.1 e.2) None (window h lo hi) tail Ht) as [st ->].
    done.
  - by intros [(e & ->)|(rv & e & -> & ->)].
Qed.

Lemma loader_follows {Obj} h (s : session (watchEvent * Obj)) win :
  follows h s win ->
  (watchScenarioLibrariesLoop s).1 =
    match win with
    | Some (lo, hi) => filter (fun e => triggers_reload e.1 = true) (window h lo hi)
    | None => [] end.
Proof.
  unfold watchScenarioLibrariesLoop. destruct win as [[lo hi]|]; cbn.
  - intros (-> & tail & Ht & Hw). change (watch_from (Some lo)) with lo. rewrite Hw.
    destruct (consume_served (fun e : watchEvent * Obj => triggers_reload e.1) (Some "watch channel closed") (window h lo hi) tail Ht) as [st ->].
    done.
  - by intros [(e & ->)|(rv & e & -> & ->)].
Qed.

Lemma delivers_spec ty t : delivers ty t = true <-> (ty = Added \/ ty = Modified) /\ phase_of t = TaskPhasePending.
Proof. destruct ty; cbn; rewrite ?bool_decide_eq_true; naive_solver. Qed.

(** C25: which tasks a worker takes up.  Whatever sessions its watch has, a worker starts
    on exactly the events that add or change a pending task at a version inside
    the window of a session it got to - after the version of that session's
    list, up to where its watch ended.  So a task whose pending versions all lie
    outside the windows, for instance one that was already pending when the
    first list was made, is never started by that worker, and no number of the
    janitor's ticks removes or changes it either. *)
Theorem worker_starts_windows `{HealthyServer W} cfg show h ss wins :
  Forall2 (follows h) ss wins ->
  (forall ty t, (ty, t) ∈ (Worker_Run ss).1 <->
     delivers ty t = true /\ exists v, (v, (ty, t)) ∈ h /\ seen_by (length (reached watchLoop ss)) wins v) /\
  (forall ty t, delivers ty t = true <-> (ty = Added \/ ty = Modified) /\ phase_of t = TaskPhasePending) /\
  (forall n (w w' : W) t ls, lookup_task w n = Some t -> phase_of t = TaskPhasePending ->
     (forall v ty t', (v, (ty, t')) ∈ h -> t_name t' = n -> delivers ty t' = true -> ~ seen_by (length ss) wins v) ->
     (forall ty t', (ty, t') ∈ (Worker_Run ss).1 -> t_name t' <> n) /\
     (janitor_run cfg show n w ls w' -> lookup_task w' n = Some t)).
Proof.
  intros HF.
  assert (forall ty t, (ty, t) ∈ (Worker_Run ss).1 <->
     delivers ty t = true /\ exists v, (v, (ty, t)) ∈ h /\ seen_by (length (reached watchLoop ss)) wins v) as HR.
  { intros ty t. apply (run_follows (fun e : task_event => delivers e.1 e.2) watchLoop watchLoop_follows h ss wins (ty, t) HF). }
  split; [exact HR|]. split; [exact delivers_spec|]. intros n w w' t ls Hl Hp Hgap. split.
  - intros ty t' Hin Hn. apply HR in Hin as (Hd & v & Hv & i & lo & hi & Hi & Hw).
    apply (Hgap v ty t' Hv Hn Hd). exists i, lo, hi. split; [|done].
    assert (length (reached watchLoop ss) <= length ss)%nat; [|lia].
    clear. induction ss as [|s ss IH]; cbn [reached length]; [lia|]. repeat case_match; cbn [length]; lia.
  - induction 1 as [w|w w1 ls w2 He HJ IH|now later w ls w2 HJ IH]; [done|apply IH; congruence|].
    apply IH. destruct (sweep_effect_lookup cfg show now later w) as (items & Hs).
    specialize (Hs n t Hl). unfold sweep_decision, decide_task, is_terminal in Hs. by rewrite Hp in Hs.
Qed.

(** ** The scenario libraries *)

(** A library as the API server knows it: name, version, content. *)
Record libraryObject := mkLibraryObject { lo_name : string; lo_version : Z; lo_spec : ScenarioLibrary }.

Abbreviation library_event := (watchEvent * libraryObject)%type (only parsing).

(** The libraries after the changes up to a version. *)
Definition apply_change (m : gmap string ScenarioLibrary) (c : Z * library_event) : gmap string ScenarioLibrary :=
  match c.2.1 with
  | WAdded | WModified => <[lo_name c.2.2 := lo_spec c.2.2]> m
  | WDeleted => delete (lo_name c.2.2) m
  | _ => m
  end.

Definition libraries_at (h : list (Z * library_event)) (v : Z) : gmap string ScenarioLibrary :=
  foldl apply_change ∅ (filter (fun c => c.1 <= v) h).

(** Every change carries its version in the object. *)
Definition versioned (h : list (Z * library_event)) : Prop := Forall (fun c => lo_version c.2.2 = c.1) h.

(** The versions at which the callback of each event listed the libraries: not
    before the event, and in order. *)
Definition reads_of (es : list library_event) (reads : list Z) : Prop :=
  Forall2 (fun e r => lo_version e.2 <= r) es reads /\ StronglySorted Z.le reads.

Lemma libraries_settled h v v' :
  v <= v' -> (forall c, c ∈ h -> triggers_reload c.2.1 = true -> c.1 <= v) -> libraries_at h v' = libraries_at h v.
Proof.
  intros Hv Hlast. unfold libraries_at.
  assert (forall m, foldl apply_change m (filter (fun c => c.1 <= v') h) = foldl apply_change m (filter (fun c => c.1 <= v) h))
    as Hm; [|apply Hm].
  induction h as [|c h IH]; intros m; [done|]. rewrite !filter_cons.
  assert (forall c0, c0 ∈ h -> triggers_reload c0.2.1 = true -> c0.1 <= v) as Hh by (intros; apply Hlast; [by right|done]).
  assert (triggers_reload c.2.1 = true -> c.1 <= v) as Hc by (intros; apply Hlast; [by left|done]).
  destruct (decide (c.1 <= v')) as [D|D], (decide (c.1 <= v)) as [D2|D2]; cbn [foldl]; try lia; [by apply IH| |by apply IH].
  assert (apply_change m c = m) as ->; [|by apply IH].
  unfold apply_change. destruct (c.2.1); try done; specialize (Hc eq_refl); lia.
Qed.

(** C24: reloading catches up.  If the watch got to a session whose window has the most
    recent change of a library, at version [v], the last reload listed the
    libraries as they are now; a change in none of the windows triggers no
    reload, so when it is the most recent one the engine may keep what an
    earlier list showed. *)
Theorem reload_converges h (ss : list (session library_event)) wins v e reads :
  Forall2 (follows h) ss wins -> versioned h ->
  (v, e) ∈ h -> triggers_reload e.1 = true -> (forall c, c ∈ h -> triggers_reload c.2.1 = true -> c.1 <= v) ->
  reads_of (WatchScenarioLibraries ss).1 reads ->
  (seen_by (length (reached watchScenarioLibrariesLoop ss)) wins v ->
     exists r, last reads = Some r /\ forall now, v <= now -> libraries_at h now = libraries_at h r) /\
  (~ seen_by (length (reached watchScenarioLibrariesLoop ss)) wins v -> e ∉ (WatchScenarioLibraries ss).1).
Proof.
  intros HF Hver Hin Hr Hlast [HR HS].
  pose proof (run_follows (fun e : library_event => triggers_reload e.1) watchScenarioLibrariesLoop loader_follows
    h ss wins e HF) as Hrun. split.
  - intros Hseen. assert (e ∈ (WatchScenarioLibraries ss).1) as He by (apply Hrun; split; [done|]; eauto).
    apply list_elem_of_lookup in He as (i & Hi). destruct (Forall2_lookup_l _ _ _ _ _ HR Hi) as (r0 & Hr0 & Hle).
    destruct (last reads) as [r|] eqn:El; [|apply last_None in El; subst; done].
    exists r. split; [done|].
    assert (r0 <= r) as Hrr.
    { clear -HS Hr0 El. revert i Hr0. induction HS as [|x reads HS IH HA]; intros i Hr0; [done|].
      destruct reads as [|y reads].
      - destruct i; [|done]. cbn in *. simplify_eq. lia.
      - change (last (y :: reads) = Some r) in El. destruct i as [|i]; [|by eapply IH].
        cbn in Hr0. injection Hr0 as <-. rewrite Forall_forall in HA. apply HA. by apply last_Some_elem_of. }
    assert (lo_version e.2 = v) as Hv.
    { unfold versioned in Hver. rewrite Forall_forall in Hver. by apply (Hver (v, e)). }
    intros now Hnow. rewrite (libraries_settled h v now Hnow Hlast). symmetry. apply libraries_settled; [lia|done].
  - intros Hn He. apply Hrun in He as (_ & v' & Hv' & Hs). apply Hn.
    assert (v' = v) as ->; [|done].
    unfold versioned in Hver. rewrite Forall_forall in Hver.
    pose proof (Hver _ Hv') as E1. pose proof (Hver _ Hin) as E2. cbn in E1, E2. congruence.
Qed.

(** * Witnesses *)

#[local] Existing Instance slot_client.
#[local] Existing Instance slot_store.
#[local] Existing Instance slot_TaskServer.
#[local] Existing Instance slot_HealthyServer.
#[local] Existing Instance demo_sort.

(** The task was pending at version 1; the worker listed at version 5. *)
Definition demo_history : list (Z * task_event) := [(1, (Added, demo_task))].
Definition demo_session : session task_event := mkSession (Ok (Some 5)) (fun _ => Ok []) false.

Lemma worker_starts_windows_witness :
  let w' := (sweep demo_queue (fun _ => "5m0s") (1000 * Hour) (fun _ => 0) demo_slot).1 in
  (Worker_Run [demo_session]).1 = [] /\ lookup_task w' (t_name demo_task) = Some demo_task.
Proof.
  intros w'. split; [by vm_compute|].
  destruct (worker_starts_windows demo_queue (fun _ => "5m0s") demo_history [demo_session] [Some (5, 9)]) as (_ & _ & H).
  - repeat constructor. exists []. split; [by left|]. by vm_compute.
  - apply (H (t_name demo_task) demo_slot w' demo_task [(1000 * Hour, fun _ => 0)]); [by vm_compute..| |].
    + intros v ty t' Hin _ _ (i & lo & hi & Hi & Hw & Hb). apply list_elem_of_singleton in Hin. injection Hin as -> -> ->.
      destruct i as [|i]; [|cbn in Hi; lia]. cbn in Hw. injection Hw as <- <-. lia.
    + apply jr_tick, jr_nil.
Defined.

Definition demo_library (n : string) (v : Z) : libraryObject :=
  mkLibraryObject n v [("a", demo_spec v "high")].
Definition demo_changes : list (Z * library_event) :=
  [(3, (WAdded, demo_library "x" 3)); (7, (WModified, demo_library "x" 7))].
Definition demo_watch (lo : Z) (es : list library_event) : session library_event :=
  mkSession (Ok (Some lo)) (fun _ => Ok (IEvent <$> es)) false.

Lemma reload_converges_witness :
  libraries_at demo_changes 100 = libraries_at demo_changes 8 /\
  (WatchScenarioLibraries [demo_watch 4 [(WModified, demo_library "x" 7)]]).1 = [(WModified, demo_library "x" 7)].
Proof.
  split; [|by vm_compute].
  destruct (reload_converges demo_changes [demo_watch 4 [(WModified, demo_library "x" 7)]] [Some (4, 9)] 7
    (WModified, demo_library "x" 7) [8]) as [H _].
  - repeat constructor. exists []. split; [by left|]. by vm_compute.
  - repeat constructor.
  - right. left.
  - done.
  - intros c Hc _. repeat (apply elem_of_cons in Hc as [->|Hc]; [cbn; lia|]). by apply elem_of_nil in Hc.
  - split; [|repeat constructor]. change (WatchScenarioLibraries _).1 with [(WModified, demo_library "x" 7)].
    repeat constructor. cbn. lia.
  - destruct H as (r & Hr & H).
    + exists 0%nat, 4, 9. split; [vm_compute; lia|]. split; [done|lia].
    + injection Hr as <-. apply H. lia.
Defined.
