(* ===== verification/Config.v ===== *)
(** The configuration (internal/config/config.go, cmd/operator/main.go): the
    defaults, the overrides from command-line flags, and validation. *)

From S2P Require Import Prelude GoNum.

(** * The structures *)

Record LeaderElectionConfig := mkLeaderElection {
  le_Enabled : bool;
  le_LeaseName : string;
  le_LeaseNamespace : string;
  le_LeaseDuration : Z;
  le_RenewDeadline : Z;
  le_RetryPeriod : Z;
}.

Record OperatorConfig := mkOperator {
  op_Mode : string;
  op_Namespace : string;
  op_LeaderElection : LeaderElectionConfig;
}.

Record KubernetesConfig := mkKubernetes {
  k8s_Enabled : bool;
  k8s_ResyncPeriod : Z;
  k8s_Namespaces : list string;
  k8s_ExcludedNamespaces : list string;
  k8s_LabelSelector : string;
}.

Record OTelEndpointConfig := mkEndpoint { ep_Enabled : bool; ep_Endpoint : string }.

Record OTelReceiverConfig := mkReceiver {
  rc_Enabled : bool;
  rc_GRPC : OTelEndpointConfig;
  rc_HTTP : OTelEndpointConfig;
}.

Record PipelineConfig := mkPipeline {
  DetectionInputBufferSize : Z;
  DetectionResultBufferSize : Z;
  ActionResultBufferSize : Z;
}.

Record DetectionConfig := mkDetection {
  EvaluationInterval : Z;
  MaxConcurrentEvaluations : Z;
  StateCleanupInterval : Z;
  StateExpiration : Z;
}.

Record RemediationConfig := mkRemediation {
  DryRun : bool;
  DefaultCooldown : Z;
  DefaultMaxRetries : Z;
  ActionTimeout : Z;
}.

Record CacheSettingsConfig := mkCacheSettings {
  MaxSize : Z;
  MaxAge : Z;
  MaxEntries : Z;
  EvictionPolicy : string;
}.

Record CacheConfig := mkCacheConfig {
  ca_Metrics : CacheSettingsConfig;
  ca_Logs : CacheSettingsConfig;
  ca_Traces : CacheSettingsConfig;
}.

Record ResourcesConfig := mkResources {
  AdaptiveMode : bool;
  MemoryWarningThreshold : spec_float;
  MemoryCriticalThreshold : spec_float;
  MemoryEmergencyThreshold : spec_float;
}.

Record TaskQueueConfig := mkTaskQueue {
  ActiveDeadline : Z;
  RetentionPeriod : Z;
  TrailingRetention : Z;
  CleanupInterval : Z;
}.

Record Config := mkConfig {
  c_Operator : OperatorConfig;
  c_Kubernetes : KubernetesConfig;
  c_OTel : OTelReceiverConfig;
  c_Pipeline : PipelineConfig;
  c_Detection : DetectionConfig;
  c_Remediation : RemediationConfig;
  c_Cache : CacheConfig;
  c_Metrics_Address : string;
  c_Health_Address : string;
  c_Resources : ResourcesConfig;
  c_TaskQueue : TaskQueueConfig;
}.

(** * Defaults *)

(** The float nearest to [n / 100], as the compiler rounds the literal. *)
Definition hundredths (n : Z) : spec_float := decimal_float false n (-2).

Definition Default : Config := {|
  c_Operator := mkOperator "offline" "selfhealing-system"
    (mkLeaderElection true "selfhealing-operator" "selfhealing-system"
       (60 * Second) (15 * Second) (5 * Second));
  c_Kubernetes := mkKubernetes true (5 * Minute) []
    ["kube-system"; "kube-public"; "kube-node-lease"; "selfhealing-system"] "";
  c_OTel := mkReceiver true (mkEndpoint true "0.0.0.0:4317") (mkEndpoint true "0.0.0.0:4318");
  c_Pipeline := mkPipeline 500 100 50;
  c_Detection := mkDetection (10 * Second) 10 (1 * Minute) (10 * Minute);
  c_Remediation := mkRemediation false (15 * Minute) 3 (30 * Second);
  c_Cache := mkCacheConfig
    (mkCacheSettings (50 * 1024 * 1024) (5 * Minute) 100000 "LRU")
    (mkCacheSettings (20 * 1024 * 1024) (5 * Minute) 10000 "FIFO")
    (mkCacheSettings (30 * 1024 * 1024) (5 * Minute) 5000 "LRU");
  c_Metrics_Address := ":8080";
  c_Health_Address := ":8081";
  c_Resources := mkResources true (hundredths 70) (hundredths 80) (hundredths 90);
  c_TaskQueue := mkTaskQueue (5 * Minute) (1 * Hour) 0 (30 * Second);
|}.

(** * Flags *)

Record FlagOverrides := mkFlags {
  fo_ConfigPath : string;
  fo_LogLevel : string;
  fo_ShutdownTimeout : Z;
  fo_DryRun : bool;
  fo_LeaderElect : bool;
  fo_Metrics_Address : string;
  fo_Health_Address : string;
}.

(** The flags of [main], each [None] when it is not on the command line. *)
Record commandLine := mkCommandLine {
  cl_config : option string;
  cl_metrics_addr : option string;
  cl_health_addr : option string;
  cl_dry_run : option bool;
  cl_leader_elect : option bool;
  cl_log_level : option string;
  cl_shutdown_timeout : option Z;
}.

Definition buildFlagOverrides (configPath metricsAddr healthAddr : string)
    (enableDryRun enableLeaderElect : bool) (logLevel : string) (shutdownTimeout : Z) : FlagOverrides :=
  mkFlags configPath logLevel shutdownTimeout enableDryRun enableLeaderElect metricsAddr healthAddr.

(** [flag.Parse] with the defaults [main] declares, then [buildFlagOverrides]. *)
Definition flagOpts (cl : commandLine) : FlagOverrides :=
  buildFlagOverrides (default "" (cl_config cl)) (default ":8080" (cl_metrics_addr cl))
    (default ":8081" (cl_health_addr cl)) (default false (cl_dry_run cl))
    (default false (cl_leader_elect cl)) (default "info" (cl_log_level cl))
    (default (30 * Second) (cl_shutdown_timeout cl)).

Definition set_DryRun (r : RemediationConfig) : RemediationConfig :=
  mkRemediation true (DefaultCooldown r) (DefaultMaxRetries r) (ActionTimeout r).

Definition set_LeaderElection (o : OperatorConfig) : OperatorConfig :=
  let le := op_LeaderElection o in
  mkOperator (op_Mode o) (op_Namespace o)
    (mkLeaderElection true (le_LeaseName le) (le_LeaseNamespace le) (le_LeaseDuration le)
       (le_RenewDeadline le) (le_RetryPeriod le)).

Definition ApplyFlagOverrides (cfg : Config) (opts : FlagOverrides) : Config :=
  mkConfig
    (if fo_LeaderElect opts then set_LeaderElection (c_Operator cfg) else c_Operator cfg)
    (c_Kubernetes cfg) (c_OTel cfg) (c_Pipeline cfg) (c_Detection cfg)
    (if fo_DryRun opts then set_DryRun (c_Remediation cfg) else c_Remediation cfg)
    (c_Cache cfg)
    (if decide (fo_Metrics_Address opts = "") then c_Metrics_Address cfg else fo_Metrics_Address opts)
    (if decide (fo_Health_Address opts = "") then c_Health_Address cfg else fo_Health_Address opts)
    (c_Resources cfg) (c_TaskQueue cfg).

(** * Validation *)

Section validate.
(** The [%v] verb on durations and the [%f] verb. *)
Context (fmt_v : Z -> string) (fmt_f : spec_float -> string).

Definition one : spec_float := float64_of_int 1.
Definition zero : spec_float := float64_of_int 0.

Definition ErrNoMonitorsEnabled : string := "at least one monitor must be enabled (kubernetes or otel)".

(** [x >= y] on floats: false when either is not a number. *)
Definition f_ge (x y : spec_float) : bool := SFleb y x.

(** The checks in order, each with the condition that refuses and its message. *)
Definition first_error (checks : list (bool * string)) : result () :=
  match find_first fst checks with Some (_, msg) => Err msg | None => Ok () end.

Definition unit_checks (name : string) (x : spec_float) : bool * string :=
  (SFleb x zero || f_ge x one, "resources." +:+ name +:+ " must be between 0 and 1, got " +:+ fmt_f x).

Definition leader_checks (le : LeaderElectionConfig) : list (bool * string) :=
  if le_Enabled le then
    [(le_LeaseDuration le <=? 0,
      "leaderElection.leaseDuration must be positive, got " +:+ fmt_v (le_LeaseDuration le));
     (le_RenewDeadline le <=? 0,
      "leaderElection.renewDeadline must be positive, got " +:+ fmt_v (le_RenewDeadline le));
     (le_RetryPeriod le <=? 0,
      "leaderElection.retryPeriod must be positive, got " +:+ fmt_v (le_RetryPeriod le));
     (le_LeaseDuration le <=? le_RenewDeadline le,
      "leaderElection.renewDeadline (" +:+ fmt_v (le_RenewDeadline le) +:+
      ") must be less than leaseDuration (" +:+ fmt_v (le_LeaseDuration le) +:+ ")");
     (le_RenewDeadline le <=? le_RetryPeriod le,
      "leaderElection.retryPeriod (" +:+ fmt_v (le_RetryPeriod le) +:+
      ") must be less than renewDeadline (" +:+ fmt_v (le_RenewDeadline le) +:+ ")")]
  else [].

Definition Validate (c : Config) : result () :=
  let p := c_Pipeline c in
  let d := c_Detection c in
  let r := c_Remediation c in
  let m := c_Resources c in
  first_error
    ([(negb (k8s_Enabled (c_Kubernetes c)) && negb (rc_Enabled (c_OTel c)), ErrNoMonitorsEnabled);
      (DetectionInputBufferSize p <=? 0,
       "pipeline.detectionInputBufferSize must be positive, got " +:+ pretty (DetectionInputBufferSize p));
      (DetectionResultBufferSize p <=? 0,
       "pipeline.detectionResultBufferSize must be positive, got " +:+ pretty (DetectionResultBufferSize p));
      (ActionResultBufferSize p <=? 0,
       "pipeline.actionResultBufferSize must be positive, got " +:+ pretty (ActionResultBufferSize p));
      (StateCleanupInterval d <=? 0,
       "detection.stateCleanupInterval must be positive, got " +:+ fmt_v (StateCleanupInterval d));
      (StateExpiration d <=? 0,
       "detection.stateExpiration must be positive, got " +:+ fmt_v (StateExpiration d));
      (DefaultCooldown r <? Minute,
       "remediation.defaultCooldown must be at least 1 minute, got " +:+ fmt_v (DefaultCooldown r));
      (DefaultMaxRetries r <=? 0,
       "remediation.defaultMaxRetries must be positive, got " +:+ pretty (DefaultMaxRetries r));
      unit_checks "memoryWarningThreshold" (MemoryWarningThreshold m);
      unit_checks "memoryCriticalThreshold" (MemoryCriticalThreshold m);
      unit_checks "memoryEmergencyThreshold" (MemoryEmergencyThreshold m);
      (f_ge (MemoryWarningThreshold m) (MemoryCriticalThreshold m),
       "resources.memoryWarningThreshold (" +:+ fmt_f (MemoryWarningThreshold m) +:+
       ") must be less than memoryCriticalThreshold (" +:+ fmt_f (MemoryCriticalThreshold m) +:+ ")");
      (f_ge (MemoryCriticalThreshold m) (MemoryEmergencyThreshold m),
       "resources.memoryCriticalThreshold (" +:+ fmt_f (MemoryCriticalThreshold m) +:+
       ") must be less than memoryEmergencyThreshold (" +:+ fmt_f (MemoryEmergencyThreshold m) +:+ ")")]
     ++ leader_checks (op_LeaderElection (c_Operator c))).

Lemma first_error_ok checks : first_error checks = Ok () <-> Forall (fun c => c.1 = false) checks.
Proof.
  unfold first_error. rewrite <- (find_first_None fst checks).
  destruct (find_first fst checks) as [[b m]|]; done.
Qed.

Lemma leader_checks_ok le :
  Forall (fun c => c.1 = false) (leader_checks le) <->
  (le_Enabled le = true ->
   0 < le_RetryPeriod le < le_RenewDeadline le /\ le_RenewDeadline le < le_LeaseDuration le).
Proof.
  unfold leader_checks. destruct (le_Enabled le); [|by split; [|constructor]].
  rewrite !Forall_cons. cbn [fst]. rewrite !Z.leb_gt. split; [intros; lia|].
  intros H. specialize (H eq_refl). split_and!; try lia. constructor.
Qed.

(** The configurations that pass validation are exactly these: a monitor is
    enabled, the three buffers, the cleanup interval, the state expiration and
    the retry limit are positive, the cooldown is at least a minute, no memory
    threshold compares at or below 0 or at or above 1 nor at or above the next
    one, and with leader election on, 0 < retry period < renew deadline < lease
    duration.  The built-in defaults pass. *)
Theorem Validate_accepts c :
  (Validate c = Ok () <->
    let m := c_Resources c in
    let in_unit x := SFleb x zero = false /\ SFleb one x = false in
    (k8s_Enabled (c_Kubernetes c) = true \/ rc_Enabled (c_OTel c) = true) /\
    0 < DetectionInputBufferSize (c_Pipeline c) /\ 0 < DetectionResultBufferSize (c_Pipeline c) /\
    0 < ActionResultBufferSize (c_Pipeline c) /\
    0 < StateCleanupInterval (c_Detection c) /\ 0 < StateExpiration (c_Detection c) /\
    Minute <= DefaultCooldown (c_Remediation c) /\ 0 < DefaultMaxRetries (c_Remediation c) /\
    in_unit (MemoryWarningThreshold m) /\ in_unit (MemoryCriticalThreshold m) /\
    in_unit (MemoryEmergencyThreshold m) /\
    SFleb (MemoryCriticalThreshold m) (MemoryWarningThreshold m) = false /\
    SFleb (MemoryEmergencyThreshold m) (MemoryCriticalThreshold m) = false /\
    let le := op_LeaderElection (c_Operator c) in
    (le_Enabled le = true ->
     0 < le_RetryPeriod le < le_RenewDeadline le /\ le_RenewDeadline le < le_LeaseDuration le)) /\
  Validate Default = Ok ().
Proof.
  split; [|by vm_compute].
  unfold Validate. rewrite first_error_ok, Forall_app, leader_checks_ok, !Forall_cons. cbn [fst unit_checks]. unfold f_ge.
  rewrite andb_false_iff, !negb_false_iff, !Z.leb_gt, Z.ltb_ge, !orb_false_iff.
  split; [intros; destruct_and!; split_and!; done|].
  intros. destruct_and!. by split_and!.
Qed.

End validate.

Definition with_caches_and_queue (caches : CacheConfig) (queue : TaskQueueConfig) (c : Config) : Config :=
  mkConfig (c_Operator c) (c_Kubernetes c) (c_OTel c) (c_Pipeline c) (c_Detection c)
    (c_Remediation c) caches (c_Metrics_Address c) (c_Health_Address c) (c_Resources c) queue.

(** What validation lets through.  The cache limits and the task-queue
    intervals can be changed to any value without changing the verdict; so the
    defaults with any entry limit for the caches, zero and negative ones
    included, and any interval for the janitor's ticker, which panics unless it
    is positive, are accepted. *)
Theorem Validate_ignores_cache_and_queue fmt_v fmt_f c caches queue :
  Validate fmt_v fmt_f (with_caches_and_queue caches queue c) = Validate fmt_v fmt_f c /\
  forall entries interval size age policy,
    let s := mkCacheSettings size age entries policy in
    Validate fmt_v fmt_f (with_caches_and_queue (mkCacheConfig s s s)
      (mkTaskQueue Minute Hour 0 interval) Default) = Ok ().
Proof. split; [done|]. intros. by vm_compute. Qed.

(** Flags and file.  Whatever the file says, when a listener's flag is absent
    its address becomes the flag's built-in default; dry run and leader election
    can be switched on by a flag but never off, and everything else comes from
    the file. *)
Theorem flag_precedence cfg cl :
  let c := ApplyFlagOverrides cfg (flagOpts cl) in
  (cl_metrics_addr cl = None -> c_Metrics_Address c = ":8080") /\
  (cl_health_addr cl = None -> c_Health_Address c = ":8081") /\
  (forall a, a <> "" -> cl_metrics_addr cl = Some a -> c_Metrics_Address c = a) /\
  DryRun (c_Remediation c) = DryRun (c_Remediation cfg) || default false (cl_dry_run cl) /\
  le_Enabled (op_LeaderElection (c_Operator c)) =
    le_Enabled (op_LeaderElection (c_Operator cfg)) || default false (cl_leader_elect cl) /\
  DefaultCooldown (c_Remediation c) = DefaultCooldown (c_Remediation cfg) /\
  DefaultMaxRetries (c_Remediation c) = DefaultMaxRetries (c_Remediation cfg) /\
  c_Cache c = c_Cache cfg /\ c_TaskQueue c = c_TaskQueue cfg /\ c_Kubernetes c = c_Kubernetes cfg.
Proof.
  unfold ApplyFlagOverrides, flagOpts, buildFlagOverrides. simpl.
  split; [by intros ->|]. split; [by intros ->|].
  split; [intros a Ha ->; simpl; case_decide; done|].
  destruct (default false (cl_dry_run cl)), (default false (cl_leader_elect cl)); simpl;
    rewrite ?orb_true_r, ?orb_false_r; done.
Qed.
