(* ===== verification/Monitor.v ===== *)
(** The monitors (internal/monitor): the Kubernetes monitor turns the objects its
    informers deliver into detection inputs, the OTLP receiver does the same
    with log records, and a registry of factories builds those that the
    configuration enables. *)

From S2P Require Import Prelude GoNum Types Config.

(** * What the objects are

    Pods, events and telemetry belong to client-go and to the OpenTelemetry
    collector.  The class lists what the monitors read of them; JSON encoding
    and decoding, and the uuid library, are parameters too. *)

Class MonitorEnv := {
  (** the values of a decoded JSON object *)
  Raw : Type;
  raw_string : string -> Raw;
  raw_int32 : Z -> Raw;
  Pod : Type;
  pod_Namespace : Pod -> string;
  pod_Name : Pod -> string;
  pod_UID : Pod -> string;
  Event : Type;
  ev_Namespace : Event -> string;
  ev_Name : Event -> string;
  ev_Reason : Event -> string;
  ev_InvolvedObject : Event -> ResourceReference;
  Marshal : Pod + Event -> result string;
  Unmarshal : string -> result (gmap string Raw);
  (** attribute values, and the timestamp of a log record *)
  Value : Type;
  Str : Value -> string;
  AsString : Value -> string;
  AsRaw : Value -> Raw;
  AsTime : Z -> Z;
}.

Section monitor.
Context `{MonitorEnv}.

Abbreviation data := (gmap string Raw).
Abbreviation input := (DetectionInput data).

Definition sendDetectionInput (i : input) (outputCh : chan input) : chan input :=
  (try_send outputCh i).1.

(** * The Kubernetes monitor *)

Section k8s.
(** [config.Kubernetes.ExcludedNamespaces] *)
Context (excludedNamespaces : list string).

Definition isExcludedNamespace (ns : string) : bool :=
  bool_decide (is_Some (find_first (fun excluded => bool_decide (ns = excluded)) excludedNamespaces)).

Definition objectToMap (obj : Pod + Event) : result data :=
  match Marshal obj with
  | Err e => Err e
  | Ok raw => Unmarshal raw
  end.

(** [nano] and [now] are the two clock readings of a conversion. *)
Definition podToDetectionInput (nano now : Z) (pod : Pod) (eventType : string) : result input :=
  match objectToMap (inl pod) with
  | Err e => Err ("marshal pod: " +:+ e)
  | Ok d =>
    Ok (mkInput data ("k8s-pod-" +:+ pod_Namespace pod +:+ "-" +:+ pod_Name pod +:+ "-" +:+ pretty nano)
          DetectionSourceKubernetes
          (mkRef "v1" "Pod" (pod_Namespace pod) (pod_Name pod) (pod_UID pod))
          now d (<["eventType" := eventType]> ∅))
  end.

Definition eventToDetectionInput (nano now : Z) (event : Event) : result input :=
  match objectToMap (inr event) with
  | Err e => Err ("marshal event: " +:+ e)
  | Ok d =>
    let involvedObj := ev_InvolvedObject event in
    let apiVersion := if decide (APIVersion involvedObj = "") then "v1" else APIVersion involvedObj in
    Ok (mkInput data ("k8s-event-" +:+ ev_Namespace event +:+ "-" +:+ ev_Name event +:+ "-" +:+ pretty nano)
          DetectionSourceKubernetes
          (mkRef apiVersion (Kind involvedObj) (Namespace involvedObj) (Name involvedObj) (UID involvedObj))
          now d (<["eventType" := "event"]> (<["reason" := ev_Reason event]> ∅)))
  end.

(** A failed conversion is logged. *)
Definition send_converted (r : result input) (ch : chan input) : chan input :=
  match r with Ok i => sendDetectionInput i ch | Err _ => ch end.

Definition onPod (eventType : string) (nano now : Z) (obj : Pod + Event) (ch : chan input) : chan input :=
  match obj with
  | inl pod =>
    if isExcludedNamespace (pod_Namespace pod) then ch
    else send_converted (podToDetectionInput nano now pod eventType) ch
  | inr _ => ch
  end.

Definition onPodAdd : Z -> Z -> Pod + Event -> chan input -> chan input := onPod "add".
Definition onPodUpdate (nano now : Z) (_ newObj : Pod + Event) (ch : chan input) : chan input :=
  onPod "update" nano now newObj ch.

Definition processEvent (nano now : Z) (event : Event) (ch : chan input) : chan input :=
  if isExcludedNamespace (Namespace (ev_InvolvedObject event)) then ch
  else send_converted (eventToDetectionInput nano now event) ch.

Definition onEventAdd (nano now : Z) (obj : Pod + Event) (ch : chan input) : chan input :=
  match obj with inr event => processEvent nano now event ch | inl _ => ch end.
Definition onEventUpdate (nano now : Z) (_ newObj : Pod + Event) (ch : chan input) : chan input :=
  onEventAdd nano now newObj ch.

(** The notifications of the two informers that [Run] registers handlers for. *)
Inductive notification :=
  | PodAdded (obj : Pod + Event)
  | PodUpdated (oldObj newObj : Pod + Event)
  | EventAdded (obj : Pod + Event)
  | EventUpdated (oldObj newObj : Pod + Event).

(** One notification with the clock readings of its conversion. *)
Definition handle (ch : chan input) (n : notification * Z * Z) : chan input :=
  let '(n, nano, now) := n in
  match n with
  | PodAdded obj => onPodAdd nano now obj ch
  | PodUpdated oldObj newObj => onPodUpdate nano now oldObj newObj ch
  | EventAdded obj => onEventAdd nano now obj ch
  | EventUpdated oldObj newObj => onEventUpdate nano now oldObj newObj ch
  end.
End k8s.

(** * The OTLP receiver *)

Abbreviation attributes := (list (string * Value)).

Record LogRecord := mkLogRecord {
  lr_Body : Value;
  lr_SeverityText : string;
  lr_SeverityNumber : Z;
  lr_Attributes : attributes;
  lr_Timestamp : Z;
}.

(** A resource with its scopes, each a list of records. *)
Record ResourceLogs := mkResourceLogs {
  rl_Resource : attributes;
  rl_ScopeLogs : list (list LogRecord);
}.

(** [v, _ := attrs.Get(k); v.Str()]: a missing attribute reads as empty. *)
Definition attr_Str (k : string) (attrs : attributes) : string :=
  match find_first (fun kv => bool_decide (kv.1 = k)) attrs with
  | Some kv => Str kv.2
  | None => ""
  end.

Definition log_resource (attrs : attributes) : ResourceReference :=
  let podName := attr_Str "k8s.pod.name" attrs in
  let kind := if decide (podName = "") then "Service" else "Pod" in
  let name := if decide (podName = "") then attr_Str "service.name" attrs else podName in
  let name := if decide (name = "") then "unknown" else name in
  mkRef "v1" kind (attr_Str "k8s.namespace.name" attrs) name (attr_Str "k8s.pod.uid" attrs).

Definition log_data (lr : LogRecord) : data :=
  let d := <["message" := raw_string (AsString (lr_Body lr))]>
             (<["severity" := raw_string (lr_SeverityText lr)]> ∅) in
  let d := if decide (lr_SeverityNumber lr = 0) then d
           else <["severityNumber" := raw_int32 (lr_SeverityNumber lr)]> d in
  foldl (fun d kv => <[kv.1 := AsRaw kv.2]> d) d (lr_Attributes lr).

Definition log_labels (attrs : attributes) : gmap string string :=
  foldl (fun l kv => <[kv.1 := AsString kv.2]> l) (<["telemetryType" := "log"]> ∅) attrs.

Definition logRecordToDetectionInput (id : string) (attrs : attributes) (lr : LogRecord) : input :=
  mkInput data id DetectionSourceOTel (log_resource attrs) (AsTime (lr_Timestamp lr))
    (log_data lr) (log_labels attrs).

(** [uuid n] is the [n]-th identifier the uuid library hands out. *)
Section otel.
Context (uuid : nat -> string).

Definition consume_records (attrs : attributes) (st : nat * chan input) (records : list LogRecord)
  : nat * chan input :=
  foldl (fun '(n, ch) lr =>
    (S n, sendDetectionInput (logRecordToDetectionInput (uuid n) attrs lr) ch)) st records.

Definition consumeLogs (ld : list ResourceLogs) (st : nat * chan input) : nat * chan input :=
  foldl (fun st rl => foldl (consume_records (rl_Resource rl)) st (rl_ScopeLogs rl)) st ld.
End otel.

End monitor.

(** * The registry *)

(** The monitors the factories make. *)
Inductive Monitor := K8sMonitor | OTelReceiver.

#[export] Instance Monitor_eq_dec : EqDecision Monitor.
Proof. solve_decision. Defined.

(** A factory returns no monitor when the configuration disables it. *)
Abbreviation Factory := (Config -> result (option Monitor)).

Definition defaultFactories : list Factory :=
  [fun cfg => if k8s_Enabled (c_Kubernetes cfg) then Ok (Some K8sMonitor) else Ok None;
   fun cfg => if rc_Enabled (c_OTel cfg) then Ok (Some OTelReceiver) else Ok None].

Fixpoint buildMonitors (factories : list Factory) (cfg : Config) : result (list Monitor) :=
  match factories with
  | [] => Ok []
  | f :: fs =>
    match f cfg with
    | Err e => Err ("monitor factory error: " +:+ e)
    | Ok None => buildMonitors fs cfg
    | Ok (Some m) => ms ← buildMonitors fs cfg; Ok (m :: ms)
    end
  end.

Definition BuildFromConfig (cfg : Config) : result (list Monitor) := buildMonitors defaultFactories cfg.
