(* ===== verification/MonitorProps.v ===== *)
(** What the monitors deliver: which notifications become detection inputs, in
    which order, and which monitors a valid configuration runs. *)

From S2P Require Import Prelude GoNum Types Config Monitor.

Section k8s.
Context `{MonitorEnv}.
Context (excluded : list string).
Implicit Types ch : chan (DetectionInput (gmap string Raw)).

Lemma isExcludedNamespace_spec ns : isExcludedNamespace excluded ns = true <-> ns ∈ excluded.
Proof.
  unfold isExcludedNamespace. rewrite bool_decide_eq_true. split.
  - intros [x Hx]. apply find_first_Some in Hx as (l1 & l2 & -> & Hd & _).
    apply bool_decide_eq_true in Hd as ->. set_solver.
  - intros Hin. destruct (find_first _ _) eqn:E; [by eexists|].
    apply find_first_None in E. rewrite Forall_forall in E. specialize (E ns Hin).
    by apply bool_decide_eq_false in E.
Qed.

(** The object a notification is about, if its handler accepts its type, with
    the identifier prefix, the resource and the labels of the input. *)
Definition subject (n : notification) : option (Pod + Event) :=
  match n with
  | PodAdded (inl p) | PodUpdated _ (inl p) => Some (inl p)
  | EventAdded (inr e) | EventUpdated _ (inr e) => Some (inr e)
  | _ => None
  end.

Definition subject_ref (o : Pod + Event) : ResourceReference :=
  match o with
  | inl p => mkRef "v1" "Pod" (pod_Namespace p) (pod_Name p) (pod_UID p)
  | inr e =>
    let r := ev_InvolvedObject e in
    if decide (APIVersion r = "") then mkRef "v1" (Kind r) (Namespace r) (Name r) (UID r) else r
  end.

(** What a notification sends into an empty channel. *)
Definition converted (n : notification * Z * Z) : option (DetectionInput (gmap string Raw)) :=
  head (ch_buf (handle excluded (Chan [] 1) n)).

(** A handler sends at most one input, which does not depend on the channel. *)
Lemma handle_converted n ch :
  handle excluded ch n = match converted n with Some i => sendDetectionInput i ch | None => ch end.
Proof.
  destruct n as [[n nano] now]. unfold converted.
  destruct n as [[p|e]|o [p|e]|[p|e]|o [p|e]];
    cbn [handle onPodAdd onPodUpdate onEventAdd onEventUpdate onPod]; try done;
    unfold onPodAdd, onPod, processEvent;
    destruct (isExcludedNamespace _ _); try done;
    unfold send_converted, sendDetectionInput; repeat case_match; simplify_eq/=; done.
Qed.

Lemma handle_all_sends ns ch :
  foldl (handle excluded) ch ns = try_sends ch (omap converted ns).
Proof.
  revert ch. induction ns as [|n ns IH]; intros ch; [done|]. cbn [foldl].
  rewrite handle_converted, IH. cbn. by destruct (converted n).
Qed.

(** The notification concerns an object that may be reported. *)
Definition accepted (x : notification * Z * Z) : bool :=
  match subject x.1.1 with
  | Some o => bool_decide (Namespace (subject_ref o) ∉ excluded) && is_ok (objectToMap o)
  | None => false
  end.

(** The input reports the object of the notification at the time of the
    conversion. *)
Definition reports (x : notification * Z * Z) (i : DetectionInput (gmap string Raw)) : Prop :=
  exists o, subject x.1.1 = Some o /\ objectToMap o = Ok (di_Data i) /\
    di_Resource i = subject_ref o /\ Namespace (di_Resource i) ∉ excluded /\
    di_Source i = DetectionSourceKubernetes /\ di_Timestamp i = x.2.

Lemma subject_ref_Namespace_event e : Namespace (subject_ref (inr e)) = Namespace (ev_InvolvedObject e).
Proof. cbn. by case_decide. Qed.

Lemma subject_ref_event e :
  subject_ref (inr e) =
  mkRef (if decide (APIVersion (ev_InvolvedObject e) = "") then "v1" else APIVersion (ev_InvolvedObject e))
    (Kind (ev_InvolvedObject e)) (Namespace (ev_InvolvedObject e)) (Name (ev_InvolvedObject e))
    (UID (ev_InvolvedObject e)).
Proof. cbn. case_decide; [done|]. by destruct (ev_InvolvedObject e). Qed.

Lemma excluded_false ns : isExcludedNamespace excluded ns = false <-> ns ∉ excluded.
Proof. rewrite <- not_true_iff_false. by rewrite isExcludedNamespace_spec. Qed.

Lemma pod_converted ty nano now p ch :
  onPod excluded ty nano now (inl p) ch =
    if bool_decide (pod_Namespace p ∉ excluded) then send_converted (podToDetectionInput nano now p ty) ch else ch.
Proof.
  cbn [onPod]. destruct (isExcludedNamespace _ _) eqn:E.
  - apply isExcludedNamespace_spec in E. rewrite bool_decide_false; [done|naive_solver].
  - apply excluded_false in E. by rewrite bool_decide_true.
Qed.

Lemma event_converted nano now e ch :
  processEvent excluded nano now e ch =
    if bool_decide (Namespace (ev_InvolvedObject e) ∉ excluded)
    then send_converted (eventToDetectionInput nano now e) ch else ch.
Proof.
  unfold processEvent. destruct (isExcludedNamespace _ _) eqn:E.
  - apply isExcludedNamespace_spec in E. rewrite bool_decide_false; [done|naive_solver].
  - apply excluded_false in E. by rewrite bool_decide_true.
Qed.

Lemma converted_spec x :
  match converted x with
  | Some i => accepted x = true /\ reports x i
  | None => accepted x = false
  end.
Proof.
  destruct x as [[n nano] now]. unfold converted, accepted, reports.
  destruct n as [[p|e]|o [p|e]|[p|e]|o [p|e]];
    cbn [handle onPodAdd onPodUpdate onEventAdd onEventUpdate subject fst snd]; try done;
    unfold onPodAdd, onPodUpdate, onEventUpdate; cbn [onEventAdd]; try done;
    rewrite ?pod_converted, ?event_converted, ?subject_ref_Namespace_event;
    unfold podToDetectionInput, eventToDetectionInput;
    cbn [subject_ref Namespace]; repeat case_bool_decide; try done;
    destruct (objectToMap _) as [d|] eqn:Em; try done; (split; [done|]).
  1, 2: by exists (inl p).
  all: exists (inr e); rewrite subject_ref_event; by split_and!.
Qed.

Lemma converted_all ns :
  Forall2 reports (filter (fun x => accepted x = true) ns) (omap converted ns).
Proof.
  induction ns as [|x ns IH]; [constructor|]. rewrite filter_cons. cbn.
  pose proof (converted_spec x) as S. destruct (converted x) as [i|].
  - destruct S as [Ha Hr]. rewrite decide_True by done. by constructor.
  - rewrite decide_False by congruence. done.
Qed.

(** What the Kubernetes monitor delivers.  Of any sequence of notifications
    the channel receives, in order and as far as it has room, one input for
    each that concerns a pod or an event outside the excluded namespaces and
    whose object survives the JSON round trip, and nothing else.  The input
    has the source "kubernetes", the resource the object is about - never one
    in an excluded namespace - the decoded object and the time of the
    conversion. *)
Theorem k8s_inputs_filtered ns ch :
  chan_ok ch ->
  exists inputs, Forall2 reports (filter (fun x => accepted x = true) ns) inputs /\
    foldl (handle excluded) ch ns =
      Chan (ch_buf ch ++ take (ch_cap ch - length (ch_buf ch))%nat inputs) (ch_cap ch).
Proof.
  intros Hok. exists (omap converted ns). split; [apply converted_all|].
  rewrite handle_all_sends. by apply try_sends_take.
Qed.

End k8s.

(** * The OTLP receiver *)

Section otel.
Context `{MonitorEnv}.
Context (uuid : nat -> string).
Abbreviation attributes := (list (string * Value)).

(** The log records of a batch, each with the attributes of its resource. *)
Definition flat_records (ld : list ResourceLogs) : list (attributes * LogRecord) :=
  concat ((fun rl => (fun lr => (rl_Resource rl, lr)) <$> concat (rl_ScopeLogs rl)) <$> ld).

Definition log_input (n : nat) (x : attributes * LogRecord) : DetectionInput (gmap string Raw) :=
  logRecordToDetectionInput (uuid n) x.1 x.2.

(** The identifiers are handed out in order. *)
Fixpoint log_inputs (n : nat) (l : list (attributes * LogRecord)) : list (DetectionInput (gmap string Raw)) :=
  match l with
  | [] => []
  | x :: l => log_input n x :: log_inputs (S n) l
  end.

Definition consume_one (st : nat * chan (DetectionInput (gmap string Raw))) (x : attributes * LogRecord) :=
  (S st.1, sendDetectionInput (log_input st.1 x) st.2).

Lemma consume_records_flat attrs st l :
  consume_records uuid attrs st l = foldl consume_one st ((fun lr => (attrs, lr)) <$> l).
Proof.
  unfold consume_records. revert st. induction l as [|lr l IH]; intros [n ch]; [done|].
  rewrite fmap_cons. cbn [foldl]. by rewrite IH.
Qed.

Lemma consume_scopes_flat attrs st l :
  foldl (consume_records uuid attrs) st l = foldl consume_one st ((fun lr => (attrs, lr)) <$> concat l).
Proof.
  revert st. induction l as [|sl l IH]; intros st; [done|]. cbn [foldl concat].
  by rewrite IH, consume_records_flat, fmap_app, foldl_app.
Qed.

Lemma consumeLogs_flat ld st : consumeLogs uuid ld st = foldl consume_one st (flat_records ld).
Proof.
  unfold consumeLogs, flat_records. revert st. induction ld as [|rl ld IH]; intros st; [done|].
  rewrite fmap_cons. cbn [foldl concat]. by rewrite IH, consume_scopes_flat, foldl_app.
Qed.

Lemma consume_ones l n ch :
  foldl consume_one (n, ch) l = ((n + length l)%nat, try_sends ch (log_inputs n l)).
Proof.
  revert n ch. induction l as [|x l IH]; intros n ch; cbn [foldl length].
  - by rewrite Nat.add_0_r.
  - unfold consume_one at 2. cbn [fst snd]. rewrite IH. f_equal. lia.
Qed.

(** The last attribute under a key, which overwrites the earlier ones. *)
Definition last_attr (k : string) (l : list (string * Value)) : option (string * Value) :=
  find_first (fun kv => bool_decide (kv.1 = k)) (reverse l).

Lemma foldl_insert_lookup {B} (f : Value -> B) (l : list (string * Value)) (m : gmap string B) k :
  foldl (fun m kv => <[kv.1 := f kv.2]> m) m l !! k =
    match last_attr k l with Some kv => Some (f kv.2) | None => m !! k end.
Proof.
  revert m. induction l as [|[k' v] l IH]; intros m; [done|]. cbn [foldl]. rewrite IH.
  unfold last_attr. rewrite reverse_cons, find_first_app. cbn [fst snd].
  destruct (find_first _ (reverse l)); [done|]. cbn [find_first fst snd].
  case_bool_decide; subst; [by rewrite lookup_insert_eq|by rewrite lookup_insert_ne].
Qed.

(** What the OTLP receiver delivers.  A batch of logs becomes one input for
    each record, in the order of resources, scopes and records, and the channel
    takes as many as it has room for.  Every input has the source "otel" and a
    named resource, a pod exactly when the resource has a pod name; an
    expression sees the body under "message" and the resource attributes as
    labels unless an attribute of the record or resource with that very name
    hides them; excluded namespaces play no role. *)
Theorem consumeLogs_in_order ld n ch :
  chan_ok ch ->
  consumeLogs uuid ld (n, ch) =
    ((n + length (flat_records ld))%nat,
     Chan (ch_buf ch ++ take (ch_cap ch - length (ch_buf ch))%nat (log_inputs n (flat_records ld))) (ch_cap ch)) /\
  forall id attrs lr, let i := logRecordToDetectionInput id attrs lr in
    di_Source i = DetectionSourceOTel /\ Name (di_Resource i) <> "" /\
    (Kind (di_Resource i) = "Pod" <-> attr_Str "k8s.pod.name" attrs <> "") /\
    di_Data i !! "message" = Some (match last_attr "message" (lr_Attributes lr) with
                                   | Some kv => AsRaw kv.2
                                   | None => raw_string (AsString (lr_Body lr))
                                   end) /\
    di_Labels i !! "telemetryType" = Some (match last_attr "telemetryType" attrs with
                                           | Some kv => AsString kv.2
                                           | None => "log"
                                           end).
Proof.
  intros Hok. split.
  - rewrite consumeLogs_flat, consume_ones. by rewrite try_sends_take.
  - intros id attrs lr i. split_and!; try done.
    + cbn. repeat case_decide; done.
    + cbn. case_decide; naive_solver.
    + cbn [i di_Data logRecordToDetectionInput]. unfold log_data. rewrite foldl_insert_lookup.
      destruct (last_attr _ _); [done|]. case_decide; rewrite ?lookup_insert_ne by done; by rewrite lookup_insert_eq.
    + cbn [i di_Labels logRecordToDetectionInput]. unfold log_labels. rewrite foldl_insert_lookup.
      destruct (last_attr _ _); [done|]. by rewrite lookup_insert_eq.
Qed.

End otel.

(** * The registry *)

(** A configuration that passes validation runs at least one monitor:
    building never fails, makes the Kubernetes monitor exactly when it is
    enabled and the OTLP receiver exactly when that is, in this order, and
    makes one of them whenever the configuration is valid. *)
Theorem BuildFromConfig_enabled fmt_v fmt_f cfg :
  exists ms, BuildFromConfig cfg = Ok ms /\
    (K8sMonitor ∈ ms <-> k8s_Enabled (c_Kubernetes cfg) = true) /\
    (OTelReceiver ∈ ms <-> rc_Enabled (c_OTel cfg) = true) /\
    (length ms <= 2)%nat /\ ms `sublist_of` [K8sMonitor; OTelReceiver] /\
    (Validate fmt_v fmt_f cfg = Ok () -> ms <> []).
Proof.
  unfold BuildFromConfig, defaultFactories. cbn [buildMonitors].
  assert (Validate fmt_v fmt_f cfg = Ok () ->
    negb (k8s_Enabled (c_Kubernetes cfg)) && negb (rc_Enabled (c_OTel cfg)) = false) as HV.
  { unfold Validate. rewrite first_error_ok, Forall_app, Forall_cons. by intros [[? _] _]. }
  destruct (k8s_Enabled _), (rc_Enabled _); simpl in *;
    eexists; (split; [reflexivity|]); rewrite ?elem_of_cons, ?elem_of_nil;
    (split; [naive_solver|]); (split; [naive_solver|]); (split; [simpl; lia|]); (split; [|naive_solver]);
    repeat (apply sublist_skip || apply sublist_nil_l || apply sublist_cons).
Qed.

(** * Witnesses *)

(** Objects that are named by their namespace and name, and text values. *)
#[local] Instance demo_env : MonitorEnv := {|
  Raw := string; raw_string s := s; raw_int32 n := pretty n;
  Pod := string * string; pod_Namespace p := p.1; pod_Name p := p.2; pod_UID _ := "u";
  Event := string; ev_Namespace _ := "prod"; ev_Name n := n; ev_Reason _ := "Unhealthy";
  ev_InvolvedObject n := mkRef "" "Pod" "prod" n "u";
  Marshal o := match o with inl p => Ok p.2 | inr _ => Err "no json" end;
  Unmarshal s := Ok (<["name" := s]> ∅);
  Value := string; Str s := s; AsString s := s; AsRaw s := s; AsTime t := t;
|}.

Definition demo_notifications : list (notification * Z * Z) :=
  [(PodAdded (inl ("kube-system", "dns")), 1, 2); (PodUpdated (inl ("prod", "a")) (inl ("prod", "a")), 3, 4);
   (EventAdded (inr "a"), 5, 6); (PodAdded (inl ("prod", "b")), 7, 8); (PodAdded (inl ("prod", "c")), 9, 10)].

Lemma k8s_inputs_filtered_witness :
  exists inputs, ch_buf (foldl (handle ["kube-system"]) (Chan [] 2) demo_notifications) = take 2 inputs /\
    length inputs = 3%nat.
Proof.
  destruct (k8s_inputs_filtered ["kube-system"] demo_notifications (Chan [] 2)) as (inputs & H1 & ->).
  - unfold chan_ok. simpl. lia.
  - exists inputs. split; [done|]. rewrite <- (Forall2_length _ _ _ H1). by vm_compute.
Defined.

Lemma consumeLogs_in_order_witness :
  let lr m := mkLogRecord m "ERROR" 17 [] 5 in
  let ld := [mkResourceLogs [("service.name", "shop")] [[lr "a"; lr "b"]; [lr "c"]]] in
  let res := consumeLogs (fun n => pretty n) ld (0%nat, Chan [] 2) in
  res.1 = 3%nat /\ (di_ID <$> ch_buf res.2) = ["0"; "1"].
Proof.
  intros lr ld res.
  destruct (consumeLogs_in_order (fun n => pretty n) ld 0 (Chan [] 2)) as [E _].
  - unfold chan_ok. simpl. lia.
  - subst res. rewrite E. by vm_compute.
Defined.
