(* ===== verification/MonitorRun.v ===== *)
(** The life of a monitor (internal/monitor): [Run], [Stop] and [Ready] of the
    Kubernetes monitor and of the OTLP receiver, and [Run] of the health server,
    as executable transition systems.  What the informers, the OTLP servers and
    the HTTP server answer is part of the labels. *)

From S2P Require Import Prelude Config.

(** Running a list of labels. *)
Section schedules.
Context {S L : Type} (exec : L -> S -> option (outcome S)).

Fixpoint run_labels (ls : list L) (s : S) : option (outcome S) :=
  match ls with
  | [] => Some (Ret s)
  | l :: ls =>
    match exec l s with
    | Some (Ret s) => run_labels ls s
    | r => r
    end
  end.

(** An invariant of the steps holds after any schedule, which does not panic. *)
Lemma run_labels_ind (P : S -> Prop) :
  (forall l s r, P s -> exec l s = Some r -> exists s', r = Ret s' /\ P s') ->
  forall ls s r, P s -> run_labels ls s = Some r -> exists s', r = Ret s' /\ P s'.
Proof.
  intros Hstep ls. induction ls as [|l ls IH]; intros s r HP; cbn [run_labels].
  { intros [= <-]. by exists s. }
  destruct (exec l s) as [r1|] eqn:E; [|done]. destruct (Hstep _ _ _ HP E) as (s1 & -> & HP1). by apply IH.
Qed.
End schedules.

(** * The Kubernetes monitor *)

Module K8s.

Inductive pc := Idle | Syncing | Synced | Serving | Returned (err : option string).

Record state := mkState {
  at_pc : pc;
  ready : bool;
  stopOnce : bool;        (* the body of [Stop] has run *)
  stopClosed : bool;      (* [stopCh] is closed *)
  ctxDone : bool;
}.

Definition new : state := mkState Idle false false false false.

(** What the calls before the wait answer: [buildClientset] when no client was
    injected, and the two [AddEventHandler]. *)
Record setup := mkSetup {
  clientset : option string;
  podHandler : option string;
  eventHandler : option string;
}.

Definition setup_error (a : setup) : option string :=
  match clientset a with
  | Some e => Some ("failed to create K8s clientset: " +:+ e)
  | None =>
    match podHandler a with
    | Some e => Some ("pod informer AddEventHandler: " +:+ e)
    | None => (fun e => "event informer AddEventHandler: " +:+ e) <$> eventHandler a
    end
  end.

(** The answer of [WaitForCacheSync], in the order in which Go visits the map. *)
Fixpoint first_unsynced (synced : list (string * bool)) : option string :=
  match synced with
  | [] => None
  | (typ, ok) :: synced => if ok then first_unsynced synced else Some typ
  end.

Inductive label :=
  | Run (a : setup)
  | CacheSync (synced : list (string * bool))
  | SetReady
  | Leave                (* the final select *)
  | Stop
  | Cancel.

Definition goto (p : pc) (s : state) : state := mkState p (ready s) (stopOnce s) (stopClosed s) (ctxDone s).

(** [Stop]: closing a closed channel would panic. *)
Definition stop (s : state) : outcome state :=
  if stopOnce s then Ret s
  else if stopClosed s then Panic
  else Ret (mkState (at_pc s) false true true (ctxDone s)).

Definition exec (l : label) (s : state) : option (outcome state) :=
  match l, at_pc s with
  | Run a, Idle =>
    Some (Ret (goto (match setup_error a with Some e => Returned (Some e) | None => Syncing end) s))
  | CacheSync synced, Syncing =>
    Some (Ret (goto (match first_unsynced synced with
                     | Some typ => Returned (Some ("informer cache sync failed for " +:+ typ))
                     | None => Synced
                     end) s))
  | SetReady, Synced => Some (Ret (mkState Serving true (stopOnce s) (stopClosed s) (ctxDone s)))
  | Leave, Serving => if ctxDone s || stopClosed s then Some (Ret (goto (Returned None) s)) else None
  | Stop, _ => Some (stop s)
  | Cancel, _ => Some (Ret (mkState (at_pc s) (ready s) (stopOnce s) (stopClosed s) true))
  | _, _ => None
  end.

(** Past the wait for the caches. *)
Definition past_sync (s : state) : bool :=
  match at_pc s with Serving | Returned None => true | _ => false end.

Record ok (s : state) : Prop := {
  ok_ready : ready s = true -> past_sync s = true;
  ok_stop : stopOnce s = stopClosed s;
}.

Lemma k8s_exec_ok l s r : ok s -> exec l s = Some r -> exists s', r = Ret s' /\ ok s'.
Proof.
  intros [A B]. destruct s as [p rd o cl cx]. unfold exec, stop, goto, past_sync in *. cbn in *.
  destruct l, p; intros E; repeat case_match; simplify_eq/=; eexists; (split; [done|]); split; cbn; try done;
    intros; by apply A.
Qed.

(** How many steps [Run] needs at most until it has returned, once it is told to. *)
Definition to_go (s : state) : nat :=
  match at_pc s with Idle => 4 | Syncing => 3 | Synced => 2 | Serving => 1 | Returned _ => 0 end.

(** The next step of [Run]; the informers answer the wait for their caches, at the
    latest when the context ends. *)
Definition next (s : state) : option label :=
  match at_pc s with
  | Idle | Returned _ => None
  | Syncing => Some (CacheSync [])
  | Synced => Some SetReady
  | Serving => Some Leave
  end.

(** The Kubernetes monitor's life.  In every interleaving of [Run] with any
    number of calls of [Stop] and the end of the context, nothing panics,
    [Ready] implies that every informer had synced and no set-up step failed,
    and a second [Stop] changes nothing; once the context has ended or [Stop]
    was called, [Run] is never stuck: each of its steps can be taken and brings
    it nearer to its return. *)
Theorem monitor_life ls r :
  run_labels exec ls new = Some r ->
  exists s, r = Ret s /\ (ready s = true -> past_sync s = true) /\
    (forall s', stop s = Ret s' -> stop s' = Ret s') /\ stop s <> Panic /\
    (ctxDone s = true \/ stopOnce s = true -> forall l, next s = Some l ->
       exists s', exec l s = Some (Ret s') /\ (to_go s' < to_go s)%nat).
Proof.
  intros E. destruct (run_labels_ind exec ok k8s_exec_ok ls new r) as (s & -> & [A B]); [by split|exact E|].
  exists s. split; [done|]. split; [exact A|]. unfold stop. split; [|split].
  - destruct s as [p rd o cl cx]. cbn. intros s'. destruct o; [by intros [= <-]|]. destruct cl; [done|]. by intros [= <-].
  - destruct s as [p rd o cl cx]. cbn in *. subst o. by destruct cl.
  - intros Ht l Hn. destruct s as [p rd o cl cx]. cbn in *. subst o. unfold next, exec, to_go in *. cbn in *.
    destruct p; simplify_eq; cbn; try (eexists; split; [done|cbn; lia]).
    assert (cx || cl = true) as -> by (destruct Ht as [-> | ->]; [done|by rewrite orb_true_r]).
    eexists. split; [done|cbn; lia].
Qed.

(** [Ready] outlives the monitor: the end of the context alone leaves it set after
    [Run] has returned, and a [Stop] that comes before [Run] is ready is undone
    by [setReady(true)]. *)
Lemma ready_outlives_run :
  (exists s, run_labels exec [Run (mkSetup None None None); CacheSync []; SetReady; Cancel; Leave] new = Some (Ret s) /\
     at_pc s = Returned None /\ ready s = true) /\
  (exists s, run_labels exec [Run (mkSetup None None None); CacheSync []; Stop; SetReady; Leave] new = Some (Ret s) /\
     at_pc s = Returned None /\ stopOnce s = true /\ ready s = true).
Proof. split; eexists; by split_and!. Qed.

Lemma monitor_life_witness :
  exists s, run_labels exec [Run (mkSetup None None None); CacheSync [("*v1.Pod", true)]; SetReady; Stop; Stop] new
    = Some (Ret s) /\ ready s = false /\ exists s', exec Leave s = Some (Ret s').
Proof.
  destruct (monitor_life [Run (mkSetup None None None); CacheSync [("*v1.Pod", true)]; SetReady; Stop; Stop]
    (Ret (mkState Serving false true true false)) ltac:(by vm_compute)) as (s & E & _ & _ & _ & Hgo).
  injection E as <-. eexists. split; [by vm_compute|]. split; [done|].
  destruct (Hgo (or_intror eq_refl) Leave eq_refl) as (s' & Hs & _). exists s'. exact Hs.
Defined.

End K8s.

(** * The OTLP receiver *)

Module OTel.

Section otel.
(** The default server configuration of the collector's confighttp: what the code
    does not set of it, and whether TLS is on. *)
Context {Rest : Type}.

Record httpServer := mkHttpServer { hs_Endpoint : string; hs_TLS : bool; hs_rest : Rest }.

Context (NewDefaultServerConfig : httpServer).

Record otlpConfig := mkOtlpConfig {
  oc_GRPC : option (string * string);                                  (* address, transport *)
  oc_HTTP : option (httpServer * string * string * string);            (* server, paths *)
}.

Definition buildOTLPConfig (c : OTelReceiverConfig) : otlpConfig :=
  mkOtlpConfig
    (if ep_Enabled (rc_GRPC c) then Some (ep_Endpoint (rc_GRPC c), "tcp") else None)
    (if ep_Enabled (rc_HTTP c)
     then Some (mkHttpServer (ep_Endpoint (rc_HTTP c)) false (hs_rest NewDefaultServerConfig),
                "/v1/traces", "/v1/metrics", "/v1/logs")
     else None).

(** The collector: [Validate] refuses a configuration without protocols. *)
Context (Validate : otlpConfig -> option string).
Context (cfg : OTelReceiverConfig).

Inductive pc := Idle | Starting | Started | Serving | Returned (err : option string).

(** [receiver] says that [logsReceiver] is not nil; [starts] and [shutdowns] count
    the calls of its [Start] and [Shutdown]. *)
Record state := mkState {
  at_pc : pc;
  ready : bool;
  stopOnce : bool;
  receiver : bool;
  starts : nat;
  shutdowns : nat;
  ctxDone : bool;
}.

Definition new : state := mkState Idle false false false 0 0 false.

Inductive label :=
  | Run (consumer : option string) (create : result bool)
  | Start (answer : option string)
  | SetReady
  | Leave
  | Stop (answer : option string)
  | Cancel.

Definition goto (p : pc) (s : state) : state :=
  mkState p (ready s) (stopOnce s) (receiver s) (starts s) (shutdowns s) (ctxDone s).

(** [Run] up to the receiver's [Start]; [create] says whether a receiver came back. *)
Definition run_setup (consumer : option string) (create : result bool) (s : state) : state :=
  match Validate (buildOTLPConfig cfg) with
  | Some e => goto (Returned (Some ("invalid OTLP config: " +:+ e))) s
  | None =>
    match consumer with
    | Some e => goto (Returned (Some ("create logs consumer: " +:+ e))) s
    | None =>
      if ep_Enabled (rc_GRPC cfg) || ep_Enabled (rc_HTTP cfg) then
        match create with
        | Err e => goto (Returned (Some ("create logs receiver: " +:+ e))) s
        | Ok false => goto Started s
        | Ok true => mkState Starting (ready s) (stopOnce s) true (starts s) (shutdowns s) (ctxDone s)
        end
      else goto Started s
    end
  end.

Definition stop (s : state) : state :=
  if stopOnce s then s
  else mkState (at_pc s) false true (receiver s) (starts s)
         (if receiver s then S (shutdowns s) else shutdowns s) (ctxDone s).

Definition exec (l : label) (s : state) : option (outcome state) :=
  match l, at_pc s with
  | Run consumer create, Idle => Some (Ret (run_setup consumer create s))
  | Start answer, Starting =>
    Some (Ret (mkState (match answer with
                        | Some e => Returned (Some ("start logs receiver: " +:+ e))
                        | None => Started
                        end) (ready s) (stopOnce s) (receiver s) (S (starts s)) (shutdowns s) (ctxDone s)))
  | SetReady, Started =>
    Some (Ret (mkState Serving true (stopOnce s) (receiver s) (starts s) (shutdowns s) (ctxDone s)))
  | Leave, Serving => if ctxDone s then Some (Ret (goto (Returned None) s)) else None
  | Stop _, _ => Some (Ret (stop s))
  | Cancel, _ =>
    Some (Ret (mkState (at_pc s) (ready s) (stopOnce s) (receiver s) (starts s) (shutdowns s) true))
  | _, _ => None
  end.

(** What holds in each place. *)
Record ok (s : state) : Prop := {
  ok_idle : at_pc s = Idle -> receiver s = false /\ starts s = 0%nat;
  ok_starting : at_pc s = Starting -> receiver s = true /\ starts s = 0%nat;
  ok_starts : starts s = if receiver s then match at_pc s with Starting => 0%nat | _ => 1%nat end else 0%nat;
  ok_shutdowns : (shutdowns s <= 1)%nat /\ (stopOnce s = false -> shutdowns s = 0%nat) /\
    (receiver s = false -> shutdowns s = 0%nat);
  ok_ready : ready s = true -> at_pc s = Serving \/ at_pc s = Returned None;
  ok_valid : at_pc s = Starting \/ at_pc s = Started \/ at_pc s = Serving \/ at_pc s = Returned None ->
    Validate (buildOTLPConfig cfg) = None;
}.

Lemma otel_exec_ok l s r : ok s -> exec l s = Some r -> exists s', r = Ret s' /\ ok s'.
Proof.
  intros [A B C D F G]. destruct s as [p rd o rc st sd cx]. unfold exec, stop, run_setup, goto in *. cbn in *.
  destruct l, p; intros E; simplify_eq/=; try done.
  all: repeat case_match; simplify_eq/=; eexists; (split; [done|]); split; cbn; intros;
    repeat match goal with H : _ /\ _ |- _ => destruct H end; try naive_solver lia.
Qed.

(** The OTLP receiver's life.  In every interleaving of [Run], [Stop] and the end
    of the context nothing panics, the servers are started at most once and shut
    down at most once, [Ready] implies that the configuration was valid and that
    the servers, if the collector made any, were started, and a second [Stop]
    changes nothing.  A [Stop] shuts the servers down exactly when [Run] had
    already created them: one that comes earlier leaves them running, and no
    later [Stop] makes up for it. *)
Theorem receiver_life ls r :
  run_labels exec ls new = Some r ->
  exists s, r = Ret s /\ (starts s <= 1)%nat /\ (shutdowns s <= 1)%nat /\
    (ready s = true -> Validate (buildOTLPConfig cfg) = None /\ (receiver s = true -> starts s = 1%nat)) /\
    stop (stop s) = stop s /\
    (stopOnce s = false -> shutdowns (stop s) = if receiver s then 1%nat else 0%nat) /\
    (stopOnce s = true -> forall ls' s', run_labels exec ls' s = Some (Ret s') -> shutdowns s' = shutdowns s).
Proof.
  intros E. destruct (run_labels_ind exec ok otel_exec_ok ls new r) as (s & -> & HI); [|exact E|].
  { split; cbn; try done; [lia|]. intros Hd. destruct_or?; done. }
  exists s. split; [done|]. destruct HI as [A B C (D1 & D2 & D3) F G].
  split; [rewrite C; repeat case_match; lia|]. split; [exact D1|]. split; [|split; [|split]].
  - intros Hr. destruct (F Hr) as [Ep|Ep]; (split; [apply G; tauto|]); intros Hrc; by rewrite C, Hrc, Ep.
  - unfold stop. destruct (stopOnce s) eqn:Eo; [by rewrite Eo|done].
  - intros Eo. unfold stop. rewrite Eo. cbn. by rewrite (D2 Eo).
  - intros Eo ls' s' E'.
    destruct (run_labels_ind exec (fun s1 => stopOnce s1 = true /\ shutdowns s1 = shutdowns s)) with
      (ls := ls') (s := s) (r := Ret s' : outcome state) as (s1 & [= ->] & _ & H1); [|done|exact E'|exact H1].
    intros l s1 r1 [Ho Hs] E1. unfold exec, stop, run_setup, goto in E1.
    destruct l, (at_pc s1); simplify_eq/=; repeat case_match; simplify_eq/=; eexists; (split; [done|]); by split.
Qed.

End otel.

(** A [Stop] before the receiver exists: it is started afterwards. *)
Lemma receiver_life_witness :
  let cfg := mkReceiver true (mkEndpoint true "0.0.0.0:4317") (mkEndpoint false "") in
  let ex := exec (mkHttpServer "" false ()) (fun _ => None) cfg in
  exists s, run_labels ex [Stop None; Run None (Ok true); Start None; SetReady] new = Some (Ret s) /\
    starts s = 1%nat /\ shutdowns s = 0%nat /\
    exists s', run_labels ex [Stop None; Cancel; Leave; Stop None] s = Some (Ret s') /\ shutdowns s' = 0%nat.
Proof.
  intros cfg ex.
  destruct (receiver_life (mkHttpServer "" false ()) (fun _ => None) cfg
    [Stop None; Run None (Ok true); Start None; SetReady] (Ret (mkState Serving true true true 1 0 false))
    ltac:(by vm_compute)) as (s & E & _ & _ & _ & _ & _ & Hno).
  injection E as <-. eexists. split; [by vm_compute|]. split; [done|]. split; [done|].
  eexists. split; [by vm_compute|]. apply (Hno eq_refl [Stop None; Cancel; Leave; Stop None]). by vm_compute.
Defined.

End OTel.

(** * The health server *)

Module HTTP.

(** [Run] of the server: not called, in its select, in [Shutdown], returned.  The
    goroutine of [ListenAndServe] is not started, serves or has ended; [errCh]
    has room for one error. *)
Inductive pc := Idle | Selecting | Stopping | Returned (err : option string).
Inductive listener := NotStarted | Listening | Ended.

Record state := mkState {
  at_pc : pc;
  at_listener : listener;
  errCh : option string;
  ctxDone : bool;
}.

Definition new : state := mkState Idle NotStarted None false.

(** What [ListenAndServe] returns: nil, [http.ErrServerClosed], any other error. *)
Inductive listened := Nil | ServerClosed | Failed (e : string).

Inductive label :=
  | Run
  | ListenEnds (err : listened)
  | TakeDone
  | TakeError
  | ShutdownEnds (err : option string)
  | Cancel.

Definition goto (p : pc) (s : state) : state := mkState p (at_listener s) (errCh s) (ctxDone s).

(** The goroutine's last step: [errCh <- err] would wait while the channel is full. *)
Definition listen_ends (err : listened) (s : state) : option state :=
  match err, errCh s with
  | Failed e, None => Some (mkState (at_pc s) Ended (Some e) (ctxDone s))
  | Failed e, Some _ => None
  | _, _ => Some (mkState (at_pc s) Ended (errCh s) (ctxDone s))
  end.

Definition exec (l : label) (s : state) : option (outcome state) :=
  match l, at_pc s, at_listener s with
  | Run, Idle, _ => Some (Ret (mkState Selecting Listening (errCh s) (ctxDone s)))
  | ListenEnds err, _, Listening => Ret <$> listen_ends err s
  | TakeDone, Selecting, _ => if ctxDone s then Some (Ret (goto Stopping s)) else None
  | TakeError, Selecting, _ =>
    match errCh s with
    | Some e => Some (Ret (mkState (Returned (Some e)) (at_listener s) None (ctxDone s)))
    | None => None
    end
  | ShutdownEnds err, Stopping, _ => Some (Ret (goto (Returned err) s))
  | Cancel, _, _ => Some (Ret (mkState (at_pc s) (at_listener s) (errCh s) true))
  | _, _, _ => None
  end.

Record ok (s : state) : Prop := {
  ok_room : errCh s <> None -> at_listener s = Ended;
  ok_idle : at_pc s = Idle <-> at_listener s = NotStarted;
  ok_stopping : at_pc s = Stopping \/ at_pc s = Returned None -> ctxDone s = true;
  ok_returned : forall e, at_pc s = Returned (Some e) -> ctxDone s = true \/ at_listener s = Ended;
}.

Lemma http_exec_ok l s r : ok s -> exec l s = Some r -> exists s', r = Ret s' /\ ok s'.
Proof.
  intros [A B C D] E. destruct s as [p li ch cx]. unfold exec, listen_ends, goto in E. cbn in *.
  destruct l, p, li; simplify_eq/=; repeat case_match; simplify_eq/=; try done;
    eexists; (split; [done|]); split; cbn; intros; try done; intuition congruence.
Qed.

(** The health server's life.  Nothing panics; the goroutine of ListenAndServe never
    waits to report its error; once the context is done, or the listener has
    failed, Run has a step to take until it returns, and it returns nil only
    after the context was done. *)
Lemma server_life ls r :
  run_labels exec ls new = Some r ->
  exists s, r = Ret s /\
    (forall err, at_listener s = Listening -> is_Some (exec (ListenEnds err) s)) /\
    (at_pc s = Returned None -> ctxDone s = true) /\
    (at_pc s <> Idle -> ctxDone s = true \/ errCh s <> None ->
      (exists e, at_pc s = Returned e) \/ exists l, (l = TakeDone \/ l = TakeError \/ l = ShutdownEnds None) /\ is_Some (exec l s)).
Proof.
  intros E. destruct (run_labels_ind exec ok http_exec_ok ls new r) as (s & -> & HI); [|exact E|].
  { split; cbn; try done. by intros [|]. }
  exists s. split; [done|]. destruct HI as [A B C D]. split; [|split].
  - intros err Hl. unfold exec, listen_ends. rewrite Hl. destruct (errCh s) eqn:Ec; [|by destruct (at_pc s), err].
    specialize (A ltac:(done)). congruence.
  - intros Hr. apply C. by right.
  - intros Hi Hd. destruct (at_pc s) eqn:Ep; [done|..].
    + right. destruct Hd as [Hd|Hd].
      * exists TakeDone. split; [by left|]. unfold exec. by rewrite Ep, Hd.
      * exists TakeError. split; [by right; left|]. unfold exec. rewrite Ep. by destruct (errCh s).
    + right. exists (ShutdownEnds None). split; [by right; right|]. unfold exec. by rewrite Ep.
    + left. by eexists.
Qed.
End HTTP.
