(* ===== verification/Health.v ===== *)
(** The health server (internal/health/health.go): named liveness and readiness
    checks, and the answer of a probe. *)

From S2P Require Import Prelude.

Section health.
(** What the checks look at. *)
Context {St : Type}.

(** A check returns its error, if any. *)
Abbreviation Checker := (St -> option string).

Record Server := mkServer {
  livenessChecks : gmap string Checker;
  readinessChecks : gmap string Checker;
}.

Definition NewServer : Server := mkServer ∅ ∅.

Definition AddLivenessCheck (name : string) (check : Checker) (s : Server) : Server :=
  mkServer (<[name := check]> (livenessChecks s)) (readinessChecks s).

Definition AddReadinessCheck (name : string) (check : Checker) (s : Server) : Server :=
  mkServer (livenessChecks s) (<[name := check]> (readinessChecks s)).

(** The answer: the status code, and the two fields of the body. *)
Record response := mkResponse {
  code : Z;
  body_Status : string;
  body_Checks : gmap string string;
}.

Definition StatusOK : Z := 200.
Definition StatusServiceUnavailable : Z := 503.

(** The loop over the copied checks in some order: the results so far, and
    whether all of them passed. *)
Definition check_loop (st : St) (order : list (string * Checker)) : gmap string string * bool :=
  foldl (fun '(results, allHealthy) '(name, check) =>
    match check st with
    | Some err => (<[name := err]> results, false)
    | None => (<[name := "ok"]> results, allHealthy)
    end) (∅, true) order.

Definition runChecks (st : St) (order : list (string * Checker)) : response :=
  let '(results, allHealthy) := check_loop st order in
  let results := match order with [] => <["default" := "ok"]> results | _ => results end in
  if allHealthy then mkResponse StatusOK "ok" results
  else mkResponse StatusServiceUnavailable "unhealthy" results.

(** The handlers of the two paths; [order] enumerates the copy of the checks. *)
Definition probe (checks : gmap string Checker) (st : St) (r : response) : Prop :=
  exists order, order ≡ₚ map_to_list checks /\ r = runChecks st order.

Definition handleHealthz (s : Server) : St -> response -> Prop := probe (livenessChecks s).
Definition handleReadyz (s : Server) : St -> response -> Prop := probe (readinessChecks s).

(** * What a probe answers *)

Definition verdict (st : St) (check : Checker) : string := default "ok" (check st).

Lemma check_loop_spec st order results healthy :
  NoDup order.*1 ->
  foldl (fun '(results, allHealthy) '(name, check) =>
    match check st with
    | Some err => (<[name := err]> results, false)
    | None => (<[name := "ok"]> results, allHealthy)
    end) (results, healthy) order =
  ((verdict st <$> (list_to_map order : gmap string Checker)) ∪ results,
   healthy && forallb (fun nc => bool_decide (nc.2 st = None)) order).
Proof.
  revert results healthy. induction order as [|[name check] order IH]; intros results healthy Hnd.
  - cbn [foldl forallb]. by rewrite list_to_map_nil, fmap_empty, map_empty_union, andb_true_r.
  - rewrite fmap_cons, NoDup_cons in Hnd. destruct Hnd as [Hn Hnd]. cbn [fst] in Hn. cbn [foldl forallb fst snd].
    assert (forall v, (verdict st <$> (list_to_map order : gmap string Checker)) ∪ <[name := v]> results =
       <[name := v]> (verdict st <$> list_to_map order) ∪ results) as Hins.
    { intros v. rewrite <- insert_union_r; [by rewrite insert_union_l|].
      rewrite lookup_fmap. by rewrite (not_elem_of_list_to_map_1 order name Hn). }
    rewrite list_to_map_cons, fmap_insert.
    assert (verdict st check = default "ok" (check st)) as -> by done.
    destruct (check st) as [err|]; rewrite IH, Hins by done.
    + rewrite bool_decide_false by done. cbn [andb default]. by rewrite andb_false_r.
    + by rewrite bool_decide_true.
Qed.

(** A probe answers 200 exactly when every registered check passes, and 503
    otherwise; whatever the order in which the map of checks is visited, the
    body names every check with "ok" or its error, and an endpoint without
    checks is healthy under the name "default". *)
Theorem probe_correct s st r :
  handleReadyz s st r ->
  (code r = StatusOK <-> map_Forall (fun _ check => check st = None) (readinessChecks s)) /\
  (code r = StatusServiceUnavailable <-> ~ map_Forall (fun _ check => check st = None) (readinessChecks s)) /\
  (code r = StatusOK <-> body_Status r = "ok") /\
  body_Checks r =
    if decide (readinessChecks s = ∅) then {[ "default" := "ok" ]}
    else verdict st <$> readinessChecks s.
Proof.
  intros (order & Ho & ->).
  assert (NoDup order.*1) as Hnd by (rewrite Ho; apply NoDup_fst_map_to_list).
  assert (list_to_map order = readinessChecks s) as Hm.
  { rewrite (list_to_map_proper _ _ Hnd Ho). apply list_to_map_to_list. }
  unfold runChecks, check_loop. rewrite check_loop_spec, Hm, map_union_empty by done. cbn [andb].
  assert (forallb (fun nc : string * Checker => bool_decide (nc.2 st = None)) order = true <->
    map_Forall (fun _ check => check st = None) (readinessChecks s)) as Hall.
  { rewrite forallb_forall, map_Forall_to_list, <- Ho, Forall_forall. split.
    - intros Hf [n check] Hx. apply list_elem_of_In, Hf, bool_decide_eq_true in Hx. done.
    - intros Hf x Hx. apply bool_decide_eq_true. apply list_elem_of_In, Hf in Hx. by destruct x. }
  assert (order = [] <-> readinessChecks s = ∅) as He.
  { rewrite <- map_to_list_empty_iff. split; [intros ->; by apply Permutation_nil_l in Ho|].
    intros E. rewrite E in Ho. by apply Permutation_nil_r in Ho. }
  rewrite <- Hall.
  destruct order as [|x order].
  - rewrite (proj1 He eq_refl), decide_True by done. rewrite fmap_empty. cbn. by split_and!.
  - rewrite decide_False by (intros E; apply He in E; done).
    destruct (forallb _ _); cbn; split_and!; try done; naive_solver.
Qed.

End health.

Lemma probe_correct_witness :
  let s := AddReadinessCheck "operator" (fun ready : bool => if ready then None else Some "pipeline not ready")
             NewServer in
  code (runChecks false (map_to_list (readinessChecks s))) = StatusServiceUnavailable.
Proof.
  intros s. apply (probe_correct s false (runChecks false (map_to_list (readinessChecks s)))).
  - by exists (map_to_list (readinessChecks s)).
  - intros Hall. by specialize (Hall "operator" _ eq_refl).
Defined.
Arguments Server St : clear implicits.
