(* ===== verification/Pipeline.v ===== *)
(** The pipeline (internal/pipeline/pipeline.go, cmd/operator/main.go): how the
    layers are wired, the readiness of the operator, and the life cycle of the
    goroutines - start, late start of the monitors, shutdown - as a transition
    system. *)

From S2P Require Import Prelude Types Policy Owner Remediation Config Monitor Health.

(** * Wiring *)

Inductive InstanceRole := RoleStandalone | RoleLeader | RoleWorker.

#[export] Instance InstanceRole_eq_dec : EqDecision InstanceRole.
Proof. solve_decision. Defined.

(** [pipelineOpts]: the role, and which of the two task components is injected. *)
Record pipelineOpts := mkOpts {
  po_role : InstanceRole;
  po_taskPublisher : bool;
  po_taskWorker : bool;
}.

(** [config.RemediationConfig] as the controller reads it. *)
Definition remediation_config (r : Config.RemediationConfig) : Remediation.RemediationConfig :=
  mkRemediationConfig (Config.DefaultCooldown r) (Config.DefaultMaxRetries r) (Config.DryRun r) (Config.ActionTimeout r).

Definition force_dry_run (cfg : Config) : Config :=
  mkConfig (c_Operator cfg) (c_Kubernetes cfg) (c_OTel cfg) (c_Pipeline cfg) (c_Detection cfg)
    (set_DryRun (c_Remediation cfg)) (c_Cache cfg) (c_Metrics_Address cfg) (c_Health_Address cfg)
    (c_Resources cfg) (c_TaskQueue cfg).

Section wiring.
Context {W : Type} `{LabelEnv}.

(** What the cluster and the libraries answer while the pipeline is built: the
    creation of the CRD loader, the policies it lists, the creation of the
    expression evaluator and of the owner resolver. *)
Record surroundings := mkSurroundings {
  su_crdLoader : result ();
  su_policies : result (list ClusterRemediationPolicy);
  su_evaluator : result ();
  su_ownerResolver : result (OwnerResolver W);
}.

Record Pipeline := mkPipelineImpl {
  p_config : Config;
  p_role : InstanceRole;
  p_monitors : list Monitor;
  p_policyMgr : managerImpl;
  p_crdLoad : bool;
  p_taskWorker : bool;
  p_executor : bool;
  p_remediator : controllerConfig (W := W);
}.

Definition New (su : surroundings) (cfg : Config) (po : pipelineOpts) : result Pipeline :=
  match BuildFromConfig cfg with
  | Err e => Err ("failed to build monitors: " +:+ e)
  | Ok monitors =>
    let crdLoad := k8s_Enabled (c_Kubernetes cfg) && is_ok (su_crdLoader su) in
    match su_evaluator su with
    | Err e => Err ("failed to create detection engine: failed to create CEL evaluator: " +:+ e)
    | Ok _ =>
      let policyMgr := if crdLoad then (LoadPolicies (su_policies su) NewManager).1 else NewManager in
      let cfg := if IsDryRun policyMgr then force_dry_run cfg else cfg in
      let checker := if decide (0 < PolicyCount policyMgr)%nat then Some (manager_checker policyMgr) else None in
      let resolver :=
        if k8s_Enabled (c_Kubernetes cfg) then
          match su_ownerResolver su with Ok r => Some r | Err _ => None end
        else None in
      Ok (mkPipelineImpl cfg (po_role po) monitors policyMgr crdLoad (po_taskWorker po)
            (negb (po_taskPublisher po))
            (mkControllerConfig (remediation_config (c_Remediation cfg)) (po_taskPublisher po) resolver checker))
    end
  end.

End wiring.

(** * Readiness *)

(** The ready flags of the components; [None] where there is none. *)
Record flags := mkFlagsOf {
  f_monitors : list bool;
  f_detector : bool;
  f_remediator : bool;
  f_taskWorker : option bool;
}.

Definition Ready (monitorsStarted : bool) (f : flags) : bool :=
  (if monitorsStarted then forallb id (f_monitors f) else true) &&
  f_detector f && f_remediator f &&
  match f_taskWorker f with Some r => r | None => true end.

Definition Healthy : bool := true.

(** What the probes of the process look at: the task worker's flag, if there is
    one, and the pipeline, if it has been created. *)
Record process := mkProcess {
  pr_worker : option bool;
  pr_pipeline : option (bool * flags);
}.

Definition operator_check (p : process) : option string :=
  match pr_worker p with
  | Some ready =>
    if negb ready then Some "task worker not ready"
    else match pr_pipeline p with
         | Some (started, f) => if negb (Ready started f) then Some "pipeline not ready" else None
         | None => None
         end
  | None =>
    match pr_pipeline p with
    | None => Some "pipeline not ready"
    | Some (started, f) => if negb (Ready started f) then Some "pipeline not ready" else None
    end
  end.

Definition process_check (p : process) : option string :=
  match pr_pipeline p with
  | Some _ => if negb Healthy then Some "pipeline not healthy" else None
  | None => None
  end.

(** The health server of [main]. *)
Definition operator_server : Server process :=
  AddLivenessCheck "process" process_check (AddReadinessCheck "operator" operator_check NewServer).
