(* ===== verification/PipelineProps.v ===== *)
(** The properties of the wired pipeline: what the policies found at start-up do
    to the remediation controller, and what the probes of the process report. *)

From S2P Require Import Prelude Types Policy Owner Remediation RemediationProps Config Monitor Health Pipeline.

Section wiring.
Context {W : Type} `{LabelEnv}.
Implicit Types su : surroundings (W := W).

(** The policies a pipeline works with: those listed when it was built. *)
Definition policies_at_start su (cfg : Config) : list ClusterRemediationPolicy :=
  if k8s_Enabled (c_Kubernetes cfg) && is_ok (su_crdLoader su) then
    match su_policies su with Ok ps => ps | Err _ => [] end
  else [].

Lemma New_inv su cfg po p :
  New su cfg po = Ok p ->
  policies (p_policyMgr p) = policies_at_start su cfg /\
  BuildFromConfig cfg = Ok (p_monitors p) /\
  cc_publishes (p_remediator p) = po_taskPublisher po /\
  p_executor p = negb (po_taskPublisher po) /\
  cc_policyChecker (p_remediator p) =
    (if decide (policies_at_start su cfg = []) then None else Some (manager_checker (p_policyMgr p))) /\
  Remediation.DryRun (cc_config (p_remediator p)) =
    IsDryRun (p_policyMgr p) || Config.DryRun (c_Remediation cfg) /\
  Remediation.DefaultMaxRetries (cc_config (p_remediator p)) = Config.DefaultMaxRetries (c_Remediation cfg) /\
  Remediation.DefaultCooldown (cc_config (p_remediator p)) = Config.DefaultCooldown (c_Remediation cfg).
Proof.
  unfold New. destruct (BuildFromConfig cfg) as [ms|]; [|done].
  destruct (su_evaluator su) as [u|]; [|done]. intros [= <-]. cbn.
  set (mgr := if _ && _ then _ else _).
  assert (policies mgr = policies_at_start su cfg) as Hm.
  { subst mgr. unfold policies_at_start. destruct (_ && _); [|done]. by destruct (su_policies su). }
  unfold PolicyCount. rewrite Hm. split_and!; try done.
  - destruct (policies_at_start su cfg); simpl; repeat case_decide; try done; lia.
  - by destruct (IsDryRun mgr).
  - by destruct (IsDryRun mgr).
  - by destruct (IsDryRun mgr).
Qed.

Lemma IsDryRun_spec m :
  IsDryRun m = true <-> exists p, p ∈ policies m /\
    gc_Paused (p_GlobalConfig p) = false /\ gc_DryRun (p_GlobalConfig p) = true.
Proof.
  unfold IsDryRun. rewrite <- Exists_exists. induction (policies m) as [|p ps IH]; simpl.
  - by rewrite Exists_nil.
  - rewrite Exists_cons. destruct (gc_Paused _), (gc_DryRun _); simpl; naive_solver.
Qed.

Section runs.
Context (Execute : Z -> W -> ResourceReference -> ActionConfig -> W * result ActionResult).
Context (Publish : W -> DetectionResult -> ResourceReference -> W * result ()).
Context (clk : nat -> Z) (formatID : Z -> string).
Context `{Sort : !SliceSort ActionConfig ac_Order}.

(** A controller whose checker is paused never changes anything but its output. *)
Lemma paused_trace cc (pc : PolicyChecker) c ls c' :
  cc_policyChecker cc = Some pc -> pc_IsPaused pc = true ->
  rtrace Execute Publish clk formatID cc c ls c' -> world c' = world c.
Proof.
  intros Hpc Hp. induction 1 as [|c1 l c2 ls c3 Hs _ IH]; [done|]. rewrite IH.
  destruct Hs as [c res v c' HP|c order HP|c r ch Hr]; [|by apply Cleanup_spec|done].
  revert HP. unfold processResult, policy_skips. rewrite Hpc, Hp. by intros [= _ <-].
Qed.

(** C22: policies found at start-up stop a standalone operator.  When the policies
    listed while the pipeline is built are all paused (and there is one), or
    when one that is not paused asks for a dry run, no run of the wired
    controller - whatever results, cleanups and receives, in any order -
    changes the cluster; without policies only the configured dry-run flag
    decides. *)
Theorem policies_stop_standalone su cfg po p c ls c' :
  New su cfg po = Ok p -> po_taskPublisher po = false ->
  let ps := policies_at_start su cfg in
  (ps <> [] /\ Forall (fun p => gc_Paused (p_GlobalConfig p) = true) ps) \/
  (exists p, p ∈ ps /\ gc_Paused (p_GlobalConfig p) = false /\ gc_DryRun (p_GlobalConfig p) = true) \/
  Config.DryRun (c_Remediation cfg) = true ->
  rtrace Execute Publish clk formatID (p_remediator p) c ls c' ->
  world c' = world c.
Proof.
  intros HN Hpub ps Hstop Ht.
  destruct (New_inv su cfg po p HN) as (Hm & _ & Hp & _ & Hc & Hd & _). fold ps in Hm, Hc.
  destruct Hstop as [[Hne Hpa]|Hdry].
  - rewrite decide_False in Hc by done. eapply paused_trace; [exact Hc| |exact Ht].
    cbn. unfold IsPaused. rewrite Hm. rewrite (proj2 (nonempty_spec ps) Hne). by apply paused_loop_spec.
  - eapply dry_run_trace_world; [| |exact Ht]; [|congruence].
    rewrite Hd. apply orb_true_iff. destruct Hdry as [Hdry|]; [left|by right].
    apply IsDryRun_spec. by rewrite Hm.
Qed.
End runs.

(** What the pipeline is wired to do.  Building fails only when the expression
    evaluator cannot be made.  The monitors are those the configuration
    enables; a leader publishes and has no executor, a standalone operator the
    reverse; a policy checker is installed exactly when some policy was listed,
    and then it covers a resource as the policy manager does; retries and
    cooldown come from the configuration, dry run from it or from a policy. *)
Theorem New_wires su cfg po :
  (is_ok (New su cfg po) = is_ok (su_evaluator su)) /\
  forall p, New su cfg po = Ok p ->
    BuildFromConfig cfg = Ok (p_monitors p) /\
    cc_publishes (p_remediator p) = po_taskPublisher po /\ p_executor p = negb (po_taskPublisher po) /\
    (cc_policyChecker (p_remediator p) = None <-> policies_at_start su cfg = []) /\
    (forall pc r ls, cc_policyChecker (p_remediator p) = Some pc ->
       pc_IsResourceCovered pc r ls = IsResourceCovered r ls (mkManager (policies_at_start su cfg))) /\
    Remediation.DefaultMaxRetries (cc_config (p_remediator p)) = Config.DefaultMaxRetries (c_Remediation cfg) /\
    Remediation.DefaultCooldown (cc_config (p_remediator p)) = Config.DefaultCooldown (c_Remediation cfg) /\
    (Remediation.DryRun (cc_config (p_remediator p)) = true <->
       Config.DryRun (c_Remediation cfg) = true \/
       exists q, q ∈ policies_at_start su cfg /\ gc_Paused (p_GlobalConfig q) = false /\
         gc_DryRun (p_GlobalConfig q) = true).
Proof.
  split.
  - unfold New, BuildFromConfig, defaultFactories. cbn [buildMonitors].
    destruct (k8s_Enabled _), (rc_Enabled _), (su_evaluator su); done.
  - intros p HN. destruct (New_inv su cfg po p HN) as (Hm & Hb & Hp & Hx & Hc & Hd & Hr & Hcd).
    split_and!; try done.
    + rewrite Hc. case_decide; naive_solver.
    + intros pc r ls. rewrite Hc. case_decide; [done|]. intros [= <-]. cbn.
      rewrite <- Hm. by destruct (p_policyMgr p).
    + rewrite Hd, orb_true_iff, IsDryRun_spec, Hm. naive_solver.
Qed.

End wiring.

(** * The probes *)

(** The readiness endpoint of the process.  It answers 200 exactly when, with a
    task worker, the worker is ready and so is the pipeline if there is one,
    and without a task worker there is a pipeline and it is ready; a pipeline
    is ready when its engine, its controller, its worker if it has one and,
    once started, all its monitors are.  The liveness endpoint always answers
    200. *)
Theorem readyz_correct (pr : process) r :
  handleReadyz operator_server pr r ->
  (code r = StatusOK <->
    match pr_worker pr with
    | Some ready => ready = true /\ forall started f, pr_pipeline pr = Some (started, f) -> Ready started f = true
    | None => exists started f, pr_pipeline pr = Some (started, f) /\ Ready started f = true
    end) /\
  (forall started f, Ready started f = true <->
     f_detector f = true /\ f_remediator f = true /\ f_taskWorker f <> Some false /\
     (started = true -> Forall (fun b => b = true) (f_monitors f))) /\
  (forall r', handleHealthz operator_server pr r' -> code r' = StatusOK).
Proof.
  intros (order & Ho & ->). 
  unfold operator_server, AddLivenessCheck, AddReadinessCheck, NewServer in *. cbn [readinessChecks livenessChecks] in *.
  rewrite insert_empty, map_to_list_singleton in Ho. apply Permutation_singleton_r in Ho as ->.
  split; [|split].
  - unfold runChecks, check_loop. cbn [foldl]. unfold operator_check.
    destruct (pr_worker pr) as [[|]|], (pr_pipeline pr) as [[started f]|]; cbn;
      try (destruct (Ready started f) eqn:E; cbn); try naive_solver;
      (split; [done|]); first [intros (? & ? & ? & ?)|intros [_ Hf]; pose proof (Hf _ _ eq_refl)]; congruence.
  - intros started f. unfold Ready. rewrite !andb_true_iff.
    assert (forallb id (f_monitors f) = true <-> Forall (fun b => b = true) (f_monitors f)) as Hf.
    { rewrite forallb_forall, Forall_forall. setoid_rewrite list_elem_of_In. done. }
    destruct started, (f_taskWorker f) as [[|]|]; rewrite ?Hf; naive_solver.
  - intros r' (order & Ho & ->). unfold operator_server in Ho. cbn in Ho.
    rewrite insert_empty, map_to_list_singleton in Ho. apply Permutation_singleton_r in Ho as ->.
    unfold runChecks, check_loop. cbn [foldl]. unfold process_check. by destruct (pr_pipeline pr).
Qed.

(** * Witnesses *)

#[local] Instance demo_labels : LabelEnv := {|
  LabelSelector := (); Selector := (); LabelSelectorAsSelector s := Ok s; Selector_Matches _ _ := true;
|}.
#[local] Instance demo_sort : SliceSort ActionConfig ac_Order := insertion_SliceSort ac_Order.

Definition demo_policy (paused dry : bool) : ClusterRemediationPolicy :=
  mkPolicy (mkTarget [] [] None []) [] (mkGlobal dry paused).
Definition demo_su (ps : list ClusterRemediationPolicy) : surroundings (W := nat) :=
  mkSurroundings (Ok ()) (Ok ps) (Ok ()) (Err "no cluster").
Definition demo_standalone : pipelineOpts := mkOpts RoleStandalone false false.
Definition demo_Execute (_ : Z) (w : nat) (r : ResourceReference) (ac : ActionConfig) : nat * result ActionResult :=
  (S w, Err "refused").
Definition demo_Publish (w : nat) (_ : DetectionResult) (_ : ResourceReference) : nat * result () := (S w, Ok ()).
Definition demo_res : DetectionResult :=
  mkDetectionResult "det" "S1" "oom" (mkRef "v1" "Pod" "prod" "web" "u") SeverityHigh 0 0 1 true "m"
    [mkAction "restartPod" 1 ∅].

Lemma policies_stop_standalone_witness :
  match New (demo_su [demo_policy true false; demo_policy false true]) Default demo_standalone with
  | Ok p =>
    let r := processResult demo_Execute demo_Publish (fun n => Z.of_nat n * Hour) (fun _ => "id") (p_remediator p)
               demo_res (newControllerImpl 4 0%nat) in
    r.1 = Attempted /\ world r.2 = 0%nat
  | Err _ => False
  end.
Proof.
  destruct (New (demo_su [demo_policy true false; demo_policy false true]) Default demo_standalone) as [p|] eqn:E;
    [|discriminate E].
  cbv zeta. set (r := processResult _ _ _ _ _ _ _).
  assert (r.1 = Attempted) as Hv by (subst r; injection E as <-; by vm_compute).
  split; [exact Hv|].
  apply (policies_stop_standalone demo_Execute demo_Publish (fun n => Z.of_nat n * Hour) (fun _ => "id")
    (demo_su [demo_policy true false; demo_policy false true]) Default demo_standalone p (newControllerImpl 4 0%nat)
    [RProcess demo_res Attempted] r.2).
  - exact E.
  - done.
  - right; left. exists (demo_policy false true). split_and!; try done. vm_compute. right. left.
  - eapply rtrace_cons; [|apply rtrace_nil]. constructor. rewrite <- Hv. apply surjective_pairing.
Defined.

Lemma readyz_correct_witness :
  let pr := mkProcess (Some true) (Some (true, mkFlagsOf [true; false] true true (Some true))) in
  code (runChecks pr [("operator", operator_check)]) <> StatusOK.
Proof.
  intros pr H.
  destruct (readyz_correct pr (runChecks pr [("operator", operator_check)])) as [[H1 _] _].
  - exists [("operator", operator_check)]. by vm_compute.
  - destruct (H1 H) as [_ H2]. specialize (H2 _ _ eq_refl). discriminate H2.
Defined.
