(* ===== verification/LifeCycle.v ===== *)
(** The life cycle of the pipeline (internal/pipeline/pipeline.go): the goroutine
    of [Run], the loops of the detection engine and the remediation controller,
    the scenario watcher, the monitors and [Shutdown], as an executable
    transition system.  The buffered channels are counted, what travels through
    them is left to the other files.  A layer that works on a message may send
    here at any time, whether or not the data would make it: there are more runs
    than the program has, so what holds of all of them holds of the program;
    what can happen is shown in [System], where a send takes its data. *)

From S2P Require Import Prelude Config Monitor.

(** Where the goroutine of [Run] is: before it starts, polling the detector, past
    the poll, blocked until the context ends, returned. *)
Inductive run_pc := RNew | RWaiting | RReady | RRunning | RReturned.

(** A receive loop: not entered yet, in its [select], working on a message
    (with sends to come), returned. *)
Inductive loop_pc := NotEntered | Selecting | Busy | Exited.

(** [Shutdown]: not called, then the steps of the [stopOnce] body; [SWait] is
    the final wait for the goroutines. *)
Inductive shutdown_pc := SIdle | SMonitors | SStopMonitors | SDetector | SRemediator | SClose | SWait.

#[export] Instance run_pc_eq_dec : EqDecision run_pc.
Proof. solve_decision. Defined.
#[export] Instance loop_pc_eq_dec : EqDecision loop_pc.
Proof. solve_decision. Defined.
#[export] Instance shutdown_pc_eq_dec : EqDecision shutdown_pc.
Proof. solve_decision. Defined.

(** [starts] counts how often the monitors were started, [gaveUp] records that
    [Run] stopped polling after 30 seconds, [scenarios] is
    [GetLoadedScenarios()].  The two flags [..Delivers] say that an informer or
    a receiver may still call its handler. *)
Record life := mkLife {
  ctxDone : bool;
  run : run_pc;
  gaveUp : bool;
  monitorsStarted : bool;
  starts : nat;
  watcher : bool;
  k8sDelivers : bool;
  otelDelivers : bool;
  det : loop_pc;
  det_stop : bool;
  det_ready : bool;
  scenarios : nat;
  rem : loop_pc;
  rem_stop : bool;
  inputs : nat;
  results : nat;
  stage : shutdown_pc;
  closed : bool;
  panicked : bool;
}.

Definition set_ctxDone (v : bool) (s : life) : life :=
  mkLife v (run s) (gaveUp s) (monitorsStarted s) (starts s) (watcher s) (k8sDelivers s)
    (otelDelivers s) (det s) (det_stop s) (det_ready s) (scenarios s) (rem s) (rem_stop s)
    (inputs s) (results s) (stage s) (closed s) (panicked s).
Definition set_run (v : run_pc) (s : life) : life :=
  mkLife (ctxDone s) v (gaveUp s) (monitorsStarted s) (starts s) (watcher s) (k8sDelivers s)
    (otelDelivers s) (det s) (det_stop s) (det_ready s) (scenarios s) (rem s) (rem_stop s)
    (inputs s) (results s) (stage s) (closed s) (panicked s).
Definition set_gaveUp (v : bool) (s : life) : life :=
  mkLife (ctxDone s) (run s) v (monitorsStarted s) (starts s) (watcher s) (k8sDelivers s)
    (otelDelivers s) (det s) (det_stop s) (det_ready s) (scenarios s) (rem s) (rem_stop s)
    (inputs s) (results s) (stage s) (closed s) (panicked s).
Definition set_monitorsStarted (v : bool) (s : life) : life :=
  mkLife (ctxDone s) (run s) (gaveUp s) v (starts s) (watcher s) (k8sDelivers s) (otelDelivers s)
    (det s) (det_stop s) (det_ready s) (scenarios s) (rem s) (rem_stop s) (inputs s) (results s)
    (stage s) (closed s) (panicked s).
Definition set_starts (v : nat) (s : life) : life :=
  mkLife (ctxDone s) (run s) (gaveUp s) (monitorsStarted s) v (watcher s) (k8sDelivers s)
    (otelDelivers s) (det s) (det_stop s) (det_ready s) (scenarios s) (rem s) (rem_stop s)
    (inputs s) (results s) (stage s) (closed s) (panicked s).
Definition set_watcher (v : bool) (s : life) : life :=
  mkLife (ctxDone s) (run s) (gaveUp s) (monitorsStarted s) (starts s) v (k8sDelivers s)
    (otelDelivers s) (det s) (det_stop s) (det_ready s) (scenarios s) (rem s) (rem_stop s)
    (inputs s) (results s) (stage s) (closed s) (panicked s).
Definition set_k8sDelivers (v : bool) (s : life) : life :=
  mkLife (ctxDone s) (run s) (gaveUp s) (monitorsStarted s) (starts s) (watcher s) v
    (otelDelivers s) (det s) (det_stop s) (det_ready s) (scenarios s) (rem s) (rem_stop s)
    (inputs s) (results s) (stage s) (closed s) (panicked s).
Definition set_otelDelivers (v : bool) (s : life) : life :=
  mkLife (ctxDone s) (run s) (gaveUp s) (monitorsStarted s) (starts s) (watcher s) (k8sDelivers s) v
    (det s) (det_stop s) (det_ready s) (scenarios s) (rem s) (rem_stop s) (inputs s) (results s)
    (stage s) (closed s) (panicked s).
Definition set_det (v : loop_pc) (s : life) : life :=
  mkLife (ctxDone s) (run s) (gaveUp s) (monitorsStarted s) (starts s) (watcher s) (k8sDelivers s)
    (otelDelivers s) v (det_stop s) (det_ready s) (scenarios s) (rem s) (rem_stop s) (inputs s)
    (results s) (stage s) (closed s) (panicked s).
Definition set_det_stop (v : bool) (s : life) : life :=
  mkLife (ctxDone s) (run s) (gaveUp s) (monitorsStarted s) (starts s) (watcher s) (k8sDelivers s)
    (otelDelivers s) (det s) v (det_ready s) (scenarios s) (rem s) (rem_stop s) (inputs s)
    (results s) (stage s) (closed s) (panicked s).
Definition set_det_ready (v : bool) (s : life) : life :=
  mkLife (ctxDone s) (run s) (gaveUp s) (monitorsStarted s) (starts s) (watcher s) (k8sDelivers s)
    (otelDelivers s) (det s) (det_stop s) v (scenarios s) (rem s) (rem_stop s) (inputs s)
    (results s) (stage s) (closed s) (panicked s).
Definition set_scenarios (v : nat) (s : life) : life :=
  mkLife (ctxDone s) (run s) (gaveUp s) (monitorsStarted s) (starts s) (watcher s) (k8sDelivers s)
    (otelDelivers s) (det s) (det_stop s) (det_ready s) v (rem s) (rem_stop s) (inputs s)
    (results s) (stage s) (closed s) (panicked s).
Definition set_rem (v : loop_pc) (s : life) : life :=
  mkLife (ctxDone s) (run s) (gaveUp s) (monitorsStarted s) (starts s) (watcher s) (k8sDelivers s)
    (otelDelivers s) (det s) (det_stop s) (det_ready s) (scenarios s) v (rem_stop s) (inputs s)
    (results s) (stage s) (closed s) (panicked s).
Definition set_rem_stop (v : bool) (s : life) : life :=
  mkLife (ctxDone s) (run s) (gaveUp s) (monitorsStarted s) (starts s) (watcher s) (k8sDelivers s)
    (otelDelivers s) (det s) (det_stop s) (det_ready s) (scenarios s) (rem s) v (inputs s)
    (results s) (stage s) (closed s) (panicked s).
Definition set_inputs (v : nat) (s : life) : life :=
  mkLife (ctxDone s) (run s) (gaveUp s) (monitorsStarted s) (starts s) (watcher s) (k8sDelivers s)
    (otelDelivers s) (det s) (det_stop s) (det_ready s) (scenarios s) (rem s) (rem_stop s) v
    (results s) (stage s) (closed s) (panicked s).
Definition set_results (v : nat) (s : life) : life :=
  mkLife (ctxDone s) (run s) (gaveUp s) (monitorsStarted s) (starts s) (watcher s) (k8sDelivers s)
    (otelDelivers s) (det s) (det_stop s) (det_ready s) (scenarios s) (rem s) (rem_stop s)
    (inputs s) v (stage s) (closed s) (panicked s).
Definition set_stage (v : shutdown_pc) (s : life) : life :=
  mkLife (ctxDone s) (run s) (gaveUp s) (monitorsStarted s) (starts s) (watcher s) (k8sDelivers s)
    (otelDelivers s) (det s) (det_stop s) (det_ready s) (scenarios s) (rem s) (rem_stop s)
    (inputs s) (results s) v (closed s) (panicked s).
Definition set_closed (v : bool) (s : life) : life :=
  mkLife (ctxDone s) (run s) (gaveUp s) (monitorsStarted s) (starts s) (watcher s) (k8sDelivers s)
    (otelDelivers s) (det s) (det_stop s) (det_ready s) (scenarios s) (rem s) (rem_stop s)
    (inputs s) (results s) (stage s) v (panicked s).
Definition set_panicked (v : bool) (s : life) : life :=
  mkLife (ctxDone s) (run s) (gaveUp s) (monitorsStarted s) (starts s) (watcher s) (k8sDelivers s)
    (otelDelivers s) (det s) (det_stop s) (det_ready s) (scenarios s) (rem s) (rem_stop s)
    (inputs s) (results s) (stage s) (closed s) v.

Section life.
(** The monitors that were built, and the capacities of the two channels. *)
Context (monitors : list Monitor) (inputCap resultCap : nat).
(** Whether a CRD loader exists, so that scenarios are watched. *)
Context (crdLoad : bool).

Definition initial : life :=
  mkLife false RNew false false 0 false false false NotEntered false false 0 NotEntered false 0 0
    SIdle false false.

Inductive label :=
  | LRun                    (* [Run] starts the goroutines of the two loops *)
  | LDetector (n : nat)     (* the engine loads [n] scenarios, becomes ready *)
  | LController             (* the controller becomes ready *)
  | LPoll                   (* [Run] sees the engine ready *)
  | LGiveUp                 (* 30 seconds have passed *)
  | LCancelled              (* the context ended while polling *)
  | LMonitors               (* [Run] starts the monitors, and the watcher *)
  | LReload (n : nat)       (* the watcher's callback loads [n] scenarios *)
  | LWatchEnd               (* the watcher returns *)
  | LRunEnd                 (* [Run] returns *)
  | LDeliver (m : Monitor)  (* a monitor's handler sends an input *)
  | LQuiet                  (* the informers notice the end of the context *)
  | LTake | LEmit | LDone | LExit      (* the engine's loop: a receive, a send, ... *)
  | LRTake | LREmit | LRDone | LRExit  (* the controller's loop *)
  | LCancel                 (* the context ends: the leader has lost its lease *)
  | LSignal                 (* [main] cancels the context and calls [Shutdown] *)
  | LShutdown (ok : bool).  (* the next step of [Shutdown] *)

(** The monitors start delivering; informers started after the end of the
    context never do. *)
Definition start_monitors (s : life) : life :=
  set_k8sDelivers (bool_decide (K8sMonitor ∈ monitors) && negb (ctxDone s))
    (set_otelDelivers (bool_decide (OTelReceiver ∈ monitors))
      (set_starts (S (starts s)) (set_monitorsStarted true s))).

(** A non-blocking send of the given kind: it panics on a closed channel, even
    when the select has a default. *)
Definition send_input (s : life) : life :=
  if closed s then set_panicked true s
  else if decide (inputs s < inputCap)%nat then set_inputs (S (inputs s)) s else s.

Definition send_result (s : life) : life :=
  if closed s then set_panicked true s
  else if decide (results s < resultCap)%nat then set_results (S (results s)) s else s.

(** Nothing reads the action results: only the panic matters. *)
Definition send_action (s : life) : life :=
  if closed s then set_panicked true s else s.

Definition delivers_now (m : Monitor) (s : life) : bool :=
  match m with K8sMonitor => k8sDelivers s | OTelReceiver => otelDelivers s end.

(** One step of [Shutdown].  Stopping the OTLP receiver shuts its servers down
    ([ok]) or fails, the Kubernetes monitor's [Stop] does not reach its
    informers. *)
Definition shutdown_step (ok : bool) (s : life) : option life :=
  match stage s with
  | SIdle | SWait => None
  | SMonitors => Some (set_stage (if monitorsStarted s then SStopMonitors else SDetector) s)
  | SStopMonitors =>
    Some (set_stage SDetector (if ok then set_otelDelivers false s else s))
  | SDetector => Some (set_stage SRemediator (set_det_stop true (set_det_ready false s)))
  | SRemediator => Some (set_stage SClose (set_rem_stop true s))
  | SClose => Some (set_stage SWait (if closed s then set_panicked true s else set_closed true s))
  end.

Definition when {A} (b : bool) (x : A) : option A := if b then Some x else None.

(** The step a label names, where it is possible. *)
Definition exec (l : label) (s : life) : option life :=
  if panicked s then None else
  match l with
  | LRun => when (bool_decide (run s = RNew)) (set_run RWaiting s)
  | LDetector n =>
    when (negb (bool_decide (run s = RNew)) && bool_decide (det s = NotEntered))
      (set_det Selecting (set_det_ready true (set_scenarios n s)))
  | LController =>
    when (negb (bool_decide (run s = RNew)) && bool_decide (rem s = NotEntered)) (set_rem Selecting s)
  | LPoll => when (bool_decide (run s = RWaiting) && det_ready s) (set_run RReady s)
  | LGiveUp => when (bool_decide (run s = RWaiting)) (set_gaveUp true (set_run RReady s))
  | LCancelled => when (bool_decide (run s = RWaiting) && ctxDone s) (set_run RReturned s)
  | LMonitors =>
    when (bool_decide (run s = RReady))
      (set_run RRunning (set_watcher crdLoad
        (if decide (scenarios s = 0)%nat then s else start_monitors s)))
  | LReload n =>
    when (watcher s)
      (let s := set_scenarios n s in
       if negb (monitorsStarted s) && bool_decide (0 < n)%nat then start_monitors s else s)
  | LWatchEnd => when (watcher s && ctxDone s) (set_watcher false s)
  | LRunEnd => when (bool_decide (run s = RRunning) && ctxDone s) (set_run RReturned s)
  | LDeliver m => when (delivers_now m s) (send_input s)
  | LQuiet => when (ctxDone s) (set_k8sDelivers false s)
  | LTake =>
    when (bool_decide (det s = Selecting) && bool_decide (0 < inputs s)%nat)
      (set_det Busy (set_inputs (pred (inputs s)) s))
  | LEmit => when (bool_decide (det s = Busy)) (send_result s)
  | LDone => when (bool_decide (det s = Busy)) (set_det Selecting s)
  | LExit =>
    when (bool_decide (det s = Selecting) &&
          (ctxDone s || det_stop s || (closed s && bool_decide (inputs s = 0)%nat))) (set_det Exited s)
  | LRTake =>
    when (bool_decide (rem s = Selecting) && bool_decide (0 < results s)%nat)
      (set_rem Busy (set_results (pred (results s)) s))
  | LREmit => when (bool_decide (rem s = Busy)) (send_action s)
  | LRDone => when (bool_decide (rem s = Busy)) (set_rem Selecting s)
  | LRExit =>
    when (bool_decide (rem s = Selecting) &&
          (ctxDone s || rem_stop s || (closed s && bool_decide (results s = 0)%nat))) (set_rem Exited s)
  | LCancel => Some (set_ctxDone true s)
  | LSignal => when (bool_decide (stage s = SIdle)) (set_stage SMonitors (set_ctxDone true s))
  | LShutdown ok => shutdown_step ok s
  end.

(** A schedule is a list of labels. *)
Fixpoint exec_all (ls : list label) (s : life) : option life :=
  match ls with
  | [] => Some s
  | l :: ls => match exec l s with Some s => exec_all ls s | None => None end
  end.

Definition reachable (s : life) : Prop := exists ls, exec_all ls initial = Some s.

(** * Invariants *)

Lemma exec_all_ind (P : life -> Prop) :
  (forall l s s', P s -> exec l s = Some s' -> P s') ->
  forall ls s s', P s -> exec_all ls s = Some s' -> P s'.
Proof.
  intros HP ls. induction ls as [|l ls IH]; intros s s' Hs; cbn [exec_all]; [by intros [= <-]|].
  destruct (exec l s) as [s1|] eqn:E; [|done]. intros H. eauto.
Qed.

Lemma reachable_ind (P : life -> Prop) :
  P initial -> (forall l s s', P s -> exec l s = Some s' -> P s') -> forall s, reachable s -> P s.
Proof. intros H0 HP s [ls E]. by eapply exec_all_ind. Qed.

(** Case analysis of a step: the guards become equations. *)
Ltac life_cases E :=
  unfold exec, when, shutdown_step, start_monitors, send_input, send_result, send_action in E;
  case_matches E; split_bools;
  try (injection E as <-); cbn.

(** The start of the monitors. *)
Record started_ok (s : life) : Prop := {
  so_starts : starts s = (if monitorsStarted s then 1 else 0)%nat;
  so_before : run s = RNew \/ run s = RWaiting \/ run s = RReady ->
              monitorsStarted s = false /\ watcher s = false;
  so_ready : det_ready s = true -> det s <> NotEntered;
  so_polled : run s = RReady \/ run s = RRunning -> gaveUp s = false -> det s <> NotEntered;
  so_late : run s = RRunning -> gaveUp s = false -> (0 < scenarios s)%nat -> monitorsStarted s = true;
}.

Lemma started_ok_initial : started_ok initial.
Proof. split; cbn; naive_solver lia. Qed.

Lemma started_ok_step l s s' : started_ok s -> exec l s = Some s' -> started_ok s'.
Proof.
  intros [A B C D F] E. destruct l; life_cases E; split; cbn; try (intros; try discriminate; intuition (lia || congruence));
    try (rewrite A; by destruct B as [-> _]; auto);
    rewrite A; repeat match goal with H : monitorsStarted _ = _ |- _ => cbn in H; rewrite H; clear H end; done.
Qed.

Lemma reachable_started s : reachable s -> started_ok s.
Proof. apply reachable_ind; [apply started_ok_initial|apply started_ok_step]. Qed.

(** The order of the shutdown. *)
Record closed_ok (s : life) : Prop := {
  co_ctx : stage s <> SIdle -> ctxDone s = true;
  co_det : stage s = SRemediator \/ stage s = SClose \/ stage s = SWait -> det_stop s = true;
  co_rem : stage s = SClose \/ stage s = SWait -> rem_stop s = true;
  co_closed : closed s = true <-> stage s = SWait;
  co_panic : panicked s = true -> closed s = true;
}.

Lemma closed_ok_initial : closed_ok initial.
Proof. split; cbn; naive_solver. Qed.

Lemma closed_ok_step l s s' : closed_ok s -> exec l s = Some s' -> closed_ok s'.
Proof.
  intros [A B C D F] E. destruct l; life_cases E; split; cbn;
    try (intros; try discriminate; intuition congruence).
Qed.

Lemma reachable_closed s : reachable s -> closed_ok s.
Proof. apply reachable_ind; [apply closed_ok_initial|apply closed_ok_step]. Qed.

(** The labels that are steps of the pipeline's own goroutines: they leave
    [Shutdown] where it is. *)
Definition own_label (l : label) : bool :=
  match l with LCancel | LSignal | LShutdown _ => false | _ => true end.

Lemma own_stage l s s' : own_label l = true -> exec l s = Some s' -> stage s' = stage s.
Proof. intros Ho E. destruct l; try done; life_cases E; done. Qed.

(** How many steps of [Shutdown] are left. *)
Definition stage_rank (st : shutdown_pc) : nat :=
  match st with
  | SIdle => 6 | SMonitors => 5 | SStopMonitors => 4 | SDetector => 3 | SRemediator => 2 | SClose => 1 | SWait => 0
  end.

Lemma shutdown_progress ok s :
  panicked s = false -> stage s <> SIdle -> stage s <> SWait ->
  exists s', exec (LShutdown ok) s = Some s' /\ (stage_rank (stage s') < stage_rank (stage s))%nat /\ stage s' <> SIdle.
Proof.
  intros HP H1 H2. unfold exec, shutdown_step. rewrite HP.
  destruct (stage s); try done; repeat case_match; eexists; (split; [done|]); split; cbn; try lia; done.
Qed.

Lemma signal_enabled s :
  panicked s = false -> stage s = SIdle -> exec LSignal s = Some (set_stage SMonitors (set_ctxDone true s)).
Proof. intros HP HS. unfold exec. by rewrite HP, HS. Qed.

(** * Properties *)

(** C11: the monitors are started at most once, by [Run] or by the scenario
    watcher, whichever comes first, however reloads, readiness and shutdown
    interleave; unless [Run] gave up polling the engine, they are running
    whenever it runs with scenarios loaded; and a reload that loads a scenario
    leaves them started. *)
Theorem monitors_start_once s :
  reachable s ->
  (starts s <= 1)%nat /\ (starts s = 1%nat <-> monitorsStarted s = true) /\
  (run s = RRunning -> gaveUp s = false -> (0 < scenarios s)%nat -> monitorsStarted s = true) /\
  (forall n s', (0 < n)%nat -> exec (LReload n) s = Some s' -> monitorsStarted s' = true).
Proof.
  intros HR. destruct (reachable_started s HR) as [A B C D F].
  split; [rewrite A; destruct (monitorsStarted s); lia|].
  split; [rewrite A; by destruct (monitorsStarted s)|]. split; [done|].
  intros n s' Hn E. life_cases E; [done|..]; cbn in *; [done|lia].
Qed.

(** The order of the shutdown.  In every interleaving the channels are closed
    once, as the last step of [Shutdown]: by then the context has ended and the
    engine and the controller have been told to stop.  Nothing panics before
    the channels are closed. *)
Theorem shutdown_order s :
  reachable s ->
  (closed s = true <-> stage s = SWait) /\
  (closed s = true -> ctxDone s = true /\ det_stop s = true /\ rem_stop s = true) /\
  (panicked s = true -> closed s = true) /\
  (forall ok s', stage s = SClose -> exec (LShutdown ok) s = Some s' -> panicked s' = false /\ closed s' = true).
Proof.
  intros HR. destruct (reachable_closed s HR) as [A B C D F].
  split; [done|]. split; [intros Hc; apply D in Hc; rewrite Hc in *; intuition congruence|]. split; [done|].
  intros ok s' Hst E. destruct (closed s) eqn:Hc; [apply proj1 in D; specialize (D eq_refl); congruence|].
  unfold exec, shutdown_step in E. rewrite Hst, Hc in E. destruct (panicked s) eqn:G; [done|].
  injection E as <-. done.
Qed.

(** Nothing is in flight: no loop is working on a message or has one waiting, no
    monitor delivers any more, and [Run] and the watcher have returned. *)
Record drained (s : life) : Prop := {
  dr_ctx : ctxDone s = true;
  dr_run : run s = RReturned;
  dr_watcher : watcher s = false;
  dr_k8s : k8sDelivers s = false;
  dr_otel : otelDelivers s = false;
  dr_det : det s <> Busy;
  dr_rem : rem s <> Busy;
  dr_inputs : inputs s = 0%nat;
  dr_results : results s = 0%nat;
  dr_stage : closed s = true -> stage s = SWait;
  dr_fine : panicked s = false;
}.

Lemma drained_step l s s' : drained s -> exec l s = Some s' -> drained s'.
Proof.
  intros [A B C D F G1' H1' I J K L] E.
  destruct l as [| | | | | | | | | |[|]| | | | | | | | | | | |];
    unfold delivers_now, exec at 1 in E; life_cases E; split; cbn in *;
    try (intros; try discriminate; intuition (lia || congruence)).
Qed.

(** C36: a drained pipeline shuts down safely.  Once nothing is in flight - no loop
    works on a message or has one waiting, no monitor delivers, [Run] and the
    watcher have returned - no continuation panics, whatever the scheduler
    does. *)
Theorem drained_shutdown_safe s ls s' :
  reachable s -> drained s -> exec_all ls s = Some s' -> panicked s' = false.
Proof.
  intros _ HD E. apply (dr_fine s').
  revert E. apply (exec_all_ind drained); [apply drained_step|done].
Qed.

(** The signal and all the steps of [Shutdown]. *)
Definition shutdown_labels (started : bool) : list label :=
  LSignal :: LShutdown true :: (if started then [LShutdown true] else []) ++
  [LShutdown true; LShutdown true; LShutdown true].

(** They can run while the engine works on an input, and close the channels
    under it. *)
Lemma shutdown_closes s :
  det s = Busy -> stage s = SIdle -> closed s = false -> panicked s = false ->
  exists s1, exec_all (shutdown_labels (monitorsStarted s)) s = Some s1 /\ closed s1 = true /\
    exists s2, exec LEmit s1 = Some s2 /\ panicked s2 = true.
Proof.
  destruct s. cbn. intros -> -> -> ->. destruct monitorsStarted0; vm_compute; eexists;
    (split; [reflexivity|]); (split; [reflexivity|]); eexists; split; reflexivity.
Qed.

Lemma exec_all_app l1 l2 s :
  exec_all (l1 ++ l2) s = match exec_all l1 s with Some x => exec_all l2 x | None => None end.
Proof.
  revert s. induction l1 as [|l l1 IH]; intros s; [done|]. cbn [app exec_all].
  destruct (exec l s); [apply IH|done].
Qed.

End life.

(** * Witnesses *)

Definition demo_all (ls : list label) (s : life) : option life := exec_all [K8sMonitor] 10 10 true ls s.
Definition demo_state (ls : list label) : life := default initial (demo_all ls initial).
Definition demo_running : list label := [LRun; LDetector 2; LController; LPoll; LMonitors].
Definition demo_stopping : list label := demo_running ++ [LSignal; LRunEnd; LWatchEnd; LQuiet].

Lemma monitors_start_once_witness :
  let s := demo_state [LRun; LDetector 0; LPoll; LMonitors; LReload 3; LReload 0; LReload 2] in
  (starts s <= 1)%nat /\ monitorsStarted s = true.
Proof.
  intros s. split; [|by vm_compute].
  apply (monitors_start_once [K8sMonitor] 10 10 true s).
  exists [LRun; LDetector 0; LPoll; LMonitors; LReload 3; LReload 0; LReload 2]. by vm_compute.
Defined.

(** When [Run] gives up polling before the engine has loaded its scenarios, the
    monitors stay off until the next change of a scenario library. *)
Example gave_up_idle :
  let s := demo_state [LRun; LGiveUp; LMonitors; LDetector 5] in
  run s = RRunning /\ scenarios s = 5%nat /\ monitorsStarted s = false.
Proof. by vm_compute. Qed.

Lemma shutdown_order_witness :
  let s := demo_state (demo_running ++ [LSignal; LShutdown true; LShutdown true; LShutdown true; LShutdown true;
                                        LShutdown true]) in
  closed s = true /\ det_stop s = true.
Proof.
  intros s.
  assert (reachable [K8sMonitor] 10 10 true s) as HR.
  { exists (demo_running ++ [LSignal; LShutdown true; LShutdown true; LShutdown true; LShutdown true; LShutdown true]).
    by vm_compute. }
  destruct (shutdown_order [K8sMonitor] 10 10 true s HR) as (_ & H & _).
  split; [by vm_compute|]. apply H. by vm_compute.
Defined.

Definition demo_rest : list label :=
  [LShutdown true; LExit; LShutdown true; LShutdown true; LShutdown true; LShutdown true; LRExit].

Lemma drained_shutdown_safe_witness :
  let s' := demo_state (demo_stopping ++ demo_rest) in
  demo_all demo_rest (demo_state demo_stopping) = Some s' /\ closed s' = true /\ panicked s' = false.
Proof.
  intros s'. split; [by vm_compute|]. split; [by vm_compute|].
  apply (drained_shutdown_safe [K8sMonitor] 10 10 true (demo_state demo_stopping) demo_rest s').
  - exists demo_stopping. by vm_compute.
  - split; vm_compute; congruence.
  - by vm_compute.
Defined.
