(* ===== verification/Startup.v ===== *)
(** The start of the process (cmd/operator/main.go, internal/config/config.go):
    loading the configuration, [--version] and [--print-config], the logger,
    the overrides and the validation, up to the point where the health server
    and the layers are started. *)

From S2P Require Import Prelude GoText GoNum Config.

(** * Text *)

Definition newline : string := String (Ascii.ascii_of_nat 10) "".

(** [strings.Split(s, ",")]: always at least one part. *)
Fixpoint split_commas (s : string) : list string :=
  match s with
  | EmptyString => [""]
  | String c s =>
    if byte_of c =? 44 then "" :: split_commas s
    else match split_commas s with
         | p :: ps => String c p :: ps
         | [] => [String c ""]
         end
  end.

Definition TrimSpace (s : string) : string := string_of (trim is_space (runes s)).

(** * The command line *)

(** [main]'s flags: those that override the configuration, [--version] and
    [--print-config]. *)
Record arguments := mkArguments {
  ar_commandLine : commandLine;
  ar_version : option bool;
  ar_printConfig : option string;
}.

(** What the YAML encoder is given: a configuration, flag overrides, or the
    value decoded from the user's file. *)
Inductive document (raw : Type) :=
  | DConfig (c : Config)
  | DFlags (f : FlagOverrides)
  | DRaw (r : raw).
Arguments DConfig {raw} c.
Arguments DFlags {raw} f.
Arguments DRaw {raw} r.

(** How far [main] gets: it exits, having written to standard output and
    standard error, or it goes on with a configuration. *)
Inductive start :=
  | Exits (code : Z) (stdout : list string) (stderr : list string)
  | Starts (cfg : Config).

Section startup.
(** The file system, the YAML library on a type of decoded values, the logger's
    level names and construction, and the verbs of the messages. *)
Context {raw : Type}.
Context (ReadFile : string -> result string).
Context (decode_config : string -> Config -> result Config) (decode_raw : string -> result raw).
Context (encode : document raw -> result string).
Context (parse_level : string -> option Z) (build_logger : Z -> result ()).
Context (fmt_v : Z -> string) (fmt_f : spec_float -> string) (fmt_q : string -> string).
Context (version gitCommit buildDate : string).

Definition Load (path : string) : result Config :=
  if decide (path = "") then Ok Default
  else data ← ReadFile path; decode_config data Default.

(** What a writer received, and the error that ended the writing. *)
Abbreviation written := (list string * option string)%type (only parsing).

Definition WriteYAMLTo (d : document raw) : written :=
  match encode d with Ok s => ([s], None) | Err e => ([], Some e) end.

Definition WriteUserConfigTo (path : string) : written :=
  if decide (path = "") then (["# no config file (defaults only)" +:+ newline], None)
  else match data ← ReadFile path; decode_raw data with
       | Ok r => WriteYAMLTo (DRaw r)
       | Err e => ([], Some e)
       end.

Definition printVersion : list string :=
  ["Self-Healing Operator" +:+ newline;
   "  Version:    " +:+ version +:+ newline;
   "  Git Commit: " +:+ gitCommit +:+ newline;
   "  Build Date: " +:+ buildDate +:+ newline].

Definition InfoLevel : Z := 0.

Definition initLogger (level : string) : result () :=
  build_logger (default InfoLevel (parse_level level)).

(** ** Printing the configuration *)

Definition header (mode : string) : string :=
  "---" +:+ newline +:+ "# ============ " +:+ mode +:+ " ============" +:+ newline.

(** A header, then the document; the message in front of an error. *)
Definition section (mode : string) (w : written) : written :=
  (header mode :: w.1, (fun e => "print-config " +:+ mode +:+ ": " +:+ e +:+ newline) <$> w.2).

Definition print_mode (opts : FlagOverrides) (mode : string) : written :=
  if decide (mode = "defaults") then section "defaults" (WriteYAMLTo (DConfig Default))
  else if decide (mode = "flags") then section "flags" (WriteYAMLTo (DFlags opts))
  else if decide (mode = "user") then section "user" (WriteUserConfigTo (fo_ConfigPath opts))
  else if decide (mode = "merged") then
    match Load (fo_ConfigPath opts) with
    | Err e => ([], Some ("print-config merged (load): " +:+ e +:+ newline))
    | Ok cfg => section "merged" (WriteYAMLTo (DConfig (ApplyFlagOverrides cfg opts)))
    end
  else if decide (mode = "") then ([], None)
  else ([], Some ("unknown print-config mode: " +:+ fmt_q mode +:+
                  " (use defaults,flags,user,merged)" +:+ newline)).

Fixpoint print_modes (opts : FlagOverrides) (modes : list string) (out : list string) : start :=
  match modes with
  | [] => Exits 0 out []
  | mode :: modes =>
    let '(text, err) := print_mode opts (TrimSpace mode) in
    match err with
    | Some e => Exits 1 (out ++ text) [e]
    | None => print_modes opts modes (out ++ text)
    end
  end.

(** ** [main] up to the validated configuration *)

(** The failures after the logger exists are logged, which is not modelled. *)
Definition main_start (args : arguments) : start :=
  let opts := flagOpts (ar_commandLine args) in
  if default false (ar_version args) then Exits 0 printVersion []
  else if decide (default "" (ar_printConfig args) = "") then
    match initLogger (fo_LogLevel opts) with
    | Err e => Exits 1 [] ["Failed to initialize logger: " +:+ e +:+ newline]
    | Ok _ =>
      match Load (fo_ConfigPath opts) with
      | Err _ => Exits 1 [] []
      | Ok cfg =>
        let cfg := ApplyFlagOverrides cfg opts in
        match Validate fmt_v fmt_f cfg with
        | Err _ => Exits 1 [] []
        | Ok _ => Starts cfg
        end
      end
    end
  else print_modes opts (split_commas (default "" (ar_printConfig args))) [].

(** * Properties *)

(** The sections printed before the first failing mode. *)
Lemma print_modes_spec opts modes out :
  exists code text errs, print_modes opts modes out = Exits code (out ++ text) errs /\
    (code = 0 \/ code = 1) /\
    (code = 0 <-> Forall (fun m => (print_mode opts (TrimSpace m)).2 = None) modes) /\
    (code = 0 -> text = concat ((fun m => (print_mode opts (TrimSpace m)).1) <$> modes)).
Proof.
  revert out. induction modes as [|m modes IH]; intros out; cbn [print_modes].
  { exists 0, [], []. rewrite app_nil_r. split_and!; try done. by left. }
  destruct (print_mode opts (TrimSpace m)) as [text [e|]] eqn:E.
  - exists 1, text, [e]. split_and!; [done|by right| |done].
    split; [done|]. intros HF. apply Forall_cons in HF as [HF _]. by rewrite E in HF.
  - destruct (IH (out ++ text)) as (code & text' & errs & Hp & Hc & Hz & Ht).
    exists code, (text ++ text'), errs. rewrite Hp, app_assoc. split_and!; [done..| |].
    + rewrite Forall_cons, E, <- Hz. tauto.
    + intros Hc0. rewrite fmap_cons. cbn [concat]. by rewrite E, Ht.
Qed.

Lemma main_start_inv args cfg :
  main_start args = Starts cfg <->
  default false (ar_version args) = false /\ default "" (ar_printConfig args) = "" /\
  let opts := flagOpts (ar_commandLine args) in
  initLogger (fo_LogLevel opts) = Ok () /\
  exists file, Load (fo_ConfigPath opts) = Ok file /\ cfg = ApplyFlagOverrides file opts /\
    Validate fmt_v fmt_f cfg = Ok ().
Proof.
  unfold main_start. destruct (default false (ar_version args)); [naive_solver|].
  case_decide as HP; [|split; [|naive_solver]]; cycle 1.
  { destruct (print_modes_spec (flagOpts (ar_commandLine args)) (split_commas (default "" (ar_printConfig args))) [])
      as (? & ? & ? & -> & _). done. }
  cbn zeta. destruct (initLogger _) as [[]|]; [|naive_solver].
  destruct (Load _) as [file|]; [|naive_solver].
  destruct (Validate _ _ _) as [[]|e] eqn:V; naive_solver congruence.
Qed.

(** What is in force before the flags: the built-in defaults, or the file decoded
    over them. *)
Definition configured (path : string) (file : Config) : Prop :=
  (path = "" /\ file = Default) \/
  (path <> "" /\ exists data, ReadFile path = Ok data /\ decode_config data Default = Ok file).

Lemma Load_configured path file : Load path = Ok file <-> configured path file.
Proof.
  unfold Load, configured. case_decide as D; [naive_solver|]. destruct (ReadFile path) as [data|e]; cbn; naive_solver.
Qed.

(** C34: what the process starts with.  [main] goes on past the start-up with a
    configuration exactly when neither [--version] nor [--print-config] is
    given, the logger can be built for the level (or for "info", if the level
    is unknown), and the configuration is that of the file - the built-in
    defaults without one - under the flags, and valid.  In every other case it
    exits: [--version] prints the version and exits with 0 whatever else is
    given, otherwise it exits with 0 only for [--print-config] and with 1 if
    that is missing.  [--print-config=merged] shows the configuration that the
    same command line starts with, and exits with 0 exactly when there is one
    that can be encoded - valid or not. *)
Theorem startup_correct args :
  let opts := flagOpts (ar_commandLine args) in
  let merged := main_start (mkArguments (ar_commandLine args) None (Some "merged")) in
  (forall cfg, main_start args = Starts cfg <->
     default false (ar_version args) = false /\ default "" (ar_printConfig args) = "" /\
     build_logger (default 0 (parse_level (fo_LogLevel opts))) = Ok () /\
     exists file, configured (fo_ConfigPath opts) file /\ cfg = ApplyFlagOverrides file opts /\
       Validate fmt_v fmt_f cfg = Ok ()) /\
  (ar_version args = Some true -> main_start args = Exits 0 printVersion []) /\
  (default false (ar_version args) = false ->
     (exists cfg, main_start args = Starts cfg) \/ default "" (ar_printConfig args) <> "" \/
     exists out err, main_start args = Exits 1 out err) /\
  (forall code out err, main_start args = Exits code out err -> code = 0 \/ code = 1) /\
  (forall cfg text, main_start args = Starts cfg -> encode (DConfig cfg) = Ok text ->
     merged = Exits 0 [header "merged"; text] []) /\
  ((exists out err, merged = Exits 0 out err) <->
   exists file text, configured (fo_ConfigPath opts) file /\
     encode (DConfig (ApplyFlagOverrides file opts)) = Ok text).
Proof.
  cbv zeta.
  assert (main_start (mkArguments (ar_commandLine args) None (Some "merged")) =
    print_modes (flagOpts (ar_commandLine args)) ["merged"] []) as Em by done.
  assert (TrimSpace "merged" = "merged") as Et by (by vm_compute).
  split_and!.
  - intros cfg. rewrite main_start_inv. cbv zeta. by setoid_rewrite Load_configured.
  - intros Hv. unfold main_start. by rewrite Hv.
  - intros Hv. unfold main_start. rewrite Hv. case_decide; [|by right; left]. cbn zeta.
    repeat case_match; eauto.
  - intros code out err. unfold main_start. destruct (default false (ar_version args)); [naive_solver|].
    case_decide.
    + cbn zeta. repeat case_match; naive_solver.
    + destruct (print_modes_spec (flagOpts (ar_commandLine args)) (split_commas (default "" (ar_printConfig args))) [])
        as (c & ? & ? & -> & Hc & _). naive_solver.
  - intros cfg text Hs He. apply main_start_inv in Hs as (_ & _ & _ & file & HL & -> & _).
    rewrite Em. cbn [print_modes]. rewrite Et. unfold print_mode.
    rewrite !decide_False, decide_True by done. rewrite HL. unfold section, WriteYAMLTo. by rewrite He.
  - rewrite Em. cbn [print_modes]. rewrite Et. unfold print_mode. rewrite !decide_False, decide_True by done.
    setoid_rewrite <- Load_configured. unfold section, WriteYAMLTo.
    destruct (Load _) as [file|e]; [|split; [intros (? & ? & [=])|intros (? & ? & [=] & _)]].
    destruct (encode _) as [text|e] eqn:He; cbn.
    + split; [eauto|]. intros _. by eexists _, _.
    + split; [intros (? & ? & [=])|]. intros (file' & text & [= <-] & He'). congruence.
Qed.

End startup.

(** * Witnesses *)

Definition demo_commandLine : commandLine := mkCommandLine None None None (Some true) None None None.

Definition demo_start (args : arguments) : start :=
  main_start (raw := unit) (fun _ => Err "no such file") (fun _ c => Ok c) (fun _ => Ok ()) (fun _ => Ok "text")
    (fun _ => None) (fun _ => Ok ()) (fun _ => "") (fun _ => "") id "dev" "unknown" "unknown" args.

Lemma startup_correct_witness :
  DryRun (c_Remediation (ApplyFlagOverrides Default (flagOpts demo_commandLine))) = true /\
  demo_start (mkArguments demo_commandLine None None) =
    Starts (ApplyFlagOverrides Default (flagOpts demo_commandLine)) /\
  demo_start (mkArguments demo_commandLine None (Some "merged")) = Exits 0 [header "merged"; "text"] [] /\
  demo_start (mkArguments demo_commandLine None (Some "flags, nonsense")) =
    Exits 1 [header "flags"; "text"]
      ["unknown print-config mode: nonsense (use defaults,flags,user,merged)" +:+ newline].
Proof.
  destruct (startup_correct (raw := unit) (fun _ => Err "no such file") (fun _ c => Ok c) (fun _ => Ok ())
    (fun _ => Ok "text") (fun _ => None) (fun _ => Ok ()) (fun _ => "") (fun _ => "") id "dev" "unknown" "unknown"
    (mkArguments demo_commandLine None None)) as (HS & _ & _ & _ & HM & _).
  assert (demo_start (mkArguments demo_commandLine None None) =
    Starts (ApplyFlagOverrides Default (flagOpts demo_commandLine))) as Hs.
  { apply HS. split; [done|]. split; [done|]. split; [done|]. exists Default. split; [by left|].
    split; [done|]. by vm_compute. }
  split; [by vm_compute|]. split; [exact Hs|]. split; [|by vm_compute].
  apply (HM _ "text" Hs). by vm_compute.
Defined.
