(* ===== verification/Process.v ===== *)
(** The process (cmd/operator/main.go) once its configuration is valid: the
    signals it catches, the goroutine of the leader election, the task worker
    that runs on every replica, and the goroutine that creates the pipeline,
    waits and shuts it down - an executable transition system around the one of
    [LifeCycle]. *)

From S2P Require Import Prelude Types Policy Owner Remediation Config Monitor Health Pipeline LifeCycle.

(** * State *)

(** The goroutine of [main]: building the clients; without leader election, in
    [runPipeline]; in [RunOrDie], trying to get the lease or holding it; in
    [OnStoppedLeading], before and after the label is removed. *)
Inductive elector_pc := EBoot | ENone | ECandidate | ELeading | EStopped | EUnlabelled.

(** The goroutine that runs the pipeline ([OnStartedLeading], or [main] itself):
    not started, adding the label, in [pipeline.New], in the [select] of
    [runPipeline], in [Shutdown], returned. *)
Inductive runner_pc := PIdle | PLabelling | PCreating | PSelecting | PStopping | PFinished.

#[export] Instance elector_pc_eq_dec : EqDecision elector_pc.
Proof. solve_decision. Defined.
#[export] Instance runner_pc_eq_dec : EqDecision runner_pc.
Proof. solve_decision. Defined.

Section process.
Context {W : Type} `{LabelEnv}.
Context (cfg : Config).

(** [signalChan] has room for one signal.  [taskWorker] is [taskWorkerRef] with
    its ready flag; it is run by [main] and, injected, by the pipeline. *)
Record proc := mkProc {
  signalChan : bool;
  cancelled : bool;
  elector : elector_pc;
  runner : runner_pc;
  pipelineRef : option (Pipeline (W := W) * life);
  stopFailed : bool;
  taskWorker : option bool;
  mainLoop : loop_pc;
  pipeLoop : loop_pc;
  podLabel : bool;
  exitCode : option Z;
}.

(** A restarted container finds its pod labelled as the last one left it. *)
Definition started (labelled : bool) : proc :=
  mkProc false false EBoot PIdle None false None NotEntered NotEntered labelled None.

Definition set_signalChan v s := mkProc v (cancelled s) (elector s) (runner s) (pipelineRef s)
  (stopFailed s) (taskWorker s) (mainLoop s) (pipeLoop s) (podLabel s) (exitCode s).
Definition set_cancelled v s := mkProc (signalChan s) v (elector s) (runner s) (pipelineRef s)
  (stopFailed s) (taskWorker s) (mainLoop s) (pipeLoop s) (podLabel s) (exitCode s).
Definition set_elector v s := mkProc (signalChan s) (cancelled s) v (runner s) (pipelineRef s)
  (stopFailed s) (taskWorker s) (mainLoop s) (pipeLoop s) (podLabel s) (exitCode s).
Definition set_runner v s := mkProc (signalChan s) (cancelled s) (elector s) v (pipelineRef s)
  (stopFailed s) (taskWorker s) (mainLoop s) (pipeLoop s) (podLabel s) (exitCode s).
Definition set_pipelineRef v s := mkProc (signalChan s) (cancelled s) (elector s) (runner s) v
  (stopFailed s) (taskWorker s) (mainLoop s) (pipeLoop s) (podLabel s) (exitCode s).
Definition set_stopFailed v s := mkProc (signalChan s) (cancelled s) (elector s) (runner s) (pipelineRef s)
  v (taskWorker s) (mainLoop s) (pipeLoop s) (podLabel s) (exitCode s).
Definition set_taskWorker v s := mkProc (signalChan s) (cancelled s) (elector s) (runner s) (pipelineRef s)
  (stopFailed s) v (mainLoop s) (pipeLoop s) (podLabel s) (exitCode s).
Definition set_mainLoop v s := mkProc (signalChan s) (cancelled s) (elector s) (runner s) (pipelineRef s)
  (stopFailed s) (taskWorker s) v (pipeLoop s) (podLabel s) (exitCode s).
Definition set_pipeLoop v s := mkProc (signalChan s) (cancelled s) (elector s) (runner s) (pipelineRef s)
  (stopFailed s) (taskWorker s) (mainLoop s) v (podLabel s) (exitCode s).
Definition set_podLabel v s := mkProc (signalChan s) (cancelled s) (elector s) (runner s) (pipelineRef s)
  (stopFailed s) (taskWorker s) (mainLoop s) (pipeLoop s) v (exitCode s).
Definition set_exitCode v s := mkProc (signalChan s) (cancelled s) (elector s) (runner s) (pipelineRef s)
  (stopFailed s) (taskWorker s) (mainLoop s) (pipeLoop s) (podLabel s) v.

Definition os_Exit (code : Z) (s : proc) : proc := set_exitCode (Some code) s.

(** A panic ends a Go process with code 2. *)
Definition go_panic : proc -> proc := os_Exit 2.

(** * Steps *)

Definition leaderElection : bool := le_Enabled (op_LeaderElection (c_Operator cfg)).

(** The options [main] passes to [pipeline.New]. *)
Definition pipeline_opts : pipelineOpts :=
  if leaderElection then mkOpts RoleLeader true true else mkOpts RoleStandalone false false.

(** What the clients answer while [main] sets up; [bo_accepted]: whether
    client-go accepts the timing of the lease, otherwise [RunOrDie] panics. *)
Record boot_answers := mkBoot {
  bo_leClient : result ();
  bo_dynClient : result ();
  bo_executor : result ();
  bo_accepted : bool;
  bo_labelled : bool;
}.

Definition boot (b : boot_answers) (s : proc) : proc :=
  if leaderElection then
    if negb (is_ok (bo_leClient b)) then os_Exit 1 s
    else if negb (is_ok (bo_dynClient b)) then os_Exit 1 s
    else if negb (is_ok (bo_executor b)) then os_Exit 1 s
    else
      let s := set_taskWorker (Some false) s in
      if bo_accepted b then set_elector ECandidate s else go_panic s
  else
    set_elector ENone (set_runner PCreating
      (if is_ok (bo_leClient b) && bo_labelled b then set_podLabel true s else s)).

(** The context of the pipeline: the root context, or the one client-go gives to
    [OnStartedLeading], which ends with the leadership. *)
Definition pipelineCtxDone (s : proc) : bool :=
  cancelled s || bool_decide (elector s = EStopped) || bool_decide (elector s = EUnlabelled).

Definition pipeline_exec (p : Pipeline (W := W)) : label -> life -> option life :=
  exec (p_monitors p) (Z.to_nat (DetectionInputBufferSize (c_Pipeline (p_config p))))
    (Z.to_nat (DetectionResultBufferSize (c_Pipeline (p_config p)))) (p_crdLoad p).

(** Storing a new state of the pipeline; a panic in one of its goroutines ends
    the process. *)
Definition set_life (p : Pipeline (W := W)) (lf : life) (s : proc) : proc :=
  let s := set_pipelineRef (Some (p, lf)) s in
  if panicked lf then go_panic s else s.

Definition created (su : surroundings (W := W)) (s : proc) : proc :=
  match New su cfg pipeline_opts with
  | Err _ => os_Exit 1 s
  | Ok p =>
    set_runner PSelecting
      (set_pipelineRef (Some (p, if pipelineCtxDone s then set_ctxDone true initial else initial)) s)
  end.

(** [cancel()], then [Shutdown] is called. *)
Definition begin_shutdown (s : proc) : option proc :=
  match pipelineRef s with
  | Some (p, lf) =>
    match pipeline_exec p LSignal lf with
    | Some lf => Some (set_runner PStopping (set_life p lf (set_cancelled true s)))
    | None => None
    end
  | None => None
  end.

(** A step of [Shutdown]; the task worker is stopped with the controller. *)
Definition shutdown_process (ok : bool) (s : proc) : option proc :=
  match pipelineRef s with
  | Some (p, lf) =>
    let s := if bool_decide (stage lf = SStopMonitors) && negb ok then set_stopFailed true s else s in
    let s := if bool_decide (stage lf = SRemediator) && p_taskWorker p
             then set_taskWorker (Some false) s else s in
    match pipeline_exec p (LShutdown ok) lf with
    | Some lf => Some (set_life p lf s)
    | None => None
    end
  | None => None
  end.

(** All goroutines of the pipeline have returned. *)
Definition wg_done (p : Pipeline (W := W)) (lf : life) (s : proc) : bool :=
  bool_decide (run lf = RNew) ||
  (bool_decide (det lf = Exited) && bool_decide (rem lf = Exited) && negb (watcher lf) &&
   (negb (p_taskWorker p) || bool_decide (pipeLoop s = Exited))).

(** [Shutdown] returns: all goroutines are done, or the timeout has passed.  Then
    [OnStartedLeading] or [main] returns, or the process exits with the error. *)
Definition shutdown_returned (timeout : bool) (s : proc) : option proc :=
  match pipelineRef s with
  | Some (p, lf) =>
    if bool_decide (stage lf = SWait) && (timeout || wg_done p lf s) then
      Some (if stopFailed s || timeout then os_Exit 1 s
            else if leaderElection then set_runner PFinished s
            else os_Exit 0 s)
    else None
  | None => None
  end.

(** [le.renew] or [le.acquire] has returned: client-go ends the leader's context
    and calls [OnStoppedLeading]. *)
Definition stop_leading (s : proc) : proc :=
  let s := set_elector EStopped s in
  match pipelineRef s with
  | Some (p, lf) => set_pipelineRef (Some (p, set_ctxDone true lf)) s
  | None => s
  end.

Inductive plabel :=
  | PSignal                          (* the system delivers SIGINT or SIGTERM *)
  | PBoot (b : boot_answers)
  | PWorkerRuns | PWorkerEnds        (* the task worker's loop that [main] started *)
  | PElected                         (* the lease is acquired: [OnStartedLeading] starts *)
  | PRenewEnds                       (* the lease is lost, or the root context ended *)
  | PAcquireEnds                     (* the root context ended before *)
  | PUnlabelled (ok : bool) | PStoppedExit
  | PLabelled (ok : bool)
  | PCreated (su : surroundings (W := W))
  | PTakeSignal | PRunReturned       (* the two cases of the [select] *)
  | PShutdown (ok : bool) | PShutdownReturns (timeout : bool)
  | PPipeline (l : label)            (* a goroutine of the pipeline *)
  | PPipeWorkerRuns | PPipeWorkerEnds.

Definition pexec (l : plabel) (s : proc) : option proc :=
  match exitCode s with Some _ => None | None =>
  match l with
  | PSignal => Some (set_signalChan true s)
  | PBoot b => when (bool_decide (elector s = EBoot)) (boot b s)
  | PWorkerRuns =>
    when (bool_decide (taskWorker s <> None) && bool_decide (mainLoop s = NotEntered))
      (set_mainLoop Selecting (set_taskWorker (Some true) s))
  | PWorkerEnds =>
    when (bool_decide (mainLoop s = Selecting) && cancelled s) (set_mainLoop Exited s)
  | PElected =>
    when (bool_decide (elector s = ECandidate) && negb (cancelled s))
      (set_elector ELeading (set_runner PLabelling s))
  | PRenewEnds => when (bool_decide (elector s = ELeading)) (stop_leading s)
  | PAcquireEnds => when (bool_decide (elector s = ECandidate) && cancelled s) (stop_leading s)
  | PUnlabelled ok =>
    when (bool_decide (elector s = EStopped))
      (set_elector EUnlabelled (if ok then set_podLabel false s else s))
  | PStoppedExit =>
    when (bool_decide (elector s = EUnlabelled)) (os_Exit 0 (set_cancelled true s))
  | PLabelled ok =>
    when (bool_decide (runner s = PLabelling))
      (set_runner PCreating (if ok && negb (pipelineCtxDone s) then set_podLabel true s else s))
  | PCreated su => when (bool_decide (runner s = PCreating)) (created su s)
  | PTakeSignal =>
    if bool_decide (runner s = PSelecting) && signalChan s then begin_shutdown (set_signalChan false s)
    else None
  | PRunReturned =>
    match pipelineRef s with
    | Some (_, lf) =>
      if bool_decide (runner s = PSelecting) && bool_decide (run lf = RReturned) then begin_shutdown s
      else None
    | None => None
    end
  | PShutdown ok => if decide (runner s = PStopping) then shutdown_process ok s else None
  | PShutdownReturns timeout =>
    if decide (runner s = PStopping) then shutdown_returned timeout s else None
  | PPipeline l =>
    match pipelineRef s with
    | Some (p, lf) =>
      if own_label l then
        match pipeline_exec p l lf with Some lf => Some (set_life p lf s) | None => None end
      else None
    | None => None
    end
  | PPipeWorkerRuns =>
    match pipelineRef s with
    | Some (p, lf) =>
      when (p_taskWorker p && negb (bool_decide (run lf = RNew)) && bool_decide (pipeLoop s = NotEntered))
        (set_pipeLoop Selecting (set_taskWorker (Some true) s))
    | None => None
    end
  | PPipeWorkerEnds =>
    when (bool_decide (pipeLoop s = Selecting) && pipelineCtxDone s) (set_pipeLoop Exited s)
  end end.

Fixpoint pexec_all (ls : list plabel) (s : proc) : option proc :=
  match ls with
  | [] => Some s
  | l :: ls => match pexec l s with Some s => pexec_all ls s | None => None end
  end.

Definition preachable (s : proc) : Prop := exists labelled ls, pexec_all ls (started labelled) = Some s.

End process.
