(* ===== verification/ProcessProps.v ===== *)
(** The properties of the process: where a pipeline runs, that a shutdown ends,
    what becomes of signals on replicas that do not lead, and of the label that
    routes telemetry to the leader. *)

From S2P Require Import Prelude Types Policy Owner Remediation Config Monitor Health Pipeline PipelineProps LifeCycle Process.

Section process.
Context {W : Type} `{LabelEnv}.
Context (cfg : Config).

Abbreviation proc := (proc (W := W)) (only parsing).
Abbreviation pexec := (pexec (W := W) cfg).
Abbreviation pexec_all := (pexec_all (W := W) cfg).
Abbreviation preachable := (preachable (W := W) cfg).
Abbreviation leaderElection := (leaderElection cfg).
Implicit Types s : proc.

(** * The steps *)

(** Case analysis of a step: the guards become equations. *)
Ltac proc_cases E :=
  unfold pexec, when, boot, begin_shutdown, shutdown_process, shutdown_returned, stop_leading, created,
    set_life, go_panic, os_Exit in E;
  repeat match type of E with
  | context [match ?x with _ => _ end] =>
    lazymatch x with
    | leaderElection => fail
    | _ => let G := fresh "G" in destruct x eqn:G; try discriminate E
    end
  end;
  repeat match goal with
  | H : _ && _ = true |- _ => apply andb_true_iff in H as [? ?]
  | H : negb _ = true |- _ => apply negb_true_iff in H
  | H : negb _ = false |- _ => apply negb_false_iff in H
  | H : bool_decide _ = true |- _ => apply bool_decide_eq_true in H
  | H : bool_decide _ = false |- _ => apply bool_decide_eq_false in H
  end;
  try (injection E as <-); cbn in *.

Lemma pexec_exit l s s' : pexec l s = Some s' -> exitCode s = None.
Proof. unfold Process.pexec. by destruct (exitCode s). Qed.

Lemma New_options su po (p : Pipeline (W := W)) :
  New su cfg po = Ok p ->
  p_role p = po_role po /\ p_taskWorker p = po_taskWorker po /\ p_executor p = negb (po_taskPublisher po) /\
  cc_publishes (p_remediator p) = po_taskPublisher po.
Proof.
  unfold New. destruct (BuildFromConfig cfg) as [ms|]; [|done].
  destruct (su_evaluator su); [|done]. intros [= <-]. done.
Qed.

(** * The invariant *)

(** The pipeline is the one the mode asks for. *)
Definition wired_for_mode (p : Pipeline (W := W)) : Prop :=
  p_role p = (if leaderElection then RoleLeader else RoleStandalone) /\
  p_taskWorker p = leaderElection /\ p_executor p = negb leaderElection /\
  cc_publishes (p_remediator p) = leaderElection.

(** A pipeline that exists, at a stage of [Shutdown] that satisfies [P]; it has
    not panicked unless the process is gone. *)
Definition has_pipeline (P : shutdown_pc -> Prop) s : Prop :=
  match pipelineRef s with
  | Some (p, lf) => wired_for_mode p /\ P (stage lf) /\ (exitCode s = None -> panicked lf = false)
  | None => False
  end.

(** The root context is cancelled exactly when [b], unless the process is gone. *)
Definition cancelled_is (b : bool) s : Prop := exitCode s = None -> cancelled s = b.

Definition runner_ok s : Prop :=
  match runner s with
  | PIdle => False
  | PLabelling | PCreating => pipelineRef s = None /\ cancelled_is false s
  | PSelecting => has_pipeline (eq SIdle) s /\ cancelled_is false s
  | PStopping => has_pipeline (fun st => st <> SIdle) s /\ cancelled_is true s
  | PFinished => has_pipeline (fun _ => True) s /\ cancelled_is true s /\ leaderElection = true
  end.

Definition idle s : Prop := runner s = PIdle /\ cancelled s = false /\ pipelineRef s = None.

Definition proc_ok s : Prop :=
  match elector s with
  | EBoot => idle s
  | ENone => leaderElection = false /\ runner_ok s
  | ECandidate => leaderElection = true /\ idle s
  | _ => leaderElection = true /\ runner_ok s
  end.

Lemma proc_ok_started b : proc_ok (started b).
Proof. done. Qed.

(** The invariant looks at six of the fields. *)
Lemma runner_ok_ext s s' :
  runner s' = runner s -> cancelled s' = cancelled s -> pipelineRef s' = pipelineRef s ->
  exitCode s' = exitCode s -> runner_ok s -> runner_ok s'.
Proof. unfold runner_ok, has_pipeline, cancelled_is. by intros -> -> -> ->. Qed.

Lemma proc_ok_ext s s' :
  elector s' = elector s -> runner s' = runner s -> cancelled s' = cancelled s ->
  pipelineRef s' = pipelineRef s -> exitCode s' = exitCode s -> proc_ok s -> proc_ok s'.
Proof.
  unfold proc_ok, idle. intros -> Hr Hc Hp He. rewrite Hr, Hc, Hp.
  destruct (elector s); intuition; by eapply runner_ok_ext.
Qed.

(** Where there is a pipeline, the runner is past its creation. *)
Lemma proc_ok_runner s : proc_ok s -> runner s <> PIdle -> runner_ok s.
Proof. unfold proc_ok, idle. destruct (elector s); intuition. Qed.

Lemma proc_ok_pipeline s p lf : proc_ok s -> pipelineRef s = Some (p, lf) -> runner_ok s.
Proof. unfold proc_ok, idle. destruct (elector s); intuition congruence. Qed.

(** Updates of runner, context, pipeline and exit code keep the elector's part. *)
Lemma proc_ok_update s s' :
  proc_ok s -> runner s <> PIdle -> elector s' = elector s -> runner_ok s' -> proc_ok s'.
Proof. unfold proc_ok, idle. intros HO Hr ->. destruct (elector s); intuition. Qed.

Lemma runner_ok_exit s c : runner_ok s -> runner_ok (os_Exit c s).
Proof.
  unfold runner_ok, has_pipeline, cancelled_is. cbn. destruct (runner s); try done;
    destruct (pipelineRef s) as [[p lf]|]; intuition discriminate.
Qed.

(** A step of the pipeline at the same stage, or a later one while stopping. *)
Lemma set_life_ok s p lf lf' :
  proc_ok s -> pipelineRef s = Some (p, lf) ->
  (stage lf' = stage lf \/ (runner s = PStopping /\ stage lf' <> SIdle)) -> 
  runner_ok (set_life p lf' s).
Proof.
  intros HO Hp Hst. pose proof (proc_ok_pipeline _ _ _ HO Hp) as HR.
  unfold runner_ok, has_pipeline, cancelled_is, set_life in *.
  destruct (panicked lf') eqn:HP; cbn; rewrite ?Hp in HR;
    destruct (runner s); destruct Hst as [Hst|[? ?]]; rewrite ?Hst; intuition (done || congruence).
Qed.

Lemma begin_shutdown_ok s s' :
  proc_ok s -> exitCode s = None -> runner s = PSelecting -> begin_shutdown s = Some s' -> proc_ok s'.
Proof.
  intros HO He Hr E. pose proof (proc_ok_runner s HO ltac:(by rewrite Hr)) as HR.
  unfold runner_ok, has_pipeline, begin_shutdown in *. rewrite Hr in HR.
  destruct (pipelineRef s) as [[p lf]|] eqn:Hp; [|done]. destruct HR as [(Hw & HS & HP) Hc].
  specialize (HP He). unfold pipeline_exec in E. rewrite signal_enabled in E by done. injection E as <-.
  eapply proc_ok_update; [done|by rewrite Hr|..]; unfold set_life; cbn; rewrite HP; [done|].
  unfold runner_ok, has_pipeline, cancelled_is. cbn. by split_and!.
Qed.



(** The end of the leadership ends the pipeline's context. *)
Lemma stop_leading_ok s :
  proc_ok s -> elector s = ECandidate \/ elector s = ELeading -> runner s <> PIdle -> proc_ok (stop_leading s).
Proof.
  intros HO He Hr. pose proof (proc_ok_runner s HO Hr) as HR.
  assert (leaderElection = true) as HL by (unfold proc_ok in HO; destruct He as [E|E]; rewrite E in HO; tauto).
  unfold stop_leading. cbn. destruct (pipelineRef s) as [[p lf]|] eqn:Hp; unfold proc_ok; cbn; (split; [done|]);
    revert HR; unfold runner_ok, has_pipeline, cancelled_is; cbn; rewrite ?Hp; destruct (runner s); naive_solver.
Qed.

Lemma created_ok su s :
  proc_ok s -> runner s = PCreating -> proc_ok (created cfg su s).
Proof.
  intros HO Hr. pose proof (proc_ok_runner s HO ltac:(by rewrite Hr)) as HR.
  unfold created. destruct (New su cfg _) as [p|e] eqn:HN.
  - eapply proc_ok_update; [done|by rewrite Hr|done|].
    apply New_options in HN as (H1 & H2 & H3 & H4).
    assert (wired_for_mode p) as Hw.
    { unfold wired_for_mode. rewrite H1, H2, H3, H4. unfold pipeline_opts. by destruct leaderElection. }
    unfold runner_ok in HR. rewrite Hr in HR.
    unfold runner_ok, has_pipeline, cancelled_is in *. cbn. destruct (pipelineCtxDone s); cbn; naive_solver.
  - eapply proc_ok_update; [done|by rewrite Hr|done|]. by apply runner_ok_exit.
Qed.

Lemma shutdown_process_ok ok s s' :
  proc_ok s -> exitCode s = None -> runner s = PStopping -> shutdown_process ok s = Some s' -> proc_ok s'.
Proof.
  intros HO He Hr E. pose proof (proc_ok_runner s HO ltac:(by rewrite Hr)) as HR.
  unfold runner_ok, has_pipeline, shutdown_process in *. rewrite Hr in HR.
  destruct (pipelineRef s) as [[p lf]|] eqn:Hp; [|done]. destruct HR as [(Hw & HS & HP) Hc].
  specialize (HP He).
  set (s1 := if _ && negb ok then _ else s) in E. set (s2 := if _ && p_taskWorker p then _ else s1) in E.
  assert (proc_ok s2 /\ pipelineRef s2 = Some (p, lf) /\ runner s2 = PStopping) as (HO2 & Hp2 & Hr2).
  { subst s2 s1. repeat case_match; split_and!; try done; by apply (proc_ok_ext s). }
  destruct (decide (stage lf = SWait)) as [HW|HW].
  { unfold pipeline_exec, exec, shutdown_step in E. by rewrite HP, HW in E. }
  unfold pipeline_exec in E.
  edestruct (shutdown_progress (p_monitors p) (Z.to_nat (DetectionInputBufferSize (c_Pipeline (p_config p))))
    (Z.to_nat (DetectionResultBufferSize (c_Pipeline (p_config p)))) (p_crdLoad p) ok lf) as (lf' & Ee & _ & Hn);
    [done..|]. rewrite Ee in E. injection E as <-.
  eapply proc_ok_update; [exact HO2|by rewrite Hr2| |].
  - unfold set_life, go_panic, os_Exit. by destruct (panicked lf').
  - eapply set_life_ok; [exact HO2|exact Hp2|]. by right.
Qed.

Lemma shutdown_returned_ok t s s' :
  proc_ok s -> runner s = PStopping -> shutdown_returned cfg t s = Some s' -> proc_ok s'.
Proof.
  intros HO Hr E. pose proof (proc_ok_runner s HO ltac:(by rewrite Hr)) as HR.
  unfold shutdown_returned in E. destruct (pipelineRef s) as [[p lf]|] eqn:Hp; [|done].
  destruct (_ && _); [|done]. injection E as <-.
  destruct (stopFailed s || t); [eapply proc_ok_update; [done|by rewrite Hr|done|by apply runner_ok_exit]|].
  destruct leaderElection eqn:HL.
  - eapply proc_ok_update; [done|by rewrite Hr|done|].
    revert HR. unfold runner_ok, has_pipeline, cancelled_is. rewrite Hr. cbn. rewrite Hp. tauto.
  - eapply proc_ok_update; [done|by rewrite Hr|done|by apply runner_ok_exit].
Qed.

Lemma proc_ok_step l s s' : proc_ok s -> pexec l s = Some s' -> proc_ok s'.
Proof.
  intros HO E. pose proof (pexec_exit _ _ _ E) as He.
  unfold Process.pexec in E. rewrite He in E. unfold when in E. destruct l.
  - injection E as <-. by apply (proc_ok_ext s).
  - case_bool_decide as Hb; [|done]. injection E as <-. unfold proc_ok, idle in HO. rewrite Hb in HO.
    destruct HO as (Hr & Hc & Hp). unfold boot.
    destruct leaderElection eqn:HL.
    + repeat case_match; unfold proc_ok, idle, go_panic, os_Exit; cbn; by rewrite ?Hb.
    + unfold proc_ok, runner_ok, cancelled_is. by destruct (is_ok _ && _).
  - case_match; [|done]. injection E as <-. by apply (proc_ok_ext s).
  - case_match; [|done]. injection E as <-. by apply (proc_ok_ext s).
  - destruct (bool_decide (elector s = ECandidate)) eqn:Hb; [|done]. apply bool_decide_eq_true in Hb.
    case_match; [|done]. injection E as <-. unfold proc_ok, idle in HO. rewrite Hb in HO.
    destruct HO as (HL & Hr & Hc & Hp). unfold proc_ok, runner_ok, cancelled_is. by cbn.
  - case_bool_decide as Hb; [|done]. injection E as <-. apply stop_leading_ok; [done|by right|].
    unfold proc_ok, runner_ok in HO. rewrite Hb in HO. intros Hr. rewrite Hr in HO. by destruct HO.
  - destruct (bool_decide (elector s = ECandidate)) eqn:Hb; [|done]. apply bool_decide_eq_true in Hb.
    unfold proc_ok, idle in HO. rewrite Hb in HO. destruct HO as (_ & _ & Hc & _). by rewrite Hc in E.
  - case_bool_decide as Hb; [|done]. injection E as <-. 
    unfold proc_ok in HO. rewrite Hb in HO. destruct HO as [HL HR]. unfold proc_ok. cbn. split; [done|].
    destruct ok; by eapply runner_ok_ext.
  - case_bool_decide as Hb; [|done]. injection E as <-.
    unfold proc_ok in HO. rewrite Hb in HO. destruct HO as [HL HR]. unfold proc_ok. cbn. rewrite Hb. split; [done|].
    revert HR. unfold runner_ok, has_pipeline, cancelled_is. cbn. destruct (runner s); try done; 
    destruct (pipelineRef s) as [[p lf]|]; intuition discriminate.
  - case_bool_decide as Hb; [|done]. injection E as <-. pose proof (proc_ok_runner s HO ltac:(by rewrite Hb)) as HR.
    set (ok' := ok && _). apply (proc_ok_update s); [done|by rewrite Hb|by destruct ok'|].
    unfold runner_ok, cancelled_is in *. rewrite Hb in HR. by destruct ok'.
  - case_bool_decide as Hb; [|done]. injection E as <-. by apply created_ok.
  - destruct (bool_decide (runner s = PSelecting)) eqn:Hb; [|done]. apply bool_decide_eq_true in Hb.
    case_match; [|done]. eapply (begin_shutdown_ok (set_signalChan false s)); [by apply (proc_ok_ext s)|done..].
  - destruct (pipelineRef s) as [[p lf]|]; [|done].
    destruct (bool_decide (runner s = PSelecting)) eqn:Hb; [|done]. apply bool_decide_eq_true in Hb.
    case_match; [|done]. by eapply (begin_shutdown_ok s).
  - case_decide; [|done]. by eapply shutdown_process_ok.
  - case_decide; [|done]. by eapply shutdown_returned_ok.
  - destruct (pipelineRef s) as [[p lf]|] eqn:Hp; [|done]. destruct (own_label l) eqn:Ho; [|done].
    destruct (pipeline_exec p l lf) as [lf'|] eqn:El; [|done]. injection E as <-.
    eapply proc_ok_update; [done| |by unfold set_life, go_panic, os_Exit; case_match|].
    + pose proof (proc_ok_pipeline _ _ _ HO Hp) as HR. unfold runner_ok in HR. intros Hr. by rewrite Hr in HR.
    + eapply set_life_ok; [done..|]. left. by eapply own_stage.
  - destruct (pipelineRef s) as [[p lf]|]; [|done]. case_match; [|done]. injection E as <-. by apply (proc_ok_ext s).
  - case_match; [|done]. injection E as <-. by apply (proc_ok_ext s).
Qed.

(** * Schedules *)

Lemma pexec_all_ind (P : proc -> Prop) :
  (forall l s s', P s -> pexec l s = Some s' -> P s') ->
  forall ls s s', P s -> pexec_all ls s = Some s' -> P s'.
Proof.
  intros HP ls. induction ls as [|l ls IH]; intros s s' Hs; cbn [Process.pexec_all]; [by intros [= <-]|].
  destruct (pexec l s) as [s1|] eqn:E; [|done]. intros H2. eauto.
Qed.

Lemma preachable_ok s : preachable s -> proc_ok s.
Proof.
  intros (b & ls & E). revert E. apply pexec_all_ind; [|done]. intros l s1 s2. apply proc_ok_step.
Qed.

(** How many labels of a schedule satisfy a test. *)
Definition count (f : plabel (W := W) -> bool) (ls : list (plabel (W := W))) : nat :=
  length (filter (fun l => f l = true) ls).

Lemma count_cons f l ls : count f (l :: ls) = ((if f l then 1 else 0) + count f ls)%nat.
Proof.
  unfold count. rewrite filter_cons. destruct (f l); [by rewrite decide_True|by rewrite decide_False].
Qed.

(** A rank that steps never raise, and that the counted steps lower, bounds how
    many of them a schedule has. *)
Lemma count_bounded (f : plabel (W := W) -> bool) (I : proc -> Prop) (rank : proc -> nat) :
  (forall l s s', I s -> pexec l s = Some s' -> I s' /\
     (exitCode s' = None -> (rank s' + (if f l then 1 else 0) <= rank s)%nat)) ->
  forall ls s s', I s -> pexec_all ls s = Some s' -> exitCode s' = None ->
    (count f ls + rank s' <= rank s)%nat.
Proof.
  intros Hstep ls. induction ls as [|l ls IH]; intros s s' HI; cbn [Process.pexec_all].
  { intros [= <-] _. unfold count. cbn. lia. }
  destruct (pexec l s) as [s1|] eqn:E; [|done]. intros E2 Hx. destruct (Hstep l s s1 HI E) as [HI1 Hr].
  rewrite count_cons. specialize (IH s1 s' HI1 E2 Hx).
  assert (exitCode s1 = None) as Hx1.
  { destruct ls as [|l2 ls2]; [by injection E2 as <-|]. cbn [Process.pexec_all] in E2.
    destruct (pexec l2 s1) eqn:E3; [|done]. by eapply pexec_exit. }
  specialize (Hr Hx1). lia.
Qed.

(** The select of [runPipeline] takes a signal: the context is cancelled. *)
Lemma take_signal s p lf :
  exitCode s = None -> runner s = PSelecting -> signalChan s = true -> pipelineRef s = Some (p, lf) ->
  stage lf = SIdle -> panicked lf = false ->
  pexec PTakeSignal s = Some (set_runner PStopping (set_pipelineRef (Some (p, set_stage SMonitors (set_ctxDone true lf)))
    (set_cancelled true (set_signalChan false s)))).
Proof.
  intros Hx Hr Hs Hp HS HP. unfold Process.pexec, begin_shutdown, pipeline_exec. rewrite Hx, Hr, Hs. cbn. rewrite Hp.
  rewrite signal_enabled by done. unfold set_life. cbn. by rewrite HP.
Qed.

(** ** What a step can change *)

(** Case analysis of a step on everything that guards it. *)
Ltac step_cases E :=
  unfold Process.pexec, when, boot, begin_shutdown, shutdown_process, shutdown_returned, stop_leading, created,
    set_life, go_panic, os_Exit in E;
  case_matches E;
  try (injection E as <-); cbn [elector runner cancelled pipelineRef exitCode podLabel signalChan].

Definition elector_label (l : plabel (W := W)) : bool :=
  match l with PBoot _ | PElected | PRenewEnds | PAcquireEnds | PUnlabelled _ => true | _ => false end.

Lemma elector_kept l s s' : elector_label l = false -> pexec l s = Some s' -> elector s' = elector s.
Proof. intros Hl E. destruct l; try discriminate Hl; clear Hl; step_cases E; reflexivity. Qed.

Lemma cancelled_kept l s s' : pexec l s = Some s' -> cancelled s = true -> cancelled s' = true.
Proof. intros E Hc. destruct l; step_cases E; first [exact Hc|reflexivity]. Qed.

Lemma signal_kept l s s' :
  l <> PTakeSignal -> pexec l s = Some s' -> signalChan s = true -> signalChan s' = true.
Proof. intros Hl E Hc. destruct l; try done; step_cases E; first [exact Hc|reflexivity]. Qed.

Lemma label_kept l s s' b :
  (forall ok, l <> PUnlabelled ok /\ l <> PLabelled ok) -> (forall bt, l <> PBoot bt) ->
  pexec l s = Some s' -> podLabel s = b -> podLabel s' = b.
Proof.
  intros Hl Hb E Hc. destruct l; try (by destruct (Hl ok)); try (by destruct (Hb b0)); step_cases E; exact Hc.
Qed.

(** * Where a pipeline runs *)

Definition runner_rank s : nat :=
  match runner s with PIdle | PLabelling | PCreating => 1 | _ => 0 end.

Definition creates (l : plabel (W := W)) : bool := match l with PCreated _ => true | _ => false end.

Lemma creates_once l s s' :
  proc_ok s -> pexec l s = Some s' ->
  exitCode s' = None -> (runner_rank s' + (if creates l then 1 else 0) <= runner_rank s)%nat.
Proof.
  intros HO E. unfold runner_rank.
  assert (elector s = ECandidate \/ elector s = EBoot -> runner s = PIdle) as Hid.
  { unfold proc_ok, idle in HO. intros [He|He]; rewrite He in HO; tauto. }
  destruct l; step_cases E; cbn;
    repeat match goal with
    | H : bool_decide _ && _ = true |- _ => apply andb_true_iff in H as [? ?]
    | H : bool_decide _ = true |- _ => apply bool_decide_eq_true in H
    end;
    repeat match goal with H : runner s = _ |- _ => rewrite H end;
    intros; try discriminate; try lia; try (destruct (runner s); lia); rewrite Hid by tauto; lia.
Qed.

(** C16: where detection runs.  Along every schedule of a replica it creates at most
    one pipeline, and it has one only without leader election or after it was
    elected.  The pipeline is wired for its role: a leader's publishes tasks and
    has no executor of its own, a standalone one executes.  A replica that has not
    been elected runs no pipeline and never cancels its context. *)
Theorem pipeline_only_where_elected labelled ls s :
  pexec_all ls (started labelled) = Some s ->
  (exitCode s = None -> (count creates ls <= 1)%nat) /\
  (forall p lf, pipelineRef s = Some (p, lf) ->
     elector s <> EBoot /\ elector s <> ECandidate /\ (elector s = ENone <-> leaderElection = false) /\
     p_role p = (if leaderElection then RoleLeader else RoleStandalone) /\
     p_executor p = negb leaderElection /\ cc_publishes (p_remediator p) = leaderElection) /\
  (elector s = ECandidate -> pipelineRef s = None /\ cancelled s = false).
Proof.
  intros E. assert (proc_ok s) as HO by (apply preachable_ok; by exists labelled, ls).
  split; [|split].
  - intros Hx. assert (count creates ls + runner_rank s <= runner_rank (started labelled))%nat as Hc.
    { eapply (count_bounded creates proc_ok runner_rank); [|apply proc_ok_started|exact E|exact Hx].
      intros l s1 s2 H1 E1. split; [by eapply proc_ok_step|]. by apply creates_once. }
    cbn in Hc. lia.
  - intros p lf Hp. pose proof (proc_ok_pipeline _ _ _ HO Hp) as HR.
    assert (wired_for_mode p) as (H1 & _ & H3 & H4).
    { unfold runner_ok, has_pipeline in HR. rewrite Hp in HR. destruct (runner s); naive_solver. }
    unfold proc_ok, idle in HO. destruct (elector s) eqn:Ee; split_and!; try done; try naive_solver congruence;
      destruct leaderElection; naive_solver.
  - intros He. unfold proc_ok, idle in HO. rewrite He in HO. naive_solver.
Qed.

(** * Shutdown ends *)

(** The goroutine of [main] once the context is cancelled: the election loop and
    [OnStoppedLeading], or [Shutdown]. *)
Definition main_label (l : plabel (W := W)) : bool :=
  match l with
  | PRenewEnds | PAcquireEnds | PUnlabelled _ | PStoppedExit => leaderElection
  | PShutdown _ | PShutdownReturns _ => negb leaderElection
  | _ => false
  end.

(** The steps it has left. *)
Definition steps_left s : nat :=
  if leaderElection then match elector s with EStopped => 2 | EUnlabelled => 1 | _ => 3 end
  else match pipelineRef s with Some (_, lf) => S (stage_rank (stage lf)) | None => 0 end.

Definition ending s : Prop := proc_ok s /\ cancelled s = true.

Lemma ending_leader l s s' :
  leaderElection = true -> ending s -> pexec l s = Some s' -> exitCode s' = None ->
  (steps_left s' + (if main_label l then 1 else 0) <= steps_left s)%nat.
Proof.
  intros HL [HO Hc] E Hx. pose proof (pexec_exit _ _ _ E) as He. unfold steps_left, main_label. rewrite HL.
  destruct (elector_label l) eqn:Hl.
  - unfold proc_ok, idle in HO. destruct l; try discriminate Hl; clear Hl; step_cases E; cbn in *;
      repeat match goal with
      | H : bool_decide _ && _ = true |- _ => apply andb_true_iff in H as [? ?]
      | H : bool_decide _ = true |- _ => apply bool_decide_eq_true in H
      end;
      repeat match goal with H : elector s = _ |- _ => rewrite H in * end; try lia; naive_solver.
  - rewrite (elector_kept _ _ _ Hl E). destruct l; try discriminate Hl; cbn; try (destruct (elector s); lia).
    exfalso. step_cases E. done.
Qed.

(** Without leader election a process whose context ended is in [Shutdown]. *)
Lemma ending_stopping s :
  leaderElection = false -> ending s -> exitCode s = None ->
  elector s = ENone /\ runner s = PStopping /\
  exists p lf, pipelineRef s = Some (p, lf) /\ stage lf <> SIdle /\ panicked lf = false.
Proof.
  intros HL [HO Hc] Hx. unfold proc_ok, idle, runner_ok, has_pipeline, cancelled_is in HO.
  rewrite HL, Hc in HO.
  destruct (elector s), (runner s), (pipelineRef s) as [[p lf]|]; try naive_solver.
Qed.

Lemma ending_standalone l s s' :
  leaderElection = false -> ending s -> pexec l s = Some s' -> exitCode s' = None ->
  (steps_left s' + (if main_label l then 1 else 0) <= steps_left s)%nat.
Proof.
  intros HL HE E Hx. pose proof (pexec_exit _ _ _ E) as He.
  destruct (ending_stopping s HL HE He) as (Hel & Hr & p & lf & Hp & HS & HP).
  unfold steps_left, main_label. rewrite HL, Hp. unfold Process.pexec, when in E. rewrite He, ?Hel, ?Hr, ?Hp in E.
  destruct l; cbn in E |- *; try discriminate E;
    try (repeat match type of E with context [match ?x with _ => _ end] => destruct x; try discriminate E end;
         injection E as <-; cbn; rewrite ?Hp; lia).
  - unfold shutdown_process in E. rewrite Hp in E.
    destruct (decide (stage lf = SWait)) as [HW|HW].
    { unfold pipeline_exec, exec, shutdown_step in E. rewrite HP, HW in E. by repeat case_match. }
    edestruct (shutdown_progress (p_monitors p) (Z.to_nat (DetectionInputBufferSize (c_Pipeline (p_config p))))
      (Z.to_nat (DetectionResultBufferSize (c_Pipeline (p_config p)))) (p_crdLoad p) ok lf) as (lf' & Ee & Hlt & _);
      [done..|]. unfold pipeline_exec in E. rewrite Ee in E. injection E as <-.
    unfold set_life, go_panic, os_Exit. destruct (panicked lf'); cbn; lia.
  - unfold shutdown_returned in E. rewrite Hp, HL in E. destruct (_ && _); [|done]. injection E as <-.
    by destruct (stopFailed s || timeout).
  - destruct (own_label l) eqn:Ho; [|done]. destruct (pipeline_exec p l lf) as [lf'|] eqn:El; [|done].
    injection E as <-. unfold pipeline_exec in El. apply own_stage in El; [|done].
    unfold set_life, go_panic, os_Exit. destruct (panicked lf'); cbn; rewrite El; lia.
Qed.

Lemma ending_progress s :
  ending s -> exitCode s = None -> exists l s', main_label l = true /\ pexec l s = Some s'.
Proof.
  intros HE Hx. unfold main_label. destruct leaderElection eqn:HL.
  - destruct HE as [HO Hc]. unfold proc_ok, idle in HO.
    destruct (elector s) eqn:Hel; try naive_solver congruence.
    + exists PRenewEnds. unfold Process.pexec, when. rewrite Hx, Hel. cbn. eauto.
    + exists (PUnlabelled true). unfold Process.pexec, when. rewrite Hx, Hel. cbn. eauto.
    + exists PStoppedExit. unfold Process.pexec, when. rewrite Hx, Hel. cbn. eauto.
  - destruct (ending_stopping s HL HE Hx) as (Hel & Hr & p & lf & Hp & HS & HP).
    destruct (decide (stage lf = SWait)) as [HW|HW].
    + exists (PShutdownReturns true). unfold Process.pexec, shutdown_returned. rewrite Hx, Hr, Hp, HW. cbn. eauto.
    + exists (PShutdown true). unfold Process.pexec, shutdown_process, pipeline_exec. rewrite Hx, Hr, Hp. cbn.
      edestruct (shutdown_progress (p_monitors p) (Z.to_nat (DetectionInputBufferSize (c_Pipeline (p_config p))))
        (Z.to_nat (DetectionResultBufferSize (c_Pipeline (p_config p)))) (p_crdLoad p) true lf) as (lf' & Ee & _);
        [done..|]. rewrite Ee. eauto.
Qed.

(** C14: a shutdown ends.  A process that selects on its pipeline takes a waiting signal
    and cancels its context.  Once the context is cancelled - in either mode, in
    every reachable state - the goroutine of [main] is never blocked, and the
    process is gone before it has made seven more steps, whatever the pipeline's
    goroutines, the cluster and further signals do in between. *)
Theorem shutdown_ends s :
  preachable s -> exitCode s = None ->
  (runner s = PSelecting -> signalChan s = true ->
     exists s', pexec PTakeSignal s = Some s' /\ cancelled s' = true) /\
  (cancelled s = true ->
     (exists l s', main_label l = true /\ pexec l s = Some s') /\
     forall ls s', pexec_all ls s = Some s' -> exitCode s' = None ->
       cancelled s' = true /\ (count main_label ls < 7)%nat).
Proof.
  intros HR Hx. pose proof (preachable_ok s HR) as HO. split.
  - intros Hr Hs. pose proof (proc_ok_runner s HO ltac:(by rewrite Hr)) as Hok.
    unfold runner_ok, has_pipeline in Hok. rewrite Hr in Hok.
    destruct (pipelineRef s) as [[p lf]|] eqn:Hp; [|tauto]. destruct Hok as [(_ & HS & HP) _].
    rewrite (take_signal s p lf) by auto. eauto.
  - intros Hc. split; [by apply ending_progress|]. intros ls s' E Hx'.
    assert (ending s) as HE by done.
    assert (forall l s1 s2, ending s1 -> pexec l s1 = Some s2 -> ending s2 /\
      (exitCode s2 = None -> (steps_left s2 + (if main_label l then 1 else 0) <= steps_left s1)%nat)) as Hstep.
    { intros l s1 s2 HE1 E1. split.
      - split; [by eapply proc_ok_step, E1; apply HE1|]. eapply cancelled_kept; [exact E1|apply HE1].
      - destruct leaderElection eqn:HL; [by eapply ending_leader|by eapply ending_standalone]. }
    split; [eapply (pexec_all_ind ending); [intros; by eapply Hstep|exact HE|exact E]|].
    pose proof (count_bounded main_label ending steps_left Hstep ls s s' HE E Hx') as HB.
    assert (steps_left s <= 6)%nat; [|assert (1 <= steps_left s')%nat; [|lia]].
    + unfold steps_left. destruct leaderElection eqn:HL; [destruct (elector s); lia|].
      destruct (ending_stopping s HL HE Hx) as (_ & _ & p & lf & -> & HS & _). destruct (stage lf); cbn; try lia; done.
    + unfold steps_left. destruct leaderElection eqn:HL; [destruct (elector s'); lia|].
      assert (ending s') as HE' by (eapply (pexec_all_ind ending); [intros; by eapply Hstep|exact HE|exact E]).
      destruct (ending_stopping s' HL HE' Hx') as (_ & _ & p & lf & -> & _). lia.
Qed.

(** * Replicas that do not lead *)

Definition follower (labelled : bool) s : Prop :=
  elector s = ECandidate /\ cancelled s = false /\ runner s = PIdle /\ exitCode s = None /\
  pipelineRef s = None /\ podLabel s = labelled.

Lemma follower_step labelled l s s' :
  l <> PElected -> follower labelled s -> pexec l s = Some s' -> follower labelled s'.
Proof.
  intros Hl (He & Hc & Hr & Hx & Hp & Hb) E. unfold Process.pexec, when in E. rewrite Hx, ?He, ?Hr, ?Hc, ?Hp in E.
  destruct l; try done; cbn in E; try discriminate E;
    repeat match type of E with context [match ?x with _ => _ end] => destruct x; try discriminate E end;
    injection E as <-; by unfold follower.
Qed.

(** A replica that is not elected ignores every signal, and keeps its label.  From
    the moment it stands for election, along every schedule in which it is not
    elected, it keeps running - the signals it is sent change nothing but that one
    waits in the channel - with its workers and whatever leader label its pod
    carries, for instance one that a failed leader left behind when it exited;
    elected later, it starts a pipeline and at once shuts it down again. *)
Theorem follower_ignores_signals labelled s ls s' :
  follower labelled s -> PElected ∉ ls -> pexec_all ls s = Some s' ->
  follower labelled s' /\ (PSignal ∈ ls -> signalChan s' = true) /\
  forall su p ok, New su cfg (pipeline_opts cfg) = Ok p -> signalChan s' = true ->
    exists s2, pexec_all [PElected; PLabelled ok; PCreated su; PTakeSignal] s' = Some s2 /\
      cancelled s2 = true /\ runner s2 = PStopping.
Proof.
  intros HF Hn E. assert (follower labelled s' /\ (signalChan s = true \/ PSignal ∈ ls -> signalChan s' = true)) as [HF' HS].
  { revert s HF E. induction ls as [|l ls IH]; intros s HF; cbn [Process.pexec_all].
    { intros [= <-]. split; [done|]. intros [?|Hin]; [done|by apply elem_of_nil in Hin]. }
    destruct (pexec l s) as [s1|] eqn:E1; [|done]. intros E. apply not_elem_of_cons in Hn as [Hn1 Hn2].
    assert (follower labelled s1) as HF1 by (eapply follower_step; [by apply not_eq_sym|done..]).
    destruct (IH Hn2 s1 HF1 E) as [IH1 IH2]. split; [done|]. intros HS. apply IH2.
    destruct HS as [HS|HS].
    - left. destruct l; try (by eapply signal_kept; [|exact E1|exact HS]).
      destruct HF as (_ & _ & Hr & Hx & _). unfold Process.pexec in E1. by rewrite Hx, Hr in E1.
    - apply elem_of_cons in HS as [<-|HS]; [left|by right].
      unfold Process.pexec in E1. destruct HF as (_ & _ & _ & Hx & _). rewrite Hx in E1. by injection E1 as <-. }
  split; [done|]. split; [by intros; apply HS; right|].
  intros su p ok HN Hs. destruct HF' as (He & Hc & Hr & Hx & Hp & _).
  destruct s' as [sc ca el ru pr sf tw ml pl lab ex]. cbn in *. subst.
  assert (forall x, exitCode x = None -> runner x = PCreating -> pexec (PCreated su) x = Some (set_runner PSelecting
    (set_pipelineRef (Some (p, if pipelineCtxDone x then set_ctxDone true initial else initial)) x))) as Hcr.
  { intros x H1 H2. unfold Process.pexec, when, created. by rewrite H1, H2, HN. }
  destruct ok; cbn [Process.pexec_all]; set (x := pexec PElected _); lazy in x; subst x; cbn iota beta;
    set (y := pexec (PLabelled _) _); lazy in y; subst y; cbn iota beta; rewrite Hcr by done;
    (erewrite take_signal; [|try done; cbn; done..]); eauto.
Qed.

(** * The leader *)

(** A leader that is told to stop can exit before anything has stopped.  From every
    reachable state in which a leader selects on its pipeline with a signal
    waiting, cancelling the context ends the election loop as well, and the exit
    of [OnStoppedLeading] can come before the first step of [Shutdown]: the
    process exits with 0, the detection loop, the controller and the channels as
    they were. *)
Theorem leader_exit_overtakes_shutdown s p lf :
  preachable s -> exitCode s = None -> elector s = ELeading -> runner s = PSelecting -> signalChan s = true ->
  pipelineRef s = Some (p, lf) ->
  exists s' lf', pexec_all [PTakeSignal; PRenewEnds; PUnlabelled true; PStoppedExit] s = Some s' /\
    exitCode s' = Some 0 /\ pipelineRef s' = Some (p, lf') /\ stage lf' = SMonitors /\
    det lf' = det lf /\ det_stop lf' = det_stop lf /\ rem lf' = rem lf /\ rem_stop lf' = rem_stop lf /\
    inputs lf' = inputs lf /\ results lf' = results lf /\ closed lf' = closed lf.
Proof.
  intros HR Hx He Hr Hs Hp. pose proof (proc_ok_runner s (preachable_ok s HR) ltac:(by rewrite Hr)) as Hok.
  unfold runner_ok, has_pipeline in Hok. rewrite Hr, Hp in Hok. destruct Hok as [(_ & HS & HP) _]. specialize (HP Hx).
  cbn [Process.pexec_all]. rewrite (take_signal s p lf) by done.
  destruct s as [sc ca el ru pr sf tw ml pl lab ex]. cbn in *. subst.
  do 2 eexists. split; [vm_compute; reflexivity|]. cbn. split_and!; done.
Qed.

(** Who wears the leader label.  Once the callback at the end of a leadership has
    removed the label, it stays off until the process is gone.  A leader whose
    pipeline cannot be created, or whose shutdown fails, exits with code 1 and
    its pod keeps the label; the container that replaces it in the same pod has
    it from the start. *)
Theorem leader_label s :
  preachable s -> exitCode s = None ->
  (forall ls s1 s2, pexec (PUnlabelled true) s = Some s1 -> pexec_all ls s1 = Some s2 -> podLabel s2 = false) /\
  (forall l s1, pexec l s = Some s1 -> exitCode s1 = Some 1 -> podLabel s = true -> podLabel s1 = true) /\
  (forall b s1, leaderElection = true -> pexec (PBoot b) s = Some s1 -> podLabel s1 = podLabel s).
Proof.
  intros HR Hx. pose proof (preachable_ok s HR) as HO. split; [|split].
  - intros ls s1 s2 E1. 
    assert (podLabel s1 = false /\ elector s1 = EUnlabelled) as HI1.
    { unfold Process.pexec, when in E1. rewrite Hx in E1. case_match; [|done]. by injection E1 as <-. }
    intros E2. eapply (pexec_all_ind (fun x => podLabel x = false /\ elector x = EUnlabelled)); [|exact HI1|exact E2].
    intros l x y [H1 H2] E. destruct (elector_label l) eqn:Hl.
    + unfold Process.pexec, when in E. destruct (exitCode x); [done|]. by destruct l; rewrite ?H2 in E.
    + split; [|by rewrite (elector_kept _ _ _ Hl E)]. destruct l; try discriminate Hl;
        try (refine (label_kept _ _ _ _ _ _ E H1); by intros).
      unfold Process.pexec, when, pipelineCtxDone in E. destruct (exitCode x); [done|]. rewrite H2 in E.
      case_match; [|done]. injection E as <-. cbn. rewrite orb_true_r, andb_false_r. exact H1.
  - intros l s1 E Hx1 Hb. destruct l; try (refine (label_kept _ _ _ _ _ _ E Hb); by intros);
      step_cases E; cbn in *; first [exact Hb|reflexivity|discriminate Hx1|congruence].
  - intros b s1 HL E. unfold Process.pexec, when, boot in E. rewrite Hx, HL in E.
    repeat match type of E with context [match ?x with _ => _ end] => destruct x; try discriminate E end;
      by injection E as <-.
Qed.

End process.

(** * Witnesses *)

#[local] Existing Instance PipelineProps.demo_labels.

Definition demo_boot : boot_answers := mkBoot (Ok ()) (Ok ()) (Ok ()) true true.
Definition demo_run (ls : list (plabel (W := nat))) (s : proc) : option proc := pexec_all Default ls s.
Definition demo_proc (ls : list (plabel (W := nat))) : proc := default (started false) (demo_run ls (started false)).
Definition demo_candidate : list (plabel (W := nat)) := [PBoot demo_boot; PWorkerRuns].
Definition demo_leading : list (plabel (W := nat)) :=
  demo_candidate ++ [PElected; PLabelled true; PCreated (demo_su []); PPipeline LRun; PPipeline (LDetector 2);
    PPipeline LController; PPipeline LPoll; PPipeline LMonitors; PSignal].

Lemma demo_reachable ls s : demo_run ls (started false) = Some s -> preachable Default s.
Proof. by exists false, ls. Qed.

Lemma pipeline_only_where_elected_witness :
  exists p lf, pipelineRef (demo_proc demo_leading) = Some (p, lf) /\ p_role p = RoleLeader /\ p_executor p = false.
Proof.
  destruct (pipelineRef (demo_proc demo_leading)) as [[p lf]|] eqn:E; [|by vm_compute in E].
  exists p, lf. split; [done|].
  destruct (pipeline_only_where_elected Default false demo_leading (demo_proc demo_leading) ltac:(by vm_compute))
    as (_ & H & _).
  destruct (H p lf E) as (_ & _ & _ & H1 & H2 & _). done.
Defined.

Lemma shutdown_ends_witness :
  let s := demo_proc (demo_leading ++ [PTakeSignal]) in
  (exists l s', main_label Default l = true /\ pexec Default l s = Some s') /\
  exitCode (demo_proc (demo_leading ++ [PTakeSignal; PRenewEnds; PShutdown true; PUnlabelled false; PStoppedExit])) = Some 0.
Proof.
  intros s. split; [|by vm_compute].
  apply (shutdown_ends Default s); [|by vm_compute..].
  apply (demo_reachable (demo_leading ++ [PTakeSignal])). by vm_compute.
Defined.

Lemma follower_ignores_signals_witness :
  let s' := demo_proc (demo_candidate ++ [PSignal; PSignal]) in
  exitCode s' = None /\ signalChan s' = true /\ mainLoop s' = Selecting.
Proof.
  intros s'.
  destruct (follower_ignores_signals Default false (demo_proc demo_candidate) [PSignal; PSignal] s') as (HF & HS & _).
  - by vm_compute.
  - rewrite !not_elem_of_cons. split_and!; [done..|apply not_elem_of_nil].
  - by vm_compute.
  - split; [by vm_compute|]. split; [|by vm_compute]. apply HS. by left.
Defined.

Lemma leader_exit_overtakes_shutdown_witness :
  exists s', demo_run [PTakeSignal; PRenewEnds; PUnlabelled true; PStoppedExit] (demo_proc demo_leading) = Some s' /\
    exitCode s' = Some 0.
Proof.
  destruct (pipelineRef (demo_proc demo_leading)) as [[p lf]|] eqn:E; [|by vm_compute in E].
  destruct (leader_exit_overtakes_shutdown Default (demo_proc demo_leading) p lf) as (s' & lf' & H1 & H2 & _);
    [apply (demo_reachable demo_leading); by vm_compute|by vm_compute..|exact E|]. by exists s'.
Defined.

Lemma leader_label_witness :
  let failing := demo_candidate ++ [PElected; PLabelled true] in
  let bad := mkSurroundings (W := nat) (Ok ()) (Ok []) (Err "no CEL") (Err "no cluster") in
  exists s1, pexec Default (PCreated bad) (demo_proc failing) = Some s1 /\ exitCode s1 = Some 1 /\ podLabel s1 = true.
Proof.
  intros failing bad. eexists. split; [by vm_compute|]. split; [by vm_compute|].
  apply (leader_label Default (demo_proc failing)) with (l := PCreated bad);
    [apply (demo_reachable failing)| | | |]; by vm_compute.
Defined.
