(* ===== verification/EndToEnd.v ===== *)
(** The layers in sequence: what a change of a pod in the cluster leads to, from
    the informer's notification through the detection engine to an attempt of
    the remediation controller. *)

From S2P Require Import Prelude Types Detection DetectionLemmas Policy Owner Remediation RemediationProps GoNum Config Monitor MonitorProps.

Section chain.
Context `{ME : MonitorEnv} `{CEL : CELEnv (gmap string Raw)}.
Context (formatID : Z -> string).
Context {W : Type}.
Context (Execute : Z -> W -> ResourceReference -> ActionConfig -> W * result ActionResult).
Context (Publish : W -> DetectionResult -> ResourceReference -> W * result ()).
Context (clk : nat -> Z).
Context `{Sort : !SliceSort ActionConfig ac_Order}.
Implicit Types e : engine (gmap string Raw).

(** A scenario's result does not depend on when its turn comes. *)
Lemma state_steps_in order (input : DetectionInput (gmap string Raw)) wall sts s r :
  NoDup (sc_ID <$> order) -> s ∈ order ->
  r ∈ (state_step formatID s input (wall s) sts).2 -> r ∈ (state_steps formatID order input wall sts).2.
Proof.
  revert sts. induction order as [|s0 order IH]; intros sts Hnd Hin Hr; [by apply elem_of_nil in Hin|].
  rewrite fmap_cons, NoDup_cons in Hnd. destruct Hnd as [Hn Hnd]. cbn [state_steps].
  apply elem_of_cons in Hin as [->|Hin].
  - destruct (state_step formatID s0 input (wall s0) sts) as [sts1 r1]. simpl in Hr.
    destruct (state_steps formatID order input wall sts1). simpl. set_solver.
  - assert (sc_ID s0 <> sc_ID s) as Hne by (intros E; apply Hn; rewrite E; by apply list_elem_of_fmap_2).
    pose proof (state_step_results formatID s0 s input (wall s0) (wall s) sts Hne) as E.
    destruct (state_step formatID s0 input (wall s0) sts) as [sts1 r1]. simpl in E.
    specialize (IH sts1 Hnd Hin). rewrite E in IH. specialize (IH Hr).
    destruct (state_steps formatID order input wall sts1). simpl in *. set_solver.
Qed.

(** The scenario accepts inputs about this pod and its expression holds. *)
Record fires (s : LoadedScenario) (ref : ResourceReference) (d : gmap string Raw) (ls : gmap string string) : Prop := {
  fi_source : sc_Source s = "" \/ sc_Source s = DetectionSourceKubernetes;
  fi_filter f : sc_Resource s = Some f ->
    (rf_Kind f = "" \/ rf_Kind f = Kind ref) /\ (rf_APIVersion f = "" \/ rf_APIVersion f = APIVersion ref);
  fi_expr : sc_Expression s <> "";
  fi_true : exists prog, compile_fresh (sc_Expression s) = Ok prog /\
    EvalProgram prog d (resourceMap ref) ls = Ok true;
}.

Lemma fires_eval s ref d ls input :
  fires s ref d ls -> di_Source input = DetectionSourceKubernetes -> di_Resource input = ref ->
  di_Data input = d -> di_Labels input = ls -> eval_spec s input = Ok true.
Proof.
  intros [Hs Hf He (prog & Hc & Hv)] E1 E2 E3 E4. unfold eval_spec.
  rewrite E1, E2, E3, E4. apply optional_mismatch_false in Hs. rewrite Hs.
  apply filter_rejects_false in Hf. rewrite Hf, decide_False by done. by rewrite Hc.
Qed.

Lemma fresh_attempt cc res (c : controller (W := W)) :
  policy_skips cc (dr_Resource res) = false -> rstates c !! result_key res = None ->
  0 < Remediation.DefaultMaxRetries (cc_config cc) ->
  (processResult Execute Publish clk formatID cc res c).1 = Attempted.
Proof.
  intros Hp Hn Hm. destruct (processResult Execute Publish clk formatID cc res c) as [v c'] eqn:E.
  apply processResult_spec in E as [_ Hv].
  assert (state_of res c = fresh_state res) as Es by (unfold state_of; by rewrite Hn).
  rewrite Es in Hv. destruct v; simpl in *; destruct_and?; try congruence; try lia.
  done.
Qed.

(** C21: from a pod to an attempt.  When a pod outside the excluded namespaces
    changes while an enabled scenario without a threshold accepts it, its
    expression holds and the engine has no record of the pair, then, provided
    the channel of inputs has room for one and that of results room for every
    enabled scenario, the monitor delivers an input, the engine emits - in
    whatever order it visits the scenarios - a result with this scenario's
    actions for this pod, and a controller that has no record of the pair,
    whose policies cover the pod and whose budget is positive attempts it. *)
Theorem pod_update_attempted excluded nano now oldObj pod d inCh cap e order wall s :
  let ref := mkRef "v1" "Pod" (pod_Namespace pod) (pod_Name pod) (pod_UID pod) in
  pod_Namespace pod ∉ excluded -> objectToMap (inl pod) = Ok d ->
  (length (ch_buf inCh) < ch_cap inCh)%nat ->
  reachable formatID cap (e, None) -> order ≡ₚ enabled e -> s ∈ enabled e ->
  fires s ref d {[ "eventType" := "update" ]} -> sc_Threshold s = None ->
  states e !! StateKey (sc_ID s) ref = None ->
  (length (ch_buf (outputCh e)) + length (enabled e) <= ch_cap (outputCh e))%nat ->
  exists input r,
    ch_buf (handle excluded inCh (PodUpdated oldObj (inl pod), nano, now)) = ch_buf inCh ++ [input] /\
    r ∈ ch_buf (outputCh (processInput formatID order input wall e)) /\
    dr_ScenarioID r = sc_ID s /\ dr_Resource r = ref /\ dr_RecommendedActions r = sc_Actions s /\
    forall cc (c : controller (W := W)), policy_skips cc ref = false ->
      rstates c !! StateKey (sc_ID s) ref = None -> 0 < Remediation.DefaultMaxRetries (cc_config cc) ->
      (processResult Execute Publish clk formatID cc r c).1 = Attempted.
Proof.
  intros ref Hns Hd Hroom HR Ho Hs HF Hth Hst Hout.
  pose proof (reachable_inv _ _ _ HR) as Hinv. simpl in Hinv.
  cbn [handle]. unfold onPodUpdate. rewrite pod_converted, bool_decide_true by done.
  unfold podToDetectionInput. rewrite Hd. cbn [send_converted]. unfold sendDetectionInput.
  rewrite try_send_room by done. cbn [fst ch_buf].
  eexists _, _. split; [reflexivity|]. set (input := mkInput _ _ _ _ _ _ _).
  assert (eval_spec s input = Ok true) as He by (eapply fires_eval; done).
  set (st := advance s input None).
  assert ((state_step formatID s input (wall s) (states e)).2 =
    [mk_result formatID s input (wall s) (mark_met st)]) as Hr.
  { unfold state_step. rewrite He. cbn [di_Resource input]. fold ref. rewrite Hst.
    unfold match_step, threshold_reached. rewrite Hth. done. }
  assert (NoDup (sc_ID <$> order)) as Hnd by (rewrite Ho; by apply enabled_NoDup).
  split.
  - rewrite processInput_eq by apply Hinv. cbn [outputCh].
    pose proof (state_steps_length formatID order input wall (states e)) as L.
    pose proof (Permutation_length Ho) as L2.
    rewrite sends_room by lia. cbn [ch_buf]. apply elem_of_app. right.
    eapply (state_steps_in order input wall (states e) s); [done|by rewrite Ho|].
    rewrite Hr. by apply list_elem_of_singleton.
  - split_and!; try done. intros cc c Hp Hc Hm. by apply fresh_attempt.
Qed.

End chain.

(** * Witness *)

#[local] Instance demo_mon : MonitorEnv := {|
  Raw := string; raw_string s := s; raw_int32 n := pretty n;
  Pod := string * string; pod_Namespace p := p.1; pod_Name p := p.2; pod_UID _ := "u";
  Event := string; ev_Namespace _ := "prod"; ev_Name n := n; ev_Reason _ := "Unhealthy";
  ev_InvolvedObject n := mkRef "" "Pod" "prod" n "u";
  Marshal o := match o with inl p => Ok p.2 | inr _ => Err "no json" end;
  Unmarshal s := Ok (<["name" := s]> ∅);
  Value := string; Str s := s; AsString s := s; AsRaw s := s; AsTime t := t;
|}.

(** An expression is a name: it holds of the object with that name. *)
#[local] Instance demo_cel : CELEnv (gmap string string) := {|
  Ast := string; Program := string; RefVal := bool;
  env_Compile x := Ok x; OutputType _ := BoolType; env_Program x := Ok x;
  prog_Eval x d _ _ := Ok (bool_decide (d !! "name" = Some x));
  val_Type _ := BoolType; val_bool b := Some b; val_show _ := "";
|}.
#[local] Instance demo_sort : SliceSort ActionConfig ac_Order := insertion_SliceSort ac_Order.

Definition demo_scenario : LoadedScenario :=
  mkScenario "S1" "crash" true SeverityHigh "kubernetes" "web-0" (Some (mkFilter "Pod" "v1")) None
    [mkAction "restartPod" 1 ∅].
Definition demo_engine : engine (gmap string string) := LoadScenarios (Some (Ok [demo_scenario])) (newEngineImpl 4).

Definition demo_pod : Pod := ("prod", "web-0").

Lemma pod_update_attempted_witness :
  exists input r,
    ch_buf (handle ["kube-system"] (Chan [] 2) (PodUpdated (inl demo_pod) (inl demo_pod), 1, 2))
      = [input] /\
    r ∈ ch_buf (outputCh (processInput (fun _ => "id") [demo_scenario] input (fun _ => 7) demo_engine)) /\
    dr_RecommendedActions r = [mkAction "restartPod" 1 ∅].
Proof.
  destruct (pod_update_attempted (fun _ => "id") (W := nat) (fun _ w _ _ => (w, Err "refused")) (fun w _ _ => (S w, Ok ()))
    (fun n => Z.of_nat n) ["kube-system"] 1 2 (inl demo_pod) demo_pod (<["name" := "web-0"]> ∅)
    (Chan [] 2) 4 demo_engine [demo_scenario] (fun _ => 7) demo_scenario) as (input & r & H1 & H2 & _ & _ & H3 & _).
  - vm_compute. intros H. by repeat (apply elem_of_cons in H as [H|H]; [discriminate H|]); apply elem_of_nil in H.
  - by vm_compute.
  - vm_compute. lia.
  - exists [LLoad]. eapply trace_cons; [apply (step_load _ _ _ (Some (Ok [demo_scenario])) false)|apply trace_nil].
  - by vm_compute.
  - vm_compute. left.
  - split; [by right|intros f [= <-]; by split; right|done|exists "web-0"; by vm_compute].
  - done.
  - by vm_compute.
  - vm_compute. lia.
  - exists input, r. done.
Defined.
