(* ===== verification/System.v ===== *)
(** The pipeline with its data: the life cycle of its goroutines
    ([LifeCycle]), the channel of inputs, the detection engine ([Detection]) and
    the remediation controller ([Remediation]) in one transition system, a
    synchronous product of the three.  Where the life cycle only counts what the
    channels hold, this one holds it, so its theorems follow a message from the
    monitor that delivered it to the attempt it causes. *)

From S2P Require Import Prelude Types Detection DetectionLemmas Policy Owner Remediation RemediationProps GoNum Config Monitor MonitorProps LifeCycle EndToEnd.

Section system.
Context `{ME : MonitorEnv} `{CEL : CELEnv (gmap string Raw)}.
Context (formatID : Z -> string).
Context {W : Type}.
Context (Execute : Z -> W -> ResourceReference -> ActionConfig -> W * result ActionResult).
Context (Publish : W -> DetectionResult -> ResourceReference -> W * result ()).
Context (clk : nat -> Z).
Context `{Sort : !SliceSort ActionConfig ac_Order}.
(** What the configuration fixes: the excluded namespaces, the monitors, the
    sizes of the three channels, whether libraries are watched, the controller. *)
Context (excluded : list string) (monitors : list Monitor) (inputCap resultCap actionCap : nat).
Context (crdLoad : bool) (cc : controllerConfig (W := W)).

Abbreviation input := (DetectionInput (gmap string Raw)).
Abbreviation elab := (elabel (gmap string Raw)).
Abbreviation lexec := (LifeCycle.exec monitors inputCap resultCap crdLoad).

(** [y_work] is the input under evaluation with the scenarios to come, [y_cur]
    the result the controller has taken. *)
Record sys := mkSys {
  y_life : life;
  y_in : chan input;
  y_eng : engine (gmap string Raw);
  y_work : option (input * list LoadedScenario);
  y_ctl : controller (W := W);
  y_cur : option DetectionResult;
}.

Definition newSys (w : W) : sys :=
  mkSys initial (Chan [] inputCap) (newEngineImpl resultCap) None (newControllerImpl actionCap w) None.

Definition set_life (l : life) (y : sys) : sys :=
  mkSys l (y_in y) (y_eng y) (y_work y) (y_ctl y) (y_cur y).

(** What a monitor may deliver: an object of a notification that passes the
    filter, a log record. *)
Definition origin (m : Monitor) (i : input) : Prop :=
  match m with
  | K8sMonitor => exists n, converted excluded n = Some i
  | OTelReceiver => exists id attrs lr, i = logRecordToDetectionInput id attrs lr
  end.

(** What the evaluation of one scenario sends: seen on an empty channel. *)
Definition emission (i : input) (wall : LoadedScenario -> Z) (e : engine (gmap string Raw))
    (s : LoadedScenario) : option DetectionResult :=
  head (ch_buf (outputCh (process_one formatID i wall (set_out (Chan [] 1) e) s))).

(** The controller at the first send of [processResult], if it sends at all. *)
Definition until_send (res : DetectionResult) (c : controller (W := W)) : option (controller (W := W)) :=
  if policy_skips cc (dr_Resource res) then None
  else
    let st := default (fresh_state res)
                (Remediation.GetState (StateKey (dr_ScenarioID res) (dr_Resource res)) (rstates c)) in
    let '(cooling, c) := isInCooldown clk st c in
    if cooling then Some c
    else if Remediation.DefaultMaxRetries (cc_config cc) <=? rs_RemediationCount st then
      if rs_Escalated st then None else Some c
    else if cc_publishes cc then None
    else match dr_RecommendedActions res with
         | [] => None
         | actions =>
           match slice_sort ac_Order actions with
           | [] => None
           | ac :: _ => Some (executeAction Execute clk formatID cc res ac c).2
           end
         end.

(** The labels of the life cycle that move no data. *)
Definition control (l : label) : bool :=
  match l with
  | LRun | LController | LPoll | LGiveUp | LCancelled | LMonitors | LWatchEnd | LRunEnd | LQuiet
  | LExit | LRExit | LCancel | LSignal | LShutdown _ => true
  | _ => false
  end.

(** The flag of a delivery or an emission tells whether the channel had room. *)
Inductive ylabel :=
  | YDeliver (m : Monitor) (i : input) (kept : bool)
  | YBegin (i : input)
  | YEval (s : LoadedScenario) (sent : option (DetectionResult * bool))
  | YEnd
  | YTake (r : DetectionResult)
  | YProcess (r : DetectionResult) (v : verdict)
  | YLoad (again : bool) (n : nat) (loader : option (result (list LoadedScenario)))
  | YSweep
  | YRSweep
  | YControl (l : label)
  | YCrash (l : label).

(** Every step that moves data is taken together with the step of the life cycle
    that stands for it.  A send on a closed channel ends the process; until
    then the effects of the message are in place. *)
Inductive ystep : sys -> ylabel -> sys -> Prop :=
  | y_deliver y m i l' :
      origin m i -> lexec (LDeliver m) (y_life y) = Some l' -> closed (y_life y) = false ->
      ystep y (YDeliver m i (try_send (y_in y) i).2)
        (mkSys l' (try_send (y_in y) i).1 (y_eng y) (y_work y) (y_ctl y) (y_cur y))
  | y_deliver_crash y m l' :
      lexec (LDeliver m) (y_life y) = Some l' -> closed (y_life y) = true ->
      ystep y (YCrash (LDeliver m)) (set_life l' y)
  | y_begin y i ch order l' :
      lexec LTake (y_life y) = Some l' -> chan_recv (y_in y) = Some (i, ch) ->
      order ≡ₚ enabled (y_eng y) ->
      ystep y (YBegin i) (mkSys l' ch (y_eng y) (Some (i, order)) (y_ctl y) (y_cur y))
  | y_eval_quiet y i s rest wall :
      panicked (y_life y) = false -> y_work y = Some (i, s :: rest) ->
      emission i wall (y_eng y) s = None ->
      ystep y (YEval s None)
        (mkSys (y_life y) (y_in y) (process_one formatID i wall (y_eng y) s) (Some (i, rest)) (y_ctl y) (y_cur y))
  | y_eval_emit y i s rest wall r l' :
      y_work y = Some (i, s :: rest) -> emission i wall (y_eng y) s = Some r ->
      lexec LEmit (y_life y) = Some l' -> closed (y_life y) = false ->
      ystep y (YEval s (Some (r, (try_send (outputCh (y_eng y)) r).2)))
        (mkSys l' (y_in y) (process_one formatID i wall (y_eng y) s) (Some (i, rest)) (y_ctl y) (y_cur y))
  | y_eval_crash y i s rest wall r l' :
      y_work y = Some (i, s :: rest) -> emission i wall (y_eng y) s = Some r ->
      lexec LEmit (y_life y) = Some l' -> closed (y_life y) = true ->
      ystep y (YCrash LEmit) (set_life l' y)
  | y_end y i l' :
      y_work y = Some (i, []) -> lexec LDone (y_life y) = Some l' ->
      ystep y YEnd (mkSys l' (y_in y) (y_eng y) None (y_ctl y) (y_cur y))
  | y_take y r ch l' :
      lexec LRTake (y_life y) = Some l' -> chan_recv (outputCh (y_eng y)) = Some (r, ch) ->
      ystep y (YTake r) (mkSys l' (y_in y) (set_out ch (y_eng y)) (y_work y) (y_ctl y) (Some r))
  | y_process y r v c' l' :
      y_cur y = Some r -> processResult Execute Publish clk formatID cc r (y_ctl y) = (v, c') ->
      closed (y_life y) = false \/ until_send r (y_ctl y) = None ->
      lexec LRDone (y_life y) = Some l' ->
      ystep y (YProcess r v) (mkSys l' (y_in y) (y_eng y) (y_work y) c' None)
  | y_process_crash y r c' l' :
      y_cur y = Some r -> until_send r (y_ctl y) = Some c' -> closed (y_life y) = true ->
      lexec LREmit (y_life y) = Some l' ->
      ystep y (YCrash LREmit) (mkSys l' (y_in y) (y_eng y) (y_work y) c' (y_cur y))
  | y_load y (again : bool) loader e' l' :
      e' = loadScenarios loader again (y_eng y) ->
      lexec (if again then LReload (GetLoadedScenarios e') else LDetector (GetLoadedScenarios e'))
        (y_life y) = Some l' ->
      ystep y (YLoad again (GetLoadedScenarios e') loader)
        (mkSys l' (y_in y) e' (y_work y) (y_ctl y) (y_cur y))
  | y_sweep y exp now :
      panicked (y_life y) = false -> det (y_life y) <> NotEntered ->
      ystep y YSweep
        (mkSys (y_life y) (y_in y) (cleanup_tick exp now (y_eng y)) (y_work y) (y_ctl y) (y_cur y))
  | y_rsweep y order :
      panicked (y_life y) = false -> rem (y_life y) <> NotEntered ->
      order ≡ₚ map_to_list (rstates (y_ctl y)) ->
      ystep y YRSweep
        (mkSys (y_life y) (y_in y) (y_eng y) (y_work y) (Remediation.Cleanup clk order (y_ctl y)).2 (y_cur y))
  | y_control y l l' :
      control l = true -> lexec l (y_life y) = Some l' -> ystep y (YControl l) (set_life l' y).

Inductive ytrace : sys -> list ylabel -> sys -> Prop :=
  | ytrace_nil y : ytrace y [] y
  | ytrace_snoc y1 ls y2 l y3 : ytrace y1 ls y2 -> ystep y2 l y3 -> ytrace y1 (ls ++ [l]) y3.

(** * The layers of a run *)

(** What a step is in the life cycle, in the engine and in the controller. *)
Definition life_of (x : ylabel) : list label :=
  match x with
  | YDeliver m _ _ => [LDeliver m]
  | YBegin _ => [LTake]
  | YEval _ (Some _) => [LEmit]
  | YEnd => [LDone]
  | YTake _ => [LRTake]
  | YProcess _ _ => [LRDone]
  | YLoad again n _ => [if again then LReload n else LDetector n]
  | YControl l | YCrash l => [l]
  | YEval _ None | YSweep | YRSweep => []
  end.

Definition eng_of (x : ylabel) : list elab :=
  match x with
  | YBegin i => [LBegin i]
  | YEval _ _ => [LEval]
  | YEnd => [LEnd]
  | YTake r => [LRecv r]
  | YLoad _ _ _ => [LLoad]
  | YSweep => [LCleanup]
  | _ => []
  end.

Definition ctl_of (x : ylabel) : list rlabel :=
  match x with
  | YProcess r v => [RProcess r v]
  | YRSweep => [RCleanup]
  | _ => []
  end.

Definition econf_of (y : sys) : engine (gmap string Raw) * option (input * list LoadedScenario) := (y_eng y, y_work y).

(** The loops and their data agree. *)
Record linked (y : sys) : Prop := {
  lk_inputs : inputs (y_life y) = length (ch_buf (y_in y));
  lk_results : results (y_life y) = length (ch_buf (outputCh (y_eng y)));
  lk_in_cap : ch_cap (y_in y) = inputCap;
  lk_out_cap : ch_cap (outputCh (y_eng y)) = resultCap;
  lk_det : det (y_life y) = Busy <-> is_Some (y_work y);
  lk_rem : rem (y_life y) = Busy <-> is_Some (y_cur y);
  lk_room : chan_ok (y_in y);
}.
(** ** Helper lemmas *)

Lemma trace_app (c1 c2 c3 : engine (gmap string Raw) * option (input * list LoadedScenario)) l1 l2 :
  trace formatID c1 l1 c2 -> trace formatID c2 l2 c3 -> trace formatID c1 (l1 ++ l2) c3.
Proof. induction 1; [done|]. intros. cbn [app]. econstructor; eauto. Qed.

Lemma rtrace_app c1 c2 c3 l1 l2 :
  rtrace Execute Publish clk formatID cc c1 l1 c2 -> rtrace Execute Publish clk formatID cc c2 l2 c3 ->
  rtrace Execute Publish clk formatID cc c1 (l1 ++ l2) c3.
Proof. induction 1; [done|]. intros. cbn [app]. econstructor; eauto. Qed.

Lemma emission_eq i wall e s :
  cache_sound (celCache e) ->
  (state_step formatID s i (wall s) (states e)).2 = opt_list (emission i wall e s).
Proof.
  intros H. unfold emission. rewrite process_one_eq by done. cbn [outputCh set_out states].
  pose proof (state_step_length formatID s i (wall s) (states e)) as L.
  destruct (state_step _ _ _ _ _) as [sts [|r [|r' rs]]]; cbn in *; [done..|lia].
Qed.

Lemma process_one_emission i wall e s :
  cache_sound (celCache e) ->
  outputCh (process_one formatID i wall e s) =
    match emission i wall e s with Some r => (try_send (outputCh e) r).1 | None => outputCh e end /\
  Detection.scenarios (process_one formatID i wall e s) = Detection.scenarios e.
Proof.
  intros H. rewrite process_one_eq by done. cbn [outputCh Detection.scenarios].
  rewrite emission_eq by done. by destruct (emission i wall e s).
Qed.

(** [until_send] finds the sends of [processResult]. *)
Lemma until_send_None res c :
  until_send res c = None ->
  rout (processResult Execute Publish clk formatID cc res c).2 = rout c.
Proof.
  unfold until_send, processResult. destruct (policy_skips _ _); [done|].
  match goal with |- context [isInCooldown clk ?st c] =>
    destruct (isInCooldown_spec clk st c) as (_ & _ & Ho & _); destruct (isInCooldown clk st c) as [cooling c1] end.
  cbn in Ho. destruct cooling; [done|]. destruct (_ <=? _).
  - by destruct (rs_Escalated _).
  - destruct (cc_publishes cc).
    + intros _. unfold publishTask. destruct (dr_RecommendedActions res); [done|].
      by destruct (Publish _ _ _) as [w [u|m]].
    + unfold executeActions. destruct (dr_RecommendedActions res) as [|a l]; [done|].
      pose proof (slice_sort_perm ac_Order (a :: l)) as P. destruct (slice_sort ac_Order (a :: l)); [|done].
      by apply Permutation_nil_cons in P.
Qed.

Lemma try_send_cases {A} (c : chan A) v :
  try_send c v = (Chan (ch_buf c ++ [v]) (ch_cap c), true) \/ try_send c v = (c, false).
Proof. unfold try_send. case_decide; auto. Qed.

Lemma try_send_length {A} (c : chan A) v :
  length (ch_buf (try_send c v).1) =
    (if decide (length (ch_buf c) < ch_cap c)%nat then S (length (ch_buf c)) else length (ch_buf c)) /\
  ch_cap (try_send c v).1 = ch_cap c.
Proof. unfold try_send. case_decide; cbn; [rewrite length_app; cbn; lia|done]. Qed.

Lemma chan_recv_length {A} (c ch : chan A) v :
  chan_recv c = Some (v, ch) -> ch_buf c = v :: ch_buf ch /\ ch_cap ch = ch_cap c.
Proof. unfold chan_recv. destruct (ch_buf c); [done|]. by intros [= <- <-]. Qed.

Lemma loadScenarios_out loader again e : outputCh (loadScenarios loader again e) = outputCh e.
Proof. apply loadScenarios_same. Qed.

(** ** The invariant of the product *)

Lemma linked_new w : linked (newSys w).
Proof. split; try done; cbn; [split; (discriminate || by intros [])..|]. unfold chan_ok. cbn. lia. Qed.

Ltac product_cases E :=
  unfold LifeCycle.exec, when, shutdown_step, start_monitors, send_input, send_result, send_action in E;
  case_matches E; split_bools; try (injection E as <-); cbn.

Lemma linked_step y l y' :
  cache_sound (celCache (y_eng y)) -> linked y -> ystep y l y' -> linked y'.
Proof.
  intros HC [A B C D F G' K] Hs.
  destruct Hs as [y m i l' Ho El Hcl|y m l' El Hcl|y i ch order l' El Hr Hord|y i s rest wall Hp Hw He
    |y i s rest wall r l' Hw He El Hcl|y i s rest wall r l' Hw He El Hcl|y i l' Hw El|y r ch l' El Hr
    |y r v c' l' Hc Hpr Hcl El|y r c' l' Hc Hu Hcl El|y again loader e' l' -> El|y exp now Hp Hd
    |y order Hp Hd Hord|y l l' Hl El].
  - destruct (try_send_length (y_in y) i) as [L1 L2].
    product_cases El; split; cbn; try congruence; rewrite ?L1, ?L2, ?C, <- ?A; try done.
    all: first [by rewrite G2|by apply try_send_ok].
  - product_cases El; split; cbn; done || congruence.
  - apply chan_recv_length in Hr as [E1 E2].
    product_cases El; split; cbn; try congruence; try done; [by rewrite A, E1|].
    unfold chan_ok in *. rewrite E1 in K. cbn in K. lia.
  - destruct (process_one_emission i wall (y_eng y) s HC) as [E1 _]. rewrite He in E1.
    split; cbn; rewrite ?E1; try done. rewrite F, Hw. split; by eexists.
  - destruct (process_one_emission i wall (y_eng y) s HC) as [E1 _]. rewrite He in E1.
    destruct (try_send_length (outputCh (y_eng y)) r) as [L1 L2].
    product_cases El; split; cbn; try congruence; rewrite ?E1, ?L1, ?L2, ?D, <- ?B; try done.
    all: try (by rewrite G2); rewrite F, Hw; split; by eexists.
  - product_cases El; split; cbn; done || congruence.
  - product_cases El; split; cbn; try done; split; (discriminate || by intros []).
  - apply chan_recv_length in Hr as [E1 E2].
    product_cases El; split; cbn; try congruence; try done. by rewrite B, E1.
  - product_cases El; split; cbn; try done; split; (discriminate || by intros []).
  - product_cases El; split; cbn; done || congruence.
  - pose proof (loadScenarios_out loader again (y_eng y)) as E1.
    destruct again; product_cases El; split; cbn; rewrite ?E1; try done; try congruence.
    all: try (split; [discriminate|]; intros Hx; apply F in Hx; congruence).
  - split; cbn; done.
  - split; cbn; done.
  - destruct l; try discriminate Hl; product_cases El; split; cbn; try done; try congruence.
    all: split; [discriminate|]; intros Hx; (apply F in Hx || apply G' in Hx); congruence.
Qed.
Lemma linked_idle y : linked y -> det (y_life y) <> Busy -> y_work y = None.
Proof. intros [_ _ _ _ F _ _] H. destruct (y_work y); [|done]. exfalso. by apply H, F. Qed.

Lemma lexec_fine l s s' : lexec l s = Some s' -> panicked s = false.
Proof. unfold LifeCycle.exec. by destruct (panicked s). Qed.

Lemma ystep_fine y l y' : ystep y l y' -> panicked (y_life y) = false.
Proof. destruct 1; eauto using lexec_fine. Qed.

Lemma ystep_life y l y' :
  ystep y l y' -> exec_all monitors inputCap resultCap crdLoad (life_of l) (y_life y) = Some (y_life y').
Proof.
  destruct 1; cbn [life_of exec_all y_life set_life];
    repeat match goal with H : LifeCycle.exec _ _ _ _ _ _ = _ |- _ => rewrite H; clear H end; done.
Qed.

Lemma ystep_engine y l y' :
  linked y -> ystep y l y' -> trace formatID (econf_of y) (eng_of l) (econf_of y').
Proof.
  intros HL Hs. unfold econf_of.
  destruct Hs; cbn [eng_of y_eng y_work set_life]; try apply trace_nil;
    (eapply trace_cons; [|apply trace_nil]).
  - assert (y_work y = None) as -> by (apply linked_idle; [done|]; product_cases H; congruence).
    by apply step_begin.
  - rewrite H0. apply step_eval.
  - rewrite H. apply step_eval.
  - rewrite H. apply step_end.
  - by apply step_recv.
  - subst. apply step_load.
  - apply step_cleanup.
Qed.

Lemma ystep_controller y l y' :
  ystep y l y' -> panicked (y_life y') = false ->
  rtrace Execute Publish clk formatID cc (y_ctl y) (ctl_of l) (y_ctl y').
Proof.
  intros Hs Hp. destruct Hs; cbn [ctl_of y_ctl set_life] in *; try apply rtrace_nil;
    try (eapply rtrace_cons; [|apply rtrace_nil]).
  - by apply rstep_process.
  - product_cases H2; cbn in Hp; congruence.
  - by apply rstep_cleanup.
Qed.

(** What every run of the product gives for its layers. *)
Record layered (w : W) (ls : list ylabel) (y : sys) : Prop := {
  ly_life : exec_all monitors inputCap resultCap crdLoad (concat (life_of <$> ls)) initial = Some (y_life y);
  ly_engine : trace formatID (newEngineImpl resultCap, None) (concat (eng_of <$> ls)) (econf_of y);
  ly_controller : panicked (y_life y) = false ->
    rtrace Execute Publish clk formatID cc (newControllerImpl actionCap w) (concat (ctl_of <$> ls)) (y_ctl y);
  ly_linked : linked y;
}.

Lemma layered_sound w ls y : layered w ls y -> engine_inv (y_eng y).
Proof. intros [_ HE _ _]. apply (trace_inv _ _ _ _ HE). apply newEngineImpl_inv. Qed.

Lemma concat_fmap_snoc {A B} (f : A -> list B) l x : concat (f <$> (l ++ [x])) = concat (f <$> l) ++ f x.
Proof. rewrite fmap_app, concat_app. cbn. by rewrite app_nil_r. Qed.

Lemma layered_step w ls y l y' : layered w ls y -> ystep y l y' -> layered w (ls ++ [l]) y'.
Proof.
  intros HL Hs. pose proof (layered_sound _ _ _ HL) as HI. destruct HL as [A B C D].
  split; rewrite ?concat_fmap_snoc.
  - rewrite exec_all_app, A. by apply ystep_life.
  - eapply trace_app; [done|]. by apply ystep_engine.
  - intros Hp. eapply rtrace_app; [apply C; by eapply ystep_fine|]. by eapply ystep_controller.
  - eapply linked_step; [apply HI|done..].
Qed.

Lemma ytrace_layered w ls y : ytrace (newSys w) ls y -> layered w ls y.
Proof.
  intros H. remember (newSys w) as y0 eqn:E. induction H as [y|y1 ls y2 l y3 _ IH Hs]; subst.
  - split; cbn; [done|apply trace_nil|intros _; apply rtrace_nil|apply linked_new].
  - eapply layered_step; [by apply IH|done].
Qed.

(** ** The queues *)

Definition accepted (ls : list ylabel) : list input :=
  omap (fun l => match l with YDeliver _ i true => Some i | _ => None end) ls.
Definition begun (ls : list ylabel) : list input :=
  omap (fun l => match l with YBegin i => Some i | _ => None end) ls.
Definition emitted (ls : list ylabel) : list DetectionResult :=
  omap (fun l => match l with YEval _ (Some (r, true)) => Some r | _ => None end) ls.
Definition taken (ls : list ylabel) : list DetectionResult :=
  omap (fun l => match l with YTake r => Some r | _ => None end) ls.
Definition finished (ls : list ylabel) : list DetectionResult :=
  omap (fun l => match l with YProcess r _ => Some r | _ => None end) ls.

Record fifo (ls : list ylabel) (y : sys) : Prop := {
  ff_in : accepted ls = begun ls ++ ch_buf (y_in y);
  ff_out : emitted ls = taken ls ++ ch_buf (outputCh (y_eng y));
  ff_cur : taken ls = finished ls ++ opt_list (y_cur y);
}.

Lemma fifo_step ls y l y' :
  cache_sound (celCache (y_eng y)) -> linked y -> fifo ls y -> ystep y l y' -> fifo (ls ++ [l]) y'.
Proof.
  intros HC HL [A B C] Hs. unfold accepted, begun, emitted, taken, finished in *.
  destruct Hs as [y m i l' Ho El Hcl|y m l' El Hcl|y i ch order l' El Hr Hord|y i s rest wall Hp Hw He
    |y i s rest wall r l' Hw He El Hcl|y i s rest wall r l' Hw He El Hcl|y i l' Hw El|y r ch l' El Hr
    |y r v c' l' Hc Hpr Hcl El|y r c' l' Hc Hu Hcl El|y again loader e' l' -> El|y exp now Hp Hd
    |y order Hp Hd Hord|y l l' Hl El];
    split; unfold accepted, begun, emitted, taken, finished; rewrite !omap_app; cbn [omap list_omap y_in y_eng y_cur set_life]; rewrite ?app_nil_r; try done.
  - unfold try_send. case_decide; cbn; rewrite A, ?app_nil_r; [by rewrite app_assoc|done].
  - apply chan_recv_length in Hr as [E _]. by rewrite A, E, <- app_assoc.
  - destruct (process_one_emission i wall (y_eng y) s HC) as [-> _]. by rewrite He.
  - destruct (process_one_emission i wall (y_eng y) s HC) as [-> _]. rewrite He.
    unfold try_send. case_decide; cbn; rewrite B, ?app_nil_r; [by rewrite app_assoc|done].
  - apply chan_recv_length in Hr as [E _]. by rewrite B, E, <- app_assoc.
  - rewrite C, <- (assoc_L (++)). f_equal. assert (y_cur y = None) as ->; [|done].
    destruct (y_cur y) eqn:Ec; [|done]. exfalso.
    assert (rem (y_life y) = Busy) as Hb by (apply (lk_rem y HL); rewrite Ec; by eexists).
    product_cases El; congruence.
  - by rewrite C, Hc.
  - by rewrite loadScenarios_out.
Qed.

(** ** Causes *)

(** [r] came from an input that a configured monitor delivered and from a
    scenario that some load registered, enabled and true on that input; [ls]
    shows the way, up to the labels [last]. *)
Record cause (ls last : list ylabel) (r : DetectionResult) (m : Monitor) (i : input) (s : LoadedScenario) : Prop := {
  ca_monitor : m ∈ monitors;
  ca_origin : origin m i;
  ca_enabled : sc_Enabled s = true;
  ca_true : eval_spec s i = Ok true;
  ca_result : dr_ScenarioID r = sc_ID s /\ dr_Resource r = di_Resource i /\
    dr_RecommendedActions r = sc_Actions s;
  ca_way : [YDeliver m i true; YBegin i; YEval s (Some (r, true))] ++ last `sublist_of` ls;
  ca_loaded : exists again n l, s ∈ l /\
    [YLoad again n (Some (Ok l)); YBegin i; YEval s (Some (r, true))] ++ last `sublist_of` ls;
}.

Definition delivered (ls last : list ylabel) (i : input) : Prop :=
  exists m, m ∈ monitors /\ origin m i /\ YDeliver m i true :: last `sublist_of` ls.
Definition loaded (ls last : list ylabel) (s : LoadedScenario) : Prop :=
  exists again n l, s ∈ l /\ YLoad again n (Some (Ok l)) :: last `sublist_of` ls.

Record caused (ls : list ylabel) (y : sys) : Prop := {
  cs_in i : i ∈ ch_buf (y_in y) -> delivered ls [] i;
  cs_work i rest : y_work y = Some (i, rest) -> delivered ls [YBegin i] i /\
    forall s, s ∈ rest -> sc_Enabled s = true /\ loaded ls [YBegin i] s;
  cs_out r : r ∈ ch_buf (outputCh (y_eng y)) -> exists m i s, cause ls [] r m i s;
  cs_cur r : y_cur y = Some r -> exists m i s, cause ls [YTake r] r m i s;
  cs_scenarios k s : Detection.scenarios (y_eng y) !! k = Some s -> loaded ls [] s;
}.

Lemma sublist_keep (l ls : list ylabel) x : l `sublist_of` ls -> l `sublist_of` ls ++ [x].
Proof. intros H. by apply sublist_inserts_r. Qed.

Lemma sublist_last (l ls : list ylabel) x : l `sublist_of` ls -> l ++ [x] `sublist_of` ls ++ [x].
Proof. intros H. by apply sublist_app. Qed.

Lemma delivered_keep ls last i x : delivered ls last i -> delivered (ls ++ [x]) last i.
Proof. intros (m & Hm & Ho & H). exists m. split_and!; auto using sublist_keep. Qed.
Lemma delivered_last ls last i x : delivered ls last i -> delivered (ls ++ [x]) (last ++ [x]) i.
Proof. intros (m & Hm & Ho & H). exists m. split_and!; auto. by apply (sublist_last (_ :: _)). Qed.
Lemma loaded_keep ls last s x : loaded ls last s -> loaded (ls ++ [x]) last s.
Proof. intros (a & n & l & Hl & H). exists a, n, l. split; auto using sublist_keep. Qed.
Lemma loaded_last ls last s x : loaded ls last s -> loaded (ls ++ [x]) (last ++ [x]) s.
Proof. intros (a & n & l & Hl & H). exists a, n, l. split; auto. by apply (sublist_last (_ :: _)). Qed.
Lemma cause_keep ls last r m i s x : cause ls last r m i s -> cause (ls ++ [x]) last r m i s.
Proof.
  intros [A B C D E F (a & n & l & Hl & H)].
  split; auto using sublist_keep. exists a, n, l. split; auto using sublist_keep.
Qed.
Lemma cause_last ls last r m i s x : cause ls last r m i s -> cause (ls ++ [x]) (last ++ [x]) r m i s.
Proof.
  intros [A B C D E F (a & n & l & Hl & H)]. split; auto.
  - rewrite (assoc_L (++)). by apply sublist_last.
  - exists a, n, l. split; [done|]. rewrite (assoc_L (++)). by apply sublist_last.
Qed.
#[local] Hint Resolve delivered_keep loaded_keep cause_keep : core.

Lemma caused_keep ls y x : caused ls y -> caused (ls ++ [x]) y.
Proof.
  intros [A B C D F]. split; eauto.
  - intros i rest H. destruct (B i rest H) as [B1 B2]. split; [auto|]. intros s Hs. destruct (B2 s Hs). eauto.
  - intros r H. destruct (C r H) as (m & i & s & Hc). eauto 10.
  - intros r H. destruct (D r H) as (m & i & s & Hc). eauto 10.
Qed.

Lemma emission_result i wall e s r :
  cache_sound (celCache e) -> emission i wall e s = Some r ->
  eval_spec s i = Ok true /\ dr_ScenarioID r = sc_ID s /\ dr_Resource r = di_Resource i /\
  dr_RecommendedActions r = sc_Actions s.
Proof.
  intros HC He. pose proof (emission_eq i wall e s HC) as E. rewrite He in E. revert E.
  unfold state_step. destruct (eval_spec s i) as [[|]|]; try done.
  unfold match_step. repeat case_match; simplify_eq/=; try done; intros; by simplify_eq/=.
Qed.

Lemma loadScenarios_scenarios loader again e k s :
  cache_sound (celCache e) -> Detection.scenarios (loadScenarios loader again e) !! k = Some s ->
  Detection.scenarios e !! k = Some s \/ exists l, loader = Some (Ok l) /\ s ∈ l.
Proof.
  intros HC. unfold loadScenarios.
  set (e0 := if again then _ else e).
  assert (cache_sound (celCache e0)) as HC0 by (unfold e0; by destruct again).
  assert (Detection.scenarios e0 !! k = Some s -> Detection.scenarios e !! k = Some s) as H0.
  { unfold e0. destruct again; [|done]. cbn. by rewrite lookup_empty. }
  destruct loader as [[l|]|]; [|auto..]. rewrite register_all_scenarios by done.
  destruct (find_first _ _) as [s'|] eqn:E; [|auto]. intros [= <-]. right. exists l. split; [done|].
  apply find_first_Some in E as (l1 & l2 & E & _ & _).
  assert (s' ∈ reverse (filter (fun s => registrable s = true) l)) as Hin by (rewrite E; set_solver).
  rewrite elem_of_reverse, list_elem_of_filter in Hin. tauto.
Qed.

(** Only monitors that were built deliver. *)
Lemma delivers_configured l :
  LifeCycle.reachable monitors inputCap resultCap crdLoad l ->
  (k8sDelivers l = true -> K8sMonitor ∈ monitors) /\ (otelDelivers l = true -> OTelReceiver ∈ monitors).
Proof.
  apply (reachable_ind monitors inputCap resultCap crdLoad (fun l =>
    (k8sDelivers l = true -> K8sMonitor ∈ monitors) /\ (otelDelivers l = true -> OTelReceiver ∈ monitors)));
    [done|]. intros x s s' [HK HO] E.
  destruct x; product_cases E; split; try done; intros Hd; split_bools; auto.
Qed.

Lemma caused_step ls y l y' :
  LifeCycle.reachable monitors inputCap resultCap crdLoad (y_life y) ->
  cache_sound (celCache (y_eng y)) -> caused ls y -> ystep y l y' -> caused (ls ++ [l]) y'.
Proof.
  intros HR HC HS Hs. pose proof (caused_keep ls y l HS) as [A B C D F].
  destruct Hs as [y m i l' Ho El Hcl|y m l' El Hcl|y i ch order l' El Hr Hord|y i s rest wall Hp Hw He
    |y i s rest wall r l' Hw He El Hcl|y i s rest wall r l' Hw He El Hcl|y i l' Hw El|y r ch l' El Hr
    |y r v c' l' Hc Hpr Hcl El|y r c' l' Hc Hu Hcl El|y again loader e' l' -> El|y exp now Hp Hd
    |y order Hp Hd Hord|y l l' Hl El];
    (split; cbn [y_in y_eng y_work y_cur set_life]; [try exact A|try exact B|try exact C|try exact D|try exact F]);
    try done.
  - (* deliver: the input *)
    intros j. destruct (try_send_cases (y_in y) i) as [-> | ->]; [|by intros Hj; apply delivered_keep, HS].
    cbn [fst snd ch_buf].
    rewrite elem_of_app. intros [Hj|Hj]; [by apply delivered_keep, HS|].
    apply list_elem_of_singleton in Hj as ->. exists m.
    split_and!; [|done|by apply sublist_inserts_l]. destruct (delivers_configured _ HR) as [HK HO].
    destruct m; product_cases El; auto.
  - (* begin *)
    apply chan_recv_length in Hr as [E _]. intros j Hj. apply A. rewrite E. by right.
  - apply chan_recv_length in Hr as [E _]. intros j rest [= <- <-].
    assert (delivered ls [] i) as Hi by (apply HS; rewrite E; by left).
    split; [by apply (delivered_last ls [])|]. intros s Hs. rewrite Hord in Hs.
    unfold enabled in Hs. apply list_elem_of_filter in Hs as [Hen Hs]. split; [done|].
    apply list_elem_of_fmap in Hs as ([k s0] & -> & Hk). apply elem_of_map_to_list in Hk.
    apply (loaded_last ls []). by eapply HS.
  - intros j rest' [= <- <-]. destruct (B _ _ Hw) as [B1 B2]. split; [done|]. intros s' Hs'. apply B2. by right.
  - destruct (process_one_emission i wall (y_eng y) s HC) as [-> _]. by rewrite He.
  - destruct (process_one_emission i wall (y_eng y) s HC) as [_ ->]. done.
  - intros j rest' [= <- <-]. destruct (B _ _ Hw) as [B1 B2]. split; [done|]. intros s' Hs'. apply B2. by right.
  - (* emission *)
    destruct (process_one_emission i wall (y_eng y) s HC) as [-> _]. rewrite He.
    intros r'. destruct (try_send_cases (outputCh (y_eng y)) r) as [-> | ->];
      [|intros Hr; destruct (cs_out _ _ HS _ Hr) as (m & i' & s' & Hc); eauto 10].
    cbn [fst snd ch_buf]. rewrite elem_of_app.
    intros [Hr|Hr]; [destruct (cs_out _ _ HS _ Hr) as (m & i' & s' & Hc); eauto 10|].
    apply list_elem_of_singleton in Hr as ->.
    destruct (emission_result i wall (y_eng y) s r HC He) as (Ht & Hres).
    destruct (cs_work _ _ HS _ _ Hw) as [(m & Hm & Ho & Hway) Hrest].
    destruct (Hrest s ltac:(by left)) as [Hen Hld].
    exists m, i, s. split; try done.
    + by apply (sublist_last [_; _]).
    + by apply (loaded_last ls [YBegin i]).
  - destruct (process_one_emission i wall (y_eng y) s HC) as [_ ->]. done.
  - (* take *)
    apply chan_recv_length in Hr as [E _]. intros r' Hr'. apply C. rewrite E. by right.
  - apply chan_recv_length in Hr as [E _]. intros r' [= <-].
    destruct (cs_out _ _ HS r) as (m & i & s & Hc); [rewrite E; by left|].
    exists m, i, s. by apply (cause_last ls []).
  - by rewrite loadScenarios_out.
  - intros k s Hk. apply loadScenarios_scenarios in Hk as [Hk|(lst & -> & Hin)]; [by eapply F| |done].
    eexists again, _, lst. split; [done|]. by apply sublist_inserts_l.
Qed.

Lemma ytrace_invariant w ls y :
  ytrace (newSys w) ls y -> layered w ls y /\ fifo ls y /\ caused ls y.
Proof.
  intros H. remember (newSys w) as y0 eqn:E. induction H as [y|y1 ls y2 l y3 Ht IH Hs]; subst.
  - split; [by apply ytrace_layered, ytrace_nil|]. split; [done|].
    split; cbn; try done; intros ? H; by apply elem_of_nil in H.
  - destruct (IH eq_refl) as (HL & HF & HS). pose proof (inv_cache _ (layered_sound _ _ _ HL)) as HC.
    split; [by eapply layered_step|]. split; [by eapply fifo_step; [| apply HL| |]|].
    eapply caused_step; [|done..]. eexists. apply HL.
Qed.

(** * Properties *)

(** The pipeline is its layers running together.  Every run of the product -
    deliveries, evaluations, results, loads, sweeps and the life cycle
    interleaved in any way - is a run of the life cycle, of the detection engine
    and, unless the process has crashed, of the remediation controller, each
    with the labels it takes part in; the counts of the life cycle are the
    lengths of the channels, which stay within their sizes, and its loops are
    busy exactly when they hold a message. *)
Lemma pipeline_runs_layers w ls y :
  ytrace (newSys w) ls y ->
  exec_all monitors inputCap resultCap crdLoad (concat (life_of <$> ls)) initial = Some (y_life y) /\
  trace formatID (newEngineImpl resultCap, None) (concat (eng_of <$> ls)) (y_eng y, y_work y) /\
  (panicked (y_life y) = false ->
    rtrace Execute Publish clk formatID cc (newControllerImpl actionCap w) (concat (ctl_of <$> ls)) (y_ctl y)) /\
  inputs (y_life y) = length (ch_buf (y_in y)) /\ results (y_life y) = length (ch_buf (outputCh (y_eng y))) /\
  (inputs (y_life y) <= inputCap)%nat /\ (results (y_life y) <= resultCap)%nat /\
  (det (y_life y) = Busy <-> is_Some (y_work y)) /\ (rem (y_life y) = Busy <-> is_Some (y_cur y)).
Proof.
  intros H. destruct (ytrace_invariant w ls y H) as (HL & _ & _).
  pose proof (inv_chan _ (layered_sound _ _ _ HL)) as Hch. destruct HL as [A B C [D E F G I J K]].
  unfold chan_ok in *. split_and!; try done; lia.
Qed.

(** Nothing is lost or reordered between the layers: what the first channel
    accepted has been begun or waits, what the second one accepted has been
    finished, is worked on or waits. *)
Lemma pipeline_fifo w ls y :
  ytrace (newSys w) ls y ->
  accepted ls = begun ls ++ ch_buf (y_in y) /\
  emitted ls = finished ls ++ opt_list (y_cur y) ++ ch_buf (outputCh (y_eng y)).
Proof.
  intros H. destruct (ytrace_invariant w ls y H) as (_ & [A B C] & _).
  split; [done|]. by rewrite B, C, <- (assoc_L (++)).
Qed.

Lemma ytrace_app y1 l1 y2 l2 y3 : ytrace y1 l1 y2 -> ytrace y2 l2 y3 -> ytrace y1 (l1 ++ l2) y3.
Proof.
  intros H1 H2. induction H2 as [y|y2 l2 y3 l y4 _ IH Hs]; [by rewrite app_nil_r|].
  rewrite (assoc_L (++)). eapply ytrace_snoc; [by apply IH|done].
Qed.

Lemma ytrace_reachable w ls y : ytrace (newSys w) ls y ->
  LifeCycle.reachable monitors inputCap resultCap crdLoad (y_life y).
Proof. intros H. eexists. apply (ly_life _ _ _ (ytrace_layered w ls y H)). Qed.

(** ** The work that is pending *)

(** The receive loop of a layer is running. *)
Definition serving (p : loop_pc) : bool := match p with Selecting | Busy => true | _ => false end.

(** The steps by which the engine and the controller work off what they have;
    a delivery or a load is new work. *)
Definition works (l : ylabel) : bool :=
  match l with YBegin _ | YEval _ _ | YEnd | YTake _ | YProcess _ _ => true | _ => false end.
Definition new_work (l : ylabel) : bool :=
  match l with YDeliver _ _ _ | YLoad _ _ _ => true | _ => false end.

(** A result costs its receipt and its processing, an evaluation at most one
    result, an input the evaluation of every enabled scenario. *)
Definition pending (y : sys) : nat :=
  (length (ch_buf (y_in y)) * (2 + 3 * length (enabled (y_eng y))) +
   match y_work y with Some (_, rest) => 1 + 3 * length rest | None => 0 end +
   2 * length (ch_buf (outputCh (y_eng y))) + match y_cur y with Some _ => 1 | None => 0 end)%nat.

Definition steps_of_work (ls : list ylabel) : nat := length (filter (fun l => works l = true) ls).

Lemma process_one_enabled i wall e s :
  cache_sound (celCache e) -> enabled (process_one formatID i wall e s) = enabled e.
Proof. intros H. unfold enabled. by rewrite (proj2 (process_one_emission i wall e s H)). Qed.

Lemma pending_step y l y' :
  cache_sound (celCache (y_eng y)) -> linked y -> ystep y l y' -> new_work l = false ->
  (pending y' + (if works l then 1 else 0) <= pending y)%nat.
Proof.
  intros HC HL Hs Hn. unfold pending.
  destruct Hs as [y m i l' Ho El Hcl|y m l' El Hcl|y i ch order l' El Hr Hord|y i s rest wall Hp Hw He
    |y i s rest wall r l' Hw He El Hcl|y i s rest wall r l' Hw He El Hcl|y i l' Hw El|y r ch l' El Hr
    |y r v c' l' Hc Hpr Hcl El|y r c' l' Hc Hu Hcl El|y again loader e' l' -> El|y exp now Hp Hd
    |y order Hp Hd Hord|y l l' Hl El]; try discriminate Hn;
    cbn [works y_in y_eng y_work y_cur set_life]; try lia.
  - apply chan_recv_length in Hr as [E _]. rewrite E. cbn [length].
    assert (y_work y = None) as -> by (apply linked_idle; [done|]; product_cases El; congruence).
    apply Permutation_length in Hord. lia.
  - rewrite process_one_enabled, (proj1 (process_one_emission _ _ _ _ HC)), He, Hw by done. cbn [length]. lia.
  - rewrite process_one_enabled, (proj1 (process_one_emission _ _ _ _ HC)), He, Hw by done. cbn [length].
    destruct (try_send_length (outputCh (y_eng y)) r) as [-> _]. case_decide; lia.
  - rewrite Hw. cbn. lia.
  - apply chan_recv_length in Hr as [E _]. rewrite E. cbn [length set_out outputCh].
    assert (y_cur y = None) as ->; [|unfold enabled; cbn; lia].
    destruct (y_cur y) eqn:Ec; [|done]. exfalso.
    assert (rem (y_life y) = Busy) as Hb by (apply (lk_rem y HL); rewrite Ec; by eexists).
    product_cases El; congruence.
  - rewrite Hc. lia.
  - unfold enabled, cleanup_tick, set_states. cbn. lia.
Qed.

Lemma pending_run w ls y ls' y' :
  ytrace (newSys w) ls y -> ytrace y ls' y' -> Forall (fun l => new_work l = false) ls' ->
  (pending y' + steps_of_work ls' <= pending y)%nat.
Proof.
  intros H0 H Hn. induction H as [y|y1 ls1 y2 l y3 H1 IH Hs]; [unfold steps_of_work; cbn; lia|].
  apply Forall_app in Hn as [Hn1 [Hn _]%Forall_cons_1]. specialize (IH H0 Hn1).
  pose proof (ytrace_layered _ _ _ (ytrace_app _ _ _ _ _ H0 H1)) as HL.
  pose proof (pending_step y2 l y3 (inv_cache _ (layered_sound _ _ _ HL)) (ly_linked _ _ _ HL) Hs Hn).
  unfold steps_of_work in *. rewrite filter_app, length_app, filter_cons. case_decide as Hd.
  - rewrite Hd in *. cbn. lia.
  - destruct (works l); [done|]. cbn. lia.
Qed.

(** The loops run, the channels are open: what they need to work. *)
Definition at_work (y : sys) : Prop :=
  serving (det (y_life y)) = true /\ serving (rem (y_life y)) = true /\ closed (y_life y) = false.

Definition idle (y : sys) : Prop :=
  ch_buf (y_in y) = [] /\ y_work y = None /\ ch_buf (outputCh (y_eng y)) = [] /\ y_cur y = None.

Lemma chan_recv_cons {A} (c : chan A) v l : ch_buf c = v :: l -> chan_recv c = Some (v, Chan l (ch_cap c)).
Proof. unfold chan_recv. by intros ->. Qed.

(** Whoever is at work and not idle can take a step of its work, and goes on. *)
Lemma work_enabled w ls y (wall : LoadedScenario -> Z) :
  ytrace (newSys w) ls y -> at_work y -> idle y \/ exists l y', works l = true /\ ystep y l y' /\ at_work y'.
Proof.
  intros H (Hd & Hr & Hc). pose proof (ytrace_reachable _ _ _ H) as HR.
  destruct (ytrace_layered _ _ _ H) as [_ _ _ [I1 I2 _ _ I3 I4 _]].
  assert (panicked (y_life y) = false) as Hp.
  { destruct (panicked (y_life y)) eqn:E; [|done]. apply (co_panic _ (reachable_closed _ _ _ _ _ HR)) in E. congruence. }
  destruct (y_work y) as [[i [|s rest]]|] eqn:Ew.
  - assert (det (y_life y) = Busy) as Hb by (apply I3; by eexists).
    right. do 2 eexists. split; [|split; [eapply y_end; [done|]; unfold LifeCycle.exec, when; by rewrite Hp, Hb|]]; done.
  - assert (det (y_life y) = Busy) as Hb by (apply I3; by eexists).
    right. destruct (emission i wall (y_eng y) s) as [r|] eqn:Ee.
    + do 2 eexists. split; [|split; [eapply y_eval_emit; try done; unfold LifeCycle.exec, when; by rewrite Hp, Hb|]]; [done|].
      unfold at_work. cbn [y_life]. unfold send_result. rewrite Hc. case_decide; done.
    + do 2 eexists. split; [|split; [by eapply y_eval_quiet|]]; done.
  - destruct (ch_buf (y_in y)) as [|i l] eqn:Ei.
    + destruct (y_cur y) as [r|] eqn:Ec.
      * assert (rem (y_life y) = Busy) as Hb by (apply I4; by eexists).
        right. destruct (processResult Execute Publish clk formatID cc r (y_ctl y)) as [v c'] eqn:Ep.
        do 2 eexists. split; [|split; [eapply y_process; [done|exact Ep|by left|]; unfold LifeCycle.exec, when; by rewrite Hp, Hb|]]; done.
      * destruct (ch_buf (outputCh (y_eng y))) as [|r l] eqn:Eo; [by left|]. right.
        assert (rem (y_life y) = Selecting) as Hs.
        { destruct (rem (y_life y)); try done. by destruct (proj1 I4 eq_refl). }
        do 2 eexists. split; [|split; [eapply y_take; [|by apply chan_recv_cons]; unfold LifeCycle.exec, when; by rewrite Hp, Hs, I2|]]; done.
    + right. assert (det (y_life y) = Selecting) as Hs.
      { destruct (det (y_life y)); try done. by destruct (proj1 I3 eq_refl). }
      do 2 eexists. split; [|split; [eapply y_begin; [|by apply chan_recv_cons|reflexivity]; unfold LifeCycle.exec, when; by rewrite Hp, Hs, I1|]]; done.
Qed.


(** ** The crash of a shutdown *)

Lemma controls_run ls y l' :
  Forall (fun l => control l = true) ls -> exec_all monitors inputCap resultCap crdLoad ls (y_life y) = Some l' ->
  ytrace y (YControl <$> ls) (set_life l' y).
Proof.
  intros Hc. revert y. induction Hc as [|l ls Hl _ IH]; intros y; cbn [exec_all].
  - intros [= <-]. destruct y. apply ytrace_nil.
  - destruct (LifeCycle.exec _ _ _ _ l _) as [l1|] eqn:E; [|done]. intros Hx.
    rewrite fmap_cons. change (?a :: ?b) with ([a] ++ b). eapply ytrace_app.
    + apply (ytrace_snoc _ [] y); [apply ytrace_nil|by apply y_control].
    + by apply (IH (set_life l1 y)).
Qed.

Lemma crash_label y l y' :
  LifeCycle.reachable monitors inputCap resultCap crdLoad (y_life y) ->
  ystep y l y' -> panicked (y_life y') = true -> exists x, l = YCrash x.
Proof.
  intros HR Hs. pose proof (ystep_fine _ _ _ Hs) as Hp.
  destruct (reachable_closed _ _ _ _ _ HR) as [_ _ _ Hc _].
  destruct Hs as [y m i l' Ho El Hcl|y m l' El Hcl|y i ch order l' El Hr Hord|y i s rest wall Hp' Hw He
    |y i s rest wall r l' Hw He El Hcl|y i s rest wall r l' Hw He El Hcl|y i l' Hw El|y r ch l' El Hr
    |y r v c' l' Hc' Hpr Hcl El|y r c' l' Hc' Hu Hcl El|y again loader e' l' -> El|y exp now Hp' Hd
    |y order Hp' Hd Hord|y l l' Hl El]; cbn [y_life set_life]; try (by eauto); intros HP; exfalso; try congruence.
  all: try (destruct again); try (destruct l; try discriminate Hl); product_cases El; cbn in HP; try congruence.
  destruct Hc as [Hc _]. specialize (Hc ltac:(done)). congruence.
Qed.

(** C38: a shutdown can crash the process.  Wherever a run has got to without a
    shutdown, if the engine has yet to evaluate a scenario on its input and
    this evaluation sends a result, then the signal and the steps of [Shutdown]
    alone, while the engine waits for its turn, lead to a state in which that
    send panics: [Shutdown] closes the channels without waiting for the
    senders.  And no run of these steps - executor and publisher return - crashes
    but by a send after [Shutdown] has closed them. *)
Theorem shutdown_crashes_evaluation w ls y :
  ytrace (newSys w) ls y ->
  (forall i s rest wall r, stage (y_life y) = SIdle ->
    y_work y = Some (i, s :: rest) -> emission i wall (y_eng y) s = Some r ->
    exists controls y1 y2, Forall (fun l => l = LSignal \/ l = LShutdown true) controls /\
      ytrace y (YControl <$> controls) y1 /\ y_work y1 = y_work y /\ y_eng y1 = y_eng y /\
      ystep y1 (YCrash LEmit) y2 /\ panicked (y_life y2) = true) /\
  (panicked (y_life y) = true -> closed (y_life y) = true /\ stage (y_life y) = SWait /\ exists l, last ls = Some (YCrash l)).
Proof.
  intros H. pose proof (ytrace_reachable _ _ _ H) as HR.
  destruct (reachable_closed _ _ _ _ _ HR) as [_ _ _ Hc Hp]. split.
  - intros i s rest wall r Hst Hw He.
    assert (closed (y_life y) = false) as Hcl by (apply not_true_is_false; rewrite Hc, Hst; done).
    assert (panicked (y_life y) = false) as Hpa by (apply not_true_is_false; intros E; apply Hp in E; congruence).
    assert (det (y_life y) = Busy) as Hb by (apply (lk_det _ (ly_linked _ _ _ (ytrace_layered _ _ _ H))); by eexists).
    destruct (shutdown_closes monitors inputCap resultCap crdLoad (y_life y) Hb Hst Hcl Hpa) as (l1 & E1 & Hc1 & l2 & E2 & HP).
    exists (shutdown_labels (monitorsStarted (y_life y))), (set_life l1 y), (set_life l2 (set_life l1 y)). split.
    { destruct (monitorsStarted _); (apply Forall_cons; split; [by left|]); repeat (apply Forall_cons; split; [by right|]); apply Forall_nil_2. }
    split; [|split; [done|split; [done|split; [|done]]]].
    + apply controls_run; [|done]. destruct (monitorsStarted _); by repeat constructor.
    + by eapply y_eval_crash.
  - intros HP. split; [by apply Hp|]. split; [by apply Hc, Hp|].
    remember (newSys w) as y0 eqn:E0. destruct H as [y|y1 ls y2 l y3 H1 Hs]; subst; [done|].
    destruct (crash_label y2 l y3 (ytrace_reachable _ _ _ H1) Hs HP) as [x ->].
    exists x. by rewrite last_snoc.
Qed.

Lemma ystep_world y l y' :
  ystep y l y' -> world (y_ctl y') <> world (y_ctl y) ->
  exists r, y_cur y = Some r /\ policy_skips cc (dr_Resource r) = false /\
    (l = YProcess r Attempted \/ l = YCrash LREmit).
Proof.
  intros Hs Hw. destruct Hs; try (by destruct Hw); cbn [y_ctl] in Hw; exists r || exfalso.
  - pose proof (processResult_spec _ _ _ _ _ _ _ _ _ H0) as [_ Hv]. split; [done|].
    destruct v; cbn in Hv; destruct_and?; subst; try (by destruct Hw); auto.
  - split; [done|]. split; [|auto]. revert H0. unfold until_send. by destruct (policy_skips _ _).
  - apply Hw. by apply Cleanup_spec.
Qed.

(** C1: nothing is done without a cause.  Whenever the operator changes the
    cluster, in any interleaving, the controller is acting on a result that no
    policy excludes, and the run so far shows why: a configured monitor
    delivered an input - for the Kubernetes monitor the content of a
    notification that passed its filter -, the engine began it after a load
    had registered some enabled scenario, evaluated this scenario, whose filters
    and expression accept the input, sent this result, for the resource of the
    input and with the actions of the scenario, and the controller took it; all
    in this order. *)
Theorem cluster_changes_have_a_cause w ls y l y' :
  ytrace (newSys w) ls y -> ystep y l y' -> world (y_ctl y') <> world (y_ctl y) ->
  exists r m i s, y_cur y = Some r /\ (l = YProcess r Attempted \/ l = YCrash LREmit) /\
    policy_skips cc (dr_Resource r) = false /\ cause ls [YTake r] r m i s.
Proof.
  intros Ht Hs Hw. destruct (ystep_world y l y' Hs Hw) as (r & Hr & Hp & Hl).
  destruct (ytrace_invariant w ls y Ht) as (_ & _ & HC). destruct (cs_cur _ _ HC r Hr) as (m & i & s & Hc).
  by exists r, m, i, s.
Qed.

End system.

(** * Witnesses *)

#[local] Existing Instances EndToEnd.demo_mon EndToEnd.demo_cel EndToEnd.demo_sort.

Definition demo_sys_Execute (_ : Z) (w : nat) (r : ResourceReference) (_ : ActionConfig) : nat * result ActionResult :=
  (S w, Err "refused").
Definition demo_sys_Publish (w : nat) (_ : DetectionResult) (_ : ResourceReference) : nat * result () := (S w, Ok ()).
Definition demo_sys_cc : controllerConfig (W := nat) :=
  mkControllerConfig (mkRemediationConfig Hour 3 false (30 * Second)) true None None.

Abbreviation demo_step := (ystep (fun _ => "id") demo_sys_Execute demo_sys_Publish (fun n => Z.of_nat n)
  ["kube-system"] [K8sMonitor] 4 4 true demo_sys_cc).
Abbreviation demo_trace := (ytrace (fun _ => "id") demo_sys_Execute demo_sys_Publish (fun n => Z.of_nat n)
  ["kube-system"] [K8sMonitor] 4 4 true demo_sys_cc).

Abbreviation demo_sys := (sys (W := nat)).

(** The life cycle's step, which the run below can always take. *)
Definition demo_life (l : label) (y : demo_sys) : life := default (y_life y) (exec [K8sMonitor] 4 4 true l (y_life y)).

Definition demo_start : demo_sys := newSys 4 4 4 0%nat.
Definition demo_controls (ls : list label) (y : demo_sys) : demo_sys := foldl (fun y l => set_life (demo_life l y) y) y ls.

Lemma demo_snoc y1 ls y2 l y3 : demo_trace y1 ls y2 -> demo_step y2 l y3 -> demo_trace y1 (ls ++ [l]) y3.
Proof. apply ytrace_snoc. Qed.

Lemma demo_controls_trace y0 ls0 y ls :
  demo_trace y0 ls0 y -> Forall (fun l => control l = true) ls ->
  is_Some (exec_all [K8sMonitor] 4 4 true ls (y_life y)) ->
  demo_trace y0 (ls0 ++ (YControl <$> ls)) (demo_controls ls y).
Proof.
  intros Ht Hc. revert y ls0 Ht. induction Hc as [|l ls Hl Hc IH]; intros y ls0 Ht [l' Hx].
  - by rewrite app_nil_r.
  - cbn [exec_all] in Hx. destruct (exec _ _ _ _ l _) as [l1|] eqn:E; [|done].
    rewrite fmap_cons, (cons_middle (YControl l)), (assoc_L (++)). apply IH.
    + eapply demo_snoc; [done|]. apply y_control; [done|]. unfold demo_life. by rewrite E.
    + unfold demo_life. rewrite E. by eexists.
Qed.

Definition demo_y1 : demo_sys := demo_controls [LRun] demo_start.
Definition demo_loader := Some (Ok [demo_scenario]).
Definition demo_loaded : engine (gmap string string) := loadScenarios demo_loader false (y_eng demo_y1).
Definition demo_y2 : demo_sys := mkSys (demo_life (LDetector (GetLoadedScenarios demo_loaded)) demo_y1) (y_in demo_y1) demo_loaded None (y_ctl demo_y1) None.
Definition demo_y3 : demo_sys := demo_controls [LController; LPoll; LMonitors] demo_y2.
Definition demo_input : DetectionInput (gmap string string) :=
  mkInput (gmap string string) "k8s-pod-prod-web-0-1" DetectionSourceKubernetes (mkRef "v1" "Pod" "prod" "web-0" "u") 2
    (<["name" := "web-0"]> ∅) (<["eventType" := "update"]> ∅).
Definition demo_y4 : demo_sys :=
  mkSys (demo_life (LDeliver K8sMonitor) demo_y3) (try_send (y_in demo_y3) demo_input).1 (y_eng demo_y3) None
    (y_ctl demo_y3) None.
Definition demo_y5 : demo_sys :=
  mkSys (demo_life LTake demo_y4) (Chan [] 4) (y_eng demo_y4) (Some (demo_input, [demo_scenario])) (y_ctl demo_y4) None.
Definition demo_y6 : demo_sys :=
  mkSys (demo_life LEmit demo_y5) (y_in demo_y5)
    (process_one (fun _ => "id") demo_input (fun _ => 7) (y_eng demo_y5) demo_scenario) (Some (demo_input, []))
    (y_ctl demo_y5) None.
Definition demo_emitted : DetectionResult :=
  mk_result (fun _ => "id") demo_scenario demo_input 7 (mark_met (advance demo_scenario demo_input None)).
Definition demo_y7 : demo_sys :=
  mkSys (demo_life LRTake demo_y6) (y_in demo_y6) (set_out (Chan [] 4) (y_eng demo_y6)) (y_work demo_y6) (y_ctl demo_y6)
    (Some demo_emitted).
Definition demo_processed : verdict * controller (W := nat) :=
  processResult demo_sys_Execute demo_sys_Publish (fun n => Z.of_nat n) (fun _ => "id") demo_sys_cc demo_emitted
    (y_ctl demo_y7).
Definition demo_y8 : demo_sys :=
  mkSys (demo_life LRDone demo_y7) (y_in demo_y7) (y_eng demo_y7) (y_work demo_y7) demo_processed.2 None.

Definition demo_labels : list (ylabel) :=
  [YControl LRun; YLoad false (GetLoadedScenarios demo_loaded) demo_loader; YControl LController; YControl LPoll; YControl LMonitors;
   YDeliver K8sMonitor demo_input true; YBegin demo_input; YEval demo_scenario (Some (demo_emitted, true));
   YTake demo_emitted].

(** The engine is about to evaluate the scenario, the controller has nothing yet. *)
Lemma demo_run5 : demo_trace demo_start (take 7 demo_labels) demo_y5.
Proof.
  apply (demo_snoc _ (take 6 demo_labels) demo_y4 _ _).
  2: { apply y_begin with (y := demo_y4); [by vm_compute..|]. by vm_compute. }
  apply (demo_snoc _ (take 5 demo_labels) demo_y3 _ _).
  2: { apply y_deliver with (y := demo_y3) (m := K8sMonitor) (i := demo_input); [|by vm_compute..].
       exists (PodUpdated (inl demo_pod) (inl demo_pod), 1, 2). by vm_compute. }
  apply (demo_controls_trace _ (take 2 demo_labels) demo_y2 [LController; LPoll; LMonitors]); [|by repeat constructor|].
  2: { eexists; by vm_compute. }
  apply (demo_snoc _ (take 1 demo_labels) demo_y1 _ _).
  2: { apply y_load with (y := demo_y1) (again := false) (loader := demo_loader) (e' := demo_loaded); [reflexivity|by vm_compute]. }
  apply (demo_controls_trace _ [] demo_start [LRun]); [constructor|by repeat constructor|eexists; by vm_compute].
Qed.

Lemma demo_run : demo_trace demo_start demo_labels demo_y7.
Proof.
  apply (demo_snoc _ (take 8 demo_labels) demo_y6 _ _).
  2: { apply y_take with (y := demo_y6) (r := demo_emitted) (ch := Chan [] 4); by vm_compute. }
  apply (demo_snoc _ (take 7 demo_labels) demo_y5 _ _); [apply demo_run5|].
  apply y_eval_emit with (y := demo_y5) (i := demo_input) (s := demo_scenario) (rest := []) (wall := fun _ => 7) (r := demo_emitted); by vm_compute.
Qed.


Lemma shutdown_crashes_evaluation_witness :
  exists controls y1 y2, demo_trace demo_y5 (YControl <$> controls) y1 /\ demo_step y1 (YCrash LEmit) y2 /\
    panicked (y_life y2) = true.
Proof.
  destruct (shutdown_crashes_evaluation _ _ _ _ _ _ _ _ _ _ _ 0%nat _ _ demo_run5) as [H _].
  destruct (H demo_input demo_scenario [] (fun _ => 7) demo_emitted ltac:(by vm_compute) ltac:(by vm_compute) ltac:(by vm_compute))
    as (controls & y1 & y2 & _ & Ht & _ & _ & Hs & HP).
  by exists controls, y1, y2.
Defined.

Lemma cluster_changes_have_a_cause_witness :
  exists r m i s, y_cur demo_y7 = Some r /\
    [YDeliver m i true; YBegin i; YEval s (Some (r, true)); YTake r] `sublist_of` demo_labels.
Proof.
  destruct (cluster_changes_have_a_cause (fun _ => "id") demo_sys_Execute demo_sys_Publish (fun n => Z.of_nat n)
    ["kube-system"] [K8sMonitor] 4 4 4 true demo_sys_cc 0%nat demo_labels demo_y7 (YProcess demo_emitted Attempted) demo_y8
    demo_run) as (r & m & i & s & Hr & _ & _ & [_ _ _ _ _ Hw _]).
  - apply y_process with (y := demo_y7) (r := demo_emitted); try by vm_compute. left; by vm_compute.
  - by vm_compute.
  - by exists r, m, i, s.
Defined.
