(* ===== verification/GoHeap.v ===== *)
(** Go values that refer to memory: pointers, slices and maps, what can be seen
    through a value (its contents as a tree, the cells it reaches), the idioms by
    which a value is copied, and when a copy is a deep one. *)

From S2P Require Import Prelude.

(** * References *)

(** A location is the address of a variable, of a map or of the array behind a
    slice; the types of what they hold are phantom parameters. *)
Record ptr (A : Type) := Ptr { address : option positive }.
Record gomap (A : Type) := GoMap { table : option positive }.          (* map[string]A *)
Record slice (A : Type) := Slice {
  array : option positive;     (* [None] in the nil slice *)
  offset : nat;
  slen : nat;
}.
Arguments Ptr {A}. Arguments address {A}.
Arguments GoMap {A}. Arguments table {A}.
Arguments Slice {A}. Arguments array {A}. Arguments offset {A}. Arguments slen {A}.

Definition nil_ptr {A} : ptr A := Ptr None.

(** What can be seen through a value. *)
Inductive tree :=
  | TString (s : string)
  | TInt (z : Z)
  | TBool (b : bool)
  | TPair (a b : tree)
  | TNil
  | TPtr (a : tree)
  | TList (l : list tree)
  | TMap (m : gmap string tree).

(** Ranging over a map visits its entries in some order. *)
Class MapRange := {
  range : forall {A}, gmap string A -> list (string * A);
  range_perm {A} (m : gmap string A) : range m ≡ₚ map_to_list m;
}.

(** Memory holds cells of finitely many types. *)
Class Storable (cell A : Type) := {
  inj : A -> cell;
  prj : cell -> option A;
  prj_inj a : prj (inj a) = Some a;
}.
Global Hint Mode Storable + ! : typeclass_instances.

Section memory.
Context {cell : Type}.

Abbreviation memory := (gmap positive cell).

Definition load {A} `{!Storable cell A} (h : memory) (l : positive) : option A := h !! l ≫= prj.

(** Code that allocates.  It fails only on memory that is not Go's: a location
    without a cell, or with one of another type. *)
Definition M (A : Type) : Type := memory -> option (A * memory).
#[global] Instance M_ret : MRet M := fun A a h => Some (a, h).
#[global] Instance M_bind : MBind M := fun A B f m h => match m h with Some (a, h') => f a h' | None => None end.

Definition read {A} `{!Storable cell A} (l : positive) : M A := fun h => (fun a => (a, h)) <$> load h l.
Definition alloc {A} `{!Storable cell A} (a : A) : M positive :=
  fun h => let l := fresh (dom h) in Some (l, <[l := inj a]> h).

Lemma bind_step {A B} (m : M A) (k : A -> M B) h a h' r : m h = Some (a, h') -> k a h' = r -> (m ≫= k) h = r.
Proof. intros Hm <-. unfold mbind, M_bind. by rewrite Hm. Qed.

Lemma read_step {A} `{!Storable cell A} h l (a : A) : load h l = Some a -> read l h = Some (a, h).
Proof. unfold read. by intros ->. Qed.

(** * What a value shows *)

(** The contents of a value and the locations it reaches, which depend on the
    cells at these locations only. *)
Class GoType (A : Type) := {
  observe : memory -> A -> option (tree * gset positive);
  observe_dom h v t L : observe h v = Some (t, L) -> L ⊆ dom h;
  observe_agree h h' v t L : observe h v = Some (t, L) -> (forall l, l ∈ L -> h' !! l = h !! l) ->
    observe h' v = Some (t, L);
}.

(** A deep copy shows what the original shows, through locations of its own;
    nothing that was there before is written. *)
Definition copies {A} `{!GoType A} (f : A -> M A) : Prop :=
  forall h v t L, observe h v = Some (t, L) ->
  exists v' h' L', f v h = Some (v', h') /\ h ⊆ h' /\ observe h' v' = Some (t, L') /\ L' ## dom h.

Lemma observe_extend {A} `{!GoType A} h h' v t L : observe h v = Some (t, L) -> h ⊆ h' -> observe h' v = Some (t, L).
Proof.
  intros Ho Hs. eapply observe_agree; [done|]. intros l Hl.
  apply (observe_dom _ _ _ _ Ho), elem_of_dom in Hl as [c Hc]. rewrite Hc. by eapply lookup_weaken.
Qed.

Lemma alloc_spec {A} `{!Storable cell A} (a : A) h :
  exists l h', alloc a h = Some (l, h') /\ l ∉ dom h /\ h ⊆ h' /\ load (A := A) h' l = Some a.
Proof.
  exists (fresh (dom h)). eexists. split; [done|]. pose proof (is_fresh (dom h)) as Hf. split; [done|]. split.
  - by apply insert_subseteq, not_elem_of_dom.
  - unfold load. by rewrite lookup_insert_eq; cbn; apply prj_inj.
Qed.

Lemma load_dom {A} `{!Storable cell A} h l a : load (A := A) h l = Some a -> l ∈ dom h.
Proof. unfold load. intros (c & Hc & _)%bind_Some. by apply elem_of_dom. Qed.

Lemma load_extend {A} `{!Storable cell A} h h' l a : load (A := A) h l = Some a -> h ⊆ h' -> load (A := A) h' l = Some a.
Proof.
  unfold load. intros (c & Hc & Hp)%bind_Some Hs. by rewrite (lookup_weaken _ _ _ _ Hc Hs).
Qed.

Lemma load_agree {A} `{!Storable cell A} h h' l : h' !! l = h !! l -> load (A := A) h' l = load h l.
Proof. unfold load. by intros ->. Qed.

(** ** Values without references *)

#[global] Program Instance string_GoType : GoType string := {| observe h s := Some (TString s, ∅) |}.
Next Obligation. intros. simplify_eq. set_solver. Qed.
Next Obligation. done. Qed.
#[global] Program Instance Z_GoType : GoType Z := {| observe h z := Some (TInt z, ∅) |}.
Next Obligation. intros. simplify_eq. set_solver. Qed.
Next Obligation. done. Qed.
#[global] Program Instance bool_GoType : GoType bool := {| observe h b := Some (TBool b, ∅) |}.
Next Obligation. intros. simplify_eq. set_solver. Qed.
Next Obligation. done. Qed.

(** [*out = *in] is a deep copy of such a value. *)
Class Plain (A : Type) `{!GoType A} := plain h v t L : observe h v = Some (t, L) -> L = ∅.

#[global] Instance string_Plain : Plain string.
Proof. by intros h v t L [= _ <-]. Qed.
#[global] Instance Z_Plain : Plain Z.
Proof. by intros h v t L [= _ <-]. Qed.
#[global] Instance bool_Plain : Plain bool.
Proof. by intros h v t L [= _ <-]. Qed.

Definition assign {A} : A -> M A := mret.

Lemma assign_copies {A} `{!GoType A, !Plain A} : copies (assign (A := A)).
Proof.
  intros h v t L Ho. exists v, h, L. split; [done|]. split; [done|]. split; [done|].
  rewrite (plain _ _ _ _ Ho). set_solver.
Qed.

(** ** Structs: their fields, as pairs *)

#[global] Program Instance pair_GoType {A B} `{!GoType A, !GoType B} : GoType (A * B) := {|
  observe h v := '(ta, La) ← observe h v.1; '(tb, Lb) ← observe h v.2; Some (TPair ta tb, La ∪ Lb) |}.
Next Obligation.
  intros A B HA HB h [a b] t L. cbn. intros ([ta La] & Ha & ([tb Lb] & Hb & [= <- <-])%bind_Some)%bind_Some.
  apply observe_dom in Ha, Hb. set_solver.
Qed.
Next Obligation.
  intros A B HA HB h h' [a b] t L. cbn. intros ([ta La] & Ha & ([tb Lb] & Hb & [= <- <-])%bind_Some)%bind_Some Hl.
  erewrite (observe_agree _ _ a), (observe_agree _ _ b); [done|done| |done|]; set_solver.
Qed.

#[global] Instance pair_Plain {A B} `{!GoType A, !GoType B, !Plain A, !Plain B} : Plain (A * B).
Proof.
  intros h [a b] t L. cbn. intros ([ta La] & Ha & ([tb Lb] & Hb & [= <- <-])%bind_Some)%bind_Some.
  apply plain in Ha as ->, Hb as ->. set_solver.
Qed.

(** A record with its fields. *)
Program Definition record_GoType {A F} `{!GoType F} (fields : A -> F) : GoType A := {|
  observe h v := observe h (fields v) |}.
Next Obligation. intros A F HF fields h v t L Ho. exact (observe_dom _ _ _ _ Ho). Qed.
Next Obligation. intros A F HF fields h h' v t L Ho Hl. exact (observe_agree _ _ _ _ _ Ho Hl). Qed.

Definition copy_pair {A B} (f : A -> M A) (g : B -> M B) : A * B -> M (A * B) :=
  fun v => a ← f v.1; b ← g v.2; mret (a, b).

Lemma copy_pair_copies {A B} `{!GoType A, !GoType B} (f : A -> M A) (g : B -> M B) :
  copies f -> copies g -> copies (copy_pair f g).
Proof.
  intros Hf Hg h [a b] t L. cbn. intros ([ta La] & Ha & ([tb Lb] & Hb & [= <- <-])%bind_Some)%bind_Some.
  destruct (Hf _ _ _ _ Ha) as (a' & h1 & La' & Ef & Hs1 & Ha' & Hd1).
  destruct (Hg h1 b tb Lb) as (b' & h2 & Lb' & Eg & Hs2 & Hb' & Hd2); [by eapply observe_extend|].
  exists (a', b'), h2, (La' ∪ Lb'). split; [by repeat (eapply bind_step; [eassumption|])|]. split; [by etrans|]. split.
  - cbn. by rewrite (observe_extend _ _ _ _ _ Ha' Hs2), Hb'.
  - apply subseteq_dom in Hs1. set_solver.
Qed.

(** A function on records that copies their fields. *)
Lemma record_copies {A F} `{!GoType F} (fields : A -> F) (build : F -> A) (f : A -> M A) (g : F -> M F) :
  copies g -> (forall x, fields (build x) = x) ->
  (forall v h, f v h = (x ← g (fields v); mret (build x)) h) -> @copies A (record_GoType fields) f.
Proof.
  intros Hg Hb Hf h v t L Ho. cbn in *. destruct (Hg _ _ _ _ Ho) as (x & h' & L' & Eg & Hs & Ho' & Hd).
  exists (build x), h', L'. rewrite Hf, Hb. split; [by eapply bind_step; [exact Eg|]|done].
Qed.

Lemma record_Plain {A F} `{!GoType F, !Plain F} (fields : A -> F) : @Plain A (record_GoType fields).
Proof. intros h v t L Ho. by eapply (plain h (fields v)). Qed.
(** * Pointers *)

#[global] Program Instance ptr_GoType {A} `{!Storable cell A, !GoType A} : GoType (ptr A) := {|
  observe h p := match address p with
    | None => Some (TNil, ∅)
    | Some l => a ← load h l; '(t, L) ← observe h a; Some (TPtr t, {[l]} ∪ L)
    end |}.
Next Obligation.
  intros A SA HA h [[l|]] t L; cbn; [|by intros [= _ <-]].
  intros (a & Hl%load_dom & ([t' L'] & Ho%observe_dom & [= <- <-])%bind_Some)%bind_Some. set_solver.
Qed.
Next Obligation.
  intros A SA HA h h' [[l|]] t L; cbn; [|done].
  intros (a & Hl & ([t' L'] & Ho & [= <- <-])%bind_Some)%bind_Some Hag.
  rewrite (load_agree h), Hl by (apply Hag; set_solver). cbn.
  rewrite (observe_agree _ _ _ _ _ Ho) by (intros; apply Hag; set_solver). done.
Qed.

(** [if in == nil { return nil }; out := new(T); in.DeepCopyInto(out); return out],
    and the same for a field. *)
Definition copy_ptr {A} `{!Storable cell A} (f : A -> M A) (p : ptr A) : M (ptr A) :=
  match address p with
  | None => mret nil_ptr
  | Some l => v ← read l; v' ← f v; l' ← alloc v'; mret (Ptr (Some l'))
  end.

Lemma copy_ptr_copies {A} `{!Storable cell A, !GoType A} (f : A -> M A) : copies f -> copies (copy_ptr f).
Proof.
  intros Hf h [[l|]] t L; cbn; [|intros [= <- <-]; exists nil_ptr, h, ∅; by repeat split].
  intros (a & Hl & ([t' L'] & Ho & [= <- <-])%bind_Some)%bind_Some.
  destruct (Hf _ _ _ _ Ho) as (a' & h1 & La' & Ef & Hs1 & Ha' & Hd1).
  destruct (alloc_spec a' h1) as (l' & h2 & Eal & Hl' & Hs2 & Hld).
  exists (Ptr (Some l')), h2, ({[l']} ∪ La'). split.
  { unfold copy_ptr. cbn [address]. eapply bind_step; [by apply read_step|]. by repeat (eapply bind_step; [eassumption|]). } split; [by etrans|]. split.
  - cbn. rewrite Hld. cbn. by rewrite (observe_extend _ _ _ _ _ Ha' Hs2).
  - apply subseteq_dom in Hs1. set_solver.
Qed.

(** * Slices *)

Definition elements {A} (s : slice A) (xs : list A) : list A := take (slen s) (drop (offset s) xs).
#[local] Arguments elements : simpl never.
#[local] Arguments mapM : simpl never.

Definition observe_list {A} `{!GoType A} (h : memory) (xs : list A) : option (list tree * gset positive) :=
  os ← mapM (observe h) xs; Some (os.*1, ⋃ os.*2).

#[global] Program Instance slice_GoType {A} `{!Storable cell (list A), !GoType A} : GoType (slice A) := {|
  observe h s := match array s with
    | None => Some (TNil, ∅)
    | Some l => xs ← load h l; guard (offset s + slen s <= length xs)%nat;;
                '(ts, L) ← observe_list h (elements s xs); Some (TList ts, {[l]} ∪ L)
    end |}.
Next Obligation.
  intros A SA HA h [[l|] o n] t L; cbn; [|by intros [= _ <-]].
  intros (xs & Hl%load_dom & HG)%bind_Some. case_guard; [|done]. cbn in HG.
  apply bind_Some in HG as ([ts L'] & (os & Hm%mapM_Some & [= <- <-])%bind_Some & [= <- <-]).
  assert (⋃ os.*2 ⊆ dom h); [|set_solver].
  induction Hm as [|x [t L] ys os Hx _ IH]; cbn; [set_solver|]. apply observe_dom in Hx. set_solver.
Qed.
Next Obligation.
  intros A SA HA h h' [[l|] o n] t L; cbn; [|done].
  intros (xs & Hl & HG)%bind_Some Hag. case_guard; [|done]. cbn in HG.
  apply bind_Some in HG as ([ts L'] & (os & Hm%mapM_Some & [= <- <-])%bind_Some & [= <- <-]).
  rewrite (load_agree h), Hl by (apply Hag; set_solver). cbn. case_guard; [|done]. cbn. unfold observe_list.
  assert (mapM (observe h') (elements (Slice (Some l) o n) xs) = Some os) as ->; [|done].
  apply mapM_Some. assert (forall y, y ∈ ⋃ os.*2 -> h' !! y = h !! y) as Hag' by (intros; apply Hag; set_solver).
  clear -Hm Hag'. induction Hm as [|x [t L] ys os Hx _ IH]; constructor.
  - eapply observe_agree; [done|]. intros. apply Hag'. set_solver.
  - apply IH. intros. apply Hag'. set_solver.
Qed.

Fixpoint copy_elements {A} (f : A -> M A) (xs : list A) : M (list A) :=
  match xs with
  | [] => mret []
  | x :: xs => x' ← f x; xs' ← copy_elements f xs; mret (x' :: xs')
  end.

(** [*out = make([]T, len(in))] and a loop over the indices that copies the
    elements, or [copy] for values without references. *)
Definition copy_slice {A} `{!Storable cell (list A)} (f : A -> M A) (s : slice A) : M (slice A) :=
  match array s with
  | None => mret s
  | Some l => xs ← read l; ys ← copy_elements f (elements s xs); l' ← alloc ys; mret (Slice (Some l') 0 (slen s))
  end.

Lemma copy_elements_copies {A} `{!GoType A} (f : A -> M A) xs : copies f ->
  forall h ts L, observe_list h xs = Some (ts, L) ->
  exists ys h' L', copy_elements f xs h = Some (ys, h') /\ h ⊆ h' /\ observe_list h' ys = Some (ts, L') /\ L' ## dom h /\
    length ys = length xs.
Proof.
  intros Hf. induction xs as [|x xs IH]; intros h ts L; unfold observe_list; cbn.
  - intros [= <- <-]. exists [], h, ∅. split; [done|]. split; [done|]. split; [done|]. split; [set_solver|done].
  - intros (os & Hos & [= <- <-])%bind_Some. apply bind_Some in Hos as ([t Lx] & Hx & Hos).
    apply bind_Some in Hos as (os' & Hm & [= <-]).
    destruct (Hf _ _ _ _ Hx) as (x' & h1 & Lx' & Ef & Hs1 & Hx' & Hd1).
    destruct (IH h1 os'.*1 (⋃ os'.*2)) as (ys & h2 & L2 & Ec & Hs2 & Ho2 & Hd2 & Hlen).
    { unfold observe_list. assert (mapM (observe h1) xs = Some os') as ->; [|done].
      apply mapM_Some in Hm. apply mapM_Some. eapply Forall2_impl; [exact Hm|].
      intros y [ty Ly] Hy. by eapply observe_extend. }
    unfold observe_list in Ho2. apply bind_Some in Ho2 as (os2 & Hm2 & [= Ets <-]).
    exists (x' :: ys), h2, (Lx' ∪ ⋃ os2.*2). split; [by repeat (eapply bind_step; [eassumption|])|]. split; [by etrans|]. split; [|split; [apply subseteq_dom in Hs1; set_solver|cbn; by rewrite Hlen]].
    assert (mapM (observe h2) (x' :: ys) = Some ((t, Lx') :: os2)) as ->; [|cbn; by rewrite Ets].
    apply mapM_Some. apply mapM_Some in Hm2. constructor; [by eapply observe_extend|done].
Qed.

Lemma copy_slice_copies {A} `{!Storable cell (list A), !GoType A} (f : A -> M A) : copies f -> copies (copy_slice f).
Proof.
  intros Hf h [[l|] o n] t L; cbn; [|intros [= <- <-]; exists (Slice None o n), h, ∅; by repeat split].
  intros (xs & Hl & HG)%bind_Some. case_guard as Hlen; [|done]. cbn in HG, Hlen.
  apply bind_Some in HG as ([ts L'] & Ho & [= <- <-]).
  destruct (copy_elements_copies f _ Hf _ _ _ Ho) as (ys & h1 & Ly & Ec & Hs1 & Hoy & Hd1 & Hly).
  destruct (alloc_spec ys h1) as (l' & h2 & Eal & Hl' & Hs2 & Hld).
  assert (length ys = n)%nat as Hn by (rewrite Hly; unfold elements; cbn; rewrite length_take, length_drop; lia).
  exists (Slice (Some l') 0 n), h2, ({[l']} ∪ Ly). split.
  { unfold copy_slice. cbn [array]. eapply bind_step; [by apply read_step|]. by repeat (eapply bind_step; [eassumption|]). } split; [by etrans|]. split.
  - cbn. rewrite Hld. cbn. case_guard; [|lia]. cbn. unfold elements. cbn [slen offset]. rewrite drop_0, take_ge by (cbn; lia).
    unfold observe_list in *. apply bind_Some in Hoy as (os & Hm%mapM_Some & [= <- <-]).
    assert (mapM (observe h2) ys = Some os) as ->; [|done].
    apply mapM_Some. eapply Forall2_impl; [exact Hm|]. intros y [ty Ly] Hy. by eapply observe_extend.
  - apply subseteq_dom in Hs1. set_solver.
Qed.

(** * Maps *)

Definition observe_table {A} `{!GoType A} (h : memory) (m : gmap string A) : option (gmap string tree * gset positive) :=
  let seen := observe h <$> m in
  guard (map_Forall (fun _ o => is_Some o) seen);;
  Some (omap (fmap fst) seen, ⋃ (from_option snd ∅ <$> (map_to_list seen).*2)).

Lemma observe_table_Some {A} `{!GoType A} h (m : gmap string A) mt L :
  observe_table h m = Some (mt, L) <->
  (forall k v, m !! k = Some v -> is_Some (observe h v)) /\
  mt = omap (fun v => fst <$> observe h v) m /\
  L = ⋃ (from_option snd ∅ <$> (map_to_list (observe h <$> m)).*2).
Proof.
  unfold observe_table.
  assert (omap (fmap fst) (observe h <$> m) = omap (fun v => fst <$> observe h v) m) as ->.
  { apply map_eq. intros k. rewrite !lookup_omap, lookup_fmap. by destruct (m !! k). }
  case_guard as HF; cbn.
  - split; [intros [= <- <-]; split; [|done]|by intros (_ & -> & ->)].
    intros k v Hk. eapply HF. by rewrite lookup_fmap, Hk.
  - split; [done|]. intros (H & _). destruct HF. intros k o Hk. rewrite lookup_fmap in Hk.
    destruct (m !! k) as [v|] eqn:E; [|done]. cbn in Hk. injection Hk as <-. by eapply H.
Qed.

(** Every value of the map is seen, and what it reaches. *)
Lemma observe_table_value {A} `{!GoType A} h (m : gmap string A) mt L k v :
  observe_table h m = Some (mt, L) -> m !! k = Some v -> exists t Lv, observe h v = Some (t, Lv) /\ Lv ⊆ L.
Proof.
  intros (HS & _ & ->)%observe_table_Some Hk. destruct (HS k v Hk) as [[t Lv] Ho]. exists t, Lv. split; [done|].
  intros l Hl. apply elem_of_union_list. exists Lv. split; [|done].
  apply list_elem_of_fmap. exists (Some (t, Lv)). split; [done|]. apply list_elem_of_fmap.
  exists (k, Some (t, Lv)). split; [done|]. apply elem_of_map_to_list. by rewrite lookup_fmap, Hk; cbn; rewrite Ho.
Qed.

(** What the map reaches, some value reaches. *)
Lemma observe_table_reach {A} `{!GoType A} h (m : gmap string A) mt L l :
  observe_table h m = Some (mt, L) -> l ∈ L ->
  exists k v t Lv, m !! k = Some v /\ observe h v = Some (t, Lv) /\ l ∈ Lv.
Proof.
  intros (HS & _ & ->)%observe_table_Some (Lv & Hin & Hl)%elem_of_union_list.
  apply list_elem_of_fmap in Hin as (o & -> & ([k o'] & -> & Hin)%list_elem_of_fmap).
  apply elem_of_map_to_list in Hin. rewrite lookup_fmap in Hin. cbn in Hl.
  destruct (m !! k) as [v|] eqn:Ek; [|done]. cbn in Hin. injection Hin as <-.
  destruct (observe h v) as [[t Lv]|] eqn:Eo; [|by apply elem_of_empty in Hl]. by exists k, v, t, Lv.
Qed.

#[global] Program Instance gomap_GoType {A} `{!Storable cell (gmap string A), !GoType A} : GoType (gomap A) := {|
  observe h m := match table m with
    | None => Some (TNil, ∅)
    | Some l => es ← load h l; '(mt, L) ← observe_table h es; Some (TMap mt, {[l]} ∪ L)
    end |}.
Next Obligation.
  intros A SA HA h [[l|]] t L; cbn; [|by intros [= _ <-]].
  intros (es & Hl%load_dom & ([mt L'] & Ho & [= <- <-])%bind_Some)%bind_Some.
  intros x [->%elem_of_singleton|Hx]%elem_of_union; [done|].
  destruct (observe_table_reach _ _ _ _ _ Ho Hx) as (k & v & t & Lv & _ & Hv%observe_dom & Hin). by apply Hv.
Qed.
Next Obligation.
  intros A SA HA h h' [[l|]] t L; cbn; [|done].
  intros (es & Hl & ([mt L'] & Ho & [= <- <-])%bind_Some)%bind_Some Hag.
  rewrite (load_agree h), Hl by (apply Hag; set_solver). cbn.
  assert (observe_table h' es = Some (mt, L')) as ->; [|done]. rewrite <- Ho. unfold observe_table.
  assert (observe h' <$> es = observe h <$> es) as ->; [|done].
  apply map_fmap_ext. intros k v Hk. destruct (observe_table_value _ _ _ _ _ _ Ho Hk) as (t & Lv & Hv & Hsub).
  rewrite Hv. eapply observe_agree; [done|]. intros x Hx. apply Hag. set_solver.
Qed.

Context `{!MapRange}.

Fixpoint copy_entries {A} (f : A -> M A) (es : list (string * A)) (out : gmap string A) : M (gmap string A) :=
  match es with
  | [] => mret out
  | (key, val) :: es => val' ← f val; copy_entries f es (<[key := val']> out)
  end.

(** [*out = make(map[string]T, len(in))] and a loop over the entries. *)
Definition copy_map {A} `{!Storable cell (gmap string A)} (f : A -> M A) (m : gomap A) : M (gomap A) :=
  match table m with
  | None => mret m
  | Some l => es ← read l; out ← copy_entries f (range es) ∅; l' ← alloc out; mret (GoMap (Some l'))
  end.

Lemma copy_entries_spec {A} `{!GoType A} (f : A -> M A) es : copies f -> NoDup es.*1 ->
  forall h out, (forall k v, (k, v) ∈ es -> is_Some (observe h v)) ->
  exists out' h', copy_entries f es out h = Some (out', h') /\ h ⊆ h' /\
    (forall k v, (k, v) ∈ es -> exists v' t Lv Lv', out' !! k = Some v' /\ observe h v = Some (t, Lv) /\
      observe h' v' = Some (t, Lv') /\ Lv' ## dom h) /\
    (forall k, k ∉ es.*1 -> out' !! k = out !! k).
Proof.
  intros Hf. induction es as [|[k v] es IH]; intros Hnd h out Hok.
  - exists out, h. split; [done|]. split; [done|]. split; [by intros k v ?%elem_of_nil|done].
  - rewrite fmap_cons, NoDup_cons in Hnd. destruct Hnd as [Hno Hnd]. cbn [fst] in Hno.
    destruct (Hok k v) as [[t Lv] Ho]; [by left|].
    destruct (Hf _ _ _ _ Ho) as (v' & h1 & Lv' & Ef & Hs1 & Hv' & Hd1).
    destruct (IH Hnd h1 (<[k := v']> out)) as (out' & h2 & Ec & Hs2 & Hall & Hother).
    { intros k2 v2 Hin. destruct (Hok k2 v2) as [[t2 L2] Ho2]; [by right|]. eexists. by eapply observe_extend. }
    exists out', h2. split; [by eapply bind_step|]. split; [by etrans|]. split.
    + intros k2 v2 [[= -> ->]|Hin]%elem_of_cons.
      * exists v', t, Lv, Lv'. rewrite (Hother k) by done. rewrite lookup_insert_eq.
        split; [done|]. split; [done|]. split; [by eapply observe_extend|done].
      * destruct (Hall k2 v2 Hin) as (w & t2 & L2 & L2' & Hw & Hv2 & Hw2 & Hd2).
        destruct (Hok k2 v2) as [[t3 L3] Ho3]; [by right|].
        rewrite (observe_extend _ _ _ _ _ Ho3 Hs1) in Hv2. injection Hv2 as <- <-.
        exists w, t3, L3, L2'. split; [done|]. split; [done|]. split; [done|]. apply subseteq_dom in Hs1. set_solver.
    + intros k2 Hk2. rewrite fmap_cons, not_elem_of_cons in Hk2. destruct Hk2 as [Hne Hk2].
      by rewrite Hother, lookup_insert_ne.
Qed.

Lemma copy_map_copies {A} `{!Storable cell (gmap string A), !GoType A} (f : A -> M A) : copies f -> copies (copy_map f).
Proof.
  intros Hf h [[l|]] t L; cbn; [|intros [= <- <-]; exists (GoMap None), h, ∅; by repeat split].
  intros (es & Hl & ([mt L'] & Ho & [= <- <-])%bind_Some)%bind_Some.
  destruct (copy_entries_spec f (range es) Hf) with (h := h) (out := ∅ : gmap string A)
    as (out & h1 & Ec & Hs1 & Hall & Hother).
  { rewrite range_perm. apply NoDup_fst_map_to_list. }
  { intros k v Hin. rewrite range_perm, elem_of_map_to_list in Hin.
    destruct (observe_table_value _ _ _ _ _ _ Ho Hin) as (t & Lv & Hv & _). by eexists. }
  assert (forall k, match es !! k with
    | Some v => exists v' t Lv Lv', out !! k = Some v' /\ observe h v = Some (t, Lv) /\ observe h1 v' = Some (t, Lv') /\ Lv' ## dom h
    | None => out !! k = None end) as Hk.
  { intros k. destruct (es !! k) as [v|] eqn:Ek; [apply Hall; by rewrite range_perm, elem_of_map_to_list|].
    rewrite Hother; [done|]. rewrite range_perm. intros ([k' v] & -> & Hin)%list_elem_of_fmap.
    apply elem_of_map_to_list in Hin. cbn in Ek. congruence. }
  destruct (alloc_spec out h1) as (l' & h2 & Eal & Hl' & Hs2 & Hld).
  assert (exists L2, observe_table h2 out = Some (mt, L2)) as [L2 Ho2].
  { eexists. apply observe_table_Some. split; [|split; [|done]].
    - intros k v Hkv. specialize (Hk k). destruct (es !! k) as [v0|]; [|congruence].
      destruct Hk as (v' & t & Lv & Lv' & Hv & _ & Hv' & _). assert (v' = v) as -> by congruence.
      eexists. by eapply observe_extend.
    - apply observe_table_Some in Ho as (_ & -> & _). apply map_eq. intros k. rewrite !lookup_omap. specialize (Hk k).
      destruct (es !! k) as [v|]; [|by rewrite Hk]. destruct Hk as (v' & t & Lv & Lv' & Hv & Hv1 & Hv' & _).
      rewrite Hv. cbn. by rewrite Hv1, (observe_extend _ _ _ _ _ Hv' Hs2). }
  exists (GoMap (Some l')), h2, ({[l']} ∪ L2). split.
  { unfold copy_map. cbn [table]. eapply bind_step; [by apply read_step|]. by repeat (eapply bind_step; [eassumption|]). }
  split; [by etrans|]. split; [cbn; rewrite Hld; cbn; by rewrite Ho2|].
  intros x [->%elem_of_singleton|Hx]%elem_of_union; [apply subseteq_dom in Hs1; set_solver|].
  destruct (observe_table_reach _ _ _ _ _ Ho2 Hx) as (k & v & t & Lv & Hv & Hov & Hin). specialize (Hk k).
  destruct (es !! k) as [v0|]; [|congruence]. destruct Hk as (v' & t' & Lv0 & Lv' & Hv' & _ & Hv1 & Hd).
  assert (v' = v) as -> by congruence. rewrite (observe_extend _ _ _ _ _ Hv1 Hs2) in Hov. injection Hov as <- <-. by apply Hd.
Qed.

(** [out[key] = *val.DeepCopy()]: the loop variable has an address, the copy a
    place of its own, which is read at once. *)
Definition copy_through {A} `{!Storable cell A} (deep_copy : ptr A -> M (ptr A)) (val : A) : M A :=
  l ← alloc val; p ← deep_copy (Ptr (Some l));
  match address p with Some l' => read l' | None => fun _ => None end.

Lemma copy_through_copies {A} `{!Storable cell A, !GoType A} (deep_copy : ptr A -> M (ptr A)) :
  copies deep_copy -> copies (copy_through deep_copy).
Proof.
  intros Hf h v t L Ho. destruct (alloc_spec v h) as (l & h1 & Eal & Hl & Hs1 & Hld).
  assert (observe h1 (Ptr (A := A) (Some l)) = Some (TPtr t, {[l]} ∪ L)) as Hp.
  { cbn. rewrite Hld. cbn. by rewrite (observe_extend _ _ _ _ _ Ho Hs1). }
  destruct (Hf _ _ _ _ Hp) as ([[l'|]] & h2 & L' & Ef & Hs2 & Ho2 & Hd2); cbn in Ho2; [|done].
  apply bind_Some in Ho2 as (v' & Hl' & ([t' Lv] & Hov & [= -> <-])%bind_Some).
  exists v', h2, Lv. split; [eapply bind_step; [done|]; eapply bind_step; [done|]; by apply read_step|].
  split; [by etrans|]. split; [done|]. apply subseteq_dom in Hs1. set_solver.
Qed.

(** * What a deep copy is good for *)

(** Memory as it is but for what happened at some locations. *)
Definition same_outside (L : gset positive) (h h' : memory) : Prop := forall l, l ∉ L -> h' !! l = h !! l.

(** Values that share nothing: whatever is written to one does not show in the
    other. *)
Lemma observe_outside {A} `{!GoType A} h h2 (v : A) t L L' :
  observe h v = Some (t, L) -> L ## L' -> same_outside L' h h2 -> observe h2 v = Some (t, L).
Proof. intros Ho Hd H2. eapply observe_agree; [done|]. intros l Hl. apply H2. set_solver. Qed.

Lemma copy_isolated {A B} `{!GoType A, !GoType B} h h' (v : A) (v' : B) t L L' :
  observe h v = Some (t, L) -> h ⊆ h' -> observe h' v' = Some (t, L') -> L' ## dom h ->
  (forall h2, same_outside L' h' h2 -> observe h2 v = Some (t, L)) /\
  (forall h2, same_outside L h' h2 -> observe h2 v' = Some (t, L')).
Proof.
  intros Ho Hs Ho' Hd. pose proof (observe_dom _ _ _ _ Ho) as HL.
  split; intros h2 H2; (eapply observe_outside; [by try eapply observe_extend| |exact H2]); set_solver.
Qed.
End memory.

Arguments M cell A : clear implicits.
Arguments GoType cell A : clear implicits.
