(* ===== verification/APITypes.v ===== *)
(** The types of api/v1alpha1 as they lie in memory: structs with their pointers,
    slices and maps, the cells that memory holds, and what can be seen of each
    type, field by field. *)

From S2P Require Import Prelude GoHeap.

(** The types of apimachinery that the objects embed or refer to, and the cells
    that only these use. *)
Class MetaTypes := {
  TypeMeta : Type; ObjectMeta : Type; ListMeta : Type;
  LabelSelector : Type; Condition : Type; Time : Type; Duration : Type;
  meta_cell : Type;
}.

Section types.
Context {meta : MetaTypes}.

(** * The structs *)

Record ParameterSpec := mkParameterSpec { ps_Name : string; ps_Type_ : string; ps_Description : string;
  ps_Default : string; ps_Required : bool }.
Record DocumentationSpec := mkDocumentationSpec { ds_Summary : string; ds_RootCauses : slice string;
  ds_ManualSteps : slice string; ds_RunbookURL : string }.
Record ResourceFilter := mkResourceFilter { rf_Kind : string; rf_APIVersion : string }.
Record ThresholdSpec := mkThresholdSpec { th_Count : Z; th_Window : Duration }.
Record DetectionSpec := mkDetectionSpec { de_Source : string; de_Resource : ptr ResourceFilter;
  de_Expression : string; de_Threshold : ptr ThresholdSpec; de_Duration : ptr Duration }.
Record ActionSpec := mkActionSpec { as_Type_ : string; as_Order : Z; as_Params : gomap string;
  as_If : string; as_Unless : string }.
Record NotifySpec := mkNotifySpec { ns_Severity : string; ns_Channels : slice string; ns_Message : string }.
Record EscalationSpec := mkEscalationSpec { es_Notify : ptr NotifySpec; es_CreateEvent : bool;
  es_MarkResource : bool }.
Record RemediationSpec := mkRemediationSpec { rs_Actions : slice ActionSpec; rs_Cooldown : ptr Duration;
  rs_MaxRetries : Z; rs_Escalation : ptr EscalationSpec }.
Record Scenario := mkScenario { sc_ID : Z; sc_Name : string; sc_Description : string; sc_Enabled : bool;
  sc_Severity : string; sc_Category : string; sc_Detection : DetectionSpec; sc_Remediation : RemediationSpec;
  sc_Parameters : slice ParameterSpec; sc_Documentation : DocumentationSpec }.
Record ScenarioLibrarySpec := mkScenarioLibrarySpec { ls_Scenarios : gomap Scenario }.
Record ScenarioLibraryStatus := mkScenarioLibraryStatus { lt_ScenarioCount : Z; lt_EnabledCount : Z;
  lt_LastUpdated : Time; lt_Conditions : slice Condition }.
Record ScenarioLibrary := mkScenarioLibrary { sl_TypeMeta_ : TypeMeta; sl_ObjectMeta_ : ObjectMeta;
  sl_Spec : ScenarioLibrarySpec; sl_Status : ScenarioLibraryStatus }.
Record ScenarioLibraryList := mkScenarioLibraryList { sll_TypeMeta_ : TypeMeta; sll_ListMeta_ : ListMeta;
  sll_Items : slice ScenarioLibrary }.
Record ScenarioLibraryReference := mkScenarioLibraryReference { sr_Name : string }.
Record SecretReference := mkSecretReference { se_Name : string; se_Namespace : string; se_Key : string }.
Record NotificationChannel := mkNotificationChannel { nc_Name : string; nc_Type_ : string; nc_URL : string;
  nc_SecretRef : ptr SecretReference }.
Record GlobalEscalationConfig := mkGlobalEscalationConfig { ge_Enabled : bool;
  ge_DefaultChannels : slice string }.
Record GlobalPolicyConfig := mkGlobalPolicyConfig { gp_DryRun : bool; gp_Paused : bool;
  gp_DefaultCooldown : ptr Duration; gp_DefaultMaxRetries : ptr Z;
  gp_Escalation : ptr GlobalEscalationConfig; gp_NotificationChannels : slice NotificationChannel }.
Record ScenarioConfig := mkScenarioConfig { sf_Name : string; sf_Enabled : ptr bool;
  sf_Parameters : gomap string; sf_Cooldown : ptr Duration; sf_MaxRetries : ptr Z;
  sf_AdditionalLabels : gomap string }.
Record TargetSelector := mkTargetSelector { ts_Namespaces : slice string;
  ts_ExcludedNamespaces : slice string; ts_LabelSelector_ : ptr LabelSelector; ts_ResourceTypes : slice string }.
Record ClusterRemediationPolicySpec := mkClusterRemediationPolicySpec { cs_TargetSelector_ : TargetSelector;
  cs_ScenarioLibraryRef : ScenarioLibraryReference; cs_ScenarioConfigs : slice ScenarioConfig;
  cs_GlobalConfig : GlobalPolicyConfig }.
Record DetectionStats := mkDetectionStats { dt_TotalDetections : Z; dt_Last24Hours : Z;
  dt_ByScenario : gomap Z }.
Record RemediationStats := mkRemediationStats { rt_TotalRemediations : Z; rt_SuccessCount : Z;
  rt_FailureCount : Z; rt_SkippedCount : Z; rt_EscalationCount : Z; rt_Last24Hours : Z }.
Record ClusterRemediationPolicyStatus := mkClusterRemediationPolicyStatus { ct_Active : bool;
  ct_MatchedResources : Z; ct_EnabledScenarios : Z; ct_LastEvaluated : Time;
  ct_DetectionStats_ : DetectionStats; ct_RemediationStats_ : RemediationStats;
  ct_Conditions : slice Condition }.
Record ClusterRemediationPolicy := mkClusterRemediationPolicy { cp_TypeMeta_ : TypeMeta;
  cp_ObjectMeta_ : ObjectMeta; cp_Spec : ClusterRemediationPolicySpec;
  cp_Status : ClusterRemediationPolicyStatus }.
Record ClusterRemediationPolicyList := mkClusterRemediationPolicyList { cpl_TypeMeta_ : TypeMeta;
  cpl_ListMeta_ : ListMeta; cpl_Items : slice ClusterRemediationPolicy }.
Record TaskAction := mkTaskAction { ta_Type_ : string; ta_Order : Z; ta_Params : gomap string }.
Record TaskTarget := mkTaskTarget { tt_APIVersion : string; tt_Kind : string; tt_Name : string;
  tt_Namespace : string }.
Record RemediationTaskSpec := mkRemediationTaskSpec { tp_ScenarioID : string; tp_ScenarioName : string;
  tp_DetectionResultID : string; tp_Severity : string; tp_Target : TaskTarget; tp_Actions : slice TaskAction;
  tp_Timeout : Duration; tp_MaxRetries : Z }.
Record TaskResult := mkTaskResult { tr_Success : bool; tr_Message : string; tr_Error : string }.
Record RemediationTaskStatus := mkRemediationTaskStatus { tu_Phase : string; tu_ClaimedBy : string;
  tu_ClaimedAt : ptr Time; tu_CompletedAt : ptr Time; tu_ActionsCompleted : Z; tu_RetryCount : Z;
  tu_Result : ptr TaskResult }.
Record RemediationTask := mkRemediationTask { rk_TypeMeta_ : TypeMeta; rk_ObjectMeta_ : ObjectMeta;
  rk_Spec : RemediationTaskSpec; rk_Status : RemediationTaskStatus }.
Record RemediationTaskList := mkRemediationTaskList { rkl_TypeMeta_ : TypeMeta; rkl_ListMeta_ : ListMeta;
  rkl_Items : slice RemediationTask }.

(** * Memory *)

Inductive cell :=
  | CParameterSpec (x : ParameterSpec)
  | CDocumentationSpec (x : DocumentationSpec)
  | CResourceFilter (x : ResourceFilter)
  | CThresholdSpec (x : ThresholdSpec)
  | CDetectionSpec (x : DetectionSpec)
  | CActionSpec (x : ActionSpec)
  | CNotifySpec (x : NotifySpec)
  | CEscalationSpec (x : EscalationSpec)
  | CRemediationSpec (x : RemediationSpec)
  | CScenario (x : Scenario)
  | CScenarioLibrarySpec (x : ScenarioLibrarySpec)
  | CScenarioLibraryStatus (x : ScenarioLibraryStatus)
  | CScenarioLibrary (x : ScenarioLibrary)
  | CScenarioLibraryList (x : ScenarioLibraryList)
  | CScenarioLibraryReference (x : ScenarioLibraryReference)
  | CSecretReference (x : SecretReference)
  | CNotificationChannel (x : NotificationChannel)
  | CGlobalEscalationConfig (x : GlobalEscalationConfig)
  | CGlobalPolicyConfig (x : GlobalPolicyConfig)
  | CScenarioConfig (x : ScenarioConfig)
  | CTargetSelector (x : TargetSelector)
  | CClusterRemediationPolicySpec (x : ClusterRemediationPolicySpec)
  | CDetectionStats (x : DetectionStats)
  | CRemediationStats (x : RemediationStats)
  | CClusterRemediationPolicyStatus (x : ClusterRemediationPolicyStatus)
  | CClusterRemediationPolicy (x : ClusterRemediationPolicy)
  | CClusterRemediationPolicyList (x : ClusterRemediationPolicyList)
  | CTaskAction (x : TaskAction)
  | CTaskTarget (x : TaskTarget)
  | CRemediationTaskSpec (x : RemediationTaskSpec)
  | CTaskResult (x : TaskResult)
  | CRemediationTaskStatus (x : RemediationTaskStatus)
  | CRemediationTask (x : RemediationTask)
  | CRemediationTaskList (x : RemediationTaskList)
  | CInt (x : Z)
  | CBool (x : bool)
  | CDuration (x : Duration)
  | CLabelSelector (x : LabelSelector)
  | CTime (x : Time)
  | CArrayOfString (x : list string)
  | CArrayOfActionSpec (x : list ActionSpec)
  | CArrayOfParameterSpec (x : list ParameterSpec)
  | CArrayOfCondition (x : list Condition)
  | CArrayOfScenarioLibrary (x : list ScenarioLibrary)
  | CArrayOfNotificationChannel (x : list NotificationChannel)
  | CArrayOfScenarioConfig (x : list ScenarioConfig)
  | CArrayOfClusterRemediationPolicy (x : list ClusterRemediationPolicy)
  | CArrayOfTaskAction (x : list TaskAction)
  | CArrayOfRemediationTask (x : list RemediationTask)
  | CMapOfString (x : gmap string string)
  | CMapOfScenario (x : gmap string Scenario)
  | CMapOfInt (x : gmap string Z)
  | CMeta (x : meta_cell).

#[global] Instance CParameterSpec_Storable : Storable cell (ParameterSpec) := {|
  inj := CParameterSpec; prj c := match c with CParameterSpec x => Some x | _ => None end; prj_inj _ := eq_refl |}.
#[global] Instance CDocumentationSpec_Storable : Storable cell (DocumentationSpec) := {|
  inj := CDocumentationSpec; prj c := match c with CDocumentationSpec x => Some x | _ => None end; prj_inj _ := eq_refl |}.
#[global] Instance CResourceFilter_Storable : Storable cell (ResourceFilter) := {|
  inj := CResourceFilter; prj c := match c with CResourceFilter x => Some x | _ => None end; prj_inj _ := eq_refl |}.
#[global] Instance CThresholdSpec_Storable : Storable cell (ThresholdSpec) := {|
  inj := CThresholdSpec; prj c := match c with CThresholdSpec x => Some x | _ => None end; prj_inj _ := eq_refl |}.
#[global] Instance CDetectionSpec_Storable : Storable cell (DetectionSpec) := {|
  inj := CDetectionSpec; prj c := match c with CDetectionSpec x => Some x | _ => None end; prj_inj _ := eq_refl |}.
#[global] Instance CActionSpec_Storable : Storable cell (ActionSpec) := {|
  inj := CActionSpec; prj c := match c with CActionSpec x => Some x | _ => None end; prj_inj _ := eq_refl |}.
#[global] Instance CNotifySpec_Storable : Storable cell (NotifySpec) := {|
  inj := CNotifySpec; prj c := match c with CNotifySpec x => Some x | _ => None end; prj_inj _ := eq_refl |}.
#[global] Instance CEscalationSpec_Storable : Storable cell (EscalationSpec) := {|
  inj := CEscalationSpec; prj c := match c with CEscalationSpec x => Some x | _ => None end; prj_inj _ := eq_refl |}.
#[global] Instance CRemediationSpec_Storable : Storable cell (RemediationSpec) := {|
  inj := CRemediationSpec; prj c := match c with CRemediationSpec x => Some x | _ => None end; prj_inj _ := eq_refl |}.
#[global] Instance CScenario_Storable : Storable cell (Scenario) := {|
  inj := CScenario; prj c := match c with CScenario x => Some x | _ => None end; prj_inj _ := eq_refl |}.
#[global] Instance CScenarioLibrarySpec_Storable : Storable cell (ScenarioLibrarySpec) := {|
  inj := CScenarioLibrarySpec; prj c := match c with CScenarioLibrarySpec x => Some x | _ => None end; prj_inj _ := eq_refl |}.
#[global] Instance CScenarioLibraryStatus_Storable : Storable cell (ScenarioLibraryStatus) := {|
  inj := CScenarioLibraryStatus; prj c := match c with CScenarioLibraryStatus x => Some x | _ => None end; prj_inj _ := eq_refl |}.
#[global] Instance CScenarioLibrary_Storable : Storable cell (ScenarioLibrary) := {|
  inj := CScenarioLibrary; prj c := match c with CScenarioLibrary x => Some x | _ => None end; prj_inj _ := eq_refl |}.
#[global] Instance CScenarioLibraryList_Storable : Storable cell (ScenarioLibraryList) := {|
  inj := CScenarioLibraryList; prj c := match c with CScenarioLibraryList x => Some x | _ => None end; prj_inj _ := eq_refl |}.
#[global] Instance CScenarioLibraryReference_Storable : Storable cell (ScenarioLibraryReference) := {|
  inj := CScenarioLibraryReference; prj c := match c with CScenarioLibraryReference x => Some x | _ => None end; prj_inj _ := eq_refl |}.
#[global] Instance CSecretReference_Storable : Storable cell (SecretReference) := {|
  inj := CSecretReference; prj c := match c with CSecretReference x => Some x | _ => None end; prj_inj _ := eq_refl |}.
#[global] Instance CNotificationChannel_Storable : Storable cell (NotificationChannel) := {|
  inj := CNotificationChannel; prj c := match c with CNotificationChannel x => Some x | _ => None end; prj_inj _ := eq_refl |}.
#[global] Instance CGlobalEscalationConfig_Storable : Storable cell (GlobalEscalationConfig) := {|
  inj := CGlobalEscalationConfig; prj c := match c with CGlobalEscalationConfig x => Some x | _ => None end; prj_inj _ := eq_refl |}.
#[global] Instance CGlobalPolicyConfig_Storable : Storable cell (GlobalPolicyConfig) := {|
  inj := CGlobalPolicyConfig; prj c := match c with CGlobalPolicyConfig x => Some x | _ => None end; prj_inj _ := eq_refl |}.
#[global] Instance CScenarioConfig_Storable : Storable cell (ScenarioConfig) := {|
  inj := CScenarioConfig; prj c := match c with CScenarioConfig x => Some x | _ => None end; prj_inj _ := eq_refl |}.
#[global] Instance CTargetSelector_Storable : Storable cell (TargetSelector) := {|
  inj := CTargetSelector; prj c := match c with CTargetSelector x => Some x | _ => None end; prj_inj _ := eq_refl |}.
#[global] Instance CClusterRemediationPolicySpec_Storable : Storable cell (ClusterRemediationPolicySpec) := {|
  inj := CClusterRemediationPolicySpec; prj c := match c with CClusterRemediationPolicySpec x => Some x | _ => None end; prj_inj _ := eq_refl |}.
#[global] Instance CDetectionStats_Storable : Storable cell (DetectionStats) := {|
  inj := CDetectionStats; prj c := match c with CDetectionStats x => Some x | _ => None end; prj_inj _ := eq_refl |}.
#[global] Instance CRemediationStats_Storable : Storable cell (RemediationStats) := {|
  inj := CRemediationStats; prj c := match c with CRemediationStats x => Some x | _ => None end; prj_inj _ := eq_refl |}.
#[global] Instance CClusterRemediationPolicyStatus_Storable : Storable cell (ClusterRemediationPolicyStatus) := {|
  inj := CClusterRemediationPolicyStatus; prj c := match c with CClusterRemediationPolicyStatus x => Some x | _ => None end; prj_inj _ := eq_refl |}.
#[global] Instance CClusterRemediationPolicy_Storable : Storable cell (ClusterRemediationPolicy) := {|
  inj := CClusterRemediationPolicy; prj c := match c with CClusterRemediationPolicy x => Some x | _ => None end; prj_inj _ := eq_refl |}.
#[global] Instance CClusterRemediationPolicyList_Storable : Storable cell (ClusterRemediationPolicyList) := {|
  inj := CClusterRemediationPolicyList; prj c := match c with CClusterRemediationPolicyList x => Some x | _ => None end; prj_inj _ := eq_refl |}.
#[global] Instance CTaskAction_Storable : Storable cell (TaskAction) := {|
  inj := CTaskAction; prj c := match c with CTaskAction x => Some x | _ => None end; prj_inj _ := eq_refl |}.
#[global] Instance CTaskTarget_Storable : Storable cell (TaskTarget) := {|
  inj := CTaskTarget; prj c := match c with CTaskTarget x => Some x | _ => None end; prj_inj _ := eq_refl |}.
#[global] Instance CRemediationTaskSpec_Storable : Storable cell (RemediationTaskSpec) := {|
  inj := CRemediationTaskSpec; prj c := match c with CRemediationTaskSpec x => Some x | _ => None end; prj_inj _ := eq_refl |}.
#[global] Instance CTaskResult_Storable : Storable cell (TaskResult) := {|
  inj := CTaskResult; prj c := match c with CTaskResult x => Some x | _ => None end; prj_inj _ := eq_refl |}.
#[global] Instance CRemediationTaskStatus_Storable : Storable cell (RemediationTaskStatus) := {|
  inj := CRemediationTaskStatus; prj c := match c with CRemediationTaskStatus x => Some x | _ => None end; prj_inj _ := eq_refl |}.
#[global] Instance CRemediationTask_Storable : Storable cell (RemediationTask) := {|
  inj := CRemediationTask; prj c := match c with CRemediationTask x => Some x | _ => None end; prj_inj _ := eq_refl |}.
#[global] Instance CRemediationTaskList_Storable : Storable cell (RemediationTaskList) := {|
  inj := CRemediationTaskList; prj c := match c with CRemediationTaskList x => Some x | _ => None end; prj_inj _ := eq_refl |}.
#[global] Instance CInt_Storable : Storable cell (Z) := {|
  inj := CInt; prj c := match c with CInt x => Some x | _ => None end; prj_inj _ := eq_refl |}.
#[global] Instance CBool_Storable : Storable cell (bool) := {|
  inj := CBool; prj c := match c with CBool x => Some x | _ => None end; prj_inj _ := eq_refl |}.
#[global] Instance CDuration_Storable : Storable cell (Duration) := {|
  inj := CDuration; prj c := match c with CDuration x => Some x | _ => None end; prj_inj _ := eq_refl |}.
#[global] Instance CLabelSelector_Storable : Storable cell (LabelSelector) := {|
  inj := CLabelSelector; prj c := match c with CLabelSelector x => Some x | _ => None end; prj_inj _ := eq_refl |}.
#[global] Instance CTime_Storable : Storable cell (Time) := {|
  inj := CTime; prj c := match c with CTime x => Some x | _ => None end; prj_inj _ := eq_refl |}.
#[global] Instance CArrayOfString_Storable : Storable cell (list string) := {|
  inj := CArrayOfString; prj c := match c with CArrayOfString x => Some x | _ => None end; prj_inj _ := eq_refl |}.
#[global] Instance CArrayOfActionSpec_Storable : Storable cell (list ActionSpec) := {|
  inj := CArrayOfActionSpec; prj c := match c with CArrayOfActionSpec x => Some x | _ => None end; prj_inj _ := eq_refl |}.
#[global] Instance CArrayOfParameterSpec_Storable : Storable cell (list ParameterSpec) := {|
  inj := CArrayOfParameterSpec; prj c := match c with CArrayOfParameterSpec x => Some x | _ => None end; prj_inj _ := eq_refl |}.
#[global] Instance CArrayOfCondition_Storable : Storable cell (list Condition) := {|
  inj := CArrayOfCondition; prj c := match c with CArrayOfCondition x => Some x | _ => None end; prj_inj _ := eq_refl |}.
#[global] Instance CArrayOfScenarioLibrary_Storable : Storable cell (list ScenarioLibrary) := {|
  inj := CArrayOfScenarioLibrary; prj c := match c with CArrayOfScenarioLibrary x => Some x | _ => None end; prj_inj _ := eq_refl |}.
#[global] Instance CArrayOfNotificationChannel_Storable : Storable cell (list NotificationChannel) := {|
  inj := CArrayOfNotificationChannel; prj c := match c with CArrayOfNotificationChannel x => Some x | _ => None end; prj_inj _ := eq_refl |}.
#[global] Instance CArrayOfScenarioConfig_Storable : Storable cell (list ScenarioConfig) := {|
  inj := CArrayOfScenarioConfig; prj c := match c with CArrayOfScenarioConfig x => Some x | _ => None end; prj_inj _ := eq_refl |}.
#[global] Instance CArrayOfClusterRemediationPolicy_Storable : Storable cell (list ClusterRemediationPolicy) := {|
  inj := CArrayOfClusterRemediationPolicy; prj c := match c with CArrayOfClusterRemediationPolicy x => Some x | _ => None end; prj_inj _ := eq_refl |}.
#[global] Instance CArrayOfTaskAction_Storable : Storable cell (list TaskAction) := {|
  inj := CArrayOfTaskAction; prj c := match c with CArrayOfTaskAction x => Some x | _ => None end; prj_inj _ := eq_refl |}.
#[global] Instance CArrayOfRemediationTask_Storable : Storable cell (list RemediationTask) := {|
  inj := CArrayOfRemediationTask; prj c := match c with CArrayOfRemediationTask x => Some x | _ => None end; prj_inj _ := eq_refl |}.
#[global] Instance CMapOfString_Storable : Storable cell (gmap string string) := {|
  inj := CMapOfString; prj c := match c with CMapOfString x => Some x | _ => None end; prj_inj _ := eq_refl |}.
#[global] Instance CMapOfScenario_Storable : Storable cell (gmap string Scenario) := {|
  inj := CMapOfScenario; prj c := match c with CMapOfScenario x => Some x | _ => None end; prj_inj _ := eq_refl |}.
#[global] Instance CMapOfInt_Storable : Storable cell (gmap string Z) := {|
  inj := CMapOfInt; prj c := match c with CMapOfInt x => Some x | _ => None end; prj_inj _ := eq_refl |}.
#[global] Instance CMeta_Storable : Storable cell (meta_cell) := {|
  inj := CMeta; prj c := match c with CMeta x => Some x | _ => None end; prj_inj _ := eq_refl |}.
End types.

(** * What is seen of a struct *)

(** The types of apimachinery can be seen as well; [TypeMeta] and [Duration] refer
    to no memory. *)
Class MetaSeen `{MetaTypes} := {
  TypeMeta_GoType :: GoType cell TypeMeta; TypeMeta_Plain :: Plain (cell := cell) TypeMeta;
  Duration_GoType :: GoType cell Duration; Duration_Plain :: Plain (cell := cell) Duration;
  ObjectMeta_GoType :: GoType cell ObjectMeta; ListMeta_GoType :: GoType cell ListMeta;
  LabelSelector_GoType :: GoType cell LabelSelector; Condition_GoType :: GoType cell Condition;
  Time_GoType :: GoType cell Time;
}.

Section seen.
Context `{MetaSeen}.

Definition ParameterSpec_fields (x : ParameterSpec) :=
  (ps_Name x, ps_Type_ x, ps_Description x, ps_Default x, ps_Required x).
#[global] Instance ParameterSpec_GoType : GoType cell ParameterSpec := record_GoType ParameterSpec_fields.
#[global] Instance ParameterSpec_Plain : Plain (cell := cell) ParameterSpec := record_Plain ParameterSpec_fields.
Definition DocumentationSpec_fields (x : DocumentationSpec) := (ds_Summary x, ds_RootCauses x, ds_ManualSteps x, ds_RunbookURL x).
#[global] Instance DocumentationSpec_GoType : GoType cell DocumentationSpec := record_GoType DocumentationSpec_fields.
Definition ResourceFilter_fields (x : ResourceFilter) := (rf_Kind x, rf_APIVersion x).
#[global] Instance ResourceFilter_GoType : GoType cell ResourceFilter := record_GoType ResourceFilter_fields.
#[global] Instance ResourceFilter_Plain : Plain (cell := cell) ResourceFilter := record_Plain ResourceFilter_fields.
Definition ThresholdSpec_fields (x : ThresholdSpec) := (th_Count x, th_Window x).
#[global] Instance ThresholdSpec_GoType : GoType cell ThresholdSpec := record_GoType ThresholdSpec_fields.
#[global] Instance ThresholdSpec_Plain : Plain (cell := cell) ThresholdSpec := record_Plain ThresholdSpec_fields.
Definition DetectionSpec_fields (x : DetectionSpec) :=
  (de_Source x, de_Resource x, de_Expression x, de_Threshold x, de_Duration x).
#[global] Instance DetectionSpec_GoType : GoType cell DetectionSpec := record_GoType DetectionSpec_fields.
Definition ActionSpec_fields (x : ActionSpec) := (as_Type_ x, as_Order x, as_Params x, as_If x, as_Unless x).
#[global] Instance ActionSpec_GoType : GoType cell ActionSpec := record_GoType ActionSpec_fields.
Definition NotifySpec_fields (x : NotifySpec) := (ns_Severity x, ns_Channels x, ns_Message x).
#[global] Instance NotifySpec_GoType : GoType cell NotifySpec := record_GoType NotifySpec_fields.
Definition EscalationSpec_fields (x : EscalationSpec) := (es_Notify x, es_CreateEvent x, es_MarkResource x).
#[global] Instance EscalationSpec_GoType : GoType cell EscalationSpec := record_GoType EscalationSpec_fields.
Definition RemediationSpec_fields (x : RemediationSpec) := (rs_Actions x, rs_Cooldown x, rs_MaxRetries x, rs_Escalation x).
#[global] Instance RemediationSpec_GoType : GoType cell RemediationSpec := record_GoType RemediationSpec_fields.
Definition Scenario_fields (x : Scenario) :=
  (sc_ID x, sc_Name x, sc_Description x, sc_Enabled x, sc_Severity x, sc_Category x, sc_Detection x,
  sc_Remediation x, sc_Parameters x, sc_Documentation x).
#[global] Instance Scenario_GoType : GoType cell Scenario := record_GoType Scenario_fields.
Definition ScenarioLibrarySpec_fields (x : ScenarioLibrarySpec) := ls_Scenarios x.
#[global] Instance ScenarioLibrarySpec_GoType : GoType cell ScenarioLibrarySpec := record_GoType ScenarioLibrarySpec_fields.
Definition ScenarioLibraryStatus_fields (x : ScenarioLibraryStatus) :=
  (lt_ScenarioCount x, lt_EnabledCount x, lt_LastUpdated x, lt_Conditions x).
#[global] Instance ScenarioLibraryStatus_GoType : GoType cell ScenarioLibraryStatus := record_GoType ScenarioLibraryStatus_fields.
Definition ScenarioLibrary_fields (x : ScenarioLibrary) := (sl_TypeMeta_ x, sl_ObjectMeta_ x, sl_Spec x, sl_Status x).
#[global] Instance ScenarioLibrary_GoType : GoType cell ScenarioLibrary := record_GoType ScenarioLibrary_fields.
Definition ScenarioLibraryList_fields (x : ScenarioLibraryList) := (sll_TypeMeta_ x, sll_ListMeta_ x, sll_Items x).
#[global] Instance ScenarioLibraryList_GoType : GoType cell ScenarioLibraryList := record_GoType ScenarioLibraryList_fields.
Definition ScenarioLibraryReference_fields (x : ScenarioLibraryReference) := sr_Name x.
#[global] Instance ScenarioLibraryReference_GoType : GoType cell ScenarioLibraryReference := record_GoType ScenarioLibraryReference_fields.
#[global] Instance ScenarioLibraryReference_Plain : Plain (cell := cell) ScenarioLibraryReference := record_Plain ScenarioLibraryReference_fields.
Definition SecretReference_fields (x : SecretReference) := (se_Name x, se_Namespace x, se_Key x).
#[global] Instance SecretReference_GoType : GoType cell SecretReference := record_GoType SecretReference_fields.
#[global] Instance SecretReference_Plain : Plain (cell := cell) SecretReference := record_Plain SecretReference_fields.
Definition NotificationChannel_fields (x : NotificationChannel) := (nc_Name x, nc_Type_ x, nc_URL x, nc_SecretRef x).
#[global] Instance NotificationChannel_GoType : GoType cell NotificationChannel := record_GoType NotificationChannel_fields.
Definition GlobalEscalationConfig_fields (x : GlobalEscalationConfig) := (ge_Enabled x, ge_DefaultChannels x).
#[global] Instance GlobalEscalationConfig_GoType : GoType cell GlobalEscalationConfig := record_GoType GlobalEscalationConfig_fields.
Definition GlobalPolicyConfig_fields (x : GlobalPolicyConfig) :=
  (gp_DryRun x, gp_Paused x, gp_DefaultCooldown x, gp_DefaultMaxRetries x, gp_Escalation x,
  gp_NotificationChannels x).
#[global] Instance GlobalPolicyConfig_GoType : GoType cell GlobalPolicyConfig := record_GoType GlobalPolicyConfig_fields.
Definition ScenarioConfig_fields (x : ScenarioConfig) :=
  (sf_Name x, sf_Enabled x, sf_Parameters x, sf_Cooldown x, sf_MaxRetries x, sf_AdditionalLabels x).
#[global] Instance ScenarioConfig_GoType : GoType cell ScenarioConfig := record_GoType ScenarioConfig_fields.
Definition TargetSelector_fields (x : TargetSelector) :=
  (ts_Namespaces x, ts_ExcludedNamespaces x, ts_LabelSelector_ x, ts_ResourceTypes x).
#[global] Instance TargetSelector_GoType : GoType cell TargetSelector := record_GoType TargetSelector_fields.
Definition ClusterRemediationPolicySpec_fields (x : ClusterRemediationPolicySpec) :=
  (cs_TargetSelector_ x, cs_ScenarioLibraryRef x, cs_ScenarioConfigs x, cs_GlobalConfig x).
#[global] Instance ClusterRemediationPolicySpec_GoType : GoType cell ClusterRemediationPolicySpec := record_GoType ClusterRemediationPolicySpec_fields.
Definition DetectionStats_fields (x : DetectionStats) := (dt_TotalDetections x, dt_Last24Hours x, dt_ByScenario x).
#[global] Instance DetectionStats_GoType : GoType cell DetectionStats := record_GoType DetectionStats_fields.
Definition RemediationStats_fields (x : RemediationStats) :=
  (rt_TotalRemediations x, rt_SuccessCount x, rt_FailureCount x, rt_SkippedCount x, rt_EscalationCount x,
  rt_Last24Hours x).
#[global] Instance RemediationStats_GoType : GoType cell RemediationStats := record_GoType RemediationStats_fields.
#[global] Instance RemediationStats_Plain : Plain (cell := cell) RemediationStats := record_Plain RemediationStats_fields.
Definition ClusterRemediationPolicyStatus_fields (x : ClusterRemediationPolicyStatus) :=
  (ct_Active x, ct_MatchedResources x, ct_EnabledScenarios x, ct_LastEvaluated x, ct_DetectionStats_ x,
  ct_RemediationStats_ x, ct_Conditions x).
#[global] Instance ClusterRemediationPolicyStatus_GoType : GoType cell ClusterRemediationPolicyStatus := record_GoType ClusterRemediationPolicyStatus_fields.
Definition ClusterRemediationPolicy_fields (x : ClusterRemediationPolicy) := (cp_TypeMeta_ x, cp_ObjectMeta_ x, cp_Spec x, cp_Status x).
#[global] Instance ClusterRemediationPolicy_GoType : GoType cell ClusterRemediationPolicy := record_GoType ClusterRemediationPolicy_fields.
Definition ClusterRemediationPolicyList_fields (x : ClusterRemediationPolicyList) := (cpl_TypeMeta_ x, cpl_ListMeta_ x, cpl_Items x).
#[global] Instance ClusterRemediationPolicyList_GoType : GoType cell ClusterRemediationPolicyList := record_GoType ClusterRemediationPolicyList_fields.
Definition TaskAction_fields (x : TaskAction) := (ta_Type_ x, ta_Order x, ta_Params x).
#[global] Instance TaskAction_GoType : GoType cell TaskAction := record_GoType TaskAction_fields.
Definition TaskTarget_fields (x : TaskTarget) := (tt_APIVersion x, tt_Kind x, tt_Name x, tt_Namespace x).
#[global] Instance TaskTarget_GoType : GoType cell TaskTarget := record_GoType TaskTarget_fields.
#[global] Instance TaskTarget_Plain : Plain (cell := cell) TaskTarget := record_Plain TaskTarget_fields.
Definition RemediationTaskSpec_fields (x : RemediationTaskSpec) :=
  (tp_ScenarioID x, tp_ScenarioName x, tp_DetectionResultID x, tp_Severity x, tp_Target x, tp_Actions x,
  tp_Timeout x, tp_MaxRetries x).
#[global] Instance RemediationTaskSpec_GoType : GoType cell RemediationTaskSpec := record_GoType RemediationTaskSpec_fields.
Definition TaskResult_fields (x : TaskResult) := (tr_Success x, tr_Message x, tr_Error x).
#[global] Instance TaskResult_GoType : GoType cell TaskResult := record_GoType TaskResult_fields.
#[global] Instance TaskResult_Plain : Plain (cell := cell) TaskResult := record_Plain TaskResult_fields.
Definition RemediationTaskStatus_fields (x : RemediationTaskStatus) :=
  (tu_Phase x, tu_ClaimedBy x, tu_ClaimedAt x, tu_CompletedAt x, tu_ActionsCompleted x, tu_RetryCount x,
  tu_Result x).
#[global] Instance RemediationTaskStatus_GoType : GoType cell RemediationTaskStatus := record_GoType RemediationTaskStatus_fields.
Definition RemediationTask_fields (x : RemediationTask) := (rk_TypeMeta_ x, rk_ObjectMeta_ x, rk_Spec x, rk_Status x).
#[global] Instance RemediationTask_GoType : GoType cell RemediationTask := record_GoType RemediationTask_fields.
Definition RemediationTaskList_fields (x : RemediationTaskList) := (rkl_TypeMeta_ x, rkl_ListMeta_ x, rkl_Items x).
#[global] Instance RemediationTaskList_GoType : GoType cell RemediationTaskList := record_GoType RemediationTaskList_fields.
End seen.
