(* ===== verification/DeepCopy.v ===== *)
(** The deep copies of api/v1alpha1 (zz_generated.deepcopy.go), function by
    function, and that they are deep: none forgets a field that refers to
    memory. *)

From S2P Require Import Prelude GoHeap APITypes.

(** The deep copies of apimachinery. *)
Class MetaV1 `{MetaTypes} := {
  ObjectMeta_DeepCopyInto : ObjectMeta -> M cell ObjectMeta;
  ListMeta_DeepCopyInto : ListMeta -> M cell ListMeta;
  LabelSelector_DeepCopyInto : LabelSelector -> M cell LabelSelector;
  Condition_DeepCopyInto : Condition -> M cell Condition;
  Time_DeepCopyInto : Time -> M cell Time;
  Time_DeepCopy : ptr Time -> M cell (ptr Time);
}.

Section functions.
Context `{MetaV1, MapRange}.

(** [DeepCopyInto]: [*out = *in], then the fields that refer to memory, in the order
    of the code; what it leaves in [out] is its result.  [DeepCopy] does the same
    for a pointer, nil or not. *)

Definition ParameterSpec_DeepCopyInto (in_ : ParameterSpec) : M cell ParameterSpec := mret in_.
Definition ParameterSpec_DeepCopy : ptr ParameterSpec -> M cell (ptr ParameterSpec) :=
  copy_ptr ParameterSpec_DeepCopyInto.

Definition DocumentationSpec_DeepCopyInto (in_ : DocumentationSpec) : M cell DocumentationSpec :=
  RootCauses ← copy_slice assign (ds_RootCauses in_);
  ManualSteps ← copy_slice assign (ds_ManualSteps in_);
  mret (mkDocumentationSpec (ds_Summary in_) RootCauses ManualSteps (ds_RunbookURL in_)).
Definition DocumentationSpec_DeepCopy : ptr DocumentationSpec -> M cell (ptr DocumentationSpec) :=
  copy_ptr DocumentationSpec_DeepCopyInto.

Definition ResourceFilter_DeepCopyInto (in_ : ResourceFilter) : M cell ResourceFilter := mret in_.
Definition ResourceFilter_DeepCopy : ptr ResourceFilter -> M cell (ptr ResourceFilter) :=
  copy_ptr ResourceFilter_DeepCopyInto.

Definition ThresholdSpec_DeepCopyInto (in_ : ThresholdSpec) : M cell ThresholdSpec := mret in_.
Definition ThresholdSpec_DeepCopy : ptr ThresholdSpec -> M cell (ptr ThresholdSpec) :=
  copy_ptr ThresholdSpec_DeepCopyInto.

Definition DetectionSpec_DeepCopyInto (in_ : DetectionSpec) : M cell DetectionSpec :=
  Resource ← copy_ptr assign (de_Resource in_);
  Threshold ← copy_ptr assign (de_Threshold in_);
  Duration ← copy_ptr assign (de_Duration in_);
  mret (mkDetectionSpec (de_Source in_) Resource (de_Expression in_) Threshold Duration).
Definition DetectionSpec_DeepCopy : ptr DetectionSpec -> M cell (ptr DetectionSpec) :=
  copy_ptr DetectionSpec_DeepCopyInto.

Definition ActionSpec_DeepCopyInto (in_ : ActionSpec) : M cell ActionSpec :=
  Params ← copy_map assign (as_Params in_);
  mret (mkActionSpec (as_Type_ in_) (as_Order in_) Params (as_If in_) (as_Unless in_)).
Definition ActionSpec_DeepCopy : ptr ActionSpec -> M cell (ptr ActionSpec) := copy_ptr ActionSpec_DeepCopyInto.

Definition NotifySpec_DeepCopyInto (in_ : NotifySpec) : M cell NotifySpec :=
  Channels ← copy_slice assign (ns_Channels in_);
  mret (mkNotifySpec (ns_Severity in_) Channels (ns_Message in_)).
Definition NotifySpec_DeepCopy : ptr NotifySpec -> M cell (ptr NotifySpec) := copy_ptr NotifySpec_DeepCopyInto.

Definition EscalationSpec_DeepCopyInto (in_ : EscalationSpec) : M cell EscalationSpec :=
  Notify ← copy_ptr NotifySpec_DeepCopyInto (es_Notify in_);
  mret (mkEscalationSpec Notify (es_CreateEvent in_) (es_MarkResource in_)).
Definition EscalationSpec_DeepCopy : ptr EscalationSpec -> M cell (ptr EscalationSpec) :=
  copy_ptr EscalationSpec_DeepCopyInto.

Definition RemediationSpec_DeepCopyInto (in_ : RemediationSpec) : M cell RemediationSpec :=
  Actions ← copy_slice ActionSpec_DeepCopyInto (rs_Actions in_);
  Cooldown ← copy_ptr assign (rs_Cooldown in_);
  Escalation ← copy_ptr EscalationSpec_DeepCopyInto (rs_Escalation in_);
  mret (mkRemediationSpec Actions Cooldown (rs_MaxRetries in_) Escalation).
Definition RemediationSpec_DeepCopy : ptr RemediationSpec -> M cell (ptr RemediationSpec) :=
  copy_ptr RemediationSpec_DeepCopyInto.

Definition Scenario_DeepCopyInto (in_ : Scenario) : M cell Scenario :=
  Detection ← DetectionSpec_DeepCopyInto (sc_Detection in_);
  Remediation ← RemediationSpec_DeepCopyInto (sc_Remediation in_);
  Parameters ← copy_slice assign (sc_Parameters in_);
  Documentation ← DocumentationSpec_DeepCopyInto (sc_Documentation in_);
  mret (mkScenario (sc_ID in_) (sc_Name in_) (sc_Description in_) (sc_Enabled in_) (sc_Severity in_)
    (sc_Category in_) Detection Remediation Parameters Documentation).
Definition Scenario_DeepCopy : ptr Scenario -> M cell (ptr Scenario) := copy_ptr Scenario_DeepCopyInto.

Definition ScenarioLibrarySpec_DeepCopyInto (in_ : ScenarioLibrarySpec) : M cell ScenarioLibrarySpec :=
  Scenarios ← copy_map (copy_through Scenario_DeepCopy) (ls_Scenarios in_);
  mret (mkScenarioLibrarySpec Scenarios).
Definition ScenarioLibrarySpec_DeepCopy : ptr ScenarioLibrarySpec -> M cell (ptr ScenarioLibrarySpec) :=
  copy_ptr ScenarioLibrarySpec_DeepCopyInto.

Definition ScenarioLibraryStatus_DeepCopyInto (in_ : ScenarioLibraryStatus) : M cell ScenarioLibraryStatus :=
  LastUpdated ← Time_DeepCopyInto (lt_LastUpdated in_);
  Conditions ← copy_slice Condition_DeepCopyInto (lt_Conditions in_);
  mret (mkScenarioLibraryStatus (lt_ScenarioCount in_) (lt_EnabledCount in_) LastUpdated Conditions).
Definition ScenarioLibraryStatus_DeepCopy : ptr ScenarioLibraryStatus -> M cell (ptr ScenarioLibraryStatus) :=
  copy_ptr ScenarioLibraryStatus_DeepCopyInto.

Definition ScenarioLibrary_DeepCopyInto (in_ : ScenarioLibrary) : M cell ScenarioLibrary :=
  ObjectMeta_ ← ObjectMeta_DeepCopyInto (sl_ObjectMeta_ in_);
  Spec ← ScenarioLibrarySpec_DeepCopyInto (sl_Spec in_);
  Status ← ScenarioLibraryStatus_DeepCopyInto (sl_Status in_);
  mret (mkScenarioLibrary (sl_TypeMeta_ in_) ObjectMeta_ Spec Status).
Definition ScenarioLibrary_DeepCopy : ptr ScenarioLibrary -> M cell (ptr ScenarioLibrary) :=
  copy_ptr ScenarioLibrary_DeepCopyInto.

Definition ScenarioLibraryList_DeepCopyInto (in_ : ScenarioLibraryList) : M cell ScenarioLibraryList :=
  ListMeta_ ← ListMeta_DeepCopyInto (sll_ListMeta_ in_);
  Items ← copy_slice ScenarioLibrary_DeepCopyInto (sll_Items in_);
  mret (mkScenarioLibraryList (sll_TypeMeta_ in_) ListMeta_ Items).
Definition ScenarioLibraryList_DeepCopy : ptr ScenarioLibraryList -> M cell (ptr ScenarioLibraryList) :=
  copy_ptr ScenarioLibraryList_DeepCopyInto.

Definition ScenarioLibraryReference_DeepCopyInto (in_ : ScenarioLibraryReference) : M cell ScenarioLibraryReference := mret in_.
Definition ScenarioLibraryReference_DeepCopy : ptr ScenarioLibraryReference -> M cell (ptr ScenarioLibraryReference) :=
  copy_ptr ScenarioLibraryReference_DeepCopyInto.

Definition SecretReference_DeepCopyInto (in_ : SecretReference) : M cell SecretReference := mret in_.
Definition SecretReference_DeepCopy : ptr SecretReference -> M cell (ptr SecretReference) :=
  copy_ptr SecretReference_DeepCopyInto.

Definition NotificationChannel_DeepCopyInto (in_ : NotificationChannel) : M cell NotificationChannel :=
  SecretRef ← copy_ptr assign (nc_SecretRef in_);
  mret (mkNotificationChannel (nc_Name in_) (nc_Type_ in_) (nc_URL in_) SecretRef).
Definition NotificationChannel_DeepCopy : ptr NotificationChannel -> M cell (ptr NotificationChannel) :=
  copy_ptr NotificationChannel_DeepCopyInto.

Definition GlobalEscalationConfig_DeepCopyInto (in_ : GlobalEscalationConfig) : M cell GlobalEscalationConfig :=
  DefaultChannels ← copy_slice assign (ge_DefaultChannels in_);
  mret (mkGlobalEscalationConfig (ge_Enabled in_) DefaultChannels).
Definition GlobalEscalationConfig_DeepCopy : ptr GlobalEscalationConfig -> M cell (ptr GlobalEscalationConfig) :=
  copy_ptr GlobalEscalationConfig_DeepCopyInto.

Definition GlobalPolicyConfig_DeepCopyInto (in_ : GlobalPolicyConfig) : M cell GlobalPolicyConfig :=
  DefaultCooldown ← copy_ptr assign (gp_DefaultCooldown in_);
  DefaultMaxRetries ← copy_ptr assign (gp_DefaultMaxRetries in_);
  Escalation ← copy_ptr GlobalEscalationConfig_DeepCopyInto (gp_Escalation in_);
  NotificationChannels ← copy_slice NotificationChannel_DeepCopyInto (gp_NotificationChannels in_);
  mret (mkGlobalPolicyConfig (gp_DryRun in_) (gp_Paused in_) DefaultCooldown DefaultMaxRetries Escalation
    NotificationChannels).
Definition GlobalPolicyConfig_DeepCopy : ptr GlobalPolicyConfig -> M cell (ptr GlobalPolicyConfig) :=
  copy_ptr GlobalPolicyConfig_DeepCopyInto.

Definition ScenarioConfig_DeepCopyInto (in_ : ScenarioConfig) : M cell ScenarioConfig :=
  Enabled ← copy_ptr assign (sf_Enabled in_);
  Parameters ← copy_map assign (sf_Parameters in_);
  Cooldown ← copy_ptr assign (sf_Cooldown in_);
  MaxRetries ← copy_ptr assign (sf_MaxRetries in_);
  AdditionalLabels ← copy_map assign (sf_AdditionalLabels in_);
  mret (mkScenarioConfig (sf_Name in_) Enabled Parameters Cooldown MaxRetries AdditionalLabels).
Definition ScenarioConfig_DeepCopy : ptr ScenarioConfig -> M cell (ptr ScenarioConfig) :=
  copy_ptr ScenarioConfig_DeepCopyInto.

Definition TargetSelector_DeepCopyInto (in_ : TargetSelector) : M cell TargetSelector :=
  Namespaces ← copy_slice assign (ts_Namespaces in_);
  ExcludedNamespaces ← copy_slice assign (ts_ExcludedNamespaces in_);
  LabelSelector_ ← copy_ptr LabelSelector_DeepCopyInto (ts_LabelSelector_ in_);
  ResourceTypes ← copy_slice assign (ts_ResourceTypes in_);
  mret (mkTargetSelector Namespaces ExcludedNamespaces LabelSelector_ ResourceTypes).
Definition TargetSelector_DeepCopy : ptr TargetSelector -> M cell (ptr TargetSelector) :=
  copy_ptr TargetSelector_DeepCopyInto.

Definition ClusterRemediationPolicySpec_DeepCopyInto (in_ : ClusterRemediationPolicySpec) : M cell ClusterRemediationPolicySpec :=
  TargetSelector_ ← TargetSelector_DeepCopyInto (cs_TargetSelector_ in_);
  ScenarioConfigs ← copy_slice ScenarioConfig_DeepCopyInto (cs_ScenarioConfigs in_);
  GlobalConfig ← GlobalPolicyConfig_DeepCopyInto (cs_GlobalConfig in_);
  mret (mkClusterRemediationPolicySpec TargetSelector_ (cs_ScenarioLibraryRef in_) ScenarioConfigs
    GlobalConfig).
Definition ClusterRemediationPolicySpec_DeepCopy : ptr ClusterRemediationPolicySpec -> M cell (ptr ClusterRemediationPolicySpec) :=
  copy_ptr ClusterRemediationPolicySpec_DeepCopyInto.

Definition DetectionStats_DeepCopyInto (in_ : DetectionStats) : M cell DetectionStats :=
  ByScenario ← copy_map assign (dt_ByScenario in_);
  mret (mkDetectionStats (dt_TotalDetections in_) (dt_Last24Hours in_) ByScenario).
Definition DetectionStats_DeepCopy : ptr DetectionStats -> M cell (ptr DetectionStats) :=
  copy_ptr DetectionStats_DeepCopyInto.

Definition RemediationStats_DeepCopyInto (in_ : RemediationStats) : M cell RemediationStats := mret in_.
Definition RemediationStats_DeepCopy : ptr RemediationStats -> M cell (ptr RemediationStats) :=
  copy_ptr RemediationStats_DeepCopyInto.

Definition ClusterRemediationPolicyStatus_DeepCopyInto (in_ : ClusterRemediationPolicyStatus) : M cell ClusterRemediationPolicyStatus :=
  LastEvaluated ← Time_DeepCopyInto (ct_LastEvaluated in_);
  DetectionStats_ ← DetectionStats_DeepCopyInto (ct_DetectionStats_ in_);
  Conditions ← copy_slice Condition_DeepCopyInto (ct_Conditions in_);
  mret (mkClusterRemediationPolicyStatus (ct_Active in_) (ct_MatchedResources in_) (ct_EnabledScenarios in_)
    LastEvaluated DetectionStats_ (ct_RemediationStats_ in_) Conditions).
Definition ClusterRemediationPolicyStatus_DeepCopy : ptr ClusterRemediationPolicyStatus -> M cell (ptr ClusterRemediationPolicyStatus) :=
  copy_ptr ClusterRemediationPolicyStatus_DeepCopyInto.

Definition ClusterRemediationPolicy_DeepCopyInto (in_ : ClusterRemediationPolicy) : M cell ClusterRemediationPolicy :=
  ObjectMeta_ ← ObjectMeta_DeepCopyInto (cp_ObjectMeta_ in_);
  Spec ← ClusterRemediationPolicySpec_DeepCopyInto (cp_Spec in_);
  Status ← ClusterRemediationPolicyStatus_DeepCopyInto (cp_Status in_);
  mret (mkClusterRemediationPolicy (cp_TypeMeta_ in_) ObjectMeta_ Spec Status).
Definition ClusterRemediationPolicy_DeepCopy : ptr ClusterRemediationPolicy -> M cell (ptr ClusterRemediationPolicy) :=
  copy_ptr ClusterRemediationPolicy_DeepCopyInto.

Definition ClusterRemediationPolicyList_DeepCopyInto (in_ : ClusterRemediationPolicyList) : M cell ClusterRemediationPolicyList :=
  ListMeta_ ← ListMeta_DeepCopyInto (cpl_ListMeta_ in_);
  Items ← copy_slice ClusterRemediationPolicy_DeepCopyInto (cpl_Items in_);
  mret (mkClusterRemediationPolicyList (cpl_TypeMeta_ in_) ListMeta_ Items).
Definition ClusterRemediationPolicyList_DeepCopy : ptr ClusterRemediationPolicyList -> M cell (ptr ClusterRemediationPolicyList) :=
  copy_ptr ClusterRemediationPolicyList_DeepCopyInto.

Definition TaskAction_DeepCopyInto (in_ : TaskAction) : M cell TaskAction :=
  Params ← copy_map assign (ta_Params in_);
  mret (mkTaskAction (ta_Type_ in_) (ta_Order in_) Params).
Definition TaskAction_DeepCopy : ptr TaskAction -> M cell (ptr TaskAction) := copy_ptr TaskAction_DeepCopyInto.

Definition TaskTarget_DeepCopyInto (in_ : TaskTarget) : M cell TaskTarget := mret in_.
Definition TaskTarget_DeepCopy : ptr TaskTarget -> M cell (ptr TaskTarget) := copy_ptr TaskTarget_DeepCopyInto.

Definition RemediationTaskSpec_DeepCopyInto (in_ : RemediationTaskSpec) : M cell RemediationTaskSpec :=
  Actions ← copy_slice TaskAction_DeepCopyInto (tp_Actions in_);
  mret (mkRemediationTaskSpec (tp_ScenarioID in_) (tp_ScenarioName in_) (tp_DetectionResultID in_)
    (tp_Severity in_) (tp_Target in_) Actions (tp_Timeout in_) (tp_MaxRetries in_)).
Definition RemediationTaskSpec_DeepCopy : ptr RemediationTaskSpec -> M cell (ptr RemediationTaskSpec) :=
  copy_ptr RemediationTaskSpec_DeepCopyInto.

Definition TaskResult_DeepCopyInto (in_ : TaskResult) : M cell TaskResult := mret in_.
Definition TaskResult_DeepCopy : ptr TaskResult -> M cell (ptr TaskResult) := copy_ptr TaskResult_DeepCopyInto.

Definition RemediationTaskStatus_DeepCopyInto (in_ : RemediationTaskStatus) : M cell RemediationTaskStatus :=
  ClaimedAt ← Time_DeepCopy (tu_ClaimedAt in_);
  CompletedAt ← Time_DeepCopy (tu_CompletedAt in_);
  Result ← copy_ptr assign (tu_Result in_);
  mret (mkRemediationTaskStatus (tu_Phase in_) (tu_ClaimedBy in_) ClaimedAt CompletedAt
    (tu_ActionsCompleted in_) (tu_RetryCount in_) Result).
Definition RemediationTaskStatus_DeepCopy : ptr RemediationTaskStatus -> M cell (ptr RemediationTaskStatus) :=
  copy_ptr RemediationTaskStatus_DeepCopyInto.

Definition RemediationTask_DeepCopyInto (in_ : RemediationTask) : M cell RemediationTask :=
  ObjectMeta_ ← ObjectMeta_DeepCopyInto (rk_ObjectMeta_ in_);
  Spec ← RemediationTaskSpec_DeepCopyInto (rk_Spec in_);
  Status ← RemediationTaskStatus_DeepCopyInto (rk_Status in_);
  mret (mkRemediationTask (rk_TypeMeta_ in_) ObjectMeta_ Spec Status).
Definition RemediationTask_DeepCopy : ptr RemediationTask -> M cell (ptr RemediationTask) :=
  copy_ptr RemediationTask_DeepCopyInto.

Definition RemediationTaskList_DeepCopyInto (in_ : RemediationTaskList) : M cell RemediationTaskList :=
  ListMeta_ ← ListMeta_DeepCopyInto (rkl_ListMeta_ in_);
  Items ← copy_slice RemediationTask_DeepCopyInto (rkl_Items in_);
  mret (mkRemediationTaskList (rkl_TypeMeta_ in_) ListMeta_ Items).
Definition RemediationTaskList_DeepCopy : ptr RemediationTaskList -> M cell (ptr RemediationTaskList) :=
  copy_ptr RemediationTaskList_DeepCopyInto.

(** ** Objects *)

(** The interface [runtime.Object]; a nil pointer in it would not be the nil
    interface. *)
Inductive Object :=
  | ONil
  | OScenarioLibrary (p : ptr ScenarioLibrary)
  | OScenarioLibraryList (p : ptr ScenarioLibraryList)
  | OClusterRemediationPolicy (p : ptr ClusterRemediationPolicy)
  | OClusterRemediationPolicyList (p : ptr ClusterRemediationPolicyList)
  | ORemediationTask (p : ptr RemediationTask)
  | ORemediationTaskList (p : ptr RemediationTaskList).

Definition ScenarioLibrary_DeepCopyObject (in_ : ptr ScenarioLibrary) : M cell Object :=
  c ← ScenarioLibrary_DeepCopy in_;
  match address c with Some _ => mret (OScenarioLibrary c) | None => mret ONil end.
Definition ScenarioLibraryList_DeepCopyObject (in_ : ptr ScenarioLibraryList) : M cell Object :=
  c ← ScenarioLibraryList_DeepCopy in_;
  match address c with Some _ => mret (OScenarioLibraryList c) | None => mret ONil end.
Definition ClusterRemediationPolicy_DeepCopyObject (in_ : ptr ClusterRemediationPolicy) : M cell Object :=
  c ← ClusterRemediationPolicy_DeepCopy in_;
  match address c with Some _ => mret (OClusterRemediationPolicy c) | None => mret ONil end.
Definition ClusterRemediationPolicyList_DeepCopyObject (in_ : ptr ClusterRemediationPolicyList) : M cell Object :=
  c ← ClusterRemediationPolicyList_DeepCopy in_;
  match address c with Some _ => mret (OClusterRemediationPolicyList c) | None => mret ONil end.
Definition RemediationTask_DeepCopyObject (in_ : ptr RemediationTask) : M cell Object :=
  c ← RemediationTask_DeepCopy in_;
  match address c with Some _ => mret (ORemediationTask c) | None => mret ONil end.
Definition RemediationTaskList_DeepCopyObject (in_ : ptr RemediationTaskList) : M cell Object :=
  c ← RemediationTaskList_DeepCopy in_;
  match address c with Some _ => mret (ORemediationTaskList c) | None => mret ONil end.

(** A call through the interface; on the nil interface it panics. *)
Definition DeepCopyObject (o : Object) : M cell Object :=
  match o with
  | ONil => fun _ => None
  | OScenarioLibrary p => ScenarioLibrary_DeepCopyObject p
  | OScenarioLibraryList p => ScenarioLibraryList_DeepCopyObject p
  | OClusterRemediationPolicy p => ClusterRemediationPolicy_DeepCopyObject p
  | OClusterRemediationPolicyList p => ClusterRemediationPolicyList_DeepCopyObject p
  | ORemediationTask p => RemediationTask_DeepCopyObject p
  | ORemediationTaskList p => RemediationTaskList_DeepCopyObject p
  end.
End functions.

(** * They are deep *)

Class MetaLaws `{MetaSeen, !MetaV1} := {
  ObjectMeta_copies : copies ObjectMeta_DeepCopyInto;
  ListMeta_copies : copies ListMeta_DeepCopyInto;
  LabelSelector_copies : copies LabelSelector_DeepCopyInto;
  Condition_copies : copies Condition_DeepCopyInto;
  Time_copies : copies Time_DeepCopyInto;
  Time_DeepCopy_copies : copies (A := ptr Time) Time_DeepCopy;
}.

Create HintDb copies discriminated.
#[export] Hint Resolve copy_pair_copies copy_ptr_copies copy_slice_copies copy_map_copies copy_through_copies : copies.
#[export] Hint Extern 1 (copies assign) => apply assign_copies : copies.
#[export] Hint Extern 1 (copies ObjectMeta_DeepCopyInto) => apply ObjectMeta_copies : copies.
#[export] Hint Extern 1 (copies ListMeta_DeepCopyInto) => apply ListMeta_copies : copies.
#[export] Hint Extern 1 (copies LabelSelector_DeepCopyInto) => apply LabelSelector_copies : copies.
#[export] Hint Extern 1 (copies Condition_DeepCopyInto) => apply Condition_copies : copies.
#[export] Hint Extern 1 (copies Time_DeepCopyInto) => apply Time_copies : copies.
#[export] Hint Extern 1 (copies Time_DeepCopy) => apply Time_DeepCopy_copies : copies.

(** The steps of a function are those of its fields, taken in order. *)
Ltac copy_steps :=
  intros [] ?;
  match goal with |- ?lhs = _ => let f := get_head lhs in unfold f end;
  unfold copy_pair, assign, mbind, M_bind, mret, M_ret; cbn;
  repeat (case_match; simplify_eq/=; try done).

(** A function on structs that copies field by field: [g] says how. *)
Tactic Notation "by_fields" uconstr(fields) uconstr(build) uconstr(g) :=
  apply (record_copies fields build _ g); [auto 20 with copies|by intros; repeat case_match|copy_steps].

Section laws.
Context `{MetaLaws, !MapRange}.

Local Infix "⊗" := copy_pair (at level 40, left associativity).

Lemma ParameterSpec_copies : copies ParameterSpec_DeepCopyInto.
Proof. exact assign_copies. Qed.
#[local] Hint Resolve ParameterSpec_copies : copies.
Lemma DocumentationSpec_copies : copies DocumentationSpec_DeepCopyInto.
Proof.
  by_fields DocumentationSpec_fields
    (fun '(x1, x2, x3, x4) => mkDocumentationSpec x1 x2 x3 x4)
    (assign ⊗ copy_slice assign ⊗ copy_slice assign ⊗ assign).
Qed.
#[local] Hint Resolve DocumentationSpec_copies : copies.
Lemma ResourceFilter_copies : copies ResourceFilter_DeepCopyInto.
Proof. exact assign_copies. Qed.
#[local] Hint Resolve ResourceFilter_copies : copies.
Lemma ThresholdSpec_copies : copies ThresholdSpec_DeepCopyInto.
Proof. exact assign_copies. Qed.
#[local] Hint Resolve ThresholdSpec_copies : copies.
Lemma DetectionSpec_copies : copies DetectionSpec_DeepCopyInto.
Proof.
  by_fields DetectionSpec_fields
    (fun '(x1, x2, x3, x4, x5) => mkDetectionSpec x1 x2 x3 x4 x5)
    (assign ⊗ copy_ptr assign ⊗ assign ⊗ copy_ptr assign ⊗ copy_ptr assign).
Qed.
#[local] Hint Resolve DetectionSpec_copies : copies.
Lemma ActionSpec_copies : copies ActionSpec_DeepCopyInto.
Proof.
  by_fields ActionSpec_fields
    (fun '(x1, x2, x3, x4, x5) => mkActionSpec x1 x2 x3 x4 x5)
    (assign ⊗ assign ⊗ copy_map assign ⊗ assign ⊗ assign).
Qed.
#[local] Hint Resolve ActionSpec_copies : copies.
Lemma NotifySpec_copies : copies NotifySpec_DeepCopyInto.
Proof.
  by_fields NotifySpec_fields
    (fun '(x1, x2, x3) => mkNotifySpec x1 x2 x3)
    (assign ⊗ copy_slice assign ⊗ assign).
Qed.
#[local] Hint Resolve NotifySpec_copies : copies.
Lemma EscalationSpec_copies : copies EscalationSpec_DeepCopyInto.
Proof.
  by_fields EscalationSpec_fields
    (fun '(x1, x2, x3) => mkEscalationSpec x1 x2 x3)
    (copy_ptr NotifySpec_DeepCopyInto ⊗ assign ⊗ assign).
Qed.
#[local] Hint Resolve EscalationSpec_copies : copies.
Lemma RemediationSpec_copies : copies RemediationSpec_DeepCopyInto.
Proof.
  by_fields RemediationSpec_fields
    (fun '(x1, x2, x3, x4) => mkRemediationSpec x1 x2 x3 x4)
    (copy_slice ActionSpec_DeepCopyInto ⊗ copy_ptr assign ⊗ assign ⊗ copy_ptr EscalationSpec_DeepCopyInto).
Qed.
#[local] Hint Resolve RemediationSpec_copies : copies.
Lemma Scenario_copies : copies Scenario_DeepCopyInto.
Proof.
  by_fields Scenario_fields
    (fun '(x1, x2, x3, x4, x5, x6, x7, x8, x9, x10) => mkScenario x1 x2 x3 x4 x5 x6 x7 x8 x9 x10)
    (assign ⊗ assign ⊗ assign ⊗ assign ⊗ assign ⊗ assign ⊗ DetectionSpec_DeepCopyInto ⊗
    RemediationSpec_DeepCopyInto ⊗ copy_slice assign ⊗ DocumentationSpec_DeepCopyInto).
Qed.
#[local] Hint Resolve Scenario_copies : copies.
Lemma Scenario_DeepCopy_copies : copies (A := ptr Scenario) Scenario_DeepCopy.
Proof. unfold Scenario_DeepCopy. auto with copies. Qed.
#[local] Hint Resolve Scenario_DeepCopy_copies : copies.
Lemma ScenarioLibrarySpec_copies : copies ScenarioLibrarySpec_DeepCopyInto.
Proof.
  by_fields ScenarioLibrarySpec_fields
    (fun x1 => mkScenarioLibrarySpec x1)
    (copy_map (copy_through Scenario_DeepCopy)).
Qed.
#[local] Hint Resolve ScenarioLibrarySpec_copies : copies.
Lemma ScenarioLibraryStatus_copies : copies ScenarioLibraryStatus_DeepCopyInto.
Proof.
  by_fields ScenarioLibraryStatus_fields
    (fun '(x1, x2, x3, x4) => mkScenarioLibraryStatus x1 x2 x3 x4)
    (assign ⊗ assign ⊗ Time_DeepCopyInto ⊗ copy_slice Condition_DeepCopyInto).
Qed.
#[local] Hint Resolve ScenarioLibraryStatus_copies : copies.
Lemma ScenarioLibrary_copies : copies ScenarioLibrary_DeepCopyInto.
Proof.
  by_fields ScenarioLibrary_fields
    (fun '(x1, x2, x3, x4) => mkScenarioLibrary x1 x2 x3 x4)
    (assign ⊗ ObjectMeta_DeepCopyInto ⊗ ScenarioLibrarySpec_DeepCopyInto ⊗ ScenarioLibraryStatus_DeepCopyInto).
Qed.
#[local] Hint Resolve ScenarioLibrary_copies : copies.
Lemma ScenarioLibraryList_copies : copies ScenarioLibraryList_DeepCopyInto.
Proof.
  by_fields ScenarioLibraryList_fields
    (fun '(x1, x2, x3) => mkScenarioLibraryList x1 x2 x3)
    (assign ⊗ ListMeta_DeepCopyInto ⊗ copy_slice ScenarioLibrary_DeepCopyInto).
Qed.
#[local] Hint Resolve ScenarioLibraryList_copies : copies.
Lemma ScenarioLibraryReference_copies : copies ScenarioLibraryReference_DeepCopyInto.
Proof. exact assign_copies. Qed.
#[local] Hint Resolve ScenarioLibraryReference_copies : copies.
Lemma SecretReference_copies : copies SecretReference_DeepCopyInto.
Proof. exact assign_copies. Qed.
#[local] Hint Resolve SecretReference_copies : copies.
Lemma NotificationChannel_copies : copies NotificationChannel_DeepCopyInto.
Proof.
  by_fields NotificationChannel_fields
    (fun '(x1, x2, x3, x4) => mkNotificationChannel x1 x2 x3 x4)
    (assign ⊗ assign ⊗ assign ⊗ copy_ptr assign).
Qed.
#[local] Hint Resolve NotificationChannel_copies : copies.
Lemma GlobalEscalationConfig_copies : copies GlobalEscalationConfig_DeepCopyInto.
Proof.
  by_fields GlobalEscalationConfig_fields
    (fun '(x1, x2) => mkGlobalEscalationConfig x1 x2)
    (assign ⊗ copy_slice assign).
Qed.
#[local] Hint Resolve GlobalEscalationConfig_copies : copies.
Lemma GlobalPolicyConfig_copies : copies GlobalPolicyConfig_DeepCopyInto.
Proof.
  by_fields GlobalPolicyConfig_fields
    (fun '(x1, x2, x3, x4, x5, x6) => mkGlobalPolicyConfig x1 x2 x3 x4 x5 x6)
    (assign ⊗ assign ⊗ copy_ptr assign ⊗ copy_ptr assign ⊗ copy_ptr GlobalEscalationConfig_DeepCopyInto ⊗
    copy_slice NotificationChannel_DeepCopyInto).
Qed.
#[local] Hint Resolve GlobalPolicyConfig_copies : copies.
Lemma ScenarioConfig_copies : copies ScenarioConfig_DeepCopyInto.
Proof.
  by_fields ScenarioConfig_fields
    (fun '(x1, x2, x3, x4, x5, x6) => mkScenarioConfig x1 x2 x3 x4 x5 x6)
    (assign ⊗ copy_ptr assign ⊗ copy_map assign ⊗ copy_ptr assign ⊗ copy_ptr assign ⊗ copy_map assign).
Qed.
#[local] Hint Resolve ScenarioConfig_copies : copies.
Lemma TargetSelector_copies : copies TargetSelector_DeepCopyInto.
Proof.
  by_fields TargetSelector_fields
    (fun '(x1, x2, x3, x4) => mkTargetSelector x1 x2 x3 x4)
    (copy_slice assign ⊗ copy_slice assign ⊗ copy_ptr LabelSelector_DeepCopyInto ⊗ copy_slice assign).
Qed.
#[local] Hint Resolve TargetSelector_copies : copies.
Lemma ClusterRemediationPolicySpec_copies : copies ClusterRemediationPolicySpec_DeepCopyInto.
Proof.
  by_fields ClusterRemediationPolicySpec_fields
    (fun '(x1, x2, x3, x4) => mkClusterRemediationPolicySpec x1 x2 x3 x4)
    (TargetSelector_DeepCopyInto ⊗ assign ⊗ copy_slice ScenarioConfig_DeepCopyInto ⊗
    GlobalPolicyConfig_DeepCopyInto).
Qed.
#[local] Hint Resolve ClusterRemediationPolicySpec_copies : copies.
Lemma DetectionStats_copies : copies DetectionStats_DeepCopyInto.
Proof.
  by_fields DetectionStats_fields
    (fun '(x1, x2, x3) => mkDetectionStats x1 x2 x3)
    (assign ⊗ assign ⊗ copy_map assign).
Qed.
#[local] Hint Resolve DetectionStats_copies : copies.
Lemma RemediationStats_copies : copies RemediationStats_DeepCopyInto.
Proof. exact assign_copies. Qed.
#[local] Hint Resolve RemediationStats_copies : copies.
Lemma ClusterRemediationPolicyStatus_copies : copies ClusterRemediationPolicyStatus_DeepCopyInto.
Proof.
  by_fields ClusterRemediationPolicyStatus_fields
    (fun '(x1, x2, x3, x4, x5, x6, x7) => mkClusterRemediationPolicyStatus x1 x2 x3 x4 x5 x6 x7)
    (assign ⊗ assign ⊗ assign ⊗ Time_DeepCopyInto ⊗ DetectionStats_DeepCopyInto ⊗ assign ⊗
    copy_slice Condition_DeepCopyInto).
Qed.
#[local] Hint Resolve ClusterRemediationPolicyStatus_copies : copies.
Lemma ClusterRemediationPolicy_copies : copies ClusterRemediationPolicy_DeepCopyInto.
Proof.
  by_fields ClusterRemediationPolicy_fields
    (fun '(x1, x2, x3, x4) => mkClusterRemediationPolicy x1 x2 x3 x4)
    (assign ⊗ ObjectMeta_DeepCopyInto ⊗ ClusterRemediationPolicySpec_DeepCopyInto ⊗
    ClusterRemediationPolicyStatus_DeepCopyInto).
Qed.
#[local] Hint Resolve ClusterRemediationPolicy_copies : copies.
Lemma ClusterRemediationPolicyList_copies : copies ClusterRemediationPolicyList_DeepCopyInto.
Proof.
  by_fields ClusterRemediationPolicyList_fields
    (fun '(x1, x2, x3) => mkClusterRemediationPolicyList x1 x2 x3)
    (assign ⊗ ListMeta_DeepCopyInto ⊗ copy_slice ClusterRemediationPolicy_DeepCopyInto).
Qed.
#[local] Hint Resolve ClusterRemediationPolicyList_copies : copies.
Lemma TaskAction_copies : copies TaskAction_DeepCopyInto.
Proof.
  by_fields TaskAction_fields
    (fun '(x1, x2, x3) => mkTaskAction x1 x2 x3)
    (assign ⊗ assign ⊗ copy_map assign).
Qed.
#[local] Hint Resolve TaskAction_copies : copies.
Lemma TaskTarget_copies : copies TaskTarget_DeepCopyInto.
Proof. exact assign_copies. Qed.
#[local] Hint Resolve TaskTarget_copies : copies.
Lemma RemediationTaskSpec_copies : copies RemediationTaskSpec_DeepCopyInto.
Proof.
  by_fields RemediationTaskSpec_fields
    (fun '(x1, x2, x3, x4, x5, x6, x7, x8) => mkRemediationTaskSpec x1 x2 x3 x4 x5 x6 x7 x8)
    (assign ⊗ assign ⊗ assign ⊗ assign ⊗ assign ⊗ copy_slice TaskAction_DeepCopyInto ⊗ assign ⊗ assign).
Qed.
#[local] Hint Resolve RemediationTaskSpec_copies : copies.
Lemma TaskResult_copies : copies TaskResult_DeepCopyInto.
Proof. exact assign_copies. Qed.
#[local] Hint Resolve TaskResult_copies : copies.
Lemma RemediationTaskStatus_copies : copies RemediationTaskStatus_DeepCopyInto.
Proof.
  by_fields RemediationTaskStatus_fields
    (fun '(x1, x2, x3, x4, x5, x6, x7) => mkRemediationTaskStatus x1 x2 x3 x4 x5 x6 x7)
    (assign ⊗ assign ⊗ Time_DeepCopy ⊗ Time_DeepCopy ⊗ assign ⊗ assign ⊗ copy_ptr assign).
Qed.
#[local] Hint Resolve RemediationTaskStatus_copies : copies.
Lemma RemediationTask_copies : copies RemediationTask_DeepCopyInto.
Proof.
  by_fields RemediationTask_fields
    (fun '(x1, x2, x3, x4) => mkRemediationTask x1 x2 x3 x4)
    (assign ⊗ ObjectMeta_DeepCopyInto ⊗ RemediationTaskSpec_DeepCopyInto ⊗ RemediationTaskStatus_DeepCopyInto).
Qed.
#[local] Hint Resolve RemediationTask_copies : copies.
Lemma RemediationTaskList_copies : copies RemediationTaskList_DeepCopyInto.
Proof.
  by_fields RemediationTaskList_fields
    (fun '(x1, x2, x3) => mkRemediationTaskList x1 x2 x3)
    (assign ⊗ ListMeta_DeepCopyInto ⊗ copy_slice RemediationTask_DeepCopyInto).
Qed.
#[local] Hint Resolve RemediationTaskList_copies : copies.

(** ** Objects, through the interface *)

#[export] Program Instance Object_GoType : GoType cell Object := {|
  observe h o := match o with
    | ONil => Some (TNil, ∅)
    | OScenarioLibrary p => observe h p
    | OScenarioLibraryList p => observe h p
    | OClusterRemediationPolicy p => observe h p
    | OClusterRemediationPolicyList p => observe h p
    | ORemediationTask p => observe h p
    | ORemediationTaskList p => observe h p
    end |}.
Next Obligation. intros h [|p|p|p|p|p|p] t L; [by intros [= _ <-]|apply observe_dom..]. Qed.
Next Obligation. intros h h' [|p|p|p|p|p|p] t L; [done|apply observe_agree..]. Qed.

Lemma observe_ptr_nil {A} `{!Storable cell A, !GoType cell A} (h : gmap positive cell) (p : ptr A) t L :
  observe h p = Some (t, L) -> (address p = None <-> t = TNil).
Proof.
  destruct p as [[l|]]; cbn; [|by intros [= <- _]].
  intros (a & _ & ([t' L'] & _ & [= <- _])%bind_Some)%bind_Some. done.
Qed.

(** [if c := in.DeepCopy(); c != nil { return c }; return nil]. *)
Lemma object_copies {A} `{!Storable cell A, !GoType cell A} (into : A -> M cell A) (O : ptr A -> Object) (h : gmap positive cell) p t L :
  copies into -> (forall (h : gmap positive cell) p, observe h (O p) = observe h p) -> (forall p, O p <> ONil) -> observe h p = Some (t, L) ->
  exists o' h' L',
    (c ← copy_ptr into p; match address c with Some _ => mret (O c) | None => mret ONil end) h = Some (o', h') /\
    h ⊆ h' /\ observe h' o' = Some (t, L') /\ L' ## dom h /\ (o' = ONil <-> t = TNil).
Proof.
  intros Hi HO Hn Ho. destruct (copy_ptr_copies _ Hi _ _ _ _ Ho) as (p' & h' & L' & E & Hs & Ho' & Hd).
  pose proof (observe_ptr_nil _ _ _ _ Ho') as Hnil. destruct p' as [[l|]]; cbn [address] in Hnil.
  - exists (O (Ptr (Some l))), h', L'. split; [by eapply bind_step|]. split; [done|]. rewrite HO. split; [done|].
    split; [done|]. split; [intros Hc; by destruct (Hn _ Hc)|]. intros Ht. by apply Hnil in Ht.
  - exists ONil, h', ∅. split; [by eapply bind_step|]. assert (t = TNil) as -> by by apply Hnil.
    split; [done|]. split; [done|]. split; [by intros x ?%elem_of_empty|done].
Qed.

Lemma DeepCopyObject_copies (h : gmap positive cell) (o : Object) t L : o <> ONil -> observe h o = Some (t, L) ->
  exists o' h' L', DeepCopyObject o h = Some (o', h') /\ h ⊆ h' /\ observe h' o' = Some (t, L') /\ L' ## dom h /\
    (o' = ONil <-> t = TNil).
Proof using Type*.
  destruct o as [|p|p|p|p|p|p]; [done|..]; intros _ Ho; cbn [DeepCopyObject];
    (eapply object_copies; [auto with copies|done|done|exact Ho]).
Qed.

(** C37: deep copies are deep.  Copying an object through the interface returns one
    that shows the same, field by field - nil and empty apart - through memory of
    its own, and nothing that was there is written: whatever is written to either
    of the two afterwards, the other one does not show it.  The copy of a nil
    pointer is the nil interface. *)
Theorem DeepCopyObject_deep (h : gmap positive cell) (o : Object) t L : o <> ONil -> observe h o = Some (t, L) ->
  exists o' h' L', DeepCopyObject o h = Some (o', h') /\
    h ⊆ h' /\ observe h' o' = Some (t, L') /\ L' ## dom h /\ (o' = ONil <-> t = TNil) /\
    (forall h2, same_outside L' h' h2 -> observe h2 o = Some (t, L)) /\
    (forall h2, same_outside L h' h2 -> observe h2 o' = Some (t, L')).
Proof using Type*.
  intros Hn Ho. destruct (DeepCopyObject_copies h o t L Hn Ho) as (o' & h' & L' & E & Hs & Ho' & Hd & Hnil).
  exists o', h', L'. split; [done|]. split; [done|]. split; [done|]. split; [done|]. split; [done|].
  by apply (copy_isolated h h').
Qed.
End laws.

(** * A task *)

#[local] Instance demo_types : MetaTypes := {|
  TypeMeta := string * string; ObjectMeta := string * gomap string; ListMeta := string;
  LabelSelector := gomap string; Condition := string; Time := Z; Duration := Z; meta_cell := Empty_set |}.
#[local] Instance demo_seen : MetaSeen := {|
  TypeMeta_GoType := (_ : GoType cell (string * string)); TypeMeta_Plain := (_ : Plain (string * string));
  Duration_GoType := (_ : GoType cell Z); Duration_Plain := (_ : Plain Z);
  ObjectMeta_GoType := (_ : GoType cell (string * gomap string)); ListMeta_GoType := (_ : GoType cell string);
  LabelSelector_GoType := (_ : GoType cell (gomap string)); Condition_GoType := (_ : GoType cell string);
  Time_GoType := (_ : GoType cell Z) |}.
#[local] Instance demo_range : MapRange.
Proof. by exists (fun A m => map_to_list m). Defined.
#[local] Instance demo_meta : MetaV1 := {|
  ObjectMeta_DeepCopyInto := copy_pair (A := string) (B := gomap string) assign (copy_map assign); ListMeta_DeepCopyInto := assign;
  LabelSelector_DeepCopyInto := copy_map (A := string) assign; Condition_DeepCopyInto := assign; Time_DeepCopyInto := assign;
  Time_DeepCopy := copy_ptr (A := Z) assign |}.
#[local] Instance demo_laws : MetaLaws.
Proof. split; cbn; auto with copies. Qed.

(** Two actions that share their parameters, which the copy's do not. *)
Definition demo_heap : gmap positive cell :=
  <[1%positive := CRemediationTask (mkRemediationTask ("RemediationTask", "v1alpha1") ("t", GoMap None)
      (mkRemediationTaskSpec "S1" "oom" "d" "high" (mkTaskTarget "apps/v1" "Deployment" "web" "prod")
        (Slice (Some 2%positive) 0 2) 300 1)
      (mkRemediationTaskStatus "Running" "w" (Ptr (Some 4%positive)) nil_ptr 0 0 nil_ptr))]>
  (<[2%positive := CArrayOfTaskAction [mkTaskAction "scaleUp" 1 (GoMap (Some 3%positive)); mkTaskAction "wait" 2 (GoMap (Some 3%positive))]]>
  (<[3%positive := CMapOfString {["factor" := "2"]}]> (<[4%positive := CTime 17]> ∅))).
Definition demo_object : Object := ORemediationTask (Ptr (Some 1%positive)).

Lemma DeepCopyObject_deep_witness :
  exists t L o' h' L', observe demo_heap demo_object = Some (t, L) /\ DeepCopyObject demo_object demo_heap = Some (o', h') /\
    observe h' o' = Some (t, L') /\ 3%positive ∈ L /\ 3%positive ∉ L' /\
    observe (<[3%positive := CMapOfString ∅]> h') o' = Some (t, L').
Proof.
  destruct (observe demo_heap demo_object) as [[t L]|] eqn:Eo; [|by vm_compute in Eo].
  destruct (DeepCopyObject_deep demo_heap demo_object t L ltac:(done) Eo)
    as (o' & h' & L' & E & Hs & Ho' & Hd & _ & _ & Hiso).
  assert (3%positive ∈ L) as H3.
  { assert (L = {[1; 4; 2; 3]}%positive) as ->; [|set_solver].
    assert (snd <$> observe demo_heap demo_object = Some ({[1; 4; 2; 3]}%positive)) as HL by (by vm_compute).
    rewrite Eo in HL. by injection HL. }
  exists t, L, o', h', L'. split; [done|]. split; [done|]. split; [done|]. split; [done|].
  split; [intros H; apply (Hd 3%positive H); by apply elem_of_dom|].
  apply Hiso. intros l Hl. apply lookup_insert_ne. intros <-. by apply Hl.
Defined.

