(* ===== verification/Service.v ===== *)
(** The life of the detection engine and of the remediation controller: [Run] with
    its cleanup goroutine, [Stop] and [Ready], which the two share but for what
    they do with a message.  Their data moves as [Detection] and [Remediation]
    say.  The channels at both ends may be closed at any time, as [Shutdown]
    does right after [Stop]: a send on a closed channel panics, and a message
    may be handled by code that panics itself. *)

From S2P Require Import Prelude Types System Detection DetectionLemmas DetectionProps Policy Owner Remediation RemediationProps.

(** The cases of a step that returns: a branch that panics is none of them. *)
Ltac service_cases Hs Er :=
  destruct Hs; try discriminate Er;
  try match type of Er with (if ?b then _ else _) = _ => destruct b eqn:?; [done|] end;
  injection Er as <-.

Section service.
Context {D Msg : Type}.
(** What [Run] does before it is ready, what the handling of a message may come to
    when the output channel is open or ([true]) closed, what a tick of the
    cleanup does, and what others may do to the data at any time. *)
Context (prepares : D -> D -> Prop) (handles : bool -> Msg -> D -> outcome D -> Prop) (sweeps others : D -> D -> Prop).
Context (interval : Z).

(** [Run]: called, prepared, ready, selecting, with a message it has received,
    returned.  The cleanup goroutine:
    not started, before its ticker, selecting, returned.  The body of [Stop]
    under its [sync.Once]: not begun, ready lowered, channel closed. *)
Inductive run_pc := RIdle | RPrepared | RReady | RLoop | RBusy (m : Msg) | RReturned.
Inductive clean_pc := CAbsent | CTicker | CLoop | CReturned.
Inductive stop_pc := SNot | SLowered | SClosed.

Record service := mkService {
  data : D;
  inbox : list Msg;
  inboxClosed : bool;
  outClosed : bool;
  ready : bool;
  at_run : run_pc;
  at_clean : clean_pc;
  at_stop : stop_pc;
  ctxDone : bool;
}.

Definition new (d : D) : service := mkService d [] false false false RIdle CAbsent SNot false.

(** [Ready] and [setReady]. *)
Definition Ready (s : service) : bool := ready s.
Definition setReady (b : bool) (s : service) : service :=
  mkService (data s) (inbox s) (inboxClosed s) (outClosed s) b (at_run s) (at_clean s) (at_stop s) (ctxDone s).

Definition set_data (d : D) (s : service) : service :=
  mkService d (inbox s) (inboxClosed s) (outClosed s) (ready s) (at_run s) (at_clean s) (at_stop s) (ctxDone s).
Definition set_inbox (l : list Msg) (s : service) : service :=
  mkService (data s) l (inboxClosed s) (outClosed s) (ready s) (at_run s) (at_clean s) (at_stop s) (ctxDone s).
Definition set_run (p : run_pc) (s : service) : service :=
  mkService (data s) (inbox s) (inboxClosed s) (outClosed s) (ready s) p (at_clean s) (at_stop s) (ctxDone s).
Definition set_clean (p : clean_pc) (s : service) : service :=
  mkService (data s) (inbox s) (inboxClosed s) (outClosed s) (ready s) (at_run s) p (at_stop s) (ctxDone s).
Definition set_stop (p : stop_pc) (s : service) : service :=
  mkService (data s) (inbox s) (inboxClosed s) (outClosed s) (ready s) (at_run s) (at_clean s) p (ctxDone s).

(** The body of [Stop], under its [sync.Once]: [setReady(false)], [close(stopCh)]. *)
Definition Stop_lower (s : service) : service := set_stop SLowered (setReady false s).
Definition Stop_close (s : service) : service := set_stop SClosed s.

(** [<-ctx.Done()] or [<-stopCh] can be received. *)
Definition told (s : service) : bool := ctxDone s || match at_stop s with SClosed => true | _ => false end.

Inductive label :=
  | LPrepare | LReady | LSpawn           (* [Run] up to its loop *)
  | LTake | LEmpty | LLeave              (* its select: a message, a closed channel, the end *)
  | LHandle                              (* the handling of the message *)
  | LTicker | LTick | LCleanLeave        (* the cleanup goroutine *)
  | LStop | LCloseStop                   (* the body of [Stop] *)
  | LSend (m : Msg) | LCloseInbox | LCloseOut | LCancel | LOther.

Inductive step : service -> label -> outcome service -> Prop :=
  | step_prepare s d : at_run s = RIdle -> prepares (data s) d -> step s LPrepare (Ret (set_run RPrepared (set_data d s)))
  | step_ready s : at_run s = RPrepared -> step s LReady (Ret (set_run RReady (setReady true s)))
  | step_spawn s : at_run s = RReady -> step s LSpawn (Ret (set_run RLoop (set_clean CTicker s)))
  | step_take s m l : at_run s = RLoop -> inbox s = m :: l -> step s LTake (Ret (set_inbox l (set_run (RBusy m) s)))
  | step_handle s m d : at_run s = RBusy m -> handles (outClosed s) m (data s) (Ret d) ->
      step s LHandle (Ret (set_run RLoop (set_data d s)))
  | step_handle_panic s m : at_run s = RBusy m -> handles (outClosed s) m (data s) Panic -> step s LHandle Panic
  | step_empty s : at_run s = RLoop -> inbox s = [] -> inboxClosed s = true -> step s LEmpty (Ret (set_run RReturned s))
  | step_leave s : at_run s = RLoop -> told s = true -> step s LLeave (Ret (set_run RReturned s))
  | step_ticker s : at_clean s = CTicker ->
      step s LTicker (if interval <=? 0 then Panic else Ret (set_clean CLoop s))
  | step_tick s d : at_clean s = CLoop -> sweeps (data s) d -> step s LTick (Ret (set_data d s))
  | step_clean_leave s : at_clean s = CLoop -> told s = true -> step s LCleanLeave (Ret (set_clean CReturned s))
  | step_stop s : at_stop s = SNot -> step s LStop (Ret (Stop_lower s))
  | step_close s : at_stop s = SLowered -> step s LCloseStop (Ret (Stop_close s))
  | step_send s m : inboxClosed s = false -> step s (LSend m) (Ret (set_inbox (inbox s ++ [m]) s))
  | step_send_closed s m : inboxClosed s = true -> step s (LSend m) Panic
  | step_close_inbox s : inboxClosed s = false ->
      step s LCloseInbox (Ret (mkService (data s) (inbox s) true (outClosed s) (ready s) (at_run s) (at_clean s) (at_stop s) (ctxDone s)))
  | step_close_out s : outClosed s = false ->
      step s LCloseOut (Ret (mkService (data s) (inbox s) (inboxClosed s) true (ready s) (at_run s) (at_clean s) (at_stop s) (ctxDone s)))
  | step_cancel s :
      step s LCancel (Ret (mkService (data s) (inbox s) (inboxClosed s) (outClosed s) (ready s) (at_run s) (at_clean s) (at_stop s) true))
  | step_other s d : others (data s) d -> step s LOther (Ret (set_data d s)).

(** The handling is one step although the output channel may be closed in the
    middle of it: what is sent before it is closed and what is not sent after
    it make the same state as a handling before, a send after it panics as in a
    handling after it. *)
Inductive steps : service -> list label -> outcome service -> Prop :=
  | steps_nil s : steps s [] (Ret s)
  | steps_cons s l s1 ls r : step s l (Ret s1) -> steps s1 ls r -> steps s (l :: ls) r
  | steps_panic s l : step s l Panic -> steps s [l] Panic.

(** * What always holds *)

Record ok (s : service) : Prop := {
  ok_clean : at_clean s = CAbsent <-> at_run s = RIdle \/ at_run s = RPrepared \/ at_run s = RReady;
  ok_ready : ready s = true -> at_run s <> RIdle /\ at_run s <> RPrepared;
  ok_lowered : ready s = false -> at_run s = RIdle \/ at_run s = RPrepared \/ at_stop s <> SNot;
  ok_returned : at_run s = RReturned -> told s = true \/ inboxClosed s = true /\ inbox s = [];
  ok_cleaned : at_clean s = CReturned -> told s = true;
}.

Lemma new_ok d : ok (new d).
Proof. split; cbn; try done. - split; [by left|done]. - by left. Qed.

Lemma step_ok s l s' : ok s -> step s l (Ret s') -> ok s'.
Proof.
  intros [A B C E F] Hs. remember (Ret s') as r eqn:Er.
  service_cases Hs Er; split; cbn; unfold told in *; cbn in *; try done.
  all: try (intuition congruence).
  all: match goal with H : at_stop ?x = ?y |- _ => rewrite H in * end; rewrite ?orb_true_r; intuition congruence.
Qed.

Lemma steps_ok s ls s' : ok s -> steps s ls (Ret s') -> ok s'.
Proof.
  intros Ho Hs. remember (Ret s') as r eqn:Er. induction Hs as [s|s l s1 ls r H1 _ IH|]; [by injection Er as <-| |done].
  by apply IH; [eapply step_ok|].
Qed.

(** What a panic may come from: the handling of a message or somebody's send on
    the closed input channel. *)
Definition panic_cause (s : service) (l : label) : Prop :=
  (l = LHandle /\ exists m, at_run s = RBusy m /\ handles (outClosed s) m (data s) Panic) \/
  (inboxClosed s = true /\ exists m, l = LSend m).

Lemma step_panic s l : 0 < interval -> step s l Panic -> panic_cause s l.
Proof.
  intros Hi Hs. inversion Hs; subst; unfold panic_cause; [by eauto|by destruct (Z.leb_spec interval 0); [lia|]|by eauto].
Qed.

Lemma steps_panic_inv s ls : steps s ls Panic ->
  exists ls1 l s1, ls = ls1 ++ [l] /\ steps s ls1 (Ret s1) /\ step s1 l Panic.
Proof.
  intros Hs. remember Panic as r eqn:Er. induction Hs as [s|s l s1 ls r H1 _ IH|s l H1]; [done| |].
  - destruct (IH Er) as (ls1 & l' & s' & -> & H2 & H3). exists (l :: ls1), l', s'.
    split; [done|]. split; [by econstructor|done].
  - exists [], l, s. split; [done|]. split; [constructor|done].
Qed.

Lemma steps_app s ls1 s1 ls2 r : steps s ls1 (Ret s1) -> steps s1 ls2 r -> steps s (ls1 ++ ls2) r.
Proof.
  intros H H2. remember (Ret s1) as r1 eqn:E. revert s1 E H2. induction H; intros s2 E H2; [by injection E as ->| |done].
  cbn. econstructor; [done|]. by eapply IHsteps.
Qed.

(** * The end *)

Definition finished (s : service) : Prop := at_run s = RReturned /\ at_clean s = CReturned.

(** Steps of the two goroutines that do not wait for time to pass. *)
Definition own (l : label) : bool :=
  match l with LPrepare | LReady | LSpawn | LTake | LHandle | LEmpty | LLeave | LTicker | LCleanLeave => true | _ => false end.
Definition sends (l : label) : bool := match l with LSend _ => true | _ => false end.
Fixpoint count (f : label -> bool) (ls : list label) : nat :=
  match ls with [] => 0 | l :: ls => (if f l then 1 else 0) + count f ls end.

Definition to_go (s : service) : nat :=
  (match at_run s with RIdle => 4 | RPrepared => 3 | RReady => 2 | RBusy _ => 2 | RLoop => 1 | RReturned => 0 end +
   match at_clean s with CAbsent | CTicker => 2 | CLoop => 1 | CReturned => 0 end + 2 * length (inbox s))%nat.

Lemma step_to_go s l s' : ok s -> step s l (Ret s') ->
  (to_go s' + (if own l then 1 else 0) <= to_go s + (if sends l then 2 else 0))%nat.
Proof.
  intros [A _ _ _ _] Hs. remember (Ret s') as r eqn:Er. unfold to_go.
  service_cases Hs Er; cbn;
    repeat match goal with H : at_run _ = _ |- _ => rewrite H in * | H : at_clean _ = _ |- _ => rewrite H in *
      | H : inbox _ = _ |- _ => rewrite H in * end; cbn; rewrite ?length_app; cbn; try lia.
  destruct A as [_ A]. rewrite A by tauto. cbn. lia.
Qed.

Lemma steps_to_go s ls s' : ok s -> steps s ls (Ret s') -> (to_go s' + count own ls <= to_go s + 2 * count sends ls)%nat.
Proof.
  intros Ho Hs. remember (Ret s') as r eqn:Er. induction Hs as [s|s l s1 ls r H1 _ IH|]; [|..|done].
  - injection Er as ->. cbn. lia.
  - pose proof (step_to_go s l s1 Ho H1) as Hl. specialize (IH (step_ok s l s1 Ho H1) Er).
    cbn [count]. destruct (own l), (sends l); lia.
Qed.

Lemma step_told s l s' : step s l (Ret s') -> told s = true -> told s' = true.
Proof.
  intros Hs Ht. remember (Ret s') as r eqn:Er. unfold told in *.
  service_cases Hs Er; cbn; try done.
  - match goal with H : at_stop _ = _ |- _ => rewrite H in Ht end. cbn. by rewrite orb_false_r in *.
  - by rewrite orb_true_r.
Qed.

(** Whoever is told to end and has not ended can move; only the handling of a
    message may panic then. *)
Lemma told_moves s : 0 < interval -> (forall d, exists d', prepares d d') ->
  (forall b m d, handles b m d Panic \/ exists d', handles b m d (Ret d')) -> ok s -> told s = true ->
  finished s \/ exists l r, own l = true /\ step s l r /\
    (r = Panic -> exists m, at_run s = RBusy m /\ handles (outClosed s) m (data s) Panic) /\
    match r with Ret s1 => forall m, at_run s1 <> RBusy m | Panic => True | Hang => False end.
Proof.
  intros Hi Hp Hh [A _ _ _ _] Ht. unfold finished. destruct (at_run s) as [| | | |m|] eqn:Er.
  - right. destruct (Hp (data s)) as [d' Hd]. do 2 eexists. split; [|split; [by apply (step_prepare s d')|done]]. done.
  - right. do 2 eexists. split; [|split; [by apply step_ready|done]]. done.
  - right. do 2 eexists. split; [|split; [by apply step_spawn|done]]. done.
  - right. do 2 eexists. split; [|split; [by apply step_leave|done]]. done.
  - right. destruct (Hh (outClosed s) m (data s)) as [H|[d' H]].
    + exists LHandle, Panic. split; [done|]. split; [by eapply step_handle_panic|]. split; [by eauto|done].
    + do 2 eexists. split; [|split; [by eapply step_handle|done]]. done.
  - destruct (at_clean s) eqn:Ec.
    + destruct A as [A _]. destruct (A eq_refl) as [?|[?|?]]; congruence.
    + right. exists LTicker, (Ret (set_clean CLoop s)). split; [done|]. split; [|split; [done|cbn; congruence]]. pose proof (step_ticker s Ec) as Hs.
      by rewrite (proj2 (Z.leb_gt _ _) Hi) in Hs.
    + right. do 2 eexists. split; [|split; [by apply step_clean_leave|split; [done|cbn; congruence]]]. done.
    + by left.
Qed.

Lemma steps_told s ls s' : steps s ls (Ret s') -> told s = true -> told s' = true.
Proof.
  intros Hs. remember (Ret s') as r eqn:Er. induction Hs; intros Ht; [by injection Er as <-| |done].
  apply IHHs; [done|]. by eapply step_told.
Qed.

Lemma finished_data s l s2 : finished s -> step s l (Ret s2) -> l <> LOther -> data s2 = data s.
Proof.
  intros [Hr Hc] Hl Hn. remember (Ret s2) as r eqn:Er. service_cases Hl Er; cbn; congruence.
Qed.

(** C3: the engine and the controller stop.  Once the context is done or the body of
    Stop has run, the goroutines of Run never wait for anything but time: until
    both have returned or the process has panicked one of them can take a step,
    they take no more steps than twice the messages, sent before or later, and
    a few, and without another message they come to the end; when both have
    returned only others change the data.  A panic comes from the handling of a
    message - the engine's or the controller's send on an output channel closed
    meanwhile, an executor that panics - or from somebody's send on the closed
    input channel; outside a handling that panics both can return.  The premises
    hold of both: validation wants a positive interval of the engine's cleanup,
    the controller's is five minutes, and [engine_handles_total] and
    [controller_handles_total] say that a message is handled. *)
Theorem service_stops d ls s : 0 < interval -> (forall d, exists d', prepares d d') ->
  (forall b m d, handles b m d Panic \/ exists d', handles b m d (Ret d')) ->
  steps (new d) ls (Ret s) -> told s = true ->
  (exists ls' r, steps s ls' r /\ forallb own ls' = true /\
    ((exists s', r = Ret s' /\ finished s') \/
     r = Panic /\ exists m, at_run s = RBusy m /\ handles (outClosed s) m (data s) Panic)) /\
  (forall ls' s', steps s ls' (Ret s') ->
    (count own ls' <= 6 + 2 * length (inbox s) + 2 * count sends ls')%nat /\
    (finished s' \/ exists l r, own l = true /\ step s' l r) /\
    (finished s' -> forall l s2, step s' l (Ret s2) -> l <> LOther -> data s2 = data s')) /\
  (forall ls', steps s ls' Panic -> exists ls1 l s1, ls' = ls1 ++ [l] /\ steps s ls1 (Ret s1) /\ panic_cause s1 l).
Proof.
  intros Hi Hp Hh Hs Ht. pose proof (steps_ok _ _ _ (new_ok d) Hs) as Ho. split; [|split].
  - clear Hs. remember (to_go s) as n eqn:En. revert s En Ho Ht. induction n as [n IH] using lt_wf_ind. intros s -> Ho Ht.
    destruct (told_moves s Hi Hp Hh Ho Ht) as [Hf|(l & [s1| |] & Hl & H1 & Hc & Hb)]; [exists [], (Ret s)| | |done].
    { split; [constructor|]. split; [done|]. left. by exists s. }
    + pose proof (step_to_go s l s1 Ho H1) as Hlt. rewrite Hl in Hlt. assert (sends l = false) as Hns by by destruct l.
      rewrite Hns in Hlt. destruct (IH (to_go s1) ltac:(lia) s1 eq_refl (step_ok s l s1 Ho H1) (step_told s l s1 H1 Ht))
        as (ls' & r & H2 & Ha & Hr).
      exists (l :: ls'), r. split; [by econstructor|]. split; [cbn; by rewrite Hl|].
      destruct Hr as [Hr|(_ & m & Hm & _)]; [by left|by apply Hb in Hm].
    + exists [l], Panic. split; [by apply steps_panic|]. split; [cbn; by rewrite Hl|]. right. by split; [|apply Hc].
  - intros ls' s' H2. pose proof (steps_ok _ _ _ Ho H2) as Ho'. split; [|split].
    + pose proof (steps_to_go s ls' s' Ho H2). unfold to_go in *. destruct (at_run s), (at_clean s); lia.
    + destruct (told_moves s' Hi Hp Hh Ho' (steps_told _ _ _ H2 Ht)) as [?|(l & r & ? & ? & _)]; [by left|right; by exists l, r].
    + intros Hf l s2. by apply finished_data.
  - intros ls' H2. destruct (steps_panic_inv s ls' H2) as (ls1 & l & s1 & -> & H3 & H4). exists ls1, l, s1.
    split; [done|]. split; [done|]. by apply step_panic.
Qed.

(** [Ready] once the body of [Stop] has begun after [Run] was ready: false for good. *)
Lemma stop_lowers s ls s' :
  at_stop s <> SNot -> at_run s <> RIdle -> at_run s <> RPrepared -> Ready s = false ->
  steps s ls (Ret s') -> Ready s' = false.
Proof.
  intros H1 H2 H3 H4 Hs. remember (Ret s') as r eqn:Er.
  assert (at_stop s <> SNot /\ at_run s <> RIdle /\ at_run s <> RPrepared /\ ready s = false) as HI by done.
  clear H1 H2 H3 H4. induction Hs as [s|s l s1 ls r H _ IH|]; [|..|done]; [by injection Er as ->; apply HI|].
  apply IH; [done|]. remember (Ret s1) as r1 eqn:E1.
  service_cases H E1; cbn; intuition congruence.
Qed.

(** The end of the context, or a closed input channel, leaves [Ready] as it is. *)
Example service_ready_outlives_run d d1 : prepares d d1 ->
  exists s, steps (new d) [LPrepare; LReady; LSpawn; LCancel; LLeave] (Ret s) /\ at_run s = RReturned /\ Ready s = true.
Proof.
  intros Hd. eexists. split.
  - eapply steps_cons; [by apply (step_prepare _ d1)|]. eapply steps_cons; [by apply step_ready|].
    eapply steps_cons; [by apply step_spawn|]. eapply steps_cons; [by apply step_cancel|].
    eapply steps_cons; [by apply step_leave|]. apply steps_nil.
  - done.
Qed.
End service.
Arguments new {D Msg}.
Arguments data {D Msg}.
Arguments steps {D Msg}.

(** * The engine *)

Section engine.
Context {Data : Type} `{CEL : CELEnv Data}.
Context (formatID : Z -> string) (stateExpiration : Z).

Definition engine_prepares (e e' : engine Data) : Prop := exists loader, e' = LoadScenarios loader e.
(** Whether the evaluation of an input sends anything: seen on an empty channel
    with room for every scenario. *)
Definition engine_sends (order : list LoadedScenario) (input : DetectionInput Data) (wall : LoadedScenario -> Z)
    (e : engine Data) : bool :=
  match ch_buf (outputCh (processInput formatID order input wall (set_out (Chan [] (length order)) e))) with
  | [] => false
  | _ => true
  end.

Definition engine_handles (closed : bool) (input : DetectionInput Data) (e : engine Data) (r : outcome (engine Data)) : Prop :=
  exists order wall, order ≡ₚ enabled e /\
    r = if closed && engine_sends order input wall e then Panic else Ret (processInput formatID order input wall e).

Lemma engine_handles_total closed input e :
  engine_handles closed input e Panic \/ exists e', engine_handles closed input e (Ret e').
Proof.
  destruct (closed && engine_sends (enabled e) input (fun _ => 0) e) eqn:E; [left|right; eexists];
    exists (enabled e), (fun _ => 0); by rewrite E.
Qed.

(** While its output channel is open the engine's handling does not panic. *)
Lemma engine_handles_open input e : ~ engine_handles false input e Panic.
Proof. by intros (order & wall & _ & H). Qed.

Definition engine_sweeps (e e' : engine Data) : Prop := exists now, e' = cleanup_tick stateExpiration now e.

(** Reloads, and the reader of the results. *)
Definition engine_others (e e' : engine Data) : Prop :=
  (exists loader, e' = ReloadScenarios loader e) \/ (exists r ch, chan_recv (outputCh e) = Some (r, ch) /\ e' = set_out ch e).

Lemma trace_snoc_all (c1 c2 c3 : engine Data * option (DetectionInput Data * list LoadedScenario)) l1 l2 :
  trace formatID c1 l1 c2 -> trace formatID c2 l2 c3 -> trace formatID c1 (l1 ++ l2) c3.
Proof. induction 1; [done|]. intros. cbn [app]. econstructor; eauto. Qed.

Lemma processInput_trace order input wall e : order ≡ₚ enabled e ->
  exists ls, trace formatID (e, None) ls (processInput formatID order input wall e, None).
Proof.
  intros Ho. assert (exists ls, trace formatID (e, Some (input, order)) ls (processInput formatID order input wall e, None)) as [ls H].
  { clear Ho. revert e. unfold processInput. induction order as [|s order IH]; intros e.
    - exists [LEnd]. eapply trace_cons; [apply step_end|apply trace_nil].
    - destruct (IH (process_one formatID input wall e s)) as [ls H]. exists (LEval :: ls).
      eapply trace_cons; [by apply step_eval|done]. }
  exists (LBegin input :: ls). eapply trace_cons; [by apply step_begin|done].
Qed.

(** [Run], with the cleanup goroutine, for the configured interval. *)
Definition engine_step (stateCleanupInterval : Z) :=
  step engine_prepares engine_handles engine_sweeps engine_others stateCleanupInterval.

(** One move of the service, as steps of the engine. *)
Lemma engine_move_trace interval s l s' :
  engine_step interval s l (Ret s') ->
  exists ls, trace formatID (data s, None) ls (data s', None).
Proof.
  intros Hs. remember (Ret s') as r eqn:Er.
  service_cases Hs Er; cbn; try (exists []; apply trace_nil).
  - destruct H0 as [loader ->]. exists [LLoad]. eapply trace_cons; [apply step_load|apply trace_nil].
  - destruct H0 as (order & wall & Ho & E). destruct (_ && _); [done|]. injection E as ->. by apply processInput_trace.
  - destruct H0 as [now ->]. exists [LCleanup]. eapply trace_cons; [apply Detection.step_cleanup|apply trace_nil].
  - destruct H as [[loader ->]|(r & ch & Hr & ->)].
    + exists [LLoad]. eapply trace_cons; [apply step_load|apply trace_nil].
    + exists [LRecv r]. eapply trace_cons; [by apply step_recv|apply trace_nil].
Qed.
End engine.

(** * The controller *)

Section controller.
Context {W : Type}.
Context (Execute : Z -> W -> ResourceReference -> ActionConfig -> W * result ActionResult).
Context (Publish : W -> DetectionResult -> ResourceReference -> W * result ()).
Context (clk : nat -> Z) (formatID : Z -> string).
Context `{Sort : !SliceSort ActionConfig ac_Order}.
Context (cc : controllerConfig (W := W)).
(** The executor, which is a parameter here, may panic ([Action] says when). *)
Context (executor_panics : DetectionResult -> controller (W := W) -> bool).

Abbreviation run_controller := (rtrace Execute Publish clk formatID cc).

Definition controller_prepares (c c' : controller (W := W)) : Prop := c' = c.
Definition controller_handles (closed : bool) (res : DetectionResult) (c : controller (W := W))
    (r : outcome (controller (W := W))) : Prop :=
  r = if executor_panics res c || closed && bool_decide (is_Some (until_send formatID Execute clk cc res c)) then Panic
      else Ret (processResult Execute Publish clk formatID cc res c).2.

Lemma controller_handles_total closed res c :
  controller_handles closed res c Panic \/ exists c', controller_handles closed res c (Ret c').
Proof. unfold controller_handles. destruct (_ || _); [by left|right; by eexists]. Qed.

Definition controller_sweeps (c c' : controller (W := W)) : Prop :=
  exists order, order ≡ₚ map_to_list (rstates c) /\ c' = (Remediation.Cleanup clk order c).2.
Definition controller_others (c c' : controller (W := W)) : Prop :=
  exists r ch, chan_recv (rout c) = Some (r, ch) /\ c' = mkController (rstates c) ch (world c) (ticks c).

Lemma rtrace_snoc_all c1 c2 c3 l1 l2 : run_controller c1 l1 c2 -> run_controller c2 l2 c3 -> run_controller c1 (l1 ++ l2) c3.
Proof. induction 1; [done|]. intros. cbn [app]. econstructor; eauto. Qed.

(** [Run]; the ticker's interval is fixed. *)
Definition controller_step :=
  step controller_prepares controller_handles controller_sweeps controller_others (5 * Minute).

Lemma controller_move_trace s l s' :
  controller_step s l (Ret s') ->
  exists ls, run_controller (data s) ls (data s').
Proof.
  intros Hs. remember (Ret s') as r eqn:Er.
  service_cases Hs Er; cbn; try (exists []; apply rtrace_nil).
  - unfold controller_prepares in *. subst. exists []. apply rtrace_nil.
  - unfold controller_handles in *. destruct (_ || _); [done|]. injection H0 as ->.
    destruct (processResult _ _ _ _ _ m _) as [v c'] eqn:E.
    exists [RProcess m v]. eapply rtrace_cons; [by apply rstep_process|apply rtrace_nil].
  - destruct H0 as (order & Ho & ->). exists [RCleanup]. eapply rtrace_cons; [by apply rstep_cleanup|apply rtrace_nil].
  - destruct H as (r & ch & Hr & ->). exists [RRecv r]. eapply rtrace_cons; [by apply rstep_recv|apply rtrace_nil].
Qed.
End controller.

(** Engine and controller as services refine their transition systems: in
    every schedule of Run, the cleanup goroutine, Stop and everybody else the data
    moves along a run of [Detection.step], or [Remediation.rstep], so that all
    that is proved of these runs holds of the services; in particular the
    engine is reachable, whatever its life. *)
Theorem services_run_layers {Data : Type} `{CEL : CELEnv Data} {W : Type}
    Execute Publish clk formatID `{Sort : !SliceSort ActionConfig ac_Order} (cc : controllerConfig (W := W))
    executor_panics stateExpiration interval cap (c0 : controller (W := W)) ls ls' s s' :
  steps (engine_prepares (Data := Data)) (engine_handles formatID) (engine_sweeps stateExpiration) engine_others interval
    (new (newEngineImpl cap)) ls (Ret s) ->
  steps controller_prepares (controller_handles Execute Publish clk formatID cc executor_panics) (controller_sweeps clk) controller_others (5 * Minute)
    (new c0) ls' (Ret s') ->
  reachable formatID cap (data s, None) /\
  exists rls, rtrace Execute Publish clk formatID cc c0 rls (data s').
Proof.
  intros H1 H2. split.
  - unfold reachable. change (newEngineImpl cap) with (data (new (Msg := DetectionInput Data) (newEngineImpl (Data := Data) cap))).
    remember (Ret s) as r eqn:Er. induction H1 as [s1|s1 l s2 ls r Hm _ IH|]; [|..|done].
    + injection Er as ->. exists []. apply trace_nil.
    + destruct (IH Er) as [ls2 H]. destruct (engine_move_trace _ _ _ _ _ _ Hm) as [ls1 H']. eexists. by eapply trace_snoc_all.
  - change c0 with (data (new (Msg := DetectionResult) c0)) at 1.
    remember (Ret s') as r eqn:Er. induction H2 as [s1|s1 l s2 ls2 r Hm _ IH|]; [|..|done].
    + injection Er as ->. exists []. apply rtrace_nil.
    + destruct (IH Er) as [ls3 H]. destruct (controller_move_trace _ _ _ _ _ _ _ _ _ Hm) as [ls1 H'].
      eexists. by eapply rtrace_snoc_all.
Qed.

(** * Witnesses *)

#[local] Existing Instance DetectionProps.demo_env.
#[local] Existing Instance demo_sort.

Abbreviation demo_steps := (steps (engine_prepares (Data := bool)) (engine_handles DetectionProps.demo_id)
  (engine_sweeps Minute) engine_others Minute).
Definition demo_scenarios : list LoadedScenario := [demo_scenario "S1" None].
Definition demo_running : service (D := engine bool) :=
  mkService (LoadScenarios (Some (Ok demo_scenarios)) (newEngineImpl 4)) [demo_input 5 true] false false true RLoop CLoop SNot false.

Lemma demo_running_steps :
  demo_steps (new (newEngineImpl 4)) [LSend (demo_input 5 true); LPrepare; LReady; LSpawn; LTicker] (Ret demo_running).
Proof.
  eapply steps_cons; [by apply step_send|].
  eapply steps_cons; [apply step_prepare; [done|by exists (Some (Ok demo_scenarios))]|].
  eapply steps_cons; [by apply step_ready|]. eapply steps_cons; [by apply step_spawn|].
  eapply steps_cons; [|apply steps_nil]. by apply (step_ticker _ _ _ _ Minute).
Qed.

(** A message is in work when [Stop] is called. *)
Definition demo_before_stop : list (label (Msg := DetectionInput bool)) :=
  [LSend (demo_input 5 true); LPrepare; LReady; LSpawn; LTicker].
Definition demo_stopping : list (label (Msg := DetectionInput bool)) := demo_before_stop ++ [LTake; LStop; LCloseStop].
Definition demo_told : service (D := engine bool) :=
  Stop_close (Stop_lower (set_inbox [] (set_run (RBusy (demo_input 5 true)) demo_running))).

Lemma demo_told_steps : demo_steps (new (newEngineImpl 4)) demo_stopping (Ret demo_told).
Proof.
  apply (steps_app _ _ _ _ _ _ demo_before_stop demo_running); [apply demo_running_steps|].
  eapply steps_cons; [by apply step_take|]. eapply steps_cons; [by apply step_stop|].
  eapply steps_cons; [by apply step_close|apply steps_nil].
Qed.

(** The channel is closed before the message is handled, which then panics. *)
Definition demo_panic : list (label (Msg := DetectionInput bool)) := [LCloseOut; LHandle].

Lemma demo_panic_steps : demo_steps demo_told demo_panic Panic.
Proof.
  eapply steps_cons; [by apply step_close_out|]. apply steps_panic. eapply step_handle_panic; [done|].
  exists (enabled (data demo_told)), (fun _ => 0). split; [done|]. by vm_compute.
Qed.

Lemma service_stops_witness :
  (exists ls' r, demo_steps demo_told ls' r /\ forallb own ls' = true) /\
  (exists ls1 l s1, demo_panic = ls1 ++ [l] /\ demo_steps demo_told ls1 (Ret s1) /\
    panic_cause (engine_handles DetectionProps.demo_id) s1 l).
Proof.
  destruct (service_stops engine_prepares (engine_handles DetectionProps.demo_id) (engine_sweeps Minute) engine_others Minute
    (newEngineImpl 4) _ _ ltac:(by vm_compute) ltac:(intros d; eexists; by exists None)
    (engine_handles_total _) demo_told_steps ltac:(done))
    as ((ls' & r & Hs & Ha & _) & _ & HP).
  split; [by exists ls', r|]. exact (HP _ demo_panic_steps).
Defined.

Definition demo_acted : controller :=
  (processResult demo_Execute demo_Publish demo_clk DetectionProps.demo_id (demo_cc false 3) demo_result (newControllerImpl 8 0%nat)).2.

Lemma services_run_layers_witness :
  reachable DetectionProps.demo_id 4 (data demo_running, None) /\
  exists rls, rtrace demo_Execute demo_Publish demo_clk DetectionProps.demo_id (demo_cc false 3) (newControllerImpl 8 0%nat) rls demo_acted.
Proof.
  eapply (services_run_layers demo_Execute demo_Publish demo_clk _ (demo_cc false 3) (fun _ _ => false) Minute Minute 4
    (newControllerImpl 8 0%nat) _
    [LSend demo_result; LPrepare; LReady; LSpawn; LTake; LHandle] demo_running
    (mkService demo_acted [] false false true RLoop CTicker SNot false)).
  - exact demo_running_steps.
  - eapply steps_cons; [by apply step_send|]. eapply steps_cons; [by apply step_prepare|].
    eapply steps_cons; [by apply step_ready|]. eapply steps_cons; [by apply step_spawn|].
    eapply steps_cons; [by apply step_take|]. eapply steps_cons; [|apply steps_nil].
    by apply (step_handle _ _ _ _ _
      (mkService (newControllerImpl 8 0%nat) [] false false true (RBusy demo_result) CTicker SNot false) demo_result demo_acted).
Defined.
