(* ===== verification/Clients.v ===== *)
(** How the program gets at the cluster: the configuration of its clients, the
    constructors that use it (internal/pipeline, internal/crdloader,
    internal/monitor, cmd/operator), the policies the loader lists, the patch of
    the leader's label, and what a pipeline is made of that is built from all
    this. *)

From S2P Require Import Prelude Types Detection Policy Owner Remediation Config Monitor Health Pipeline PipelineProps.

(** * Configurations and clients *)

Section clients.
Context {Cfg Client : Type}.

(** What client-go and the files of the process answer: [rest.InClusterConfig],
    the configuration loaded from the kubeconfig rules, a constructor of
    clients. *)
Record access := mkAccess {
  InClusterConfig : result Cfg;
  ClientConfig : result Cfg;
  NewForConfig : Cfg -> result Client;
}.

(** The configuration of the pod, else that of the kubeconfig; [what] heads the
    error. *)
Definition rest_config (what : string) (a : access) : result Cfg :=
  match InClusterConfig a with
  | Ok cfg => Ok cfg
  | Err _ =>
    match ClientConfig a with
    | Ok cfg => Ok cfg
    | Err e => Err (what +:+ ": " +:+ e)
    end
  end.

Definition connect (what : string) (a : access) : result Client :=
  match rest_config what a with
  | Ok cfg => NewForConfig a cfg
  | Err e => Err e
  end.

(** internal/pipeline *)
Definition pipeline_buildActionClient := connect "unable to load K8s config for action client".

(** Whether the executor of a standalone pipeline gets a client: the flag of
    [Action.newExecutorImpl]. *)
Definition executor_client (cfg : Config) (a : access) : bool :=
  k8s_Enabled (c_Kubernetes cfg) && is_ok (pipeline_buildActionClient a).

Definition buildOwnerResolver {W} (NewK8sOwnerResolver : Client -> OwnerResolver W) (a : access) : result (OwnerResolver W) :=
  match rest_config "unable to load K8s config for owner resolver" a with
  | Err e => Err e
  | Ok cfg =>
    match NewForConfig a cfg with
    | Err e => Err ("failed to create K8s clientset for owner resolver: " +:+ e)
    | Ok cs => Ok (NewK8sOwnerResolver cs)
    end
  end.

(** internal/monitor *)
Definition buildClientset := connect "unable to load K8s config".

(** cmd/operator *)
Definition loadK8sRestConfig := rest_config "build kubeconfig".
Definition buildLeaderElectionClient (a : access) : result Client :=
  match loadK8sRestConfig a with Err e => Err e | Ok cfg => NewForConfig a cfg end.
Definition buildDynamicClient (a : access) : result Client :=
  match loadK8sRestConfig a with Err e => Err e | Ok cfg => NewForConfig a cfg end.
Definition main_buildActionClient (a : access) : result Client :=
  match loadK8sRestConfig a with Err e => Err e | Ok cfg => NewForConfig a cfg end.

(** internal/crdloader: the scheme gets the types of the API, the client reads and
    watches. *)
Record CRDLoader := mkCRDLoader { crd_client : Client }.

Definition NewWithClient (c : Client) : CRDLoader := mkCRDLoader c.

Definition NewWithConfig (AddToScheme : result ()) (a : access) (cfg : Cfg) : result CRDLoader :=
  match AddToScheme with
  | Err e => Err ("add CRD types to scheme: " +:+ e)
  | Ok _ =>
    match NewForConfig a cfg with
    | Err e => Err ("create controller-runtime client: " +:+ e)
    | Ok c => Ok (mkCRDLoader c)
    end
  end.

Definition crdloader_New (AddToScheme : result ()) (a : access) : result CRDLoader :=
  match rest_config "unable to load K8s config for CRD loader" a with
  | Err e => Err e
  | Ok cfg => NewWithConfig AddToScheme a cfg
  end.

Definition LoadRemediationPolicies `{LabelEnv} (List : Client -> result (list ClusterRemediationPolicy)) (l : CRDLoader)
  : result (list ClusterRemediationPolicy) :=
  match List (crd_client l) with
  | Err e => Err ("list ClusterRemediationPolicy CRDs: " +:+ e)
  | Ok items => Ok items
  end.

(** ** Which of them answer *)

Definition configured (a : access) : option Cfg :=
  match InClusterConfig a, ClientConfig a with Ok cfg, _ | _, Ok cfg => Some cfg | _, _ => None end.

Lemma rest_config_ok what a cfg : rest_config what a = Ok cfg <-> configured a = Some cfg.
Proof. unfold rest_config, configured. destruct (InClusterConfig a), (ClientConfig a); naive_solver. Qed.

Lemma rest_config_err what a : configured a = None -> exists e, rest_config what a = Err (what +:+ ": " +:+ e).
Proof. unfold rest_config, configured. destruct (InClusterConfig a), (ClientConfig a); naive_solver. Qed.

Definition reached (a : access) : option Client :=
  cfg ← configured a; match NewForConfig a cfg with Ok c => Some c | Err _ => None end.

Lemma connect_ok what a c : connect what a = Ok c <-> reached a = Some c.
Proof.
  unfold connect, reached. destruct (rest_config what a) as [cfg|e] eqn:E.
  - apply rest_config_ok in E. rewrite E. cbn. destruct (NewForConfig a cfg); naive_solver.
  - destruct (configured a) as [cfg|] eqn:Ec; [|done]. apply (rest_config_ok what) in Ec. congruence.
Qed.

Lemma executor_client_spec cfg a :
  executor_client cfg a = true <-> k8s_Enabled (c_Kubernetes cfg) = true /\ is_Some (reached a).
Proof.
  unfold executor_client, pipeline_buildActionClient. rewrite andb_true_iff.
  pose proof (connect_ok "unable to load K8s config for action client" a) as HC.
  destruct (connect _ a) as [c|e]; cbn; split; intros [? Hs]; split; try done.
  - exists c. by apply HC.
  - destruct Hs as [c Hs]. apply HC in Hs. done.
Qed.

Lemma crdloader_New_ok scheme a l :
  crdloader_New scheme a = Ok l <-> scheme = Ok () /\ reached a = Some (crd_client l).
Proof.
  unfold crdloader_New, reached. destruct (rest_config _ a) as [cfg|e] eqn:E.
  - apply rest_config_ok in E. rewrite E. cbn. unfold NewWithConfig. destruct scheme as [[]|]; [|naive_solver].
    destruct (NewForConfig a cfg), l; naive_solver.
  - destruct (configured a) as [cfg|] eqn:Ec; [|naive_solver]. apply (rest_config_ok "unable to load K8s config for CRD loader") in Ec. congruence.
Qed.

Lemma buildOwnerResolver_ok {W} (N : Client -> OwnerResolver W) a r :
  buildOwnerResolver N a = Ok r <-> exists cs, reached a = Some cs /\ r = N cs.
Proof.
  unfold buildOwnerResolver, reached. destruct (rest_config _ a) as [cfg|e] eqn:E.
  - apply rest_config_ok in E. rewrite E. cbn. destruct (NewForConfig a cfg); naive_solver.
  - destruct (configured a) as [cfg|] eqn:Ec; [|naive_solver]. apply (rest_config_ok "unable to load K8s config for owner resolver") in Ec. congruence.
Qed.
End clients.
Arguments access : clear implicits.

(** * The leader's label *)

Definition LeaderLabelKey : string := "ariadna-ops.com/leader".

(** The text of the merge patch: a value for the label, or [null]. *)
Definition label_patch (isLeader : bool) : string :=
  "{" +:+ Detection.quote "metadata" +:+ ":{" +:+ Detection.quote "labels" +:+ ":{" +:+ Detection.quote LeaderLabelKey +:+
  (if isLeader then ":" +:+ Detection.quote "true" +:+ "}}}" else ":null}}}").

Definition patchPodLeaderLabel {W : Type} (Patch : string -> string -> string -> W -> W * result ())
    (namespace podName : string) (isLeader : bool) (w : W) : W * result () :=
  if decide (podName = "") then (w, Err "pod name empty")
  else Patch namespace podName (label_patch isLeader) w.

(** The name of the replica: that of the pod, else that of the host. *)
Definition identity (POD_NAME : string) (Hostname : result string) : string :=
  if decide (POD_NAME = "") then match Hostname with Ok h => h | Err _ => "" end else POD_NAME.

(** * A pipeline from the cluster *)

(** [pipeline.Option]s are functions on the options, applied in turn. *)
Definition Option : Type := pipelineOpts -> pipelineOpts.
Definition WithRole (role : InstanceRole) : Option := fun o => mkOpts role (po_taskPublisher o) (po_taskWorker o).
Definition WithTaskPublisher : Option := fun o => mkOpts (po_role o) true (po_taskWorker o).
Definition WithTaskWorker : Option := fun o => mkOpts (po_role o) (po_taskPublisher o) true.
Definition apply_options (opts : list Option) : pipelineOpts := foldl (fun o f => f o) (mkOpts RoleStandalone false false) opts.

(** The options of the controller, likewise; without any it has neither publisher,
    policies nor resolver. *)
Section controller_options.
Context {W : Type}.

Definition ControllerOption : Type := controllerConfig (W := W) -> controllerConfig (W := W).
Definition WithOwnerResolver (r : OwnerResolver W) : ControllerOption :=
  fun c => mkControllerConfig (cc_config c) (cc_publishes c) (Some r) (cc_policyChecker c).
Definition controller_WithTaskPublisher : ControllerOption :=
  fun c => mkControllerConfig (cc_config c) true (cc_ownerResolver c) (cc_policyChecker c).
Definition WithPolicyChecker (pc : PolicyChecker) : ControllerOption :=
  fun c => mkControllerConfig (cc_config c) (cc_publishes c) (cc_ownerResolver c) (Some pc).
Definition NewController (cfg : Config) (opts : list ControllerOption) : controllerConfig (W := W) :=
  foldl (fun c f => f c) (mkControllerConfig (remediation_config (c_Remediation cfg)) false None None) opts.

(** [remediationOpts], as [New] collects them. *)
Definition remediation_options `{LabelEnv} (resolver : result (OwnerResolver W)) (cfg : Config) (publisher : bool) (m : managerImpl)
  : list ControllerOption :=
  (if publisher then [controller_WithTaskPublisher] else []) ++
  (if decide (0 < PolicyCount m)%nat then [WithPolicyChecker (manager_checker m)] else []) ++
  (if k8s_Enabled (c_Kubernetes cfg) then match resolver with Ok r => [WithOwnerResolver r] | Err _ => [] end else []).

(** [New] hands the controller these options. *)
Lemma New_controller `{LabelEnv} (su : surroundings (W := W)) cfg po p :
  New su cfg po = Ok p ->
  p_remediator p = NewController (p_config p)
    (remediation_options (su_ownerResolver su) (p_config p) (po_taskPublisher po) (p_policyMgr p)).
Proof.
  unfold New. destruct (BuildFromConfig cfg); [|done]. destruct (su_evaluator su); [|done]. intros [= <-].
  cbn [p_remediator p_config p_policyMgr]. unfold NewController, remediation_options.
  set (m := if _ && _ then _ else _). set (c := if IsDryRun m then _ else _).
  destruct (po_taskPublisher po), (decide (0 < PolicyCount m)%nat), (k8s_Enabled (c_Kubernetes c)), (su_ownerResolver su); done.
Qed.
End controller_options.

Section assembly.
Context {W : Type} `{LabelEnv} {Cfg Client Clientset : Type}.
Context (NewK8sOwnerResolver : Clientset -> OwnerResolver W) (List : Client -> result (list ClusterRemediationPolicy)).

(** The loader and the owner resolver load their configuration each for itself. *)
Definition su_of (scheme : result ()) (crd : access Cfg Client) (owner : access Cfg Clientset) (evaluator : result ())
  : surroundings (W := W) :=
  mkSurroundings
    match crdloader_New scheme crd with Ok _ => Ok () | Err e => Err e end
    match crdloader_New scheme crd with Ok l => LoadRemediationPolicies List l | Err e => Err e end
    evaluator (buildOwnerResolver NewK8sOwnerResolver owner).

(** C33: what a pipeline is wired with depends on the cluster like this, and
    whether it is built does not depend on it at all: only monitors and the
    expression evaluator can make New fail.  The loader is there exactly when
    Kubernetes is enabled, the types can be added and a client is created from
    the configuration of the pod or else of the kubeconfig.  Policies are in
    force exactly when, besides, listing them succeeded; if not, the controller
    is built without a policy checker and the configured dry-run flag stands.
    The owner resolver needs a client set of its own. *)
Theorem wiring_from_cluster scheme crd owner evaluator cfg opts :
  let su := su_of scheme crd owner evaluator in
  let enabled := k8s_Enabled (c_Kubernetes cfg) in
  let loader := scheme = Ok () /\ is_Some (reached crd) in
  (is_ok (New su cfg (apply_options opts)) = is_ok (BuildFromConfig cfg) && is_ok evaluator) /\
  forall p, New su cfg (apply_options opts) = Ok p ->
    (p_crdLoad p = true <-> enabled = true /\ loader) /\
    (forall c ps, enabled = true -> scheme = Ok () -> reached crd = Some c -> List c = Ok ps -> p_policyMgr p = Load ps NewManager) /\
    ((enabled = false \/ ~ loader \/ (forall c, reached crd = Some c -> is_ok (List c) = false)) ->
      p_policyMgr p = NewManager /\ cc_policyChecker (p_remediator p) = None /\ p_config p = cfg) /\
    (forall r, cc_ownerResolver (p_remediator p) = Some r <->
      enabled = true /\ exists cs, reached owner = Some cs /\ r = NewK8sOwnerResolver cs).
Proof.
  intros su enabled loader. unfold New, su, su_of. cbn [su_crdLoader su_policies su_evaluator su_ownerResolver].
  destruct (BuildFromConfig cfg) as [ms|e]; [|by split]. destruct evaluator as [[]|e]; [|by split]. split; [done|].
  intros p [= <-]. cbn.
  assert (is_ok (crdloader_New scheme crd) = true <-> loader) as Hl.
  { unfold loader. destruct (crdloader_New scheme crd) as [l|e] eqn:E; cbn.
    - apply crdloader_New_ok in E as [-> ->]. naive_solver.
    - split; [done|]. intros [-> [c Hc]]. by rewrite (proj2 (crdloader_New_ok (Ok ()) crd (NewWithClient c))) in E. }
  set (got := match crdloader_New scheme crd with Ok _ => Ok () | Err e => Err e end).
  assert (is_ok got = is_ok (crdloader_New scheme crd)) as Hgot by (unfold got; by destruct (crdloader_New scheme crd)).
  split; [by rewrite andb_true_iff, Hgot, Hl|]. split; [|split].
  - intros c ps He -> Hc HL. assert (crdloader_New (Ok ()) crd = Ok (NewWithClient c)) as EN by (by apply crdloader_New_ok).
    unfold got. rewrite EN. unfold enabled in He. rewrite He. cbn. unfold LoadRemediationPolicies. cbn. by rewrite HL.
  - intros Hno. assert ((if k8s_Enabled (c_Kubernetes cfg) && is_ok got
        then (LoadPolicies match crdloader_New scheme crd with Ok l => LoadRemediationPolicies List l | Err e => Err e end NewManager).1
        else NewManager) = NewManager) as ->; [|done].
    unfold enabled in Hno. destruct (k8s_Enabled _); [|done]. destruct (crdloader_New scheme crd) as [l|e] eqn:EN; [|by destruct (is_ok got)].
    destruct Hno as [?|[Hn|Hn]]; [done|by destruct Hn; apply Hl|].
    apply crdloader_New_ok in EN as [_ Hc]. specialize (Hn _ Hc). unfold LoadRemediationPolicies.
    destruct (List (crd_client l)); [done|]. by destruct (is_ok got).
  - intros r.
    assert (forall b : bool, k8s_Enabled (c_Kubernetes (if b then force_dry_run cfg else cfg)) = enabled) as -> by (by intros []).
    destruct (enabled : bool); [|by split; [|intros [? _]]].
    destruct (buildOwnerResolver NewK8sOwnerResolver owner) as [r'|e] eqn:E.
    + apply buildOwnerResolver_ok in E. naive_solver.
    + split; [done|]. intros [_ Hr]. apply buildOwnerResolver_ok in Hr. congruence.
Qed.
End assembly.

(** A replica outside the cluster: the kubeconfig is used, one policy is listed. *)
#[local] Existing Instance PipelineProps.demo_labels.

Definition demo_access : access nat nat := mkAccess (Err "no service account") (Ok 7%nat) (fun cfg => Ok (S cfg)).
Definition demo_resolver (_ : nat) : OwnerResolver nat.
Proof. by refine (Build_OwnerResolver nat (fun _ ref => Ok ref) _). Defined.
Definition demo_list (c : nat) : result (list ClusterRemediationPolicy) :=
  if decide (c = 8%nat) then Ok [PipelineProps.demo_policy true false] else Err "unreachable".

Lemma wiring_from_cluster_witness :
  match New (su_of demo_resolver demo_list (Ok ()) demo_access demo_access (Ok ())) Default (apply_options []) with
  | Ok p => p_crdLoad p = true /\ p_policyMgr p = Load [PipelineProps.demo_policy true false] NewManager
  | Err _ => False
  end.
Proof.
  destruct (New _ _ _) as [p|] eqn:E; [|discriminate E].
  destruct (wiring_from_cluster demo_resolver demo_list (Ok ()) demo_access demo_access (Ok ()) Default []) as [_ H].
  destruct (H p E) as (Hl & Hp & _ & _). split; [apply Hl; split; [done|]; split; [done|by exists 8%nat]|].
  by apply (Hp 8%nat).
Defined.

(** The leader's pipeline, and what the API server gets to read. *)
Example leader_options : apply_options [WithRole RoleLeader; WithTaskPublisher; WithTaskWorker] = mkOpts RoleLeader true true.
Proof. done. Qed.
Example label_patch_length : String.length (label_patch true) = 57%nat /\ String.length (label_patch false) = 55%nat.
Proof. by vm_compute. Qed.
